(* ===== verification/_CoqProject ===== *)
-Q . S2P
Prelude.v
Programs.v
Tokens.v
Versions.v
Support.v
Conditions.v
Values.v
Hardware.v
Quirks.v
Compat.v
Publication.v
RegistryState.v
Fixtures.v
Resolution.v
Publishers.v
Devices.v
Knowledge.v
Evidence.v
Ingest.v
Runs.v
Catalog.v
System.v
Wire.v
Checksum.v
Codec.v
Frames.v
Transport.v
Queries.v
Render.v
Snapshots.v
Durable.v
Image.v
QueryCodec.v
Messages.v
Coordinator.v
Client.v
AdapterCommon.v
Discovery.v
HostAdapters.v
GpuAdapters.v
Synthetic.v
Adapters.v
Cli.v
