(* ===== verification/Prelude.v ===== *)
(** * Hardware Capability Registry: verification library

    The registry keeps evidence about what hardware can do. Publisher
    processes register with it and send publications: device registrations,
    capability claims, quirks, compatibility facts, schemas. The registry
    screens every publication, retains a bounded history of evidence per
    (device, capability) key, and answers queries by resolving that evidence
    under the current generations of device, driver, firmware, runtime,
    platform and publisher boot. This library models that program as pure
    functions on explicit states and proves what makes it correct.

    ** The parts and the files that model them

    Data, bottom up. Each file defines the types with the fields of the
    source, their enumerations ([CppEnum]: the position is the enumerator's
    value), validation, equality, order, rendering and parsing.

    - Prelude: record update, machine integers, enumerations, ordered
      containers as finite maps read in key order, lists, tactics, hints.
    - Programs: programs of commands and answers, run by any handler.
    - Tokens: ids.cpp, canonical.cpp, status.cpp, limits.hpp.
    - Versions: software_version.cpp. Support: support.cpp, provenance.cpp.
    - Conditions: condition.cpp. Values: value.cpp.
    - Hardware: hardware.cpp, capability.cpp. Quirks: quirk.cpp.
      Compat: compatibility.cpp. Publication: publication.hpp.

    The registry (registry.cpp). [Registry] is the struct [Impl] with its
    maps, sets and counters; the mutex that every public method holds makes
    an operation one atomic step, so that a concurrent history is a sequence
    of steps.

    - RegistryState: the state and its constructor. Fixtures: the inputs
      of the witnesses.
    - Resolution: staleness, winner, contradiction, effective support,
      explanation: from the evidence of a key to an answer.
    - Publishers, Devices, Knowledge, Evidence: one handler each for
      publisher registration and fencing, device registration, quirks with
      facts and schemas, capability evidence with its eviction.
    - Ingest: [apply_locked], the entry point that screens a publication,
      keeps the sequence watermarks and dispatches to the handlers.
    - Runs: every public state-changing operation but
      [import_durable_state] as a label of one [step] function. Catalog:
      catalog.cpp. System: theorems about all runs.
    - Queries: what the public queries answer, comparison, subject
      summaries. Render: the deterministic text of answers. Snapshots: the
      snapshot and its document.
    - Durable: the export and the import of durable state, the import in its
      checked stages. Image: persistence.cpp, the image of an exported state
      with its prefix and checksum, and the save as steps of system calls.

    The wire. A writer is the bytes it emits; a reader is the unread input
    with its sticky failure; [carries w m a] says that [m] reads [a] back
    from what [w] wrote and leaves the rest of the input.

    - Wire: detail/binary.hpp. Codec: the record codecs of codec.cpp.
    - Checksum: the CRC of protocol.cpp. Frames: framing, the incremental
      decoder and the publication payload of protocol.cpp.
    - QueryCodec: the codec of answers, queries and responses. Messages: the
      message payloads of protocol.cpp.

    The processes.

    - Transport: transport.cpp as programs of system calls on both platforms,
      and framing over them. The coordinator and the clients use its connections as
      the scripts of file Frames.
    - Coordinator: coordinator.cpp. The sessions with their connections, the
      dispatch of frames, the loop over what poll reports, start, save and
      shutdown.
    - Client: client.cpp and publisher.cpp over the same connections, and
      their composition with the coordinator.

    The adapters. A platform or vendor interface is a record with one field
    per entry point the adapter uses, so that a host is one value of type
    [Host]; what an adapter does is a program of commands to its publication
    builder, run over any evidence sink.

    - Discovery: discovery.cpp. The evidence sink is a class whose instances
      are the local sink over a registry and the publisher agent; the builder
      and the run of one adapter.
    - AdapterCommon: adapter_common.hpp, adapter_common.cpp. HostAdapters:
      adapter_cpu.cpp, adapter_pci.cpp, adapter_network.cpp, adapter_cxl.cpp.
      GpuAdapters: adapter_nvml.cpp, adapter_cuda.cpp. Synthetic:
      adapter_synthetic.cpp.
    - Adapters: the adapters together, and what all their publications obey.

    The program.

    - Cli: cli_main.cpp. Options, the sources an answer comes from, every
      command, and [main] as a function of its arguments and of a [World].

    ** What the theorems show

    - Runs: in every state a run without an import reaches, the registry
      invariant holds and values have the kind of their schema; a fenced
      publisher or retired boot never regains authority; watermarks never
      move backwards; a repeated publication changes one counter. What an
      import keeps, and which of these facts it can break, is stated with the
      durable state.
    - Ingestion: only an authorised, fresh publication changes knowledge;
      quirk and fact ingestion refine one contract of versioned knowledge;
      evidence ingestion keeps its invariant; eviction preserves answers.
    - Answers: exactly when an answer is current, that its winner is maximal,
      what contradiction states mean, in which case each effective support
      is reported, that absence of
      evidence is never reported as lack of support.
    - Data: validators equal their recursive specifications, evaluation is
      monotone in the known facts, normalisation is canonical, versions and
      ranges behave as orders, parsers accept exactly the documented texts.
    - Durable state: export and import round-trip, whatever an import accepts is
      consistent, an import restores no liveness; the image round-trips and a
      damaged or resized one is refused; a save is atomic under any failure
      and takes a bounded number of calls.
    - Processes: what a coordinator does to its registry is a run of the
      registry; a connection that dies takes its authority with it; a
      restart restores knowledge and no authority; replies come in order;
      a remote query or publication that fits the wire format is the local one.
    - Transport: connections and listeners own their sockets, whatever the
      kernel answers; receiving a frame ends and is the decoder on what the
      kernel delivered; a frame crosses two sockets unchanged.
    - Adapters: a discovery is the registration of its publisher followed by
      the ingestion of one publication for each publishing command of the
      adapter, with the same content, answered with the registry's verdict;
      its sequence numbers increase; a process that ensures its publisher
      again keeps its boot; an adapter claims capabilities only of subjects
      that were granted to it, and what it claims of the hardware, lack of
      support included, is what an entry point reported.
    - Program: a read command whose query and reply fit the wire format prints
      the same over a connection to a coordinator as over the registry behind
      it; options are parsed back; a program that ends has
      a documented exit code.
    - Wire: codecs round-trip; frames survive chunking, as long as a chunk
      and a payload together are within the frame bound; corruption of up to
      four consecutive bytes is detected.

    Theorems without a claim number document defects, or behaviour that
    departs from what a comment in the source says.

    ** Bounds and fuel

    Fuel is always a size of the input (nodes of a tree, bytes of a text or
    buffer, entries of a queue, the depth bound of a codec) and each loop is
    proved to finish within it or defined so that running out is impossible
    by construction. Counters are 64-bit and wrap ([wrap64]); the theorems on
    runs bound the number of operations by 2^62, under which no counter
    wraps. Sizes of containers and texts are assumed to fit a machine word
    where the source stores them in one.

    ** Parameters

    [std::hash] (an argument [hash] of the publication fingerprint) and the
    clock ([now]) are arguments of the definitions that use them; nothing is
    assumed of them. Sockets and files are scripts of what they answer, a
    kernel is an instance of the class [Kernel], and the host of an adapter is
    a record of the functions it calls.

    ** Not modelled

    The bodies of the system and vendor calls (sockets, files, CPUID, registry
    keys, network and device enumeration, NVML and the CUDA runtime): the code
    is modelled as a function of what those calls answer. time.cpp reads the
    clock. Tests, benchmarks, examples and cuda_validation.cu use the library
    and are no part of it.
*)

From Stdlib Require Export NArith ZArith Ascii String.
From Stdlib Require Import Sorted Permutation.
From stdpp Require Export base list gmap sets strings pretty.

(** [destruct] and [clear] in the tactics below may find nothing left to clear. *)
#[export] Set Warnings "-clear-no-such-hyp".

#[global] Open Scope N_scope.

Declare Scope hcr_scope.
Delimit Scope hcr_scope with hcr.
#[global] Open Scope hcr_scope.

(* ===================================================================== *)
(** ** Record update

    The C++ code mutates single fields of structs held in maps.  [Setter]
    gives every modelled struct a functional update [r <| f := v |]; the
    instances are built by [solve_setter] from the eta-expansion of the
    record. *)

Class Eta (R : Type) := eta : R -> R.

Class Setter {R T : Type} (proj : R -> T) := set : (T -> T) -> R -> R.
Arguments set {R T} proj {_} _ _.

Ltac solve_setter :=
  lazymatch goal with
  | |- @Setter ?R ?T ?f =>
      let g := fresh "g" in
      let r := fresh "r" in
      let inst := constr:(_ : Eta R) in
      let inst := lazymatch inst with ?i => eval red in i end in
      exact (fun (g : T -> T) (r : R) =>
               ltac:(let e := eval cbv beta in (inst r) in
                     let h := eval pattern (f r) in e in
                     lazymatch h with
                     | ?k _ => let b := eval cbv beta in (k (g (f r))) in exact b
                     end))
  end.

#[global] Hint Extern 0 (Setter _) => solve_setter : typeclass_instances.

#[warnings="-postfix-notation-not-level-1"]
Notation "r <| f := v |>" := (set f (fun _ => v) r)
  (at level 40, f at level 0, v at level 200, left associativity,
   format "r  <| f  :=  v |>") : hcr_scope.
#[warnings="-postfix-notation-not-level-1"]
Notation "r <| f ::= g |>" := (set f g r)
  (at level 40, f at level 0, g at level 200, left associativity,
   format "r  <| f  ::=  g |>") : hcr_scope.

(* ===================================================================== *)
(** ** Machine integers and sizes

    [std::uint64_t] and [std::size_t] values are [N] below [2^64]; the
    increments of the code wrap around. *)

Definition u64_modulus : N := 2 ^ 64.

Definition wrap64 (n : N) : N := n mod u64_modulus.

Definition u64_succ (n : N) : N := wrap64 (n + 1).

Definition lengthN {A : Type} (l : list A) : N := N.of_nat (length l).

Definition strlen (s : string) : N := N.of_nat (String.length s).

Definition sizeN {K V : Type} `{Countable K} (m : gmap K V) : N := N.of_nat (size m).

Definition set_sizeN {K : Type} `{Countable K} (m : gset K) : N := N.of_nat (size m).

(** Boolean equality at any type with decidable equality. *)
Definition eqb {A : Type} `{EqDecision A} (x y : A) : bool := bool_decide (x = y).

Infix "==?" := eqb (at level 70) : hcr_scope.
Notation "x !=? y" := (negb (eqb x y)) (at level 70) : hcr_scope.

(** [std::find(...) != end()]. *)
Definition contains {A : Type} `{EqDecision A} (values : list A) (value : A) : bool :=
  existsb (fun x => x ==? value) values.

(* ===================================================================== *)
(** ** Orders as boolean comparators, and [std::sort] *)

(** What [std::map], [std::set] and [std::sort] ask of [operator<]. *)
Class StrictWeak {A : Type} (lt : A -> A -> bool) : Prop := {
  sw_irrefl : forall x, lt x x = false;
  sw_trans : forall x y z, lt x y = true -> lt y z = true -> lt x z = true;
  sw_incomp : forall x y z,
    lt x y = false -> lt y x = false -> lt y z = false -> lt z y = false ->
    lt x z = false /\ lt z x = false
}.

(** Keys of ordered containers: incomparable keys are equal. *)
Class StrictTotal {A : Type} (lt : A -> A -> bool) : Prop := {
  st_irrefl : forall x, lt x x = false;
  st_trans : forall x y z, lt x y = true -> lt y z = true -> lt x z = true;
  st_total : forall x y, lt x y = false -> lt y x = false -> x = y
}.

Section Sorting.
Context {A : Type}.
Variable lt : A -> A -> bool.

Fixpoint insert_sorted (x : A) (l : list A) : list A :=
  match l with
  | [] => [x]
  | y :: l' => if lt y x then y :: insert_sorted x l' else x :: l
  end.

(** [std::sort(l.begin(), l.end(), lt)].  The library leaves the relative
    order of equivalent elements open; the model keeps their order.  For a
    total order the result is the only sorted permutation
    ([sorted_permutation_unique]), so the choice is immaterial there. *)
Fixpoint std_sort (l : list A) : list A :=
  match l with
  | [] => []
  | x :: l' => insert_sorted x (std_sort l')
  end.

(** No element is preceded by a greater one. *)
Definition sorted_by : list A -> Prop := StronglySorted (fun x y => lt y x = false).

Definition strictly_sorted_by : list A -> Prop := StronglySorted (fun x y => lt x y = true).
End Sorting.

(** The validation loops that compare every element with the previous one. *)
Fixpoint ascending {A : Type} (lt : A -> A -> bool) (previous : option A) (l : list A) : bool :=
  match l with
  | [] => true
  | x :: l' => match previous with None => true | Some p => lt p x end && ascending lt (Some x) l'
  end.

(** [l.erase(std::unique(l.begin(), l.end()), l.end())]. *)
Fixpoint std_unique {A : Type} `{EqDecision A} (l : list A) : list A :=
  match l with
  | x :: ((y :: _) as l') => if x ==? y then std_unique l' else x :: std_unique l'
  | _ => l
  end.

(** Lexicographic order of [std::vector<T>] and of pairs. *)
Fixpoint list_ltb {A : Type} (lt : A -> A -> bool) (a b : list A) : bool :=
  match a, b with
  | _, [] => false
  | [], _ :: _ => true
  | x :: a', y :: b' => if lt x y then true else if lt y x then false else list_ltb lt a' b'
  end.

Definition pair_ltb {A B : Type} (lta : A -> A -> bool) (ltb : B -> B -> bool) (x y : A * B) : bool :=
  if lta x.1 y.1 then true else if lta y.1 x.1 then false else ltb x.2 y.2.

(** Comparators that fall back to a second criterion when the first ties. *)
Definition lex_ltb {A : Type} (lt1 lt2 : A -> A -> bool) (x y : A) : bool :=
  if lt1 x y then true else if lt1 y x then false else lt2 x y.

(** Comparing by a field, and in descending order. *)
Definition on_ltb {A B : Type} (f : A -> B) (lt : B -> B -> bool) (x y : A) : bool := lt (f x) (f y).
Definition desc_ltb {A : Type} (lt : A -> A -> bool) (x y : A) : bool := lt y x.

(** Byte-wise [std::string::operator<]. *)
Definition string_ltb (a b : string) : bool := String.ltb a b.

(** The order of the keys of an ordered container. *)
Class KeyOrder (K : Type) := key_ltb : K -> K -> bool.

#[global] Instance string_key_order : KeyOrder string := string_ltb.
#[global] Instance N_key_order : KeyOrder N := N.ltb.
#[global] Instance pair_key_order {A B : Type} `{KeyOrder A, KeyOrder B} : KeyOrder (A * B) :=
  pair_ltb key_ltb key_ltb.

(** Iteration over a [std::map] or a [std::set]: ascending keys. *)
Definition map_entries {K V : Type} `{Countable K, KeyOrder K} (m : gmap K V) : list (K * V) :=
  std_sort (fun x y => key_ltb x.1 y.1) (map_to_list m).

Definition set_entries {K : Type} `{Countable K, KeyOrder K} (m : gset K) : list K :=
  std_sort key_ltb (elements m).

(** A loop that appends to a result vector and breaks once the vector holds
    [limit] elements (the check follows the append). *)
Fixpoint collect_until {A B : Type} (limit : N) (f : A -> option B) (l : list A) (out : list B) : list B :=
  match l with
  | [] => out
  | x :: l' =>
      match f x with
      | None => collect_until limit f l' out
      | Some y =>
          let out' := out ++ [y] in
          if limit <=? lengthN out' then out' else collect_until limit f l' out'
      end
  end.

(* ===================================================================== *)
(** ** Enumerations

    An [enum class] lists its enumerators in declaration order;
    [static_cast] to and from an integer goes through their positions. *)

Class CppEnum (A : Type) `{EqDecision A} := {
  enum_values : list A;
  enum_values_complete : forall x, x ∈ enum_values;
  enum_values_nodup : NoDup enum_values
}.

Fixpoint index_of {A : Type} `{EqDecision A} (x : A) (l : list A) : N :=
  match l with
  | [] => 0
  | y :: l' => if x ==? y then 0 else 1 + index_of x l'
  end.

Definition enum_index {A : Type} `{CppEnum A} (x : A) : N := index_of x enum_values.

Definition enum_cast {A : Type} `{CppEnum A} (n : N) : option A := enum_values !! N.to_nat n.

(** [for (int i = 0; i <= static_cast<int>(last); ++i) static_cast<T>(i)]. *)
Definition enum_upto {A : Type} `{CppEnum A} (last : A) : list A :=
  omap (fun i => enum_cast (N.of_nat i)) (seq 0 (S (N.to_nat (enum_index last)))).

(* ===================================================================== *)
(** ** Tactics *)

Create HintDb hcr.
Create Rewrite HintDb hcr_rw.

(** Turn boolean tests into propositions, everywhere. *)
Ltac bsimpl :=
  repeat match goal with
  | H : _ && _ = true |- _ => apply andb_true_iff in H; destruct H
  | H : _ || _ = false |- _ => apply orb_false_iff in H; destruct H
  | H : negb _ = true |- _ => apply negb_true_iff in H
  | H : negb _ = false |- _ => apply negb_false_iff in H
  | H : eqb _ _ = true |- _ => unfold eqb in H; apply bool_decide_eq_true in H
  | H : eqb _ _ = false |- _ => unfold eqb in H; apply bool_decide_eq_false in H
  | H : bool_decide _ = true |- _ => apply bool_decide_eq_true in H
  | H : bool_decide _ = false |- _ => apply bool_decide_eq_false in H
  | H : (_ <? _)%N = true |- _ => apply N.ltb_lt in H
  | H : (_ <? _)%N = false |- _ => apply N.ltb_ge in H
  | H : (_ <=? _)%N = true |- _ => apply N.leb_le in H
  | H : (_ <=? _)%N = false |- _ => apply N.leb_gt in H
  | H : (_ =? _)%N = true |- _ => apply N.eqb_eq in H
  | H : (_ =? _)%N = false |- _ => apply N.eqb_neq in H
  end.

(** Case analysis on the tests of a hypothesis or of the goal. *)
Ltac split_ifs_in H :=
  repeat match type of H with
  | context [if ?b then _ else _] => destruct b eqn:?
  | context [match ?x with _ => _ end] => destruct x eqn:?
  end.

Ltac split_ifs :=
  repeat match goal with
  | |- context [if ?b then _ else _] => destruct b eqn:?
  | |- context [match ?x with _ => _ end] => destruct x eqn:?
  end.

(* ===================================================================== *)
(** ** Lemmas on machine integers *)

Lemma wrap64_small n : n < u64_modulus -> wrap64 n = n.
Proof. apply N.mod_small. Qed.

Lemma wrap64_lt n : wrap64 n < u64_modulus.
Proof. by apply N.mod_lt. Qed.

Lemma u64_succ_small n : n + 1 < u64_modulus -> u64_succ n = n + 1.
Proof. apply wrap64_small. Qed.

Lemma u64_succ_lt n : u64_succ n < u64_modulus.
Proof. apply wrap64_lt. Qed.

Lemma lengthN_app {A} (l1 l2 : list A) : lengthN (l1 ++ l2) = lengthN l1 + lengthN l2.
Proof. unfold lengthN. rewrite length_app. lia. Qed.

Lemma lengthN_cons {A} (x : A) l : lengthN (x :: l) = 1 + lengthN l.
Proof. unfold lengthN. cbn [length]. lia. Qed.

#[export] Hint Rewrite @lengthN_app @lengthN_cons : hcr_rw.

Lemma eqb_true {A} `{EqDecision A} (x y : A) : (x ==? y) = true <-> x = y.
Proof. apply bool_decide_eq_true. Qed.

Lemma eqb_false {A} `{EqDecision A} (x y : A) : (x ==? y) = false <-> x <> y.
Proof. apply bool_decide_eq_false. Qed.

Lemma eqb_eq {A} `{EqDecision A} (x y : A) : (x ==? y) = true -> x = y.
Proof. apply eqb_true. Qed.

Lemma eqb_ne {A} `{EqDecision A} (x y : A) : (x ==? y) = false -> x <> y.
Proof. apply eqb_false. Qed.

Lemma eqb_refl {A} `{EqDecision A} (x : A) : (x ==? x) = true.
Proof. by apply eqb_true. Qed.

#[export] Hint Rewrite @eqb_refl : hcr_rw.

Lemma eqb_sym {A} `{EqDecision A} (x y : A) : (x ==? y) = (y ==? x).
Proof. unfold eqb. apply bool_decide_ext. split; congruence. Qed.

Lemma bool_eqb_sym a b : Bool.eqb a b = Bool.eqb b a.
Proof. by destruct a, b. Qed.

Lemma contains_spec {A} `{EqDecision A} (l : list A) x : contains l x = true <-> x ∈ l.
Proof.
  unfold contains. rewrite existsb_exists. setoid_rewrite eqb_true.
  setoid_rewrite <- list_elem_of_In. split; [intros (?&?&->)|]; eauto.
Qed.

(* ===================================================================== *)
(** ** Lemmas on enumerations *)

Ltac solve_enum :=
  first [ let x := fresh in intros x; destruct x; apply (bool_decide_unpack _); vm_compute; exact I
        | apply (bool_decide_unpack _); vm_compute; exact I ].

Lemma index_of_lookup {A} `{EqDecision A} (x : A) l :
  x ∈ l -> l !! N.to_nat (index_of x l) = Some x /\ index_of x l < lengthN l.
Proof.
  induction l as [|y l IH]; [by intros ?%not_elem_of_nil|]. cbn [index_of]. rewrite lengthN_cons.
  destruct (x ==? y) eqn:E; bsimpl; [subst; intros _; split; [done|lia]|].
  intros [?|Hx]%elem_of_cons; [done|]. destruct (IH Hx) as [H1 H2].
  rewrite N.add_1_l, N2Nat.inj_succ. split; [done|lia].
Qed.

Lemma enum_cast_index {A} `{CppEnum A} (x : A) : enum_cast (enum_index x) = Some x.
Proof. apply index_of_lookup, enum_values_complete. Qed.

Lemma enum_index_lt {A} `{CppEnum A} (x : A) : enum_index x < lengthN (enum_values (A := A)).
Proof. apply index_of_lookup, enum_values_complete. Qed.

Lemma enum_index_inj {A} `{CppEnum A} (x y : A) : enum_index x = enum_index y -> x = y.
Proof. intros Hxy. apply (inj Some). by rewrite <- !enum_cast_index, Hxy. Qed.

(* ===================================================================== *)
(** ** Lemmas on orders *)

#[global] Instance strict_total_weak {A} (lt : A -> A -> bool) `{!StrictTotal lt} : StrictWeak lt.
Proof.
  split.
  - apply st_irrefl.
  - apply st_trans.
  - intros x y z H1 H2 H3 H4.
    rewrite (st_total x y H1 H2), (st_total y z H3 H4). by rewrite st_irrefl.
Qed.

Lemma st_asym {A} (lt : A -> A -> bool) `{!StrictTotal lt} x y : lt x y = true -> lt y x = false.
Proof.
  intros H. destruct (lt y x) eqn:E; [|done].
  rewrite <- (st_irrefl x). symmetry. by apply (st_trans x y x).
Qed.

Lemma sw_asym {A} (lt : A -> A -> bool) `{!StrictWeak lt} x y : lt x y = true -> lt y x = false.
Proof.
  intros H. destruct (lt y x) eqn:E; [|done].
  rewrite <- (sw_irrefl x). symmetry. by apply (sw_trans x y x).
Qed.

(** "Not greater" is transitive for a strict weak order. *)
Lemma sw_le_trans {A} (lt : A -> A -> bool) `{!StrictWeak lt} x y z :
  lt y x = false -> lt z y = false -> lt z x = false.
Proof.
  intros H1 H2. destruct (lt z x) eqn:E; [|done]. exfalso.
  destruct (lt x y) eqn:E1.
  - assert (lt z y = true) by (by eapply sw_trans). congruence.
  - destruct (lt y z) eqn:E2.
    + assert (lt y x = true) by (by eapply sw_trans). congruence.
    + destruct (sw_incomp x y z); congruence.
Qed.

#[global] Instance N_strict_total : StrictTotal N.ltb.
Proof.
  split.
  - apply N.ltb_irrefl.
  - intros x y z H1%N.ltb_lt H2%N.ltb_lt. apply N.ltb_lt. lia.
  - intros x y H1%N.ltb_ge H2%N.ltb_ge. lia.
Qed.

Lemma string_compare_lt_trans a b c :
  String.compare a b = Lt -> String.compare b c = Lt -> String.compare a c = Lt.
Proof.
  revert b c. induction a as [|x a IH]; intros [|y b] [|z c]; cbn; try done.
  unfold Ascii.compare.
  destruct (N.compare_spec (N_of_ascii x) (N_of_ascii y)) as [E1|E1|E1],
           (N.compare_spec (N_of_ascii y) (N_of_ascii z)) as [E2|E2|E2]; try done; intros;
  destruct (N.compare_spec (N_of_ascii x) (N_of_ascii z)) as [E3|E3|E3]; try done; try lia.
  eauto.
Qed.

Lemma string_compare_refl a : String.compare a a = Eq.
Proof. induction a as [|x a IH]; cbn; [done|]. unfold Ascii.compare. by rewrite N.compare_refl. Qed.

#[global] Instance string_strict_total : StrictTotal string_ltb.
Proof.
  unfold string_ltb, String.ltb. split.
  - intros x. by rewrite string_compare_refl.
  - intros x y z H1 H2.
    destruct (String.compare x y) eqn:E1, (String.compare y z) eqn:E2; try done.
    by rewrite (string_compare_lt_trans _ _ _ E1 E2).
  - intros x y H1 H2. rewrite String.compare_antisym in H2.
    destruct (String.compare x y) eqn:E; try done. by apply String.compare_eq_iff.
Qed.

Lemma pair_strict_total {A B} (lta : A -> A -> bool) (ltb : B -> B -> bool)
  `{!StrictTotal lta, !StrictTotal ltb} : StrictTotal (pair_ltb lta ltb).
Proof.
  split; unfold pair_ltb.
  - intros [a b]; cbn. by rewrite st_irrefl, st_irrefl.
  - intros [a1 b1] [a2 b2] [a3 b3]; cbn.
    destruct (lta a1 a2) eqn:E12, (lta a2 a1) eqn:E21,
             (lta a2 a3) eqn:E23, (lta a3 a2) eqn:E32; try done; intros ??;
    repeat match goal with
      | H1 : lta ?x ?y = false, H2 : lta ?y ?x = false |- _ =>
          pose proof (st_total x y H1 H2); subst; try clear H1 H2
      | H1 : lta ?x ?y = true, H2 : lta ?y ?z = true |- context [lta ?x ?z] =>
          rewrite (st_trans x y z H1 H2)
      | H : lta ?x ?x = true |- _ => rewrite st_irrefl in H; discriminate
      | H : lta ?x ?y = true |- context [lta ?x ?y] => rewrite H
      | H1 : lta ?x ?y = true, H2 : lta ?y ?x = true |- _ => rewrite (st_asym lta x y H1) in H2; discriminate
      end; try done.
    all: rewrite ?st_irrefl; eauto using st_trans.
  - intros [a1 b1] [a2 b2]; cbn.
    destruct (lta a1 a2) eqn:E12, (lta a2 a1) eqn:E21; try done.
    intros H1 H2. f_equal; [by eapply st_total|by eapply st_total].
Qed.

#[global] Hint Extern 1 (StrictTotal (pair_ltb _ _)) => apply pair_strict_total : typeclass_instances.

Lemma list_ltb_strict_total_aux {A} (lt : A -> A -> bool) `{!StrictTotal lt} :
  StrictTotal (list_ltb lt).
Proof.
  split.
  - intros l. induction l as [|x l IH]; cbn; [done|]. by rewrite st_irrefl.
  - intros l1. induction l1 as [|x l1 IH]; intros [|y l2] [|z l3]; cbn; try done.
    destruct (lt x y) eqn:E12, (lt y x) eqn:E21,
             (lt y z) eqn:E23, (lt z y) eqn:E32; try done; intros ??;
    repeat match goal with
      | H1 : lt ?x ?y = false, H2 : lt ?y ?x = false |- _ =>
          pose proof (st_total x y H1 H2); subst; try clear H1 H2
      | H1 : lt ?x ?y = true, H2 : lt ?y ?z = true |- context [lt ?x ?z] =>
          rewrite (st_trans x y z H1 H2)
      | H : lt ?x ?x = true |- _ => rewrite st_irrefl in H; discriminate
      | H : lt ?x ?y = true |- context [lt ?x ?y] => rewrite H
      end; try done.
    all: rewrite ?st_irrefl; eauto.
  - intros l1. induction l1 as [|x l1 IH]; intros [|y l2]; cbn; try done.
    destruct (lt x y) eqn:E12, (lt y x) eqn:E21; try done.
    intros H1 H2. f_equal; [by eapply st_total|by apply IH].
Qed.

Lemma list_strict_total {A} (lt : A -> A -> bool) `{!StrictTotal lt} : StrictTotal (list_ltb lt).
Proof. by apply list_ltb_strict_total_aux. Qed.

#[global] Hint Extern 1 (StrictTotal (list_ltb _)) => apply list_strict_total : typeclass_instances.

(** Key orders of the library are total. *)
Class KeyOrderOk (K : Type) `{KeyOrder K} : Prop := key_order_total : StrictTotal (key_ltb (K := K)).
#[global] Hint Mode KeyOrderOk ! - : typeclass_instances.

#[global] Instance key_order_ok_total K `{KeyOrderOk K} : StrictTotal (key_ltb (K := K)) := key_order_total.

#[global] Instance string_key_order_ok : KeyOrderOk string := string_strict_total.
#[global] Instance N_key_order_ok : KeyOrderOk N := N_strict_total.
#[global] Instance pair_key_order_ok A B `{KeyOrderOk A, KeyOrderOk B} : KeyOrderOk (A * B).
Proof. apply pair_strict_total; apply _. Qed.

#[global] Instance Z_strict_total : StrictTotal Z.ltb.
Proof.
  split.
  - apply Z.ltb_irrefl.
  - intros x y z H1%Z.ltb_lt H2%Z.ltb_lt. apply Z.ltb_lt. lia.
  - intros x y H1%Z.ltb_ge H2%Z.ltb_ge. lia.
Qed.

Lemma desc_strict_total {A} (lt : A -> A -> bool) `{!StrictTotal lt} : StrictTotal (desc_ltb lt).
Proof.
  split; unfold desc_ltb; intros.
  - apply st_irrefl.
  - by eapply st_trans.
  - by apply (st_total (lt := lt)).
Qed.

#[global] Hint Extern 1 (StrictTotal (desc_ltb _)) => apply desc_strict_total : typeclass_instances.

Lemma on_strict_weak {A B} (f : A -> B) (lt : B -> B -> bool) `{!StrictWeak lt} :
  StrictWeak (on_ltb f lt).
Proof.
  split; unfold on_ltb; intros.
  - apply sw_irrefl.
  - by eapply sw_trans.
  - by eapply (sw_incomp (lt := lt) (f x) (f y) (f z)).
Qed.

#[global] Hint Extern 1 (StrictWeak (on_ltb _ _)) => apply on_strict_weak : typeclass_instances.

Lemma desc_strict_weak {A} (lt : A -> A -> bool) `{!StrictWeak lt} : StrictWeak (desc_ltb lt).
Proof.
  split; unfold desc_ltb; intros.
  - apply sw_irrefl.
  - by eapply sw_trans.
  - by edestruct (sw_incomp (lt := lt) x y z).
Qed.

#[global] Hint Extern 1 (StrictWeak (desc_ltb _)) => apply desc_strict_weak : typeclass_instances.

Lemma lex_strict_weak {A} (lt1 lt2 : A -> A -> bool) `{!StrictWeak lt1, !StrictWeak lt2} :
  StrictWeak (lex_ltb lt1 lt2).
Proof.
  assert (Hl : forall x y z, lt1 x y = true -> lt1 y z = false -> lt1 z y = false -> lt1 x z = true).
  { intros x y z H1 H2 H3. destruct (lt1 x z) eqn:E; [done|].
    destruct (lt1 z x) eqn:E'.
    - assert (lt1 z y = true) by (by eapply sw_trans). congruence.
    - destruct (sw_incomp (lt := lt1) x z y); congruence. }
  assert (Hr : forall x y z, lt1 x y = false -> lt1 y x = false -> lt1 y z = true -> lt1 x z = true).
  { intros x y z H1 H2 H3. destruct (lt1 x z) eqn:E; [done|].
    destruct (lt1 z x) eqn:E'.
    - assert (lt1 y x = true) by (by eapply sw_trans). congruence.
    - destruct (sw_incomp (lt := lt1) y x z); congruence. }
  split; unfold lex_ltb.
  - intros x. by rewrite !sw_irrefl.
  - intros x y z H1 H2.
    destruct (lt1 x y) eqn:E1; [|destruct (lt1 y x) eqn:E1'; [done|]];
      (destruct (lt1 y z) eqn:E2; [|destruct (lt1 z y) eqn:E2'; [done|]]).
    + by rewrite (sw_trans (lt := lt1) x y z).
    + by rewrite (Hl x y z).
    + by rewrite (Hr x y z).
    + destruct (sw_incomp (lt := lt1) x y z) as [-> ->]; try done. by eapply sw_trans.
  - intros x y z H1 H2 H3 H4.
    destruct (lt1 x y) eqn:E1; [done|]. destruct (lt1 y x) eqn:E1'; [done|].
    destruct (lt1 y z) eqn:E2; [done|]. destruct (lt1 z y) eqn:E2'; [done|].
    destruct (sw_incomp (lt := lt1) x y z) as [-> ->]; try done. by eapply sw_incomp.
Qed.

#[global] Hint Extern 1 (StrictWeak (lex_ltb _ _)) => apply lex_strict_weak : typeclass_instances.

Lemma strict_weak_ext {A} (lt lt' : A -> A -> bool) :
  (forall x y, lt x y = lt' x y) -> StrictWeak lt' -> StrictWeak lt.
Proof. intros He [H1 H2 H3]. split; intros *; rewrite !He; [apply H1|apply H2|apply H3]. Qed.

(** [if (x.f != y.f) return x.f < y.f; rest]. *)
Lemma unless_equal_lex {A} (lt : A -> A -> bool) `{!StrictTotal lt} (e : bool) (x y : A) (k : bool) :
  (e = true <-> x = y) -> (if negb e then lt x y else k) = if lt x y then true else if lt y x then false else k.
Proof.
  intros He. destruct e; cbn [negb].
  - destruct (proj1 He eq_refl). by rewrite !st_irrefl.
  - destruct (lt x y) eqn:E1; [done|]. destruct (lt y x) eqn:E2; [done|].
    discriminate (proj2 He (st_total (lt := lt) x y E1 E2)).
Qed.

Lemma unless_equal_desc {A} (lt : A -> A -> bool) `{!StrictTotal lt} (e : bool) (x y : A) (k : bool) :
  (e = true <-> x = y) ->
  (if negb e then lt y x else k) = if desc_ltb lt x y then true else if desc_ltb lt y x then false else k.
Proof. apply (unless_equal_lex (desc_ltb lt)). Qed.

Lemma key_ltb_pair {A B} `{KeyOrder A, KeyOrder B} (a c : A) (b d : B) :
  key_ltb (a, b) (c, d) = if key_ltb a c then true else if key_ltb c a then false else key_ltb b d.
Proof. done. Qed.

(* ===================================================================== *)
(** ** Lemmas on sorting *)

Section SortLemmas.
Context {A : Type} (lt : A -> A -> bool).

Lemma insert_sorted_perm x l : insert_sorted lt x l ≡ₚ x :: l.
Proof.
  induction l as [|y l IH]; cbn; [done|].
  destruct (lt y x); [|done]. rewrite IH. by constructor.
Qed.

Lemma std_sort_perm l : std_sort lt l ≡ₚ l.
Proof. induction l as [|x l IH]; cbn; [done|]. by rewrite insert_sorted_perm, IH. Qed.

Lemma elem_of_std_sort x l : x ∈ std_sort lt l <-> x ∈ l.
Proof. by rewrite std_sort_perm. Qed.

Lemma length_std_sort l : length (std_sort lt l) = length l.
Proof. by rewrite std_sort_perm. Qed.

Context `{!StrictWeak lt}.

Lemma insert_sorted_sorted x l : sorted_by lt l -> sorted_by lt (insert_sorted lt x l).
Proof.
  induction l as [|y l IH]; cbn; intros Hs; [repeat constructor|].
  inversion Hs as [|?? Hs' Hall]; subst.
  destruct (lt y x) eqn:E.
  - constructor; [by apply IH|]. rewrite insert_sorted_perm. constructor; [|done].
    by apply sw_asym.
  - constructor; [done|]. constructor; [done|].
    eapply Forall_impl; [exact Hall|]. intros z Hz. by eapply sw_le_trans.
Qed.

Lemma std_sort_sorted l : sorted_by lt (std_sort lt l).
Proof. induction l as [|x l IH]; cbn; [constructor|]. by apply insert_sorted_sorted. Qed.

Lemma insert_sorted_id x l : Forall (fun y => lt y x = false) l -> insert_sorted lt x l = x :: l.
Proof. intros [|y l' H ?]; cbn; [done|]. by rewrite H. Qed.

(** Sorting a sorted list changes nothing. *)
Lemma std_sort_id l : sorted_by lt l -> std_sort lt l = l.
Proof.
  induction 1 as [|x l Hs IH Hall]; cbn; [done|]. rewrite IH. by apply insert_sorted_id.
Qed.

End SortLemmas.

Lemma strictly_sorted_sorted {A} (lt : A -> A -> bool) `{!StrictWeak lt} l :
  strictly_sorted_by lt l -> sorted_by lt l.
Proof.
  induction 1 as [|x l Hs IH Hall]; constructor; [done|].
  eapply Forall_impl; [exact Hall|]. intros y. apply sw_asym; apply _.
Qed.

(** For a total order a multiset has one sorted arrangement: whatever
    algorithm [std::sort] uses, it returns this list. *)
Lemma sorted_permutation_unique {A} (lt : A -> A -> bool) `{!StrictTotal lt} (l1 l2 : list A) :
  l1 ≡ₚ l2 -> sorted_by lt l1 -> sorted_by lt l2 -> l1 = l2.
Proof.
  intros Hp H1. revert l2 Hp. induction H1 as [|x l1 Hs1 IH Ha1]; intros l2 Hp H2.
  - by apply Permutation_nil_l in Hp.
  - destruct H2 as [|y l2 Hs2 Ha2]; [by apply Permutation_nil_r in Hp|].
    assert (x = y) as ->.
    { assert (Hx : x ∈ y :: l2) by (rewrite <- Hp; left).
      assert (Hy : y ∈ x :: l1) by (rewrite Hp; left).
      apply elem_of_cons in Hx as [->|Hx]; [done|].
      apply elem_of_cons in Hy as [->|Hy]; [done|].
      rewrite Forall_forall in Ha1, Ha2.
      apply (st_total (lt := lt)); [by apply Ha2|by apply Ha1]. }
    f_equal. apply IH; [by apply Permutation_cons_inv in Hp|done].
Qed.

Lemma strictly_sorted_NoDup {A} (lt : A -> A -> bool) `{!StrictWeak lt} l :
  strictly_sorted_by lt l -> NoDup l.
Proof.
  induction 1 as [|x l Hs IH Hall]; constructor; [|done].
  intros Hx. rewrite Forall_forall in Hall. specialize (Hall x Hx). by rewrite sw_irrefl in Hall.
Qed.

Lemma sorted_NoDup_strictly {A} (lt : A -> A -> bool) `{!StrictTotal lt} l :
  sorted_by lt l -> NoDup l -> strictly_sorted_by lt l.
Proof.
  induction 1 as [|x l Hs IH Hall]; intros Hnd; constructor; inversion Hnd; subst; [by apply IH|].
  apply Forall_forall. intros y Hy. rewrite Forall_forall in Hall.
  destruct (lt x y) eqn:E; [done|].
  assert (x = y) as -> by (apply st_total; [done|by apply Hall]). done.
Qed.

Lemma ascending_spec {A} (lt : A -> A -> bool) `{!StrictTotal lt} previous (l : list A) :
  ascending lt previous l = true <->
  strictly_sorted_by lt (match previous with None => l | Some p => p :: l end).
Proof.
  assert (H : forall p l, ascending lt (Some p) l = true <-> strictly_sorted_by lt (p :: l)).
  { intros p k. revert p. induction k as [|x k IH]; intros p; cbn.
    - split; [|done]. intros _. repeat constructor.
    - rewrite andb_true_iff, IH. split.
      + intros [Hp Hl]. constructor; [done|]. constructor; [done|].
        inversion Hl as [|?? _ Hall]; subst. eapply Forall_impl; [exact Hall|].
        cbn. intros y. by apply (st_trans (lt := lt)).
      + intros Hl. inversion Hl as [|?? Hl' Hall]; subst. by inversion Hall. }
  destruct previous as [p|]; [apply H|]. destruct l as [|x l]; cbn.
  - split; [constructor|done].
  - apply H.
Qed.

Section UniqueLemmas.
Context {A : Type} `{EqDecision A} (lt : A -> A -> bool) `{!StrictTotal lt}.

Lemma elem_of_std_unique x (l : list A) : x ∈ std_unique l <-> x ∈ l.
Proof.
  induction l as [|y [|z l] IH]; [done|done|].
  change (std_unique (y :: z :: l)) with
    (if y ==? z then std_unique (z :: l) else y :: std_unique (z :: l)).
  destruct (y ==? z) eqn:E; bsimpl; subst; rewrite !elem_of_cons, IH, !elem_of_cons; naive_solver.
Qed.

Lemma std_unique_strict l : sorted_by lt l -> strictly_sorted_by lt (std_unique l).
Proof.
  induction l as [|y [|z l] IH]; intros Hs; [constructor|repeat constructor|].
  change (std_unique (y :: z :: l)) with
    (if y ==? z then std_unique (z :: l) else y :: std_unique (z :: l)).
  inversion Hs as [|?? Hs' Hall]; subst.
  destruct (y ==? z) eqn:E; bsimpl; [by apply IH|].
  constructor; [by apply IH|].
  apply Forall_forall. intros w Hw. rewrite elem_of_std_unique in Hw.
  rewrite Forall_forall in Hall.
  destruct (lt y w) eqn:E2; [done|]. exfalso.
  assert (y = w) as <- by (apply (st_total (lt := lt)); [done|by apply Hall]).
  apply elem_of_cons in Hw as [->|Hw]; [done|].
  inversion Hs' as [|?? _ Hall2]; subst. rewrite Forall_forall in Hall2.
  apply E. apply (st_total (lt := lt)); [by apply Hall2|]. apply Hall. left.
Qed.

Lemma std_unique_id l : strictly_sorted_by lt l -> std_unique l = l.
Proof.
  induction 1 as [|x [|y l] Hs IH Hall]; [done|done|].
  change (std_unique (x :: y :: l)) with
    (if x ==? y then std_unique (y :: l) else x :: std_unique (y :: l)).
  destruct (x ==? y) eqn:E; bsimpl; [|by rewrite IH].
  subst. inversion Hall as [|?? H1]; subst. by rewrite st_irrefl in H1.
Qed.

(** [sort] followed by [unique]: the canonical form of a set-like vector. *)
Lemma sort_unique_strict l : strictly_sorted_by lt (std_unique (std_sort lt l)).
Proof. apply std_unique_strict, std_sort_sorted, _. Qed.

Lemma elem_of_sort_unique x l : x ∈ std_unique (std_sort lt l) <-> x ∈ l.
Proof. by rewrite elem_of_std_unique, elem_of_std_sort. Qed.

Lemma sort_unique_id l : strictly_sorted_by lt l -> std_unique (std_sort lt l) = l.
Proof.
  intros Hs. rewrite std_sort_id by (by apply strictly_sorted_sorted; first apply _).
  by apply std_unique_id.
Qed.

(** Two vectors with the same members have the same canonical form. *)
Lemma sort_unique_ext l1 l2 :
  (forall x, x ∈ l1 <-> x ∈ l2) -> std_unique (std_sort lt l1) = std_unique (std_sort lt l2).
Proof.
  intros Hext. apply (sorted_permutation_unique lt).
  - apply NoDup_Permutation.
    + apply (strictly_sorted_NoDup lt), sort_unique_strict.
    + apply (strictly_sorted_NoDup lt), sort_unique_strict.
    + intros x. by rewrite !elem_of_sort_unique.
  - apply strictly_sorted_sorted, sort_unique_strict; apply _.
  - apply strictly_sorted_sorted, sort_unique_strict; apply _.
Qed.

End UniqueLemmas.

(** The loops that keep the best element seen so far. *)
Lemma foldl_best {A} (better : A -> A -> bool) `{!StrictWeak better} (first : A) (rest : list A) :
  let w := foldl (fun w c => if better c w then c else w) first rest in
  w ∈ first :: rest /\ forall c, c ∈ first :: rest -> better c w = false.
Proof.
  cbn zeta. revert first. induction rest as [|c rest IH]; intros first; cbn [foldl].
  - split; [left|]. intros c ->%list_elem_of_singleton. apply sw_irrefl.
  - destruct (IH (if better c first then c else first)) as [H1 H2].
    set (w := foldl _ _ rest) in *. pose proof (H2 _ ltac:(left)) as Hw. split.
    + apply elem_of_cons in H1 as [->|H1]; [destruct (better c first)|]; set_solver.
    + intros d [->|[->|Hd]%elem_of_cons]%elem_of_cons; [| |apply H2; by right].
      * destruct (better c first) eqn:E; [|done]. destruct (better first w) eqn:E2; [|done].
        assert (better c w = true) by (by eapply sw_trans). congruence.
      * destruct (better c first) eqn:E; [done|]. by eapply sw_le_trans.
Qed.

(** Insertion sort keeps a relation that insertion keeps. *)
Lemma std_sort_invariant {A} (lt : A -> A -> bool) (R : A -> A -> Prop) (l : list A) :
  (forall x y, lt y x = true -> R y x) ->
  (forall x y, lt y x = false -> R x y) ->
  (forall x y z, lt y x = false -> R y z -> R x z) ->
  Sorted.StronglySorted R (std_sort lt l).
Proof.
  intros H1 H2 H3. induction l as [|x l IH]; cbn; [constructor|].
  induction IH as [|y k Hk IHk Hall]; cbn; [repeat constructor|].
  destruct (lt y x) eqn:E.
  - constructor; [done|]. rewrite insert_sorted_perm. constructor; auto.
  - constructor; [by constructor|]. constructor; [auto|].
    eapply Forall_impl; [exact Hall|]. intros z. by apply H3.
Qed.

(* ===================================================================== *)
(** ** Lemmas on ordered iteration *)

Lemma elem_of_map_entries {K V} `{Countable K, KeyOrder K} (m : gmap K V) k v :
  (k, v) ∈ map_entries m <-> m !! k = Some v.
Proof. unfold map_entries. by rewrite elem_of_std_sort, elem_of_map_to_list. Qed.

Lemma map_entries_perm {K V} `{Countable K, KeyOrder K} (m : gmap K V) :
  map_entries m ≡ₚ map_to_list m.
Proof. apply std_sort_perm. Qed.

Lemma NoDup_map_entries {K V} `{Countable K, KeyOrder K} (m : gmap K V) :
  NoDup ((map_entries m).*1).
Proof. rewrite map_entries_perm. apply NoDup_fst_map_to_list. Qed.

Lemma length_map_entries {K V} `{Countable K, KeyOrder K} (m : gmap K V) :
  lengthN (map_entries m) = sizeN m.
Proof. unfold lengthN, sizeN. by rewrite map_entries_perm, length_map_to_list. Qed.

Lemma elem_of_set_entries {K} `{Countable K, KeyOrder K} (s : gset K) k :
  k ∈ set_entries s <-> k ∈ s.
Proof. unfold set_entries. by rewrite elem_of_std_sort, elem_of_elements. Qed.

Lemma NoDup_set_entries {K} `{Countable K, KeyOrder K} (s : gset K) : NoDup (set_entries s).
Proof. unfold set_entries. rewrite std_sort_perm. apply NoDup_elements. Qed.

(** A listing that walks an ordered container is in ascending key order. *)
Lemma map_entries_sorted {K V} `{Countable K, KeyOrder K, !KeyOrderOk K} (m : gmap K V) :
  strictly_sorted_by key_ltb ((map_entries m).*1).
Proof.
  apply sorted_NoDup_strictly; [apply _| |apply NoDup_map_entries].
  assert (sw : StrictWeak (fun x y : K * V => key_ltb x.1 y.1)).
  { pose proof (key_order_ok_total K). split.
    - intros x. apply st_irrefl.
    - intros x y z. apply st_trans.
    - intros x y z ????. by eapply (sw_incomp (lt := key_ltb) x.1 y.1 z.1). }
  pose proof (std_sort_sorted (fun x y : K * V => key_ltb x.1 y.1) (map_to_list m)) as Hs.
  fold (map_entries m) in Hs. induction Hs as [|x l Hs IH Hall]; cbn; constructor; [done|].
  rewrite Forall_fmap. done.
Qed.

Lemma set_entries_sorted {K} `{Countable K, KeyOrder K, !KeyOrderOk K} (s : gset K) :
  strictly_sorted_by key_ltb (set_entries s).
Proof.
  apply sorted_NoDup_strictly; [apply _| |apply NoDup_set_entries].
  apply std_sort_sorted, _.
Qed.

(** A bounded collection loop computes a prefix of the unbounded one. *)
Lemma collect_until_spec {A B} (limit : N) (f : A -> option B) l out :
  lengthN out < limit \/ out = [] ->
  collect_until limit f l out =
  out ++ take (N.to_nat (N.max 1 limit) - length out) (omap f l).
Proof.
  revert out. induction l as [|x l IH]; intros out Hout; cbn -[N.max].
  { by rewrite take_nil, app_nil_r. }
  destruct (f x) as [y|] eqn:E; [|by apply IH].
  destruct (limit <=? lengthN (out ++ [y])) eqn:El; bsimpl.
  - f_equal. replace (N.to_nat (N.max 1 limit) - length out)%nat with 1%nat; [done|].
    autorewrite with hcr_rw in El. unfold lengthN in *. destruct Hout as [?| ->]; cbn in *; lia.
  - rewrite IH by (left; done). rewrite <- app_assoc. f_equal.
    autorewrite with hcr_rw in El. unfold lengthN in *. rewrite length_app. cbn [length] in *.
    replace (N.to_nat (N.max 1 limit) - length out)%nat
      with (S (N.to_nat (N.max 1 limit) - (length out + 1)))%nat by lia.
    done.
Qed.

Lemma collect_until_nil {A B} (limit : N) (f : A -> option B) l :
  collect_until limit f l [] = take (N.to_nat (N.max 1 limit)) (omap f l).
Proof. rewrite collect_until_spec by auto. cbn -[N.max]. by rewrite Nat.sub_0_r. Qed.

Lemma collect_until_length {A B} (limit : N) (f : A -> option B) l :
  lengthN (collect_until limit f l []) <= N.max 1 limit.
Proof. rewrite collect_until_nil. unfold lengthN. rewrite length_take. lia. Qed.

Lemma elem_of_collect_until {A B} (limit : N) (f : A -> option B) l y :
  y ∈ collect_until limit f l [] -> exists x, x ∈ l /\ f x = Some y.
Proof.
  rewrite collect_until_nil. intros Hy.
  apply elem_of_take in Hy as (i & Hi & _).
  apply list_elem_of_lookup_2 in Hi. apply list_elem_of_omap in Hi. naive_solver.
Qed.
