(* ===== verification/Programs.v ===== *)
(** * Programs

    Programs of commands and answers. A program is written once and run by
    whatever handles its commands: an adapter commands the publication
    builder, the builder an evidence sink, the transport the sockets of the
    system. *)

From S2P Require Import Prelude.

(* ===================================================================== *)
(** ** Programs of commands and answers *)

Section Programs.
Context {Command : Type} {Answer : Command -> Type}.

Inductive Program (A : Type) : Type :=
  | Return (a : A)
  | Ask (c : Command) (k : Answer c -> Program A).

#[global] Arguments Return {A}.
#[global] Arguments Ask {A}.

#[global] Instance Program_ret : MRet Program := fun A a => Return a.

#[global] Instance Program_bind : MBind Program := fun A B f =>
  fix bind (m : Program A) : Program B :=
    match m with
    | Return a => f a
    | Ask c k => Ask c (fun answer => bind (k answer))
    end.

Definition ask (c : Command) : Program (Answer c) := Ask c Return.

(** A program run by a handler of its commands. *)
Fixpoint perform {S A} (handle : forall c, S -> Answer c * S) (m : Program A) (s : S) : A * S :=
  match m with
  | Return a => (a, s)
  | Ask c k => let '(answer, s') := handle c s in perform handle (k answer) s'
  end.

(** The commands and answers of that run. *)
Fixpoint trace {S A} (handle : forall c, S -> Answer c * S) (m : Program A) (s : S) : list {c & Answer c} :=
  match m with
  | Return _ => []
  | Ask c k => let '(answer, s') := handle c s in existT c answer :: trace handle (k answer) s'
  end.

End Programs.
#[global] Arguments Program {Command} Answer A.

(** Commands answered by programs over other commands. *)
Fixpoint translate {C1 C2 : Type} {A1 : C1 -> Type} {A2 : C2 -> Type} {S A}
    (handle : forall c, S -> Program A2 (A1 c * S)) (m : Program A1 A) (s : S) : Program A2 (A * S) :=
  match m with
  | Return a => Return (a, s)
  | Ask c k => handle c s ≫= fun answered => translate handle (k answered.1) answered.2
  end.

(* ===================================================================== *)
(** ** Running programs *)

Section Running.
Context {Command : Type} {Answer : Command -> Type} {S : Type} (handle : forall c, S -> Answer c * S).

Lemma perform_bind {A B} (m : Program Answer A) (f : A -> Program Answer B) s :
  perform handle (m ≫= f) s = perform handle (f (perform handle m s).1) (perform handle m s).2.
Proof.
  revert s. induction m as [a|c k IH]; intros s; [done|]. cbn. destruct (handle c s) as [answer s']. apply IH.
Qed.

Lemma trace_bind {A B} (m : Program Answer A) (f : A -> Program Answer B) s :
  trace handle (m ≫= f) s = trace handle m s ++ trace handle (f (perform handle m s).1) (perform handle m s).2.
Proof.
  revert s. induction m as [a|c k IH]; intros s; [done|]. cbn. destruct (handle c s) as [answer s'].
  cbn. f_equal. apply IH.
Qed.

(** What every command keeps, a program keeps. *)
Lemma perform_preserves {A} (R : S -> S -> Prop) `{!PreOrder R} (m : Program Answer A) :
  (forall c s, R s (handle c s).2) -> forall s, R s (perform handle m s).2.
Proof.
  intros Hstep. induction m as [a|c k IH]; intros s; [reflexivity|]. cbn. specialize (Hstep c s).
  destruct (handle c s) as [answer s']. by etransitivity.
Qed.
End Running.

(** A translated program, run: each command is the program it stands for. *)
Lemma perform_translate {C1 C2 : Type} {A1 : C1 -> Type} {A2 : C2 -> Type} {S T A}
    (inner : forall c, S -> Program A2 (A1 c * S)) (outer : forall c, T -> A2 c * T) (m : Program A1 A) s t :
  perform outer (translate inner m s) t =
  let '(a, (s', t')) := perform (fun c st => let '(answered, t') := perform outer (inner c st.1) st.2 in
                                             (answered.1, (answered.2, t'))) m (s, t) in ((a, s'), t').
Proof.
  revert s t. induction m as [a|c k IH]; intros s t; [done|]. cbn. rewrite perform_bind.
  destruct (perform outer (inner c s) t) as [[answer s'] t'] eqn:E. cbn. apply IH.
Qed.
