(* ===== verification/Tokens.v ===== *)
(** * Tokens, identities, statuses and limits

    Models [ids.cpp]/[ids.hpp] (canonical tokens, [Id<Tag>], [Gen<Tag>]),
    [canonical.cpp] (ASCII folding, FNV-1a digests), [status.cpp]/[status.hpp]
    ([Status]) and [limits.hpp] ([RegistryLimits]). *)

From S2P Require Import Prelude.
From Stdlib Require Import Eqdep_dec.

(* ===================================================================== *)
(** ** Characters and canonical text ([canonical.cpp]) *)

Definition in_range (c lo hi : ascii) : bool :=
  (N_of_ascii lo <=? N_of_ascii c) && (N_of_ascii c <=? N_of_ascii hi).

Definition is_digit (c : ascii) : bool := in_range c "0" "9".

Definition lower_char (c : ascii) : ascii :=
  if in_range c "A" "Z" then ascii_of_N (N_of_ascii c - N_of_ascii "A" + N_of_ascii "a") else c.

Fixpoint ascii_lower (text : string) : string :=
  match text with
  | EmptyString => EmptyString
  | String c rest => String (lower_char c) (ascii_lower rest)
  end.

(** The comparison loop of [equals_ascii_ci], entered with equal lengths. *)
Fixpoint ci_loop (a b : string) : bool :=
  match a, b with
  | String ca a', String cb b' => if Ascii.eqb (lower_char ca) (lower_char cb) then ci_loop a' b' else false
  | _, _ => true
  end.

Definition equals_ascii_ci (a b : string) : bool :=
  if negb (strlen a =? strlen b) then false else ci_loop a b.

Definition kFnvOffsetBasis : N := 1469598103934665603.
Definition kFnvPrime : N := 1099511628211.

Definition fnv_step (hash byte : N) : N := wrap64 (N.lxor hash byte * kFnvPrime).

(** Bytes of a string, as [std::uint8_t] values. *)
Definition string_bytes (text : string) : list N := map N_of_ascii (list_ascii_of_string text).

Definition fnv1a64_bytes (data : list N) (seed : N) : N := foldl fnv_step seed data.

Definition fnv1a64 (text : string) (seed : N) : N := fnv1a64_bytes (string_bytes text) seed.

Definition fnv1a64_mix_text (hash : N) (text : string) : N :=
  fnv1a64_bytes (string_bytes text) (fnv_step hash 255).

Definition fnv1a64_mix_value (hash value : N) : N :=
  foldl (fun h i => fnv_step h (N.land (N.shiftr value (i * 8)) 255)) hash [0; 1; 2; 3; 4; 5; 6; 7].

Definition hex_digit (n : N) : ascii :=
  match String.get (N.to_nat n) "0123456789abcdef" with Some c => c | None => "0"%char end.

(** The digit loop of [hex64]: the low nibble is written last. *)
Fixpoint hex_digits (count : nat) (value : N) (out : string) : string :=
  match count with
  | O => out
  | S n => hex_digits n (N.shiftr value 4) (String (hex_digit (N.land value 15)) out)
  end.

Definition hex64 (value : N) : string := hex_digits 16 value EmptyString.

(* ===================================================================== *)
(** ** Canonical tokens and identities ([ids.hpp], [ids.cpp]) *)

Definition kMaxTokenLength : N := 128.

Definition is_token_alnum (c : ascii) : bool := in_range c "a" "z" || in_range c "0" "9".

Definition is_token_char (c : ascii) : bool :=
  is_token_alnum c || Ascii.eqb c "." || Ascii.eqb c "_" || Ascii.eqb c ":" || Ascii.eqb c "-".

Definition is_canonical_token (text : string) : bool :=
  match text with
  | EmptyString => false
  | String first _ =>
      if kMaxTokenLength <? strlen text then false
      else if negb (is_token_alnum first) then false
      else forallb is_token_char (list_ascii_of_string text)
  end.

Inductive IdTag :=
  | VendorIdTag | ProductIdTag | HardwareFamilyIdTag | HardwareModelIdTag | HardwareRevisionIdTag
  | DeviceIdTag | DeviceIncarnationIdTag | ArchitectureIdTag | FirmwareIdTag | DriverIdTag
  | RuntimeIdTag | PlatformIdTag | CapabilityIdTag | CapabilitySchemaIdTag | QuirkIdTag
  | CompatibilityFactIdTag | PublisherIdTag.

(** What the private constructor of [Id] guarantees: empty or canonical. *)
Definition id_text_ok (text : string) : bool := (text ==? EmptyString) || is_canonical_token text.

(** [Id<Tag>]: the tag is a phantom parameter and the constructor is
    private, so that every value is the invalid (empty) identity or a
    canonical token. *)
Record Id (tag : IdTag) := make_Id { id_str : string; id_wf : id_text_ok id_str = true }.
Arguments make_Id {tag}.
Arguments id_str {tag}.
Arguments id_wf {tag}.

Definition Id_none {tag} : Id tag := make_Id EmptyString eq_refl.

Definition id_valid {tag} (i : Id tag) : bool := id_str i !=? EmptyString.

Lemma canonical_id_text_ok text : is_canonical_token text = true -> id_text_ok text = true.
Proof. unfold id_text_ok. intros ->. apply orb_true_r. Qed.

Definition Id_parse {tag} (text : string) : Id tag :=
  match Bool.bool_dec (is_canonical_token text) true with
  | left H => make_Id text (canonical_id_text_ok text H)
  | right _ => Id_none
  end.

Lemma id_ext {tag} (a b : Id tag) : id_str a = id_str b -> a = b.
Proof.
  destruct a as [sa wa], b as [sb wb]. cbn. intros ->. f_equal. apply (UIP_dec Bool.bool_dec).
Qed.

#[global] Instance Id_eq_dec tag : EqDecision (Id tag) := fun a b =>
  match decide (id_str a = id_str b) with
  | left H => left (id_ext a b H)
  | right H => right (fun E => H (f_equal id_str E))
  end.

Lemma id_parse_str {tag} (a : Id tag) : Id_parse (id_str a) = a.
Proof.
  apply id_ext. unfold Id_parse. destruct (Bool.bool_dec _ _) as [E|E]; [done|].
  apply Bool.not_true_is_false in E. destruct a as [s w]. cbn in *.
  unfold id_text_ok in w. rewrite E, orb_false_r in w. by apply eqb_eq in w as ->.
Qed.

#[global] Instance Id_countable tag : Countable (Id tag) :=
  inj_countable' id_str Id_parse id_parse_str.

#[global] Instance Id_key_order tag : KeyOrder (Id tag) := fun a b => string_ltb (id_str a) (id_str b).

Abbreviation VendorId := (Id VendorIdTag).
Abbreviation ProductId := (Id ProductIdTag).
Abbreviation HardwareFamilyId := (Id HardwareFamilyIdTag).
Abbreviation HardwareModelId := (Id HardwareModelIdTag).
Abbreviation HardwareRevisionId := (Id HardwareRevisionIdTag).
Abbreviation DeviceId := (Id DeviceIdTag).
Abbreviation DeviceIncarnationId := (Id DeviceIncarnationIdTag).
Abbreviation ArchitectureId := (Id ArchitectureIdTag).
Abbreviation FirmwareId := (Id FirmwareIdTag).
Abbreviation DriverId := (Id DriverIdTag).
Abbreviation RuntimeId := (Id RuntimeIdTag).
Abbreviation PlatformId := (Id PlatformIdTag).
Abbreviation CapabilityId := (Id CapabilityIdTag).
Abbreviation CapabilitySchemaId := (Id CapabilitySchemaIdTag).
Abbreviation QuirkId := (Id QuirkIdTag).
Abbreviation CompatibilityFactId := (Id CompatibilityFactIdTag).
Abbreviation PublisherId := (Id PublisherIdTag).

(* ===================================================================== *)
(** ** Generations ([Gen<Tag>]) *)

Inductive GenTag :=
  | DeviceGenerationTag | DeviceBootTag | FirmwareGenerationTag | DriverGenerationTag
  | RuntimeGenerationTag | PlatformGenerationTag | CapabilityGenerationTag | QuirkGenerationTag
  | CompatibilityGenerationTag | EvidenceGenerationTag | CoordinatorEpochTag
  | SnapshotGenerationTag | PublisherBootTag.

Record Gen (tag : GenTag) := mk_Gen { gen_value : N }.
Arguments mk_Gen {tag}.
Arguments gen_value {tag}.

Definition Gen_none {tag} : Gen tag := mk_Gen 0.
Definition Gen_first {tag} : Gen tag := mk_Gen 1.
Definition gen_valid {tag} (g : Gen tag) : bool := negb (gen_value g =? 0).
Definition gen_next {tag} (g : Gen tag) : Gen tag := mk_Gen (u64_succ (gen_value g)).
Definition gen_str {tag} (g : Gen tag) : string := pretty (gen_value g).

#[global] Instance Gen_eq_dec tag : EqDecision (Gen tag).
Proof. solve_decision. Defined.

Lemma gen_mk_value {tag} (g : Gen tag) : mk_Gen (gen_value g) = g.
Proof. by destruct g. Qed.

#[global] Instance Gen_countable tag : Countable (Gen tag) :=
  inj_countable' gen_value mk_Gen gen_mk_value.

#[global] Instance Gen_key_order tag : KeyOrder (Gen tag) := fun a b => gen_value a <? gen_value b.

Definition gen_ltb {tag} (a b : Gen tag) : bool := gen_value a <? gen_value b.
Definition gen_leb {tag} (a b : Gen tag) : bool := negb (gen_ltb b a).

Abbreviation DeviceGeneration := (Gen DeviceGenerationTag).
Abbreviation DeviceBootId := (Gen DeviceBootTag).
Abbreviation FirmwareGeneration := (Gen FirmwareGenerationTag).
Abbreviation DriverGeneration := (Gen DriverGenerationTag).
Abbreviation RuntimeGeneration := (Gen RuntimeGenerationTag).
Abbreviation PlatformGeneration := (Gen PlatformGenerationTag).
Abbreviation CapabilityGeneration := (Gen CapabilityGenerationTag).
Abbreviation QuirkGeneration := (Gen QuirkGenerationTag).
Abbreviation CompatibilityGeneration := (Gen CompatibilityGenerationTag).
Abbreviation EvidenceGeneration := (Gen EvidenceGenerationTag).
Abbreviation CoordinatorEpoch := (Gen CoordinatorEpochTag).
Abbreviation SnapshotGeneration := (Gen SnapshotGenerationTag).
Abbreviation PublisherBootId := (Gen PublisherBootTag).

(* ===================================================================== *)
(** ** Status ([status.hpp], [status.cpp]) *)

Inductive ErrorCode :=
  | Ok | InvalidArgument | InvalidIdentity | InvalidCapability | InvalidValue
  | InvalidSupportState | InvalidProvenance | InvalidCondition | InvalidRange | InvalidReference
  | LimitExceeded | NotFound | AlreadyExists | StaleEpoch | StaleBoot | StaleDeviceGeneration
  | StaleCapabilityGeneration | StaleSequence | GenerationRegression | DuplicateConflict
  | FencedPublisher | UnknownPublisher | UnsupportedVersion | CorruptData | IntegrityFailure
  | IoFailure | InvariantViolation | QueueFull | ShuttingDown | ProtocolError | Internal.

#[global] Instance ErrorCode_eq_dec : EqDecision ErrorCode.
Proof. solve_decision. Defined.

Definition error_code_to_string (code : ErrorCode) : string :=
  match code with
  | Ok => "ok" | InvalidArgument => "invalid-argument" | InvalidIdentity => "invalid-identity"
  | InvalidCapability => "invalid-capability" | InvalidValue => "invalid-value"
  | InvalidSupportState => "invalid-support-state" | InvalidProvenance => "invalid-provenance"
  | InvalidCondition => "invalid-condition" | InvalidRange => "invalid-range"
  | InvalidReference => "invalid-reference" | LimitExceeded => "limit-exceeded"
  | NotFound => "not-found" | AlreadyExists => "already-exists" | StaleEpoch => "stale-epoch"
  | StaleBoot => "stale-boot" | StaleDeviceGeneration => "stale-device-generation"
  | StaleCapabilityGeneration => "stale-capability-generation" | StaleSequence => "stale-sequence"
  | GenerationRegression => "generation-regression" | DuplicateConflict => "duplicate-conflict"
  | FencedPublisher => "fenced-publisher" | UnknownPublisher => "unknown-publisher"
  | UnsupportedVersion => "unsupported-version" | CorruptData => "corrupt-data"
  | IntegrityFailure => "integrity-failure" | IoFailure => "io-failure"
  | InvariantViolation => "invariant-violation" | QueueFull => "queue-full"
  | ShuttingDown => "shutting-down" | ProtocolError => "protocol-error" | Internal => "internal"
  end.

Record Status := mk_Status { status_code : ErrorCode; status_message : string }.

#[global] Instance Status_eq_dec : EqDecision Status.
Proof. solve_decision. Defined.

Definition success : Status := mk_Status Ok EmptyString.
Definition failure (code : ErrorCode) (message : string) : Status := mk_Status code message.
Definition status_ok (s : Status) : bool := status_code s ==? Ok.

Definition describe (s : Status) : string :=
  if status_ok s then "ok"
  else let out := error_code_to_string (status_code s) in
       if status_message s !=? EmptyString then (out +:+ ": " +:+ status_message s)%string else out.

(** [if (const Status s = e; !s.ok()) return s; k]. *)
Definition and_then (s k : Status) : Status := if negb (status_ok s) then s else k.

(** [for (x : l) if (const Status s = f(x); !s.ok()) return s;] and then
    [success()]. *)
Fixpoint check_all {A : Type} (f : A -> Status) (l : list A) : Status :=
  match l with
  | [] => success
  | x :: l' => and_then (f x) (check_all f l')
  end.

Notation "'try!' s ; k" := (and_then s k)
  (at level 10, s at level 100, k at level 200,
   format "'try!'  s ;  '//' k") : hcr_scope.
Notation "'return_if' c 'failing' code msg ; k" := (if (c : bool) then failure code msg else k)
  (at level 10, c at level 100, code at level 9, msg at level 9, k at level 200,
   format "'return_if'  c  'failing'  code  msg ;  '//' k") : hcr_scope.

(** [Result<T>]: a value or a failing status. *)
Inductive Result (T : Type) :=
  | Value (value : T)
  | Failed (status : Status).
Arguments Value {T}.
Arguments Failed {T}.

(* ===================================================================== *)
(** ** Limits ([limits.hpp]) *)

Record RegistryLimits := mk_RegistryLimits {
  max_devices : N; max_families : N; max_capabilities_per_device : N;
  max_evidence_per_capability : N; max_evidence_history : N; max_quirks : N;
  max_compatibility_facts : N; max_publishers : N; max_boot_records_per_publisher : N;
  max_metadata_bytes : N; max_native_identifiers : N; max_name_length : N;
  max_record_depth : N; max_record_fields : N; max_feature_set_entries : N;
  max_architecture_set_entries : N; max_condition_nodes : N; max_condition_children : N;
  max_query_results : N; max_comparison_entries : N; max_snapshot_records : N;
  max_frame_bytes : N; max_persistence_bytes : N; max_connections : N;
  max_pending_publications : N; max_pending_bytes : N; max_string_bytes : N
}.

Definition default_limits : RegistryLimits := {|
  max_devices := 20000; max_families := 8192; max_capabilities_per_device := 2048;
  max_evidence_per_capability := 8; max_evidence_history := 262144; max_quirks := 16384;
  max_compatibility_facts := 16384; max_publishers := 512; max_boot_records_per_publisher := 64;
  max_metadata_bytes := 512; max_native_identifiers := 24; max_name_length := 192;
  max_record_depth := 4; max_record_fields := 32; max_feature_set_entries := 256;
  max_architecture_set_entries := 64; max_condition_nodes := 64; max_condition_children := 32;
  max_query_results := 8192; max_comparison_entries := 8192; max_snapshot_records := 500000;
  max_frame_bytes := N.shiftl 1 20; max_persistence_bytes := N.shiftl 256 20; max_connections := 64;
  max_pending_publications := 1024; max_pending_bytes := N.shiftl 8 20; max_string_bytes := 4096
|}.

(* ===================================================================== *)
(** ** Lemmas *)

#[global] Instance Id_key_order_ok tag : KeyOrderOk (Id tag).
Proof.
  split; unfold key_ltb, Id_key_order.
  - intros x. apply st_irrefl.
  - intros x y z. apply st_trans.
  - intros x y H1 H2. apply id_ext. by eapply (st_total (lt := string_ltb)).
Qed.

#[global] Instance Gen_key_order_ok tag : KeyOrderOk (Gen tag).
Proof.
  split; unfold key_ltb, Gen_key_order.
  - intros x. apply N.ltb_irrefl.
  - intros x y z. apply (st_trans (lt := N.ltb)).
  - intros [x] [y] H1 H2. cbn in *. f_equal. by eapply (st_total (lt := N.ltb)).
Qed.

Lemma id_valid_spec {tag} (i : Id tag) : id_valid i = true <-> is_canonical_token (id_str i) = true.
Proof.
  unfold id_valid. destruct i as [s w]. cbn. unfold id_text_ok in w.
  destruct (s ==? EmptyString) eqn:E; cbn in *.
  - apply eqb_eq in E as ->. done.
  - by rewrite w.
Qed.

Lemma id_invalid_none {tag} (i : Id tag) : id_valid i = false <-> i = Id_none.
Proof.
  unfold id_valid. split.
  - intros H. bsimpl. by apply id_ext.
  - by intros ->.
Qed.

Lemma Id_parse_spec {tag} text :
  id_str (Id_parse (tag := tag) text) = if is_canonical_token text then text else EmptyString.
Proof.
  unfold Id_parse. destruct (Bool.bool_dec _ _) as [E|E]; cbn; [by rewrite E|].
  by rewrite (Bool.not_true_is_false _ E).
Qed.

Lemma status_ok_success : status_ok success = true.
Proof. done. Qed.

Lemma status_ok_failure code msg : code <> Ok -> status_ok (failure code msg) = false.
Proof. intros H. unfold status_ok. by apply eqb_false. Qed.

Lemma and_then_ok s k : status_ok (and_then s k) = true <-> status_ok s = true /\ status_ok k = true.
Proof. unfold and_then. destruct (status_ok s) eqn:E; cbn; rewrite ?E; naive_solver. Qed.

Lemma check_all_ok {A} (f : A -> Status) l :
  status_ok (check_all f l) = true <-> Forall (fun x => status_ok (f x) = true) l.
Proof.
  induction l as [|x l IH]; cbn.
  - split; [constructor|done].
  - by rewrite and_then_ok, IH, Forall_cons.
Qed.

#[export] Hint Rewrite @and_then_ok @check_all_ok : hcr_rw.

(** Decompose the acceptance of a chain of validations into the negations of
    its guards and the acceptance of its sub-validations. *)
Ltac accepts H :=
  repeat match type of H with
  | status_ok (if ?c then failure ?e ?m else _) = true =>
      let E := fresh "Hg" in destruct c eqn:E; [discriminate H|]
  | status_ok (and_then _ _) = true =>
      let E := fresh "Hv" in apply and_then_ok in H as [E H]
  | status_ok (check_all _ _) = true => apply check_all_ok in H
  | status_ok success = true => clear H
  end.

Lemma gen_ltb_spec {tag} (a b : Gen tag) : gen_ltb a b = true <-> gen_value a < gen_value b.
Proof. apply N.ltb_lt. Qed.

Lemma gen_valid_spec {tag} (g : Gen tag) : gen_valid g = true <-> gen_value g <> 0.
Proof. unfold gen_valid. rewrite negb_true_iff, N.eqb_neq. done. Qed.

Lemma gen_next_value {tag} (g : Gen tag) :
  gen_value g + 1 < u64_modulus -> gen_value (gen_next g) = gen_value g + 1.
Proof. apply u64_succ_small. Qed.

Lemma ascii_lower_length s : String.length (ascii_lower s) = String.length s.
Proof. induction s as [|c s IH]; cbn; [done|]. by rewrite IH. Qed.

Lemma ci_loop_spec a b :
  String.length a = String.length b -> ci_loop a b = true <-> ascii_lower a = ascii_lower b.
Proof.
  revert b. induction a as [|x a IH]; intros [|y b] Hlen; cbn; try done.
  injection Hlen as Hlen. destruct (Ascii.eqb_spec (lower_char x) (lower_char y)) as [->|E].
  - rewrite IH by done. split; [by intros ->|by intros [= ?]].
  - split; [done|]. by intros [= ? ?].
Qed.

Lemma equals_ascii_ci_spec a b : equals_ascii_ci a b = true <-> ascii_lower a = ascii_lower b.
Proof.
  unfold equals_ascii_ci, strlen. destruct (N.eqb_spec (N.of_nat (String.length a)) (N.of_nat (String.length b))) as [E|E]; cbn.
  - apply ci_loop_spec. lia.
  - split; [done|]. intros H. exfalso. apply E. by rewrite <- ascii_lower_length, H, ascii_lower_length.
Qed.
