(* ===== verification/Versions.v ===== *)
(** * Software versions and version ranges

    Models [software_version.hpp]/[software_version.cpp]: [SoftwareVersion]
    (parsing of dotted versions into at most eight saturated 64-bit
    components, zero-padded comparison) and [VersionRange]. *)

From S2P Require Import Prelude Tokens.

Definition kMaxComponents : N := 8.
Definition u64_max : N := u64_modulus - 1.

Record SoftwareVersion := mk_SoftwareVersion { raw : string; components : list N }.

#[global] Instance SoftwareVersion_eq_dec : EqDecision SoftwareVersion.
Proof. solve_decision. Defined.

(** The default constructor. *)
Definition no_version : SoftwareVersion := mk_SoftwareVersion EmptyString [].

Definition version_valid (v : SoftwareVersion) : bool := raw v !=? EmptyString.

Definition is_parseable (text : string) : bool :=
  if (text ==? EmptyString) || (128 <? strlen text) then false
  else existsb is_digit (list_ascii_of_string text).

Definition digit_value (c : ascii) : N := N_of_ascii c - N_of_ascii "0".

Fixpoint skip_digits (text : list ascii) : list ascii :=
  match text with
  | c :: rest => if is_digit c then skip_digits rest else text
  | [] => []
  end.

(** The inner loop: accumulate one component, saturating at the maximum. *)
Fixpoint parse_component (value : N) (text : list ascii) : N * list ascii :=
  match text with
  | c :: rest =>
      if is_digit c then
        if (u64_max - digit_value c) / 10 <? value then (u64_max, skip_digits text)
        else parse_component (value * 10 + digit_value c) rest
      else (value, text)
  | [] => (value, [])
  end.

(** The outer loop: every iteration consumes a character, so the length of
    the text is enough fuel ([parse_loop_fuel]). *)
Fixpoint parse_loop (fuel : nat) (text : list ascii) (out : list N) : list N :=
  match fuel, text with
  | S fuel', c :: rest =>
      if lengthN out <? kMaxComponents then
        if negb (is_digit c) then parse_loop fuel' rest out
        else let '(value, rest') := parse_component 0 text in parse_loop fuel' rest' (out ++ [value])
      else out
  | _, _ => out
  end.

Definition version_parse (text : string) : SoftwareVersion :=
  if (text ==? EmptyString) || (128 <? strlen text) then no_version
  else
    let chars := list_ascii_of_string text in
    match parse_loop (length chars) chars [] with
    | [] => no_version
    | values => mk_SoftwareVersion text values
    end.

Definition component (v : SoftwareVersion) (i : nat) : N := nth i (components v) 0.

(** The comparison loop, from component [i], [count] iterations left. *)
Fixpoint compare_loop (count i : nat) (a b : SoftwareVersion) : Z :=
  match count with
  | O => 0%Z
  | S count' =>
      if component a i <? component b i then (-1)%Z
      else if component b i <? component a i then 1%Z
      else compare_loop count' (S i) a b
  end.

Definition version_compare (a b : SoftwareVersion) : Z :=
  if negb (version_valid a) && negb (version_valid b) then 0%Z
  else if negb (version_valid a) then (-1)%Z
  else if negb (version_valid b) then 1%Z
  else compare_loop (Nat.max (length (components a)) (length (components b))) 0 a b.

Definition version_eqb (a b : SoftwareVersion) : bool := (version_compare a b =? 0)%Z.
Definition version_ltb (a b : SoftwareVersion) : bool := (version_compare a b <? 0)%Z.
Definition version_leb (a b : SoftwareVersion) : bool := (version_compare a b <=? 0)%Z.

Record VersionRange := mk_VersionRange {
  minimum : SoftwareVersion;
  maximum : SoftwareVersion;
  include_maximum : bool
}.

#[global] Instance VersionRange_eq_dec : EqDecision VersionRange.
Proof. solve_decision. Defined.

Definition any_version : VersionRange := mk_VersionRange no_version no_version false.

Definition range_valid (r : VersionRange) : bool :=
  if negb (version_valid (minimum r)) || negb (version_valid (maximum r)) then true
  else
    let cmp := version_compare (minimum r) (maximum r) in
    if (0 <? cmp)%Z then false
    else if (cmp =? 0)%Z then include_maximum r
    else true.

Definition range_contains (r : VersionRange) (v : SoftwareVersion) : bool :=
  if negb (version_valid v) then false
  else if version_valid (minimum r) && (version_compare v (minimum r) <? 0)%Z then false
  else if version_valid (maximum r) then
    let cmp := version_compare v (maximum r) in
    if (0 <? cmp)%Z then false
    else if (cmp =? 0)%Z && negb (include_maximum r) then false
    else true
  else true.

Definition range_describe (r : VersionRange) : string :=
  let has_min := version_valid (minimum r) in
  let has_max := version_valid (maximum r) in
  (if has_min && has_max then
     "[" +:+ raw (minimum r) +:+ "," +:+ raw (maximum r) +:+ (if include_maximum r then "]" else ")")
   else if has_min then ">=" +:+ raw (minimum r)
   else if has_max then (if include_maximum r then "<=" else "<") +:+ raw (maximum r)
   else "*")%string.

(* ===================================================================== *)
(** ** Parsing *)

Lemma skip_digits_length text : (length (skip_digits text) <= length text)%nat.
Proof. induction text as [|c text IH]; cbn; [done|]. destruct (is_digit c); cbn; lia. Qed.

Lemma parse_component_length value text :
  (length (snd (parse_component value text)) <= length text)%nat.
Proof.
  revert value. induction text as [|c text IH]; intros value; cbn -[skip_digits]; [done|].
  destruct (is_digit c) eqn:E; [|done].
  destruct (_ <? value); cbn -[skip_digits].
  - pose proof (skip_digits_length (c :: text)). done.
  - specialize (IH (value * 10 + digit_value c)). lia.
Qed.

(** A component that starts with a digit consumes that digit. *)
Lemma parse_component_progress c text :
  is_digit c = true -> (length (snd (parse_component 0 (c :: text))) <= length text)%nat.
Proof.
  intros E. cbn [parse_component]. rewrite E.
  rewrite (proj2 (N.ltb_ge _ 0)) by apply N.le_0_l. apply parse_component_length.
Qed.

Lemma parse_component_bound value text :
  value <= u64_max -> fst (parse_component value text) <= u64_max.
Proof.
  revert value. induction text as [|c text IH]; intros value Hv; cbn -[u64_max]; [done|].
  destruct (is_digit c) eqn:E; [|done].
  destruct (_ <? value) eqn:El; [cbn; lia|]. apply IH. apply N.ltb_ge in El.
  assert (Hd : digit_value c <= 9).
  { unfold is_digit, in_range in E. apply andb_true_iff in E as [_ E]. apply N.leb_le in E.
    unfold digit_value. change (N_of_ascii "9") with 57 in E. change (N_of_ascii "0") with 48. lia. }
  assert (value * 10 <= u64_max - digit_value c);
    [|assert (u64_max = 18446744073709551615) by done; lia].
  etrans; [|apply (N.Div0.mul_div_le _ 10)]. lia.
Qed.

(** Enough fuel gives the result: more fuel than characters changes nothing. *)
Lemma parse_loop_fuel fuel1 fuel2 text out :
  (length text <= fuel1)%nat -> (length text <= fuel2)%nat ->
  parse_loop fuel1 text out = parse_loop fuel2 text out.
Proof.
  revert fuel2 text out. induction fuel1 as [|fuel1 IH]; intros [|fuel2] [|c text] out H1 H2;
    cbn -[parse_component]; cbn in H1, H2; try done; try lia.
  destruct (_ <? kMaxComponents); [|done].
  destruct (is_digit c) eqn:E; cbn -[parse_component]; [|apply IH; lia].
  pose proof (parse_component_progress c text E) as Hp.
  destruct (parse_component 0 (c :: text)) as [value rest]. cbn in Hp. apply IH; lia.
Qed.

Lemma parse_loop_invariant fuel text out :
  lengthN out <= kMaxComponents -> Forall (fun n => n <= u64_max) out ->
  lengthN (parse_loop fuel text out) <= kMaxComponents /\
  Forall (fun n => n <= u64_max) (parse_loop fuel text out).
Proof.
  revert text out. induction fuel as [|fuel IH]; intros [|c text] out Hl Hb;
    cbn -[parse_component kMaxComponents]; try done.
  destruct (_ <? kMaxComponents) eqn:El; [|done]. apply N.ltb_lt in El.
  destruct (is_digit c) eqn:E; cbn -[parse_component kMaxComponents]; [|by apply IH].
  pose proof (parse_component_bound 0 (c :: text)) as Hp.
  destruct (parse_component 0 (c :: text)) as [value rest]. cbn [fst] in Hp. apply IH.
  - rewrite lengthN_app. unfold lengthN at 2. cbn [length]. lia.
  - apply Forall_app_2; [done|]. constructor; [|constructor]. apply Hp. done.
Qed.

Lemma parse_loop_prefix fuel text out : exists l, parse_loop fuel text out = out ++ l.
Proof.
  revert text out. induction fuel as [|fuel IH]; intros [|c text] out; cbn -[parse_component];
    try (exists []; by rewrite app_nil_r).
  destruct (_ <? kMaxComponents); [|exists []; by rewrite app_nil_r].
  destruct (is_digit c); cbn -[parse_component]; [|apply IH].
  destruct (parse_component 0 (c :: text)) as [value rest].
  destruct (IH rest (out ++ [value])) as [l ->]. exists (value :: l). by rewrite <- app_assoc.
Qed.

(** The loop finds a component exactly when the text holds a digit. *)
Lemma parse_loop_nonempty fuel text :
  (length text <= fuel)%nat -> parse_loop fuel text [] <> [] <-> existsb is_digit text = true.
Proof.
  revert text. induction fuel as [|fuel IH]; intros [|c text] Hl; cbn -[parse_component];
    cbn in Hl; try done; try lia.
  destruct (is_digit c) eqn:E; cbn -[parse_component].
  - split; [done|]. intros _. destruct (parse_component 0 (c :: text)) as [value rest].
    destruct (parse_loop_prefix fuel rest [value]) as [l ->]. done.
  - apply IH. lia.
Qed.

Lemma version_parse_valid text : version_valid (version_parse text) = is_parseable text.
Proof.
  unfold version_parse, is_parseable. destruct (text ==? EmptyString) eqn:E; [done|].
  destruct (128 <? strlen text); [done|]. cbn [orb].
  pose proof (parse_loop_nonempty _ (list_ascii_of_string text) (le_n _)) as Hp.
  destruct (existsb is_digit _), (parse_loop _ _ _) as [|v l]; try done.
  - by destruct (proj2 Hp eq_refl).
  - unfold version_valid. cbn. by rewrite E.
  - by discriminate (proj1 Hp).
Qed.

(* ===================================================================== *)
(** ** Comparison *)

(** A finite lexicographic comparison of the padded components. *)
Lemma compare_loop_opp count i a b : compare_loop count i b a = (- compare_loop count i a b)%Z.
Proof.
  revert i. induction count as [|count IH]; intros i; cbn; [done|].
  destruct (component a i <? component b i) eqn:E1, (component b i <? component a i) eqn:E2;
    bsimpl; try done; try lia; apply IH.
Qed.

Lemma compare_loop_range count i a b :
  (compare_loop count i a b = -1 \/ compare_loop count i a b = 0 \/ compare_loop count i a b = 1)%Z.
Proof.
  revert i. induction count as [|count IH]; intros i; cbn; [auto|]. split_ifs; auto.
Qed.

(** Components past both ends are zero: longer loops agree. *)
Lemma compare_loop_extend count extra i a b :
  (length (components a) <= i + count)%nat -> (length (components b) <= i + count)%nat ->
  compare_loop (count + extra) i a b = compare_loop count i a b.
Proof.
  revert i. induction count as [|count IH]; intros i Ha Hb; cbn.
  - revert i Ha Hb. induction extra as [|extra IH]; intros i Ha Hb; cbn; [done|].
    unfold component. rewrite !nth_overflow by lia. apply IH; lia.
  - rewrite IH by lia. done.
Qed.

Definition compare_upto (n : nat) (a b : SoftwareVersion) : Z :=
  if negb (version_valid a) && negb (version_valid b) then 0%Z
  else if negb (version_valid a) then (-1)%Z
  else if negb (version_valid b) then 1%Z
  else compare_loop n 0 a b.

Lemma version_compare_upto n a b :
  (length (components a) <= n)%nat -> (length (components b) <= n)%nat ->
  version_compare a b = compare_upto n a b.
Proof.
  intros Ha Hb. unfold version_compare, compare_upto.
  replace n with (Nat.max (length (components a)) (length (components b)) +
    (n - Nat.max (length (components a)) (length (components b))))%nat at 1 by lia.
  by rewrite compare_loop_extend by lia.
Qed.

Lemma compare_loop_trans count i a b c :
  (compare_loop count i a b <= 0)%Z -> (compare_loop count i b c <= 0)%Z ->
  (compare_loop count i a c <= 0 /\
   (compare_loop count i a c = 0 -> compare_loop count i a b = 0 /\ compare_loop count i b c = 0))%Z.
Proof.
  revert i. induction count as [|count IH]; intros i; cbn; [lia|].
  destruct (N.ltb_spec (component a i) (component b i)), (N.ltb_spec (component b i) (component a i)),
    (N.ltb_spec (component b i) (component c i)), (N.ltb_spec (component c i) (component b i)),
    (N.ltb_spec (component a i) (component c i)), (N.ltb_spec (component c i) (component a i));
    try lia; apply IH.
Qed.

Lemma version_compare_trans_strong a b c :
  (version_compare a b <= 0)%Z -> (version_compare b c <= 0)%Z ->
  (version_compare a c <= 0 /\
   (version_compare a c = 0 -> version_compare a b = 0 /\ version_compare b c = 0))%Z.
Proof.
  set (n := Nat.max (length (components a)) (Nat.max (length (components b)) (length (components c)))).
  rewrite !(version_compare_upto n) by lia. unfold compare_upto.
  destruct (version_valid a), (version_valid b), (version_valid c); cbn; try lia.
  apply compare_loop_trans.
Qed.

Lemma version_compare_opp a b : version_compare b a = (- version_compare a b)%Z.
Proof.
  set (n := Nat.max (length (components a)) (length (components b))).
  rewrite !(version_compare_upto n) by lia. unfold compare_upto.
  destruct (version_valid a), (version_valid b); cbn; try done. apply compare_loop_opp.
Qed.

Lemma version_compare_refl a : version_compare a a = 0%Z.
Proof. pose proof (version_compare_opp a a). lia. Qed.

Lemma version_compare_range a b :
  (version_compare a b = -1 \/ version_compare a b = 0 \/ version_compare a b = 1)%Z.
Proof. unfold version_compare. split_ifs; auto using compare_loop_range. Qed.

(** What the conversion of a version to a range member needs. *)
Lemma range_contains_spec r v :
  range_contains r v = true <->
  version_valid v = true /\
  (version_valid (minimum r) = true -> (version_compare (minimum r) v <= 0)%Z) /\
  (version_valid (maximum r) = true -> (version_compare v (maximum r) <= 0)%Z /\
     ((version_compare v (maximum r) = 0)%Z -> include_maximum r = true)).
Proof.
  unfold range_contains. rewrite (version_compare_opp v (minimum r)).
  destruct (version_valid v); cbn; [|by split; [|intros []]].
  destruct (version_valid (minimum r)); cbn;
    [destruct (Z.ltb_spec (version_compare v (minimum r)) 0); cbn;
     [split; [done|intros (_ & H1 & _); specialize (H1 eq_refl); lia]|]|].
  all: (destruct (version_valid (maximum r)); cbn; [|split; [|done]; split; [done|by split; [lia|]]]).
  all: destruct (Z.ltb_spec 0 (version_compare v (maximum r))); cbn;
    [split; [done|intros (_ & _ & H1); specialize (H1 eq_refl); lia]|].
  all: destruct (Z.eqb_spec (version_compare v (maximum r)) 0); cbn; destruct (include_maximum r); cbn.
  all: split; try done; try (intros _; split; [done|]; split; [lia|]; intros _; split; [lia|lia || done]).
  all: intros (_ & _ & H1); destruct (H1 eq_refl) as [_ H2]; by apply H2.
Qed.

(* ===================================================================== *)
(** ** Properties *)

(** C40: parsing a version string yields a valid version exactly for the texts
    [is_parseable] accepts, keeps the text, and never produces more than
    eight components or a component beyond 64 bits. *)
Theorem version_parse_spec text :
  version_valid (version_parse text) = is_parseable text /\
  (is_parseable text = true -> raw (version_parse text) = text) /\
  lengthN (components (version_parse text)) <= kMaxComponents /\
  Forall (fun n => n < u64_modulus) (components (version_parse text)).
Proof.
  split; [apply version_parse_valid|]. split.
  - rewrite <- version_parse_valid. unfold version_parse.
    destruct (_ || _); [done|]. by destruct (parse_loop _ _ _).
  - unfold version_parse. destruct (_ || _); [by split; [|constructor]|].
    destruct (parse_loop_invariant (length (list_ascii_of_string text)) (list_ascii_of_string text) [])
      as [Hl Hb]; [done|constructor|].
    destruct (parse_loop _ _ _); [by split; [|constructor]|]. split; [done|].
    eapply Forall_impl; [exact Hb|]. intros k Hk. eapply N.le_lt_trans; [exact Hk|]. reflexivity.
Qed.

(** Version comparison is a total preorder with the invalid version at
    the bottom: antisymmetric in sign, transitive, and two versions compare
    equal only when they are interchangeable in comparisons. *)
Theorem version_compare_total_preorder a b c :
  version_compare b a = (- version_compare a b)%Z /\
  (version_leb a b = true -> version_leb b c = true -> version_leb a c = true) /\
  (version_ltb a b = true -> version_leb b c = true -> version_ltb a c = true) /\
  (version_eqb a b = true -> version_compare a c = version_compare b c) /\
  (version_valid a = false -> version_leb a b = true).
Proof.
  unfold version_leb, version_ltb, version_eqb.
  rewrite !Z.leb_le, !Z.ltb_lt, Z.eqb_eq. split; [apply version_compare_opp|].
  split; [intros H1 H2; by apply (version_compare_trans_strong a b c)|]. split; [|split].
  - intros H1 H2. destruct (version_compare_trans_strong a b c); lia.
  - intros H.
    pose proof (version_compare_opp a b). pose proof (version_compare_opp a c).
    pose proof (version_compare_opp b c).
    pose proof (version_compare_trans_strong a b c). pose proof (version_compare_trans_strong b a c).
    pose proof (version_compare_trans_strong c a b). pose proof (version_compare_trans_strong c b a).
    pose proof (version_compare_range a c). pose proof (version_compare_range b c). lia.
  - intros H. unfold version_compare. rewrite H. cbn. by destruct (version_valid b).
Qed.

(** A version range with a lower bound is [valid()] exactly when it
    contains some version; an invalid range contains none. *)
Theorem range_valid_inhabited r :
  version_valid (minimum r) = true ->
  range_valid r = true <-> exists v, range_contains r v = true.
Proof.
  intros Hm. split.
  - intros Hv. exists (minimum r). apply range_contains_spec. split; [done|].
    split; [intros _; by rewrite version_compare_refl|]. intros HM.
    unfold range_valid in Hv. rewrite Hm, HM in Hv. cbn in Hv.
    destruct (Z.ltb_spec 0 (version_compare (minimum r) (maximum r))); [done|].
    destruct (Z.eqb_spec (version_compare (minimum r) (maximum r)) 0); split; auto; lia.
  - intros [v (Hv & H1 & H2)%range_contains_spec]. unfold range_valid. rewrite Hm. cbn.
    destruct (version_valid (maximum r)) eqn:HM; [cbn|done].
    specialize (H1 Hm). destruct (H2 eq_refl) as [H3 H4].
    destruct (version_compare_trans_strong (minimum r) v (maximum r) H1 H3) as [H5 H6].
    destruct (Z.ltb_spec 0 (version_compare (minimum r) (maximum r))); [lia|].
    destruct (Z.eqb_spec (version_compare (minimum r) (maximum r)) 0); [|done]. apply H4. lia.
Qed.

Lemma range_valid_inhabited_witness :
  let r := mk_VersionRange (version_parse "1.2.3") (version_parse "2.0") false in
  version_valid (minimum r) = true /\
  (range_valid r = true <-> exists v, range_contains r v = true).
Proof. split; [reflexivity|]. apply range_valid_inhabited. reflexivity. Defined.
