(* ===== verification/Support.v ===== *)
(** * Support states, truth, provenance and staleness

    Models [support.hpp]/[support.cpp] and [provenance.hpp]/[provenance.cpp]:
    the enumerations every answer is built from, their ranks and authorities,
    their textual names, and the staleness flags. *)

From S2P Require Import Prelude Tokens.

(* ===================================================================== *)
(** ** Enumerations *)

Module SupportState.
Inductive SupportState :=
  | SupportedNative | SupportedConditional | SupportedEmulated | SupportedSoftwareAssisted |
  SupportedExperimental | Disabled | Unsupported | Unknown | RevalidationRequired.

#[global] Instance SupportState_eq_dec : EqDecision SupportState.
Proof. solve_decision. Defined.

#[global] Program Instance SupportState_enum : CppEnum SupportState := {|
  enum_values := [SupportedNative; SupportedConditional; SupportedEmulated;
    SupportedSoftwareAssisted; SupportedExperimental; Disabled; Unsupported; Unknown;
    RevalidationRequired]
|}.
Solve Obligations with solve_enum.
End SupportState.
Abbreviation SupportState := SupportState.SupportState.

Module EffectiveSupport.
Inductive EffectiveSupport :=
  | Supported | SupportedConditionalUnmet | SupportedConditionalUnknown | SupportedWithCaveat |
  BlockedByQuirk | Disabled | Unsupported | Unknown | RevalidationRequired.

#[global] Instance EffectiveSupport_eq_dec : EqDecision EffectiveSupport.
Proof. solve_decision. Defined.

#[global] Program Instance EffectiveSupport_enum : CppEnum EffectiveSupport := {|
  enum_values := [Supported; SupportedConditionalUnmet; SupportedConditionalUnknown;
    SupportedWithCaveat; BlockedByQuirk; Disabled; Unsupported; Unknown; RevalidationRequired]
|}.
Solve Obligations with solve_enum.
End EffectiveSupport.
Abbreviation EffectiveSupport := EffectiveSupport.EffectiveSupport.

Module ContradictionState.
Inductive ContradictionState :=
  | Consistent | ConflictingEvidence | PreferredLiveEvidence | PreferredHigherAuthoritySource |
  Ambiguous | RevalidationRequired.

#[global] Instance ContradictionState_eq_dec : EqDecision ContradictionState.
Proof. solve_decision. Defined.

#[global] Program Instance ContradictionState_enum : CppEnum ContradictionState := {|
  enum_values := [Consistent; ConflictingEvidence; PreferredLiveEvidence;
    PreferredHigherAuthoritySource; Ambiguous; RevalidationRequired]
|}.
Solve Obligations with solve_enum.
End ContradictionState.
Abbreviation ContradictionState := ContradictionState.ContradictionState.

Module TruthClass.
Inductive TruthClass :=
  | Real | Synthetic | Unsupported | Unknown.

#[global] Instance TruthClass_eq_dec : EqDecision TruthClass.
Proof. solve_decision. Defined.

#[global] Program Instance TruthClass_enum : CppEnum TruthClass := {|
  enum_values := [Real; Synthetic; Unsupported; Unknown]
|}.
Solve Obligations with solve_enum.
End TruthClass.
Abbreviation TruthClass := TruthClass.TruthClass.

Module PrecisionClass.
Inductive PrecisionClass :=
  | Exact | Probed | DirectReported | Derived | Curated | Inferred | Unknown.

#[global] Instance PrecisionClass_eq_dec : EqDecision PrecisionClass.
Proof. solve_decision. Defined.

#[global] Program Instance PrecisionClass_enum : CppEnum PrecisionClass := {|
  enum_values := [Exact; Probed; DirectReported; Derived; Curated; Inferred; Unknown]
|}.
Solve Obligations with solve_enum.
End PrecisionClass.
Abbreviation PrecisionClass := PrecisionClass.PrecisionClass.

Module SourceClass.
Inductive SourceClass :=
  | Unspecified | SyntheticBackend | ImportedManifest | StaticCuratedDatabase | AcpiSmbios |
  PciConfiguration | OsEnumeration | NicDriverApi | CxlEnumeration | RocmSmi | Nvml |
  CudaRuntime | RuntimeProbe | FirmwareQuery | DriverQuery | LiveVendorApi | HardwareProbe.

#[global] Instance SourceClass_eq_dec : EqDecision SourceClass.
Proof. solve_decision. Defined.

#[global] Program Instance SourceClass_enum : CppEnum SourceClass := {|
  enum_values := [Unspecified; SyntheticBackend; ImportedManifest; StaticCuratedDatabase;
    AcpiSmbios; PciConfiguration; OsEnumeration; NicDriverApi; CxlEnumeration; RocmSmi; Nvml;
    CudaRuntime; RuntimeProbe; FirmwareQuery; DriverQuery; LiveVendorApi; HardwareProbe]
|}.
Solve Obligations with solve_enum.
End SourceClass.
Abbreviation SourceClass := SourceClass.SourceClass.

Module ProvenanceClass.
Inductive ProvenanceClass :=
  | RealLiveHardware | RealOsReported | RealVendorApi | RealRuntimeProbe | CuratedStatic |
  Derived | Imported | Synthetic | UnknownSource.

#[global] Instance ProvenanceClass_eq_dec : EqDecision ProvenanceClass.
Proof. solve_decision. Defined.

#[global] Program Instance ProvenanceClass_enum : CppEnum ProvenanceClass := {|
  enum_values := [RealLiveHardware; RealOsReported; RealVendorApi; RealRuntimeProbe;
    CuratedStatic; Derived; Imported; Synthetic; UnknownSource]
|}.
Solve Obligations with solve_enum.
End ProvenanceClass.
Abbreviation ProvenanceClass := ProvenanceClass.ProvenanceClass.

Module PublisherState.
Inductive PublisherState :=
  | Unknown | Registered | Fenced | Dead.

#[global] Instance PublisherState_eq_dec : EqDecision PublisherState.
Proof. solve_decision. Defined.

#[global] Program Instance PublisherState_enum : CppEnum PublisherState := {|
  enum_values := [Unknown; Registered; Fenced; Dead]
|}.
Solve Obligations with solve_enum.
End PublisherState.
Abbreviation PublisherState := PublisherState.PublisherState.

(* ===================================================================== *)
(** ** Names

    The lookup tables of the [*_from_string] functions are scanned in order
    with a case-insensitive comparison. *)

Fixpoint scan_table {A : Type} (text : string) (entries : list (string * A)) : option A :=
  match entries with
  | [] => None
  | (name, value) :: rest => if equals_ascii_ci text name then Some value else scan_table text rest
  end.

Definition scan_values {A : Type} (name : A -> string) (text : string) (values : list A) : option A :=
  scan_table text (map (fun v => (name v, v)) values).

Definition support_state_to_string (value : SupportState) : string :=
  match value with
  | SupportState.SupportedNative => "SUPPORTED_NATIVE"
  | SupportState.SupportedConditional => "SUPPORTED_CONDITIONAL"
  | SupportState.SupportedEmulated => "SUPPORTED_EMULATED"
  | SupportState.SupportedSoftwareAssisted => "SUPPORTED_SOFTWARE_ASSISTED"
  | SupportState.SupportedExperimental => "SUPPORTED_EXPERIMENTAL"
  | SupportState.Disabled => "DISABLED"
  | SupportState.Unsupported => "UNSUPPORTED"
  | SupportState.Unknown => "UNKNOWN"
  | SupportState.RevalidationRequired => "REVALIDATION_REQUIRED"
  end.

Definition support_state_from_string (text : string) : option SupportState :=
  scan_table text
  [("SUPPORTED_NATIVE", SupportState.SupportedNative);
   ("SUPPORTED_CONDITIONAL", SupportState.SupportedConditional);
   ("SUPPORTED_EMULATED", SupportState.SupportedEmulated);
   ("SUPPORTED_SOFTWARE_ASSISTED", SupportState.SupportedSoftwareAssisted);
   ("SUPPORTED_EXPERIMENTAL", SupportState.SupportedExperimental);
   ("DISABLED", SupportState.Disabled);
   ("UNSUPPORTED", SupportState.Unsupported);
   ("UNKNOWN", SupportState.Unknown);
   ("REVALIDATION_REQUIRED", SupportState.RevalidationRequired)].

Definition effective_support_to_string (value : EffectiveSupport) : string :=
  match value with
  | EffectiveSupport.Supported => "SUPPORTED"
  | EffectiveSupport.SupportedConditionalUnmet => "SUPPORTED_CONDITIONAL_UNMET"
  | EffectiveSupport.SupportedConditionalUnknown => "SUPPORTED_CONDITIONAL_UNKNOWN"
  | EffectiveSupport.SupportedWithCaveat => "SUPPORTED_WITH_CAVEAT"
  | EffectiveSupport.BlockedByQuirk => "BLOCKED_BY_QUIRK"
  | EffectiveSupport.Disabled => "DISABLED"
  | EffectiveSupport.Unsupported => "UNSUPPORTED"
  | EffectiveSupport.Unknown => "UNKNOWN"
  | EffectiveSupport.RevalidationRequired => "REVALIDATION_REQUIRED"
  end.

Definition contradiction_state_to_string (value : ContradictionState) : string :=
  match value with
  | ContradictionState.Consistent => "CONSISTENT"
  | ContradictionState.ConflictingEvidence => "CONFLICTING_EVIDENCE"
  | ContradictionState.PreferredLiveEvidence => "PREFERRED_LIVE_EVIDENCE"
  | ContradictionState.PreferredHigherAuthoritySource => "PREFERRED_HIGHER_AUTHORITY_SOURCE"
  | ContradictionState.Ambiguous => "AMBIGUOUS"
  | ContradictionState.RevalidationRequired => "REVALIDATION_REQUIRED"
  end.

Definition truth_class_to_string (value : TruthClass) : string :=
  match value with
  | TruthClass.Real => "REAL"
  | TruthClass.Synthetic => "SYNTHETIC"
  | TruthClass.Unsupported => "UNSUPPORTED"
  | TruthClass.Unknown => "UNKNOWN"
  end.

Definition precision_class_to_string (value : PrecisionClass) : string :=
  match value with
  | PrecisionClass.Exact => "EXACT"
  | PrecisionClass.Probed => "PROBED"
  | PrecisionClass.DirectReported => "DIRECT_REPORTED"
  | PrecisionClass.Derived => "DERIVED"
  | PrecisionClass.Curated => "CURATED"
  | PrecisionClass.Inferred => "INFERRED"
  | PrecisionClass.Unknown => "UNKNOWN"
  end.

Definition precision_class_from_string (text : string) : option PrecisionClass :=
  scan_table text
  [("EXACT", PrecisionClass.Exact);
   ("PROBED", PrecisionClass.Probed);
   ("DIRECT_REPORTED", PrecisionClass.DirectReported);
   ("DERIVED", PrecisionClass.Derived);
   ("CURATED", PrecisionClass.Curated);
   ("INFERRED", PrecisionClass.Inferred);
   ("UNKNOWN", PrecisionClass.Unknown)].

Definition source_class_to_string (value : SourceClass) : string :=
  match value with
  | SourceClass.Unspecified => "unspecified"
  | SourceClass.SyntheticBackend => "synthetic-backend"
  | SourceClass.ImportedManifest => "imported-manifest"
  | SourceClass.StaticCuratedDatabase => "static-curated-database"
  | SourceClass.AcpiSmbios => "acpi-smbios"
  | SourceClass.PciConfiguration => "pci-configuration"
  | SourceClass.OsEnumeration => "os-enumeration"
  | SourceClass.NicDriverApi => "nic-driver-api"
  | SourceClass.CxlEnumeration => "cxl-enumeration"
  | SourceClass.RocmSmi => "rocm-smi"
  | SourceClass.Nvml => "nvml"
  | SourceClass.CudaRuntime => "cuda-runtime"
  | SourceClass.RuntimeProbe => "runtime-probe"
  | SourceClass.FirmwareQuery => "firmware-query"
  | SourceClass.DriverQuery => "driver-query"
  | SourceClass.LiveVendorApi => "live-vendor-api"
  | SourceClass.HardwareProbe => "hardware-probe"
  end.

Definition source_class_from_string (text : string) : option SourceClass :=
  scan_values source_class_to_string text
  [SourceClass.Unspecified; SourceClass.SyntheticBackend; SourceClass.ImportedManifest;
   SourceClass.StaticCuratedDatabase; SourceClass.AcpiSmbios; SourceClass.PciConfiguration;
   SourceClass.OsEnumeration; SourceClass.NicDriverApi; SourceClass.CxlEnumeration;
   SourceClass.RocmSmi; SourceClass.Nvml; SourceClass.CudaRuntime;
   SourceClass.RuntimeProbe; SourceClass.FirmwareQuery; SourceClass.DriverQuery;
   SourceClass.LiveVendorApi; SourceClass.HardwareProbe].

Definition provenance_class_to_string (value : ProvenanceClass) : string :=
  match value with
  | ProvenanceClass.RealLiveHardware => "REAL_LIVE_HARDWARE"
  | ProvenanceClass.RealOsReported => "REAL_OS_REPORTED"
  | ProvenanceClass.RealVendorApi => "REAL_VENDOR_API"
  | ProvenanceClass.RealRuntimeProbe => "REAL_RUNTIME_PROBE"
  | ProvenanceClass.CuratedStatic => "CURATED_STATIC"
  | ProvenanceClass.Derived => "DERIVED"
  | ProvenanceClass.Imported => "IMPORTED"
  | ProvenanceClass.Synthetic => "SYNTHETIC"
  | ProvenanceClass.UnknownSource => "UNKNOWN_SOURCE"
  end.

Definition provenance_class_from_string (text : string) : option ProvenanceClass :=
  scan_values provenance_class_to_string text
  [ProvenanceClass.RealLiveHardware; ProvenanceClass.RealOsReported; ProvenanceClass.RealVendorApi;
   ProvenanceClass.RealRuntimeProbe; ProvenanceClass.CuratedStatic; ProvenanceClass.Derived;
   ProvenanceClass.Imported; ProvenanceClass.Synthetic; ProvenanceClass.UnknownSource].

Definition publisher_state_to_string (value : PublisherState) : string :=
  match value with
  | PublisherState.Unknown => "unknown"
  | PublisherState.Registered => "registered"
  | PublisherState.Fenced => "fenced"
  | PublisherState.Dead => "dead"
  end.

(* ===================================================================== *)
(** ** Classifications and ranks ([support.cpp]) *)

Definition asserts_capability_present (state : SupportState) : bool :=
  match state with
  | SupportState.SupportedNative | SupportState.SupportedConditional | SupportState.SupportedEmulated
  | SupportState.SupportedSoftwareAssisted | SupportState.SupportedExperimental
  | SupportState.Disabled => true
  | _ => false
  end.

Definition asserts_capability_absent (state : SupportState) : bool := state ==? SupportState.Unsupported.

Definition support_state_strength (state : SupportState) : Z :=
  match state with
  | SupportState.SupportedNative => 7
  | SupportState.SupportedConditional => 6
  | SupportState.SupportedEmulated => 5
  | SupportState.SupportedSoftwareAssisted => 4
  | SupportState.SupportedExperimental => 3
  | SupportState.Disabled => 2
  | SupportState.Unsupported => 1
  | SupportState.Unknown => 0
  | SupportState.RevalidationRequired => -1
  end%Z.

Definition precision_class_rank (value : PrecisionClass) : Z :=
  match value with
  | PrecisionClass.Exact => 6
  | PrecisionClass.Probed => 5
  | PrecisionClass.DirectReported => 4
  | PrecisionClass.Derived => 3
  | PrecisionClass.Curated => 2
  | PrecisionClass.Inferred => 1
  | PrecisionClass.Unknown => 0
  end%Z.

Definition precision_is_device_evidence (value : PrecisionClass) : bool :=
  match value with
  | PrecisionClass.Exact | PrecisionClass.Probed | PrecisionClass.DirectReported => true
  | _ => false
  end.

(* ===================================================================== *)
(** ** Authority and provenance ([provenance.cpp]) *)

Definition source_authority (value : SourceClass) : Z :=
  match value with
  | SourceClass.SyntheticBackend => 1
  | SourceClass.Unspecified => 2
  | SourceClass.ImportedManifest => 3
  | SourceClass.StaticCuratedDatabase => 4
  | SourceClass.AcpiSmbios => 5
  | SourceClass.PciConfiguration => 6
  | SourceClass.OsEnumeration => 7
  | SourceClass.NicDriverApi => 8
  | SourceClass.CxlEnumeration => 9
  | SourceClass.RocmSmi => 10
  | SourceClass.Nvml => 11
  | SourceClass.CudaRuntime => 12
  | SourceClass.RuntimeProbe => 13
  | SourceClass.FirmwareQuery => 14
  | SourceClass.DriverQuery => 15
  | SourceClass.LiveVendorApi => 16
  | SourceClass.HardwareProbe => 17
  end%Z.

Definition provenance_is_real (value : ProvenanceClass) : bool :=
  match value with
  | ProvenanceClass.RealLiveHardware | ProvenanceClass.RealOsReported
  | ProvenanceClass.RealVendorApi | ProvenanceClass.RealRuntimeProbe => true
  | _ => false
  end.

Definition provenance_is_durable (value : ProvenanceClass) : bool :=
  match value with
  | ProvenanceClass.CuratedStatic | ProvenanceClass.Imported | ProvenanceClass.Derived => true
  | _ => false
  end.

Definition default_provenance_for (value : SourceClass) : ProvenanceClass :=
  match value with
  | SourceClass.SyntheticBackend => ProvenanceClass.Synthetic
  | SourceClass.ImportedManifest => ProvenanceClass.Imported
  | SourceClass.StaticCuratedDatabase => ProvenanceClass.CuratedStatic
  | SourceClass.AcpiSmbios | SourceClass.PciConfiguration | SourceClass.OsEnumeration =>
      ProvenanceClass.RealOsReported
  | SourceClass.NicDriverApi | SourceClass.CxlEnumeration | SourceClass.RocmSmi
  | SourceClass.Nvml | SourceClass.CudaRuntime => ProvenanceClass.RealVendorApi
  | SourceClass.RuntimeProbe | SourceClass.FirmwareQuery | SourceClass.DriverQuery =>
      ProvenanceClass.RealRuntimeProbe
  | SourceClass.LiveVendorApi | SourceClass.HardwareProbe => ProvenanceClass.RealLiveHardware
  | SourceClass.Unspecified => ProvenanceClass.UnknownSource
  end.

Definition provenance_strength (value : ProvenanceClass) : Z :=
  match value with
  | ProvenanceClass.Synthetic => 0
  | ProvenanceClass.UnknownSource => 1
  | ProvenanceClass.Imported => 2
  | ProvenanceClass.CuratedStatic => 3
  | ProvenanceClass.Derived => 4
  | ProvenanceClass.RealOsReported => 5
  | ProvenanceClass.RealVendorApi => 6
  | ProvenanceClass.RealRuntimeProbe => 7
  | ProvenanceClass.RealLiveHardware => 8
  end%Z.

Definition provenance_allowed_for (provenance : ProvenanceClass) (source : SourceClass) : bool :=
  (provenance_strength provenance <=? provenance_strength (default_provenance_for source))%Z.

Record PublisherIdentity := mk_PublisherIdentity {
  pi_id : PublisherId;
  pi_boot : PublisherBootId;
  pi_epoch : CoordinatorEpoch
}.

#[global] Instance PublisherIdentity_eq_dec : EqDecision PublisherIdentity.
Proof. solve_decision. Defined.

Record EvidenceSource := mk_EvidenceSource {
  source_class : SourceClass;
  provenance : ProvenanceClass;
  publisher : PublisherIdentity;
  adapter : string;
  native_reference : string;
  observation_sequence : N;
  observed_at_utc : string;
  evidence_generation : EvidenceGeneration;
  platform_generation : N
}.

#[global] Instance EvidenceSource_eq_dec : EqDecision EvidenceSource.
Proof. solve_decision. Defined.

#[global] Instance eta_EvidenceSource : Eta EvidenceSource := fun r =>
  mk_EvidenceSource (source_class r) (provenance r) (publisher r) (adapter r) (native_reference r)
    (observation_sequence r) (observed_at_utc r) (evidence_generation r) (platform_generation r).

Definition no_publisher : PublisherIdentity := mk_PublisherIdentity Id_none Gen_none Gen_none.

(** The default member initialisers of [EvidenceSource]. *)
Definition default_source : EvidenceSource :=
  mk_EvidenceSource SourceClass.Unspecified ProvenanceClass.UnknownSource no_publisher
    EmptyString EmptyString 0 EmptyString Gen_none 0.

Definition authority (s : EvidenceSource) : Z := source_authority (source_class s).
Definition live (s : EvidenceSource) : bool := provenance_is_real (provenance s).
Definition durable (s : EvidenceSource) : bool := provenance_is_durable (provenance s).

(* ===================================================================== *)
(** ** Staleness flags: a 32-bit set of reasons *)

Definition StalenessFlag := N.

Definition flag_None : StalenessFlag := 0.
Definition DeviceGenerationSuperseded : StalenessFlag := N.shiftl 1 0.
Definition DeviceBootChanged : StalenessFlag := N.shiftl 1 1.
Definition DriverGenerationChanged : StalenessFlag := N.shiftl 1 2.
Definition FirmwareGenerationChanged : StalenessFlag := N.shiftl 1 3.
Definition RuntimeGenerationChanged : StalenessFlag := N.shiftl 1 4.
Definition PlatformGenerationChanged : StalenessFlag := N.shiftl 1 5.
Definition PublisherFenced : StalenessFlag := N.shiftl 1 6.
Definition EpochSuperseded : StalenessFlag := N.shiftl 1 7.
Definition SupersededByNewerEvidence : StalenessFlag := N.shiftl 1 8.
Definition Withdrawn : StalenessFlag := N.shiftl 1 9.
Definition RequiresRevalidation : StalenessFlag := N.shiftl 1 10.

Definition flag_or (a b : StalenessFlag) : StalenessFlag := N.lor a b.
Definition has_flag (flags f : StalenessFlag) : bool := negb (N.land flags f =? 0).
Definition is_stale (flags : StalenessFlag) : bool := negb (flags =? flag_None).

Definition append_reason (flags : StalenessFlag) (out : string) (entry : StalenessFlag * string) : string :=
  if has_flag flags entry.1
  then ((if out !=? EmptyString then out +:+ "," else out) +:+ entry.2)%string
  else out.

Definition describe_staleness (flags : StalenessFlag) : string :=
  if flags =? flag_None then "current"
  else foldl (append_reason flags) EmptyString
    [(DeviceGenerationSuperseded, "device-generation-superseded");
     (DeviceBootChanged, "device-boot-changed");
     (DriverGenerationChanged, "driver-generation-changed");
     (FirmwareGenerationChanged, "firmware-generation-changed");
     (RuntimeGenerationChanged, "runtime-generation-changed");
     (PlatformGenerationChanged, "platform-generation-changed");
     (PublisherFenced, "publisher-fenced");
     (EpochSuperseded, "epoch-superseded");
     (SupersededByNewerEvidence, "superseded-by-newer-evidence");
     (Withdrawn, "withdrawn");
     (RequiresRevalidation, "requires-revalidation")].

Definition staleness_code (flags : StalenessFlag) : string :=
  if flags =? 0 then "current"
  else if has_flag flags Withdrawn then "withdrawn"
  else if has_flag flags RequiresRevalidation then "revalidation-required"
  else if has_flag flags DeviceGenerationSuperseded then "stale-device-generation"
  else if has_flag flags DeviceBootChanged then "stale-device-boot"
  else if has_flag flags DriverGenerationChanged then "stale-driver-generation"
  else if has_flag flags FirmwareGenerationChanged then "stale-firmware-generation"
  else if has_flag flags RuntimeGenerationChanged then "stale-runtime-generation"
  else if has_flag flags PlatformGenerationChanged then "stale-platform-generation"
  else if has_flag flags PublisherFenced then "publisher-fenced"
  else if has_flag flags EpochSuperseded then "stale-epoch"
  else "superseded".

(* ===================================================================== *)
(** ** Lemmas *)

Lemma has_flag_or a b f : has_flag (flag_or a b) f = has_flag a f || has_flag b f.
Proof.
  unfold has_flag, flag_or. rewrite N.land_lor_distr_l, <- negb_andb. f_equal.
  apply eq_true_iff_eq. rewrite andb_true_iff, !N.eqb_eq. apply N.lor_eq_0_iff.
Qed.

Lemma is_stale_or a b : is_stale (flag_or a b) = is_stale a || is_stale b.
Proof.
  unfold is_stale, flag_or, flag_None. rewrite <- negb_andb. f_equal.
  apply eq_true_iff_eq. rewrite andb_true_iff, !N.eqb_eq. apply N.lor_eq_0_iff.
Qed.

Lemma is_stale_has_flag flags f : has_flag flags f = true -> is_stale flags = true.
Proof.
  unfold has_flag, is_stale, flag_None. rewrite !negb_true_iff, !N.eqb_neq.
  intros H ->. by rewrite N.land_0_l in H.
Qed.

Lemma is_stale_false flags : is_stale flags = false <-> flags = flag_None.
Proof. unfold is_stale. by rewrite negb_false_iff, N.eqb_eq. Qed.

#[export] Hint Rewrite has_flag_or is_stale_or : hcr_rw.

(** Equal up to letter case: equally found. *)
Lemma scan_table_ci {A} text1 text2 (entries : list (string * A)) :
  equals_ascii_ci text1 text2 = true -> scan_table text1 entries = scan_table text2 entries.
Proof.
  intros Heq%equals_ascii_ci_spec. induction entries as [|[name v] entries IH]; cbn; [done|].
  rewrite IH. replace (equals_ascii_ci text2 name) with (equals_ascii_ci text1 name); [done|].
  apply eq_true_iff_eq. by rewrite !equals_ascii_ci_spec, Heq.
Qed.

(** A hit is a listed value under a name that differs only in case. *)
Lemma scan_values_sound {A} (name : A -> string) text values v :
  scan_values name text values = Some v -> v ∈ values /\ equals_ascii_ci text (name v) = true.
Proof.
  unfold scan_values. induction values as [|w values IH]; cbn; [done|].
  destruct (equals_ascii_ci text (name w)) eqn:E.
  - intros [= <-]. split; [left|done].
  - intros [H1 H2]%IH. split; [by right|done].
Qed.

Lemma source_authority_inj a b : source_authority a = source_authority b -> a = b.
Proof. by destruct a, b. Qed.

Lemma provenance_strength_inj a b : provenance_strength a = provenance_strength b -> a = b.
Proof. by destruct a, b. Qed.

(* ===================================================================== *)
(** ** Properties *)

(** The textual names of support states, precisions, source classes and
    provenance classes are parsed back to the value they render, in any
    letter case. *)
Theorem enum_names_round_trip text :
  (forall x, equals_ascii_ci text (support_state_to_string x) = true ->
     support_state_from_string text = Some x) /\
  (forall x, equals_ascii_ci text (precision_class_to_string x) = true ->
     precision_class_from_string text = Some x) /\
  (forall x, equals_ascii_ci text (source_class_to_string x) = true ->
     source_class_from_string text = Some x) /\
  (forall x, equals_ascii_ci text (provenance_class_to_string x) = true ->
     provenance_class_from_string text = Some x).
Proof.
  unfold support_state_from_string, precision_class_from_string, source_class_from_string,
    provenance_class_from_string, scan_values.
  split; [|split; [|split]]; intros x H; rewrite (scan_table_ci _ _ _ H); by destruct x.
Qed.

(** The provenance policy: a source class may not claim a provenance
    stronger than the one it implies, so only live sources publish real
    provenance, the synthetic backend publishes only synthetic facts, and
    every other source class outranks the synthetic backend. *)
Theorem provenance_policy p s :
  (provenance_allowed_for p s = true -> provenance_is_real p = true ->
     provenance_is_real (default_provenance_for s) = true /\ s <> SourceClass.SyntheticBackend) /\
  (provenance_allowed_for p SourceClass.SyntheticBackend = true -> p = ProvenanceClass.Synthetic) /\
  (s <> SourceClass.SyntheticBackend ->
     (source_authority SourceClass.SyntheticBackend < source_authority s)%Z) /\
  (provenance_is_real p = true -> provenance_is_durable p = false) /\
  provenance_allowed_for (default_provenance_for s) s = true.
Proof.
  split; [|split; [|split; [|split]]].
  - by destruct s, p.
  - by destruct p.
  - destruct s; cbn; try lia. by intros [].
  - by destruct p.
  - unfold provenance_allowed_for. apply Z.leb_refl.
Qed.
