(* ===== verification/Conditions.v ===== *)
(** * Conditions

    Models [condition.hpp]/[condition.cpp]: condition trees, their iterative
    structural validation, their rendering, the environment they are evaluated
    in and the three-valued evaluation with its evidence trail. *)

From S2P Require Import Prelude Tokens Versions Support.

Module ConditionKind.
Inductive ConditionKind :=
  | Always | MinDriverVersion | MinFirmwareVersion | MinRuntimeVersion | MinPlatformGeneration
  | RequiredOs | RequiredKernelVersion | RequiredDeviceMode | RequiredTopology |
  RequiredPeerHardware | RequiredPartitionState | RequiredPlatformSetting | RequiredPrivilege |
  RequiredDeviceGeneration | RequiredFeatureGate | AllOf | AnyOf | Not.

#[global] Instance ConditionKind_eq_dec : EqDecision ConditionKind.
Proof. solve_decision. Defined.

#[global] Program Instance ConditionKind_enum : CppEnum ConditionKind := {|
  enum_values := [Always; MinDriverVersion; MinFirmwareVersion; MinRuntimeVersion;
    MinPlatformGeneration; RequiredOs; RequiredKernelVersion; RequiredDeviceMode;
    RequiredTopology; RequiredPeerHardware; RequiredPartitionState; RequiredPlatformSetting;
    RequiredPrivilege; RequiredDeviceGeneration; RequiredFeatureGate; AllOf; AnyOf; Not]
|}.
Solve Obligations with solve_enum.
End ConditionKind.
Abbreviation ConditionKind := ConditionKind.ConditionKind.

Module ConditionOutcome.
Inductive ConditionOutcome :=
  | Satisfied | Unsatisfied | Unknown | NotApplicable.

#[global] Instance ConditionOutcome_eq_dec : EqDecision ConditionOutcome.
Proof. solve_decision. Defined.

#[global] Program Instance ConditionOutcome_enum : CppEnum ConditionOutcome := {|
  enum_values := [Satisfied; Unsatisfied; Unknown; NotApplicable]
|}.
Solve Obligations with solve_enum.
End ConditionOutcome.
Abbreviation ConditionOutcome := ConditionOutcome.ConditionOutcome.

Definition condition_kind_to_string (kind : ConditionKind) : string :=
  match kind with
  | ConditionKind.Always => "always"
  | ConditionKind.MinDriverVersion => "min-driver-version"
  | ConditionKind.MinFirmwareVersion => "min-firmware-version"
  | ConditionKind.MinRuntimeVersion => "min-runtime-version"
  | ConditionKind.MinPlatformGeneration => "min-platform-generation"
  | ConditionKind.RequiredOs => "required-os"
  | ConditionKind.RequiredKernelVersion => "required-kernel-version"
  | ConditionKind.RequiredDeviceMode => "required-device-mode"
  | ConditionKind.RequiredTopology => "required-topology"
  | ConditionKind.RequiredPeerHardware => "required-peer-hardware"
  | ConditionKind.RequiredPartitionState => "required-partition-state"
  | ConditionKind.RequiredPlatformSetting => "required-platform-setting"
  | ConditionKind.RequiredPrivilege => "required-privilege"
  | ConditionKind.RequiredDeviceGeneration => "required-device-generation"
  | ConditionKind.RequiredFeatureGate => "required-feature-gate"
  | ConditionKind.AllOf => "all-of"
  | ConditionKind.AnyOf => "any-of"
  | ConditionKind.Not => "not"
  end.

Definition condition_kind_from_string (text : string) : option ConditionKind :=
  scan_values condition_kind_to_string text (enum_upto ConditionKind.Not).

Definition condition_outcome_to_string (outcome : ConditionOutcome) : string :=
  match outcome with
  | ConditionOutcome.Satisfied => "satisfied"
  | ConditionOutcome.Unsatisfied => "unsatisfied"
  | ConditionOutcome.Unknown => "unknown"
  | ConditionOutcome.NotApplicable => "not-applicable"
  end.

Definition is_comparison_kind (kind : ConditionKind) : bool :=
  match kind with
  | ConditionKind.MinDriverVersion | ConditionKind.MinFirmwareVersion
  | ConditionKind.MinRuntimeVersion | ConditionKind.MinPlatformGeneration
  | ConditionKind.RequiredKernelVersion => true
  | _ => false
  end.

Definition is_equality_kind (kind : ConditionKind) : bool :=
  match kind with
  | ConditionKind.RequiredOs | ConditionKind.RequiredDeviceMode | ConditionKind.RequiredTopology
  | ConditionKind.RequiredPeerHardware | ConditionKind.RequiredPartitionState
  | ConditionKind.RequiredPrivilege | ConditionKind.RequiredDeviceGeneration => true
  | _ => false
  end.

(** [ConditionNode]; a child is a [shared_ptr], [None] when null. *)
#[warnings="-register-all"]
Inductive ConditionNode :=
  | Condition (kind : ConditionKind) (key value : string) (children : list (option ConditionNode)).

Definition cond_kind (n : ConditionNode) : ConditionKind := let '(Condition k _ _ _) := n in k.
Definition cond_key (n : ConditionNode) : string := let '(Condition _ k _ _) := n in k.
Definition cond_value (n : ConditionNode) : string := let '(Condition _ _ v _) := n in v.
Definition cond_children (n : ConditionNode) : list (option ConditionNode) := let '(Condition _ _ _ c) := n in c.

Abbreviation ConditionPtr := (option ConditionNode).

Definition kDriverVersion : string := "driver.version".
Definition kFirmwareVersion : string := "firmware.version".
Definition kRuntimeVersion : string := "runtime.version".
Definition kPlatformGeneration : string := "platform.generation".
Definition kOs : string := "os.name".
Definition kKernelVersion : string := "kernel.version".
Definition kDeviceMode : string := "device.mode".
Definition kTopology : string := "topology".
Definition kPeerHardware : string := "peer.hardware".
Definition kPartitionState : string := "partition.state".
Definition kPrivilege : string := "privilege".
Definition kDeviceGeneration : string := "device.generation".
Definition kPlatformSettingPrefix : string := "platform.setting.".
Definition kFeatureGatePrefix : string := "feature.gate.".

(* ===================================================================== *)
(** ** Validation: an explicit stack, most recently pushed node first *)

Definition is_empty (s : string) : bool := s ==? EmptyString.

(** The per-kind checks of one node. *)
Definition validate_condition_kind (current : ConditionNode) : Status :=
  match cond_kind current with
  | ConditionKind.AllOf | ConditionKind.AnyOf =>
      return_if lengthN (cond_children current) =? 0
        failing InvalidCondition "logical condition requires children";
      return_if negb (is_empty (cond_key current)) || negb (is_empty (cond_value current))
        failing InvalidCondition "logical condition must not carry key or value";
      success
  | ConditionKind.Not =>
      return_if negb (lengthN (cond_children current) =? 1)
        failing InvalidCondition "not requires exactly one child";
      success
  | ConditionKind.Always =>
      return_if negb (lengthN (cond_children current) =? 0)
        failing InvalidCondition "always must not have children";
      success
  | ConditionKind.RequiredFeatureGate =>
      return_if is_empty (cond_key current)
        failing InvalidCondition "feature gate condition requires a gate name";
      success
  | ConditionKind.RequiredPlatformSetting =>
      return_if is_empty (cond_key current) || is_empty (cond_value current)
        failing InvalidCondition "platform setting condition requires name and value";
      success
  | _ =>
      return_if is_empty (cond_value current)
        failing InvalidCondition "condition requires a value";
      return_if is_comparison_kind (cond_kind current) && negb (is_parseable (cond_value current))
        failing InvalidCondition "version comparison requires a parseable version";
      return_if is_equality_kind (cond_kind current) && negb (lengthN (cond_children current) =? 0)
        failing InvalidCondition "leaf condition must not have children";
      success
  end.

(** The size checks of one node followed by the per-kind checks. *)
Definition validate_condition_node (current : ConditionNode) (limits : RegistryLimits) : Status :=
  return_if max_condition_children limits <? lengthN (cond_children current)
    failing LimitExceeded "condition node exceeds child limit";
  return_if (max_name_length limits <? strlen (cond_key current)) ||
            (max_name_length limits <? strlen (cond_value current))
    failing LimitExceeded "condition key or value exceeds length limit";
  validate_condition_kind current.

Definition push_children (children : list (option ConditionNode)) (depth : N)
    (stack : list (option ConditionNode * N)) : list (option ConditionNode * N) :=
  foldl (fun st child => (child, depth) :: st) stack children.

(** The [while] loop; [None] when the fuel runs out ([validate_loop_total]
    shows it does not). *)
Fixpoint validate_loop (fuel : nat) (limits : RegistryLimits)
    (stack : list (option ConditionNode * N)) (visited : N) : option Status :=
  match stack with
  | [] => Some success
  | (node, depth) :: rest =>
      match fuel with
      | O => None
      | S fuel' =>
          let visited := visited + 1 in
          if max_condition_nodes limits <? visited
          then Some (failure LimitExceeded "condition tree exceeds node limit")
          else if wrap64 (max_record_depth limits + 2) <? depth
          then Some (failure LimitExceeded "condition tree exceeds depth limit")
          else match node with
          | None => Some (failure InvalidCondition "null condition node")
          | Some current =>
              let s := validate_condition_node current limits in
              if negb (status_ok s) then Some s
              else validate_loop fuel' limits (push_children (cond_children current) (depth + 1) rest) visited
          end
      end
  end.

(** The loop visits at most [max_condition_nodes + 1] nodes. *)
Definition validate_fuel (limits : RegistryLimits) : nat := S (N.to_nat (max_condition_nodes limits)).

Definition is_logical_or_named_kind (kind : ConditionKind) : bool :=
  match kind with
  | ConditionKind.Always | ConditionKind.AllOf | ConditionKind.AnyOf | ConditionKind.Not
  | ConditionKind.RequiredFeatureGate | ConditionKind.RequiredPlatformSetting => true
  | _ => false
  end.

Definition validate_condition (node : ConditionNode) (limits : RegistryLimits) : Status :=
  let s := default success (validate_loop (validate_fuel limits) limits [(Some node, 1)] 0) in
  if negb (status_ok s) then s
  else if negb (is_comparison_kind (cond_kind node)) && negb (is_equality_kind (cond_kind node))
          && negb (is_logical_or_named_kind (cond_kind node))
  then failure InvalidCondition "unknown condition kind"
  else success.

(* ===================================================================== *)
(** ** Rendering *)

(** [children.front()] of a negation without children is undefined in C++
    and rendered (and evaluated) here like a null child; validation excludes
    both ([validated_negation_child]). *)
Fixpoint describe_node (node : ConditionNode) : string :=
  let '(Condition kind key value children) := node in
  let describe_ptr p := match p with None => "always"%string | Some n => describe_node n end in
  match kind with
  | ConditionKind.Always => "always"
  | ConditionKind.AllOf => "all_of(" +:+ String.concat ", " (map describe_ptr children) +:+ ")"
  | ConditionKind.AnyOf => "any_of(" +:+ String.concat ", " (map describe_ptr children) +:+ ")"
  | ConditionKind.Not =>
      "not(" +:+ match children with [] => "always" | c :: _ => describe_ptr c end +:+ ")"
  | ConditionKind.MinDriverVersion => kDriverVersion +:+ ">=" +:+ value
  | ConditionKind.MinFirmwareVersion => kFirmwareVersion +:+ ">=" +:+ value
  | ConditionKind.MinRuntimeVersion => kRuntimeVersion +:+ ">=" +:+ value
  | ConditionKind.MinPlatformGeneration => kPlatformGeneration +:+ ">=" +:+ value
  | ConditionKind.RequiredOs => kOs +:+ "==" +:+ value
  | ConditionKind.RequiredKernelVersion => kKernelVersion +:+ ">=" +:+ value
  | ConditionKind.RequiredDeviceMode => kDeviceMode +:+ "==" +:+ value
  | ConditionKind.RequiredTopology => kTopology +:+ "==" +:+ value
  | ConditionKind.RequiredPeerHardware => kPeerHardware +:+ "==" +:+ value
  | ConditionKind.RequiredPartitionState => kPartitionState +:+ "==" +:+ value
  | ConditionKind.RequiredPrivilege => kPrivilege +:+ "==" +:+ value
  | ConditionKind.RequiredDeviceGeneration => kDeviceGeneration +:+ ">=" +:+ value
  | ConditionKind.RequiredPlatformSetting => kPlatformSettingPrefix +:+ key +:+ "==" +:+ value
  | ConditionKind.RequiredFeatureGate => kFeatureGatePrefix +:+ key +:+ "==present"
  end%string.

Definition describe_condition (node : ConditionPtr) : string :=
  match node with None => "always" | Some n => describe_node n end.

(* ===================================================================== *)
(** ** Environments *)

Abbreviation EnvironmentContext := (gmap string string).

Definition env_set (env : EnvironmentContext) (key value : string) : EnvironmentContext :=
  <[ascii_lower key := ascii_lower value]> env.

Definition env_find (env : EnvironmentContext) (key : string) : option string := env !! key.

Definition env_has (env : EnvironmentContext) (key : string) : bool := bool_decide (is_Some (env !! key)).

Definition env_set_platform_setting (env : EnvironmentContext) (name value : string) : EnvironmentContext :=
  env_set env (kPlatformSettingPrefix +:+ name)%string value.

Definition env_add_feature_gate (env : EnvironmentContext) (gate : string) : EnvironmentContext :=
  env_set env (kFeatureGatePrefix +:+ gate)%string "present".

(* ===================================================================== *)
(** ** [std::stoull]

    Leading white space, an optional sign, a decimal prefix; [None] for the
    exceptions [invalid_argument] and [out_of_range]. A minus sign negates
    modulo [2^64]. *)

Definition is_space (c : ascii) : bool :=
  let n := N_of_ascii c in (n =? 32) || ((9 <=? n) && (n <=? 13)).

Fixpoint skip_spaces (text : list ascii) : list ascii :=
  match text with
  | c :: rest => if is_space c then skip_spaces rest else text
  | [] => []
  end.

Fixpoint digit_prefix (text : list ascii) : list N :=
  match text with
  | c :: rest => if is_digit c then digit_value c :: digit_prefix rest else []
  | [] => []
  end.

Definition decimal_value (digits : list N) : N := foldl (fun acc d => acc * 10 + d) 0 digits.

Definition stoull (text : string) : option N :=
  let text := skip_spaces (list_ascii_of_string text) in
  let '(negative, text) :=
    match text with
    | c :: rest => if Ascii.eqb c "-" then (true, rest) else if Ascii.eqb c "+" then (false, rest) else (false, text)
    | [] => (false, [])
    end in
  match digit_prefix text with
  | [] => None
  | digits =>
      let magnitude := decimal_value digits in
      if u64_max <? magnitude then None
      else Some (if negative : bool then wrap64 (u64_modulus - magnitude) else magnitude)
  end.

(* ===================================================================== *)
(** ** Evaluation *)

Record ConditionEvidence := mk_ConditionEvidence {
  ce_expression : string;
  ce_outcome : ConditionOutcome;
  ce_detail : string
}.

#[global] Instance ConditionEvidence_eq_dec : EqDecision ConditionEvidence.
Proof. solve_decision. Defined.

Record ConditionEvaluation := mk_ConditionEvaluation {
  outcome : ConditionOutcome;
  evidence : list ConditionEvidence
}.

#[global] Instance ConditionEvaluation_eq_dec : EqDecision ConditionEvaluation.
Proof. solve_decision. Defined.

Definition decisive (e : ConditionEvaluation) : bool :=
  (outcome e ==? ConditionOutcome.Satisfied) || (outcome e ==? ConditionOutcome.Unsatisfied).

(** A leaf sets the outcome and records it once. *)
Definition leaf (node : ConditionNode) (o : ConditionOutcome) (detail : string) : ConditionEvaluation :=
  mk_ConditionEvaluation o [mk_ConditionEvidence (describe_node node) o detail].

Definition evaluate_version_minimum (node : ConditionNode) (env : EnvironmentContext) (key : string) : ConditionEvaluation :=
  match env_find env key with
  | None => leaf node ConditionOutcome.Unknown ("no observed " +:+ key)
  | Some observed =>
      let required := version_parse (cond_value node) in
      let actual := version_parse observed in
      if negb (version_valid required) || negb (version_valid actual)
      then leaf node ConditionOutcome.Unknown "unparseable version"
      else if (0 <=? version_compare actual required)%Z
      then leaf node ConditionOutcome.Satisfied (key +:+ "=" +:+ raw actual)
      else leaf node ConditionOutcome.Unsatisfied
             (key +:+ "=" +:+ raw actual +:+ " < required " +:+ raw required)
  end%string.

Definition evaluate_equality (node : ConditionNode) (env : EnvironmentContext) (key : string) : ConditionEvaluation :=
  match env_find env key with
  | None => leaf node ConditionOutcome.Unknown ("no observed " +:+ key)
  | Some observed =>
      if equals_ascii_ci observed (cond_value node)
      then leaf node ConditionOutcome.Satisfied (key +:+ "=" +:+ observed)
      else leaf node ConditionOutcome.Unsatisfied
             (key +:+ "=" +:+ observed +:+ " != required " +:+ cond_value node)
  end%string.

Definition evaluate_generation_minimum (node : ConditionNode) (env : EnvironmentContext) (key : string) : ConditionEvaluation :=
  match env_find env key with
  | None => leaf node ConditionOutcome.Unknown ("no observed " +:+ key)%string
  | Some observed =>
      match stoull (cond_value node) with
      | None => leaf node ConditionOutcome.Unknown "unparseable generation requirement"
      | Some required =>
          match stoull observed with
          | None => leaf node ConditionOutcome.Unknown "unparseable observed generation"
          | Some actual =>
              if required <=? actual
              then leaf node ConditionOutcome.Satisfied (key +:+ "=" +:+ pretty actual)%string
              else leaf node ConditionOutcome.Unsatisfied
                     (key +:+ "=" +:+ pretty actual +:+ " < required " +:+ cond_value node)%string
          end
      end
  end.

Definition evaluate_platform_setting (node : ConditionNode) (env : EnvironmentContext) : ConditionEvaluation :=
  let full_key := (kPlatformSettingPrefix +:+ cond_key node)%string in
  match env_find env full_key with
  | None => leaf node ConditionOutcome.Unknown "platform setting not supplied"
  | Some observed =>
      if equals_ascii_ci observed (cond_value node)
      then leaf node ConditionOutcome.Satisfied (full_key +:+ "=" +:+ observed)
      else leaf node ConditionOutcome.Unsatisfied
             (full_key +:+ "=" +:+ observed +:+ " != required " +:+ cond_value node)
  end%string.

Definition evaluate_feature_gate (node : ConditionNode) (env : EnvironmentContext) : ConditionEvaluation :=
  let full_key := (kFeatureGatePrefix +:+ cond_key node)%string in
  if env_has env full_key
  then leaf node ConditionOutcome.Satisfied (full_key +:+ " present")%string
  else leaf node ConditionOutcome.Unsatisfied (full_key +:+ " absent")%string.

(** The second [switch]: the leaf kinds. *)
Definition evaluate_leaf (node : ConditionNode) (env : EnvironmentContext) : ConditionEvaluation :=
  match cond_kind node with
  | ConditionKind.MinDriverVersion => evaluate_version_minimum node env kDriverVersion
  | ConditionKind.MinFirmwareVersion => evaluate_version_minimum node env kFirmwareVersion
  | ConditionKind.MinRuntimeVersion => evaluate_version_minimum node env kRuntimeVersion
  | ConditionKind.RequiredKernelVersion => evaluate_version_minimum node env kKernelVersion
  | ConditionKind.MinPlatformGeneration => evaluate_generation_minimum node env kPlatformGeneration
  | ConditionKind.RequiredDeviceGeneration => evaluate_generation_minimum node env kDeviceGeneration
  | ConditionKind.RequiredOs => evaluate_equality node env kOs
  | ConditionKind.RequiredDeviceMode => evaluate_equality node env kDeviceMode
  | ConditionKind.RequiredTopology => evaluate_equality node env kTopology
  | ConditionKind.RequiredPeerHardware => evaluate_equality node env kPeerHardware
  | ConditionKind.RequiredPartitionState => evaluate_equality node env kPartitionState
  | ConditionKind.RequiredPrivilege => evaluate_equality node env kPrivilege
  | ConditionKind.RequiredPlatformSetting => evaluate_platform_setting node env
  | ConditionKind.RequiredFeatureGate => evaluate_feature_gate node env
  | _ => leaf node ConditionOutcome.Unknown "unsupported condition kind"
  end.

Definition has_outcome (o : ConditionOutcome) (evaluations : list ConditionEvaluation) : bool :=
  existsb (fun e => outcome e ==? o) evaluations.

Definition all_evidence (evaluations : list ConditionEvaluation) : list ConditionEvidence :=
  concat (map evidence evaluations).

Definition all_of (evaluations : list ConditionEvaluation) : ConditionEvaluation :=
  mk_ConditionEvaluation
    (if has_outcome ConditionOutcome.Unsatisfied evaluations then ConditionOutcome.Unsatisfied
     else if has_outcome ConditionOutcome.Unknown evaluations then ConditionOutcome.Unknown
     else ConditionOutcome.Satisfied)
    (all_evidence evaluations).

Definition any_of (evaluations : list ConditionEvaluation) : ConditionEvaluation :=
  mk_ConditionEvaluation
    (if has_outcome ConditionOutcome.Satisfied evaluations then ConditionOutcome.Satisfied
     else if has_outcome ConditionOutcome.Unknown evaluations then ConditionOutcome.Unknown
     else ConditionOutcome.Unsatisfied)
    (all_evidence evaluations).

Definition negate_outcome (o : ConditionOutcome) : ConditionOutcome :=
  match o with
  | ConditionOutcome.Satisfied => ConditionOutcome.Unsatisfied
  | ConditionOutcome.Unsatisfied => ConditionOutcome.Satisfied
  | ConditionOutcome.Unknown => ConditionOutcome.Unknown
  | ConditionOutcome.NotApplicable => ConditionOutcome.NotApplicable
  end.

Definition not_applicable : ConditionEvaluation := mk_ConditionEvaluation ConditionOutcome.NotApplicable [].

Fixpoint evaluate_node (env : EnvironmentContext) (node : ConditionNode) : ConditionEvaluation :=
  let evaluate_ptr p := match p with None => not_applicable | Some n => evaluate_node env n end in
  match node with
  | Condition ConditionKind.Always _ _ _ =>
      mk_ConditionEvaluation ConditionOutcome.Satisfied
        [mk_ConditionEvidence "always" ConditionOutcome.Satisfied "unconditional"]
  | Condition ConditionKind.AllOf _ _ children => all_of (map evaluate_ptr children)
  | Condition ConditionKind.AnyOf _ _ children => any_of (map evaluate_ptr children)
  | Condition ConditionKind.Not _ _ children =>
      let evaluation := match children with [] => not_applicable | c :: _ => evaluate_ptr c end in
      mk_ConditionEvaluation (negate_outcome (outcome evaluation)) (evidence evaluation)
  | _ => evaluate_leaf node env
  end.

Definition evaluate_condition (node : ConditionPtr) (env : EnvironmentContext) : ConditionEvaluation :=
  match node with
  | None => not_applicable
  | Some n => evaluate_node env n
  end.

(* ===================================================================== *)
(** ** Induction over condition trees *)

Section ConditionInd.
Variable P : ConditionNode -> Prop.
Hypothesis step : forall kind key value children,
  Forall (from_option P True) children -> P (Condition kind key value children).

Fixpoint ConditionNode_nested_ind (node : ConditionNode) : P node :=
  match node with
  | Condition kind key value children =>
      step kind key value children
        ((fix go (l : list (option ConditionNode)) : Forall (from_option P True) l :=
            match l with
            | [] => @List.Forall_nil _ (from_option P True)
            | c :: l' => @List.Forall_cons _ (from_option P True) c l'
                (match c return from_option P True c with
                 | Some n => ConditionNode_nested_ind n
                 | None => I
                 end) (go l')
            end) children)
  end.
End ConditionInd.

(* ===================================================================== *)
(** ** Reference specification of validation *)

Definition sumN (l : list N) : N := foldr N.add 0 l.

Fixpoint count_nodes (node : ConditionNode) : N :=
  let '(Condition _ _ _ children) := node in
  1 + sumN (map (fun c => match c with None => 1 | Some n => count_nodes n end) children).

Definition count_ptr (p : ConditionPtr) : N := match p with None => 1 | Some n => count_nodes n end.

Fixpoint well_formed_at (limits : RegistryLimits) (depth : N) (node : ConditionNode) : bool :=
  (depth <=? wrap64 (max_record_depth limits + 2)) &&
  status_ok (validate_condition_node node limits) &&
  let '(Condition _ _ _ children) := node in
  forallb (fun c => match c with None => false | Some n => well_formed_at limits (depth + 1) n end) children.

Definition well_formed_ptr (limits : RegistryLimits) (p : ConditionPtr * N) : bool :=
  match p.1 with None => false | Some n => well_formed_at limits p.2 n end.

(** A tree within the node and depth limits, without null children, all of
    whose nodes pass the per-node checks. *)
Definition condition_well_formed (limits : RegistryLimits) (node : ConditionNode) : bool :=
  well_formed_at limits 1 node && (count_nodes node <=? max_condition_nodes limits).

(** No node consults a feature gate. *)
Fixpoint gate_free (node : ConditionNode) : bool :=
  let '(Condition kind _ _ children) := node in
  (kind !=? ConditionKind.RequiredFeatureGate) &&
  forallb (fun c => match c with None => true | Some n => gate_free n end) children.

(* ===================================================================== *)
(** ** Lemmas on validation *)

Lemma sumN_app l1 l2 : sumN (l1 ++ l2) = sumN l1 + sumN l2.
Proof. unfold sumN. induction l1 as [|x l1 IH]; cbn; [done|]. rewrite IH. lia. Qed.

Lemma sumN_perm l1 l2 : l1 ≡ₚ l2 -> sumN l1 = sumN l2.
Proof. unfold sumN. induction 1; cbn; lia. Qed.

Lemma push_children_perm children depth stack :
  push_children children depth stack ≡ₚ map (fun c => (c, depth)) children ++ stack.
Proof.
  unfold push_children. revert stack. induction children as [|c children IH]; intros stack; cbn; [done|].
  rewrite IH. apply Permutation_sym, Permutation_middle.
Qed.

Definition stack_count (stack : list (ConditionPtr * N)) : N := sumN (map (fun p => count_ptr p.1) stack).

Lemma stack_count_push children depth stack :
  stack_count (push_children children depth stack) = sumN (map count_ptr children) + stack_count stack.
Proof.
  unfold stack_count. rewrite (sumN_perm _ _ (Permutation_map _ (push_children_perm children depth stack))).
  by rewrite map_app, sumN_app, map_map.
Qed.

Lemma well_formed_push limits children depth stack :
  Forall (fun p => well_formed_ptr limits p = true) (push_children children depth stack) <->
  forallb (fun c => match c with None => false | Some n => well_formed_at limits depth n end) children = true /\
  Forall (fun p => well_formed_ptr limits p = true) stack.
Proof.
  rewrite push_children_perm, Forall_app. f_equiv.
  induction children as [|c children IH]; cbn; [split; [done|constructor]|].
  rewrite Forall_cons, IH, andb_true_iff. done.
Qed.

Lemma well_formed_at_eq limits depth node :
  well_formed_at limits depth node = true <->
  depth <= wrap64 (max_record_depth limits + 2) /\
  status_ok (validate_condition_node node limits) = true /\
  forallb (fun c => match c with None => false | Some n => well_formed_at limits (depth + 1) n end)
    (cond_children node) = true.
Proof. destruct node. cbn -[validate_condition_node]. rewrite !andb_true_iff, N.leb_le. tauto. Qed.

Lemma count_nodes_eq node : count_nodes node = 1 + sumN (map count_ptr (cond_children node)).
Proof. by destruct node. Qed.

Lemma count_ptr_pos p : 1 <= count_ptr p.
Proof. destruct p as [n|]; cbn; [|lia]. rewrite count_nodes_eq. lia. Qed.

(** The loop returns, and accepts exactly the well-formed stacks. *)
Lemma validate_loop_spec fuel limits stack visited :
  visited <= max_condition_nodes limits ->
  (S (N.to_nat (max_condition_nodes limits)) <= fuel + N.to_nat visited)%nat ->
  exists s, validate_loop fuel limits stack visited = Some s /\
    (status_ok s = true <->
     Forall (fun p => well_formed_ptr limits p = true) stack /\
     visited + stack_count stack <= max_condition_nodes limits).
Proof.
  revert stack visited. induction fuel as [|fuel IH]; intros stack visited Hv Hf; [lia|].
  destruct stack as [|[node depth] rest]; cbn [validate_loop].
  { exists success. split; [done|]. unfold stack_count. cbn. split; [|done]. split; [constructor|lia]. }
  pose proof (count_ptr_pos node) as Hpos.
  assert (Hsc : stack_count ((node, depth) :: rest) = count_ptr node + stack_count rest) by done.
  rewrite Hsc. setoid_rewrite Forall_cons. clear Hsc.
  destruct (max_condition_nodes limits <? visited + 1) eqn:E1; bsimpl.
  { eexists. split; [done|]. split; [done|]. intros [_ H]. lia. }
  destruct (wrap64 (max_record_depth limits + 2) <? depth) eqn:E2; bsimpl.
  { eexists. split; [done|]. split; [done|]. intros [[H _] _]. destruct node; [|done].
    apply well_formed_at_eq in H as [H _]. cbn [fst snd] in H. lia. }
  destruct node as [current|]; [|eexists; split; [done|]; split; [done|]; by intros [[? _] _]].
  unfold well_formed_ptr at 1. cbn [fst snd count_ptr].
  setoid_rewrite well_formed_at_eq. rewrite count_nodes_eq.
  destruct (status_ok (validate_condition_node current limits)) eqn:E3; cbn [negb].
  - destruct (IH (push_children (cond_children current) (depth + 1) rest) (visited + 1)) as (s & Hs & Hok);
      [lia|lia|]. exists s. split; [done|]. rewrite Hok, well_formed_push, stack_count_push.
    split; intros; repeat split; try tauto; lia.
  - eexists. split; [done|]. rewrite E3. split; [done|]. naive_solver.
Qed.

Lemma kind_known kind :
  is_comparison_kind kind || is_equality_kind kind || is_logical_or_named_kind kind = true.
Proof. by destruct kind. Qed.

(* ===================================================================== *)
(** ** Lemmas on evaluation *)

Lemma has_outcome_spec o l : has_outcome o l = true <-> exists e, e ∈ l /\ outcome e = o.
Proof.
  unfold has_outcome. rewrite existsb_exists. setoid_rewrite eqb_true.
  by setoid_rewrite list_elem_of_In.
Qed.

Lemma evaluate_node_eq env node :
  evaluate_node env node =
  match cond_kind node with
  | ConditionKind.Always =>
      mk_ConditionEvaluation ConditionOutcome.Satisfied
        [mk_ConditionEvidence "always" ConditionOutcome.Satisfied "unconditional"]
  | ConditionKind.AllOf => all_of (map (fun c => evaluate_condition c env) (cond_children node))
  | ConditionKind.AnyOf => any_of (map (fun c => evaluate_condition c env) (cond_children node))
  | ConditionKind.Not =>
      let evaluation := match cond_children node with [] => not_applicable | c :: _ => evaluate_condition c env end in
      mk_ConditionEvaluation (negate_outcome (outcome evaluation)) (evidence evaluation)
  | _ => evaluate_leaf node env
  end.
Proof. by destruct node as [[] ? ? ?]. Qed.

Lemma leaf_outcome node o detail : outcome (leaf node o detail) = o.
Proof. done. Qed.

Lemma validated_negation_child limits depth node :
  well_formed_at limits depth node = true -> cond_kind node = ConditionKind.Not ->
  exists child, cond_children node = [Some child].
Proof.
  intros (_ & Hn & Hc)%well_formed_at_eq Hk.
  unfold validate_condition_node, validate_condition_kind in Hn. rewrite Hk in Hn. accepts Hn.
  apply negb_false_iff, N.eqb_eq in Hg1. unfold lengthN in Hg1.
  destruct (cond_children node) as [|[c|] [|]]; try (cbn in Hg1; lia); [by exists c|done].
Qed.

Lemma evaluate_leaf_applicable node env : outcome (evaluate_leaf node env) <> ConditionOutcome.NotApplicable.
Proof.
  unfold evaluate_leaf, evaluate_version_minimum, evaluate_equality, evaluate_generation_minimum,
    evaluate_platform_setting, evaluate_feature_gate.
  split_ifs; cbn; congruence.
Qed.

Lemma all_of_applicable l : outcome (all_of l) <> ConditionOutcome.NotApplicable.
Proof. unfold all_of, any_of. cbn. by split_ifs. Qed.

Lemma any_of_applicable l : outcome (any_of l) <> ConditionOutcome.NotApplicable.
Proof. unfold all_of, any_of. cbn. by split_ifs. Qed.

Lemma well_formed_applicable limits env node : forall depth,
  well_formed_at limits depth node = true ->
  outcome (evaluate_node env node) <> ConditionOutcome.NotApplicable.
Proof.
  induction node as [kind key value children IH] using ConditionNode_nested_ind. intros depth Hw.
  rewrite evaluate_node_eq. pose proof (evaluate_leaf_applicable (Condition kind key value children) env) as Hl.
  destruct kind; try exact Hl; [done|apply all_of_applicable|apply any_of_applicable|].
  destruct (validated_negation_child limits depth _ Hw eq_refl) as [child Hc]. cbn in Hc |- *. subst.
  apply well_formed_at_eq in Hw as (_ & _ & Hw). cbn in Hw. rewrite andb_true_r in Hw.
  apply Forall_cons in IH as [IH _]. specialize (IH _ Hw). cbn in IH |- *.
  by destruct (outcome (evaluate_node env child)).
Qed.

(** The environment only matters through the facts a leaf looks up. *)
Lemma evaluate_leaf_mono env1 env2 node :
  env1 ⊆ env2 -> cond_kind node <> ConditionKind.RequiredFeatureGate ->
  outcome (evaluate_leaf node env1) <> ConditionOutcome.Unknown ->
  outcome (evaluate_leaf node env2) = outcome (evaluate_leaf node env1).
Proof.
  intros Hsub Hk.
  assert (Hf : forall key v, env_find env1 key = Some v -> env_find env2 key = Some v).
  { intros key v H. by eapply lookup_weaken. }
  unfold evaluate_leaf, evaluate_version_minimum, evaluate_equality, evaluate_generation_minimum,
    evaluate_platform_setting.
  destruct (cond_kind node); try done;
    (destruct (env_find env1 _) as [v|] eqn:E; [by rewrite (Hf _ _ E)|done]).
Qed.

Lemma negate_outcome_unknown o :
  negate_outcome o = ConditionOutcome.Unknown <-> o = ConditionOutcome.Unknown.
Proof. by destruct o. Qed.

(** A decided conjunction or disjunction stays decided when its decided
    members keep their outcome. *)
Lemma junction_mono {A} (f g : A -> ConditionEvaluation) (l : list A) (decisive_outcome : ConditionOutcome) :
  decisive_outcome <> ConditionOutcome.Unknown ->
  (forall x, x ∈ l -> outcome (f x) <> ConditionOutcome.Unknown -> outcome (g x) = outcome (f x)) ->
  (has_outcome decisive_outcome (map f l) = true -> has_outcome decisive_outcome (map g l) = true) /\
  (has_outcome decisive_outcome (map f l) = false -> has_outcome ConditionOutcome.Unknown (map f l) = false ->
   has_outcome decisive_outcome (map g l) = false /\ has_outcome ConditionOutcome.Unknown (map g l) = false).
Proof.
  intros Hd. induction l as [|x l IH]; intros H; cbn; [done|].
  destruct IH as [IH1 IH2]; [intros y Hy; apply H; by right|].
  pose proof (H x ltac:(left)) as Hx. split.
  - rewrite !orb_true_iff, !eqb_true. intros [E|E]; [left; rewrite Hx; congruence|right; by apply IH1].
  - rewrite !orb_false_iff, !eqb_false. intros [E1 E2] [E3 E4]. rewrite Hx by done. naive_solver.
Qed.

Lemma evaluate_node_mono env1 env2 node :
  env1 ⊆ env2 -> gate_free node = true ->
  outcome (evaluate_node env1 node) <> ConditionOutcome.Unknown ->
  outcome (evaluate_node env2 node) = outcome (evaluate_node env1 node).
Proof.
  intros Hsub. induction node as [kind key value children IH] using ConditionNode_nested_ind.
  intros Hgf. assert (Hgf' := Hgf). cbn in Hgf'. apply andb_true_iff in Hgf' as [Hk Hc]. bsimpl.
  assert (Hch : forall c, c ∈ children ->
    outcome (evaluate_condition c env1) <> ConditionOutcome.Unknown ->
    outcome (evaluate_condition c env2) = outcome (evaluate_condition c env1)).
  { intros [c|] Hin; [|done]. apply (proj1 (forallb_forall _ _)) with (x := Some c) in Hc;
      [|by apply list_elem_of_In]. rewrite Forall_forall in IH. by apply (IH (Some c)). }
  rewrite !evaluate_node_eq. clear IH Hc.
  pose proof (evaluate_leaf_mono env1 env2 (Condition kind key value children) Hsub Hk) as Hl.
  destruct kind; try exact Hl; try done; cbn [cond_kind cond_children]; unfold all_of, any_of; cbn [outcome].
  - destruct (junction_mono (fun c => evaluate_condition c env1) (fun c => evaluate_condition c env2)
      children ConditionOutcome.Unsatisfied ltac:(done) Hch) as [H1 H2].
    destruct (has_outcome ConditionOutcome.Unsatisfied (map _ children)) eqn:E1; [by rewrite H1|].
    destruct (has_outcome ConditionOutcome.Unknown (map _ children)) eqn:E2; [done|].
    by destruct (H2 eq_refl eq_refl) as [-> ->].
  - destruct (junction_mono (fun c => evaluate_condition c env1) (fun c => evaluate_condition c env2)
      children ConditionOutcome.Satisfied ltac:(done) Hch) as [H1 H2].
    destruct (has_outcome ConditionOutcome.Satisfied (map _ children)) eqn:E1; [by rewrite H1|].
    destruct (has_outcome ConditionOutcome.Unknown (map _ children)) eqn:E2; [done|].
    by destruct (H2 eq_refl eq_refl) as [-> ->].
  - destruct children as [|c children]; [done|]. rewrite negate_outcome_unknown.
    intros H. by rewrite (Hch c ltac:(left) H).
Qed.

(* ===================================================================== *)
(** ** Properties *)

(** The iterative validator terminates within its fuel and accepts
    exactly the trees that satisfy the recursive specification: node count
    and depth within the limits, no null child, every node well formed. *)
Theorem validate_condition_spec node limits :
  (exists s, validate_loop (validate_fuel limits) limits [(Some node, 1)] 0 = Some s) /\
  status_ok (validate_condition node limits) = condition_well_formed limits node.
Proof.
  destruct (validate_loop_spec (validate_fuel limits) limits [(Some node, 1)] 0) as (s & Hs & Hok);
    [lia|unfold validate_fuel; lia|]. split; [by exists s|].
  unfold validate_condition. rewrite Hs. cbn [default].
  pose proof (kind_known (cond_kind node)) as Hk. rewrite <- !negb_orb, Hk. cbn [negb].
  apply eq_true_iff_eq. unfold condition_well_formed. rewrite andb_true_iff, N.leb_le.
  assert (Hsc : stack_count [(Some node, 1)] = count_nodes node) by (unfold stack_count, sumN; cbn; lia).
  rewrite Hsc, Forall_singleton, N.add_0_l in Hok. cbn in Hok.
  rewrite <- Hok. unfold id. destruct (status_ok s) eqn:E; cbn [negb]; rewrite ?E; done.
Qed.

(** A condition the validator accepts always evaluates to one of
    satisfied, unsatisfied or unknown: neither a null child nor a negation
    without operand is ever reached. *)
Theorem validated_condition_applicable node limits env :
  status_ok (validate_condition node limits) = true ->
  outcome (evaluate_condition (Some node) env) <> ConditionOutcome.NotApplicable.
Proof.
  destruct (validate_condition_spec node limits) as [_ ->].
  intros [H _]%andb_true_iff. by apply (well_formed_applicable limits env node 1).
Qed.

(** Evaluation is monotone in the observed facts: for a condition that
    consults no feature gate, an outcome other than unknown is never revised
    when more facts are observed, so absent facts are never decisive. *)
Theorem evaluate_condition_monotone env1 env2 node :
  env1 ⊆ env2 -> gate_free node = true ->
  outcome (evaluate_condition (Some node) env1) <> ConditionOutcome.Unknown ->
  outcome (evaluate_condition (Some node) env2) = outcome (evaluate_condition (Some node) env1).
Proof. apply evaluate_node_mono. Qed.

Definition example_condition : ConditionNode :=
  Condition ConditionKind.AllOf "" ""
    [Some (Condition ConditionKind.MinDriverVersion "" "535.0" []);
     Some (Condition ConditionKind.Not "" "" [Some (Condition ConditionKind.RequiredOs "" "Windows" [])])].

Definition example_environment : EnvironmentContext :=
  env_set (env_set ∅ kDriverVersion "580.65.06") kOs "Linux".

Lemma validated_condition_applicable_witness :
  status_ok (validate_condition example_condition default_limits) = true /\
  outcome (evaluate_condition (Some example_condition) ∅) <> ConditionOutcome.NotApplicable.
Proof. split; [reflexivity|]. by apply (validated_condition_applicable _ default_limits). Defined.

Lemma evaluate_condition_monotone_witness :
  outcome (evaluate_condition (Some example_condition) (env_set example_environment "topology" "mesh")) =
  outcome (evaluate_condition (Some example_condition) example_environment).
Proof.
  apply evaluate_condition_monotone.
  - apply insert_subseteq. reflexivity.
  - reflexivity.
  - vm_compute. discriminate.
Defined.

(** Feature gates are the exception to the documented reading of absent
    facts: a gate nobody supplied is unsatisfied, and supplying it under its
    name turns the condition satisfied - provided the name has no capitals,
    because the environment folds the keys it stores but not those it looks
    up. *)
Theorem absent_feature_gate_unsatisfied env gate :
  let node := Condition ConditionKind.RequiredFeatureGate gate "" [] in
  (env !! (kFeatureGatePrefix +:+ gate)%string = None ->
   outcome (evaluate_condition (Some node) env) = ConditionOutcome.Unsatisfied) /\
  (ascii_lower gate = gate ->
   outcome (evaluate_condition (Some node) (env_add_feature_gate env gate)) = ConditionOutcome.Satisfied) /\
  (env !! (kFeatureGatePrefix +:+ gate)%string = None -> ascii_lower gate <> gate ->
   outcome (evaluate_condition (Some node) (env_add_feature_gate env gate)) = ConditionOutcome.Unsatisfied).
Proof.
  assert (Hp : ascii_lower (kFeatureGatePrefix +:+ gate)%string =
               (kFeatureGatePrefix +:+ ascii_lower gate)%string) by done.
  cbn [evaluate_condition evaluate_node evaluate_leaf cond_kind]. unfold evaluate_feature_gate, env_has. cbn [cond_key].
  unfold env_add_feature_gate, env_set. rewrite Hp. split; [|split].
  - intros ->. done.
  - intros ->. by rewrite lookup_insert_eq.
  - intros H1 H2. rewrite lookup_insert_ne, H1; [done|].
    unfold kFeatureGatePrefix. cbn. intros E. apply H2. by injection E.
Qed.
