(* ===== verification/Values.v ===== *)
(** * Capability values

    Models [value.hpp]/[value.cpp]: the typed value forms, their equality,
    order and rendering, structural validation and normalisation. *)

From S2P Require Import Prelude Tokens Versions Support Conditions.

Module ValueKind.
Inductive ValueKind :=
  | None | Boolean | Count | Bytes | Rate | Bandwidth | LatencyClass | Enumeration | FeatureSet
  | VersionRange | ArchitectureSet | NumericRange | Record | Relationship | Predicate.

#[global] Instance ValueKind_eq_dec : EqDecision ValueKind.
Proof. solve_decision. Defined.

#[global] Program Instance ValueKind_enum : CppEnum ValueKind := {|
  enum_values := [None; Boolean; Count; Bytes; Rate; Bandwidth; LatencyClass; Enumeration;
    FeatureSet; VersionRange; ArchitectureSet; NumericRange; Record; Relationship; Predicate]
|}.
Solve Obligations with solve_enum.
End ValueKind.
Abbreviation ValueKind := ValueKind.ValueKind.

Module RateUnit.
Inductive RateUnit :=
  | Hertz | KiloHertz | MegaHertz | GigaHertz | OperationsPerSecond.

#[global] Instance RateUnit_eq_dec : EqDecision RateUnit.
Proof. solve_decision. Defined.

#[global] Program Instance RateUnit_enum : CppEnum RateUnit := {|
  enum_values := [Hertz; KiloHertz; MegaHertz; GigaHertz; OperationsPerSecond]
|}.
Solve Obligations with solve_enum.
End RateUnit.
Abbreviation RateUnit := RateUnit.RateUnit.

Module BandwidthUnit.
Inductive BandwidthUnit :=
  | BytesPerSecond | KilobytesPerSecond | MegabytesPerSecond | GigabytesPerSecond |
  TerabytesPerSecond | BitsPerSecond | KilobitsPerSecond | MegabitsPerSecond |
  GigabitsPerSecond.

#[global] Instance BandwidthUnit_eq_dec : EqDecision BandwidthUnit.
Proof. solve_decision. Defined.

#[global] Program Instance BandwidthUnit_enum : CppEnum BandwidthUnit := {|
  enum_values := [BytesPerSecond; KilobytesPerSecond; MegabytesPerSecond; GigabytesPerSecond;
    TerabytesPerSecond; BitsPerSecond; KilobitsPerSecond; MegabitsPerSecond; GigabitsPerSecond]
|}.
Solve Obligations with solve_enum.
End BandwidthUnit.
Abbreviation BandwidthUnit := BandwidthUnit.BandwidthUnit.

Module LatencyClass.
Inductive LatencyClass :=
  | Unknown | UltraLow | Low | Medium | High | VeryHigh.

#[global] Instance LatencyClass_eq_dec : EqDecision LatencyClass.
Proof. solve_decision. Defined.

#[global] Program Instance LatencyClass_enum : CppEnum LatencyClass := {|
  enum_values := [Unknown; UltraLow; Low; Medium; High; VeryHigh]
|}.
Solve Obligations with solve_enum.
End LatencyClass.
Abbreviation LatencyClass := LatencyClass.LatencyClass.

Module CapabilityRelation.
Inductive CapabilityRelation :=
  | DependsOn | Requires | AlternativeTo | Supersedes | Exclusive.

#[global] Instance CapabilityRelation_eq_dec : EqDecision CapabilityRelation.
Proof. solve_decision. Defined.

#[global] Program Instance CapabilityRelation_enum : CppEnum CapabilityRelation := {|
  enum_values := [DependsOn; Requires; AlternativeTo; Supersedes; Exclusive]
|}.
Solve Obligations with solve_enum.
End CapabilityRelation.
Abbreviation CapabilityRelation := CapabilityRelation.CapabilityRelation.

Definition value_kind_to_string (value : ValueKind) : string :=
  match value with
  | ValueKind.None => "none"
  | ValueKind.Boolean => "boolean"
  | ValueKind.Count => "count"
  | ValueKind.Bytes => "bytes"
  | ValueKind.Rate => "rate"
  | ValueKind.Bandwidth => "bandwidth"
  | ValueKind.LatencyClass => "latency-class"
  | ValueKind.Enumeration => "enumeration"
  | ValueKind.FeatureSet => "feature-set"
  | ValueKind.VersionRange => "version-range"
  | ValueKind.ArchitectureSet => "architecture-set"
  | ValueKind.NumericRange => "numeric-range"
  | ValueKind.Record => "record"
  | ValueKind.Relationship => "relationship"
  | ValueKind.Predicate => "predicate"
  end.

Definition value_kind_from_string (text : string) : option ValueKind :=
  scan_values value_kind_to_string text (enum_upto ValueKind.Predicate).

Definition rate_unit_to_string (value : RateUnit) : string :=
  match value with
  | RateUnit.Hertz => "Hz"
  | RateUnit.KiloHertz => "kHz"
  | RateUnit.MegaHertz => "MHz"
  | RateUnit.GigaHertz => "GHz"
  | RateUnit.OperationsPerSecond => "ops/s"
  end.

Definition rate_unit_from_string (text : string) : option RateUnit :=
  scan_values rate_unit_to_string text (enum_upto RateUnit.OperationsPerSecond).

Definition bandwidth_unit_to_string (value : BandwidthUnit) : string :=
  match value with
  | BandwidthUnit.BytesPerSecond => "B/s"
  | BandwidthUnit.KilobytesPerSecond => "kB/s"
  | BandwidthUnit.MegabytesPerSecond => "MB/s"
  | BandwidthUnit.GigabytesPerSecond => "GB/s"
  | BandwidthUnit.TerabytesPerSecond => "TB/s"
  | BandwidthUnit.BitsPerSecond => "bit/s"
  | BandwidthUnit.KilobitsPerSecond => "kbit/s"
  | BandwidthUnit.MegabitsPerSecond => "Mbit/s"
  | BandwidthUnit.GigabitsPerSecond => "Gbit/s"
  end.

Definition bandwidth_unit_from_string (text : string) : option BandwidthUnit :=
  scan_values bandwidth_unit_to_string text (enum_upto BandwidthUnit.GigabitsPerSecond).

Definition latency_class_to_string (value : LatencyClass) : string :=
  match value with
  | LatencyClass.Unknown => "unknown"
  | LatencyClass.UltraLow => "ultra-low"
  | LatencyClass.Low => "low"
  | LatencyClass.Medium => "medium"
  | LatencyClass.High => "high"
  | LatencyClass.VeryHigh => "very-high"
  end.

Definition latency_class_from_string (text : string) : option LatencyClass :=
  scan_values latency_class_to_string text (enum_upto LatencyClass.VeryHigh).

Definition capability_relation_to_string (value : CapabilityRelation) : string :=
  match value with
  | CapabilityRelation.DependsOn => "depends-on"
  | CapabilityRelation.Requires => "requires"
  | CapabilityRelation.AlternativeTo => "alternative-to"
  | CapabilityRelation.Supersedes => "supersedes"
  | CapabilityRelation.Exclusive => "exclusive"
  end.

Definition capability_relation_from_string (text : string) : option CapabilityRelation :=
  scan_values capability_relation_to_string text (enum_upto CapabilityRelation.Exclusive).

(* ===================================================================== *)
(** ** Values *)

(** [VersionRangeValue], [PredicateValue] and [RecordField] wrap a single
    component each; the fields of a record are pairs of a name and a
    [shared_ptr] to a value. *)
#[warnings="-register-all"]
Inductive CapabilityValue :=
  | VNone
  | VBoolean (b : bool)
  | VCount (count : N) (unit : string)
  | VBytes (bytes : N)
  | VRate (magnitude : N) (unit : RateUnit)
  | VBandwidth (magnitude : N) (unit : BandwidthUnit)
  | VLatency (value : LatencyClass)
  | VEnum (domain value : string)
  | VFeatureSet (features : list string)
  | VVersionRange (range : VersionRange)
  | VArchitectureSet (architectures : list ArchitectureId)
  | VNumericRange (minimum maximum step : Z)
  | VRecord (fields : list (string * option CapabilityValue))
  | VRelationship (relation : CapabilityRelation) (target : CapabilityId)
  | VPredicate (condition : ConditionPtr).

Definition RecordField : Type := string * option CapabilityValue.

(** [kind()]: the index of the variant alternative. *)
Definition value_kind (v : CapabilityValue) : ValueKind :=
  match v with
  | VNone => ValueKind.None
  | VBoolean _ => ValueKind.Boolean
  | VCount _ _ => ValueKind.Count
  | VBytes _ => ValueKind.Bytes
  | VRate _ _ => ValueKind.Rate
  | VBandwidth _ _ => ValueKind.Bandwidth
  | VLatency _ => ValueKind.LatencyClass
  | VEnum _ _ => ValueKind.Enumeration
  | VFeatureSet _ => ValueKind.FeatureSet
  | VVersionRange _ => ValueKind.VersionRange
  | VArchitectureSet _ => ValueKind.ArchitectureSet
  | VNumericRange _ _ _ => ValueKind.NumericRange
  | VRecord _ => ValueKind.Record
  | VRelationship _ _ => ValueKind.Relationship
  | VPredicate _ => ValueKind.Predicate
  end.

Definition value_empty (v : CapabilityValue) : bool := value_kind v ==? ValueKind.None.

Definition join_tokens (tokens : list string) : string := ("{" +:+ String.concat "," tokens +:+ "}")%string.

Fixpoint value_describe (v : CapabilityValue) : string :=
  match v with
  | VNone => "none"
  | VBoolean b => if b then "true" else "false"
  | VCount count unit => if is_empty unit then pretty count else pretty count +:+ " " +:+ unit
  | VBytes bytes => pretty bytes +:+ " B"
  | VRate magnitude unit => pretty magnitude +:+ " " +:+ rate_unit_to_string unit
  | VBandwidth magnitude unit => pretty magnitude +:+ " " +:+ bandwidth_unit_to_string unit
  | VLatency value => latency_class_to_string value
  | VEnum domain value => domain +:+ ":" +:+ value
  | VFeatureSet features => join_tokens features
  | VVersionRange range => range_describe range
  | VArchitectureSet architectures => join_tokens (map id_str architectures)
  | VNumericRange minimum maximum step =>
      "[" +:+ pretty minimum +:+ "," +:+ pretty maximum +:+ "] step " +:+ pretty step
  | VRecord fields =>
      join_tokens (map (fun field : string * option CapabilityValue =>
        field.1 +:+ "=" +:+ match field.2 with None => "none" | Some value => value_describe value end) fields)
  | VRelationship relation target => capability_relation_to_string relation +:+ ":" +:+ id_str target
  | VPredicate condition => "if " +:+ describe_condition condition
  end%string.

(* ===================================================================== *)
(** ** Equality and order *)

Definition version_range_eqb (a b : VersionRange) : bool :=
  (version_compare (minimum a) (minimum b) =? 0)%Z &&
  (version_compare (maximum a) (maximum b) =? 0)%Z &&
  Bool.eqb (include_maximum a) (include_maximum b).

Definition bool_ltb (a b : bool) : bool := negb a && b.

Definition version_range_ltb (a b : VersionRange) : bool :=
  let min_cmp := version_compare (minimum a) (minimum b) in
  if negb (min_cmp =? 0)%Z then (min_cmp <? 0)%Z
  else
    let max_cmp := version_compare (maximum a) (maximum b) in
    if negb (max_cmp =? 0)%Z then (max_cmp <? 0)%Z
    else bool_ltb (include_maximum a) (include_maximum b).

Definition numeric_range_ltb (a b : Z * Z * Z) : bool :=
  pair_ltb (pair_ltb Z.ltb Z.ltb) Z.ltb a b.

Definition enum_ltb {A : Type} `{CppEnum A} (a b : A) : bool := enum_index a <? enum_index b.

Section FieldLoops.
Variable eqv : CapabilityValue -> CapabilityValue -> bool.
Variable lt2 : CapabilityValue -> CapabilityValue -> bool * bool.

(** The comparison loop of [operator==], entered with equal field counts. *)
Fixpoint fields_eqb (left right : list (string * option CapabilityValue)) : bool :=
  match left, right with
  | (ln, lv) :: left', (rn, rv) :: right' =>
      if ln !=? rn then false
      else match lv, rv with
      | None, None => fields_eqb left' right'
      | Some x, Some y => if negb (eqv x y) then false else fields_eqb left' right'
      | _, _ => false
      end
  | _, _ => true
  end.

(** The comparison loop of [operator<], in both directions at once. *)
Fixpoint fields_lt2 (left right : list (string * option CapabilityValue)) : bool * bool :=
  match left, right with
  | (ln, lv) :: left', (rn, rv) :: right' =>
      if ln !=? rn then (string_ltb ln rn, string_ltb rn ln)
      else match lv, rv with
      | None, None => fields_lt2 left' right'
      | None, Some _ => (true, false)
      | Some _, None => (false, true)
      | Some x, Some y =>
          let '(less, greater) := lt2 x y in
          if less then (true, greater)
          else if greater then (false, true)
          else fields_lt2 left' right'
      end
  | [], [] => (false, false)
  | [], _ :: _ => (true, false)
  | _ :: _, [] => (false, true)
  end.
End FieldLoops.

Fixpoint value_eqb (a b : CapabilityValue) : bool :=
  match a, b with
  | VNone, VNone => true
  | VBoolean x, VBoolean y => Bool.eqb x y
  | VCount c1 u1, VCount c2 u2 => (c1 =? c2) && (u1 ==? u2)
  | VBytes x, VBytes y => x =? y
  | VRate m1 u1, VRate m2 u2 => (m1 =? m2) && (u1 ==? u2)
  | VBandwidth m1 u1, VBandwidth m2 u2 => (m1 =? m2) && (u1 ==? u2)
  | VLatency x, VLatency y => x ==? y
  | VEnum d1 v1, VEnum d2 v2 => (d1 ==? d2) && (v1 ==? v2)
  | VFeatureSet x, VFeatureSet y => x ==? y
  | VVersionRange x, VVersionRange y => version_range_eqb x y
  | VArchitectureSet x, VArchitectureSet y => x ==? y
  | VNumericRange a1 b1 s1, VNumericRange a2 b2 s2 => ((a1 =? a2) && (b1 =? b2) && (s1 =? s2))%Z
  | VRecord x, VRecord y =>
      if negb (lengthN x =? lengthN y) then false else fields_eqb value_eqb x y
  | VRelationship r1 t1, VRelationship r2 t2 => (r1 ==? r2) && (t1 ==? t2)
  | VPredicate x, VPredicate y => describe_condition x ==? describe_condition y
  | _, _ => false
  end.

Definition both {A : Type} (lt : A -> A -> bool) (x y : A) : bool * bool := (lt x y, lt y x).

(** [operator<] in both directions at once: the code's record case asks for
    both [a < b] and [b < a] on the members of a record, which is not a
    recursion on the first argument; [value_ltb_record] gives the code's
    equation back. *)
Fixpoint value_lt2 (a b : CapabilityValue) : bool * bool :=
  match a, b with
  | VNone, VNone => (false, false)
  | VBoolean x, VBoolean y => both bool_ltb x y
  | VCount c1 u1, VCount c2 u2 => both (pair_ltb N.ltb string_ltb) (c1, u1) (c2, u2)
  | VBytes x, VBytes y => both N.ltb x y
  | VRate m1 u1, VRate m2 u2 => both (pair_ltb N.ltb enum_ltb) (m1, u1) (m2, u2)
  | VBandwidth m1 u1, VBandwidth m2 u2 => both (pair_ltb N.ltb enum_ltb) (m1, u1) (m2, u2)
  | VLatency x, VLatency y => both enum_ltb x y
  | VEnum d1 v1, VEnum d2 v2 => both (pair_ltb string_ltb string_ltb) (d1, v1) (d2, v2)
  | VFeatureSet x, VFeatureSet y => both (list_ltb string_ltb) x y
  | VVersionRange x, VVersionRange y => both version_range_ltb x y
  | VArchitectureSet x, VArchitectureSet y => both (list_ltb key_ltb) x y
  | VNumericRange a1 b1 s1, VNumericRange a2 b2 s2 => both numeric_range_ltb (a1, b1, s1) (a2, b2, s2)
  | VRecord x, VRecord y => fields_lt2 value_lt2 x y
  | VRelationship r1 t1, VRelationship r2 t2 => both (pair_ltb enum_ltb key_ltb) (r1, t1) (r2, t2)
  | VPredicate x, VPredicate y => both string_ltb (describe_condition x) (describe_condition y)
  | _, _ => both N.ltb (enum_index (value_kind a)) (enum_index (value_kind b))
  end.

Definition value_ltb (a b : CapabilityValue) : bool := (value_lt2 a b).1.

(* ===================================================================== *)
(** ** Validation *)

(** The loop that requires canonical, strictly ascending tokens. *)
Fixpoint check_tokens (not_canonical not_sorted : string) (previous : option string) (tokens : list string) : Status :=
  match tokens with
  | [] => success
  | token :: rest =>
      return_if negb (is_canonical_token token) failing InvalidValue not_canonical;
      return_if match previous with None => false | Some p => negb (string_ltb p token) end
        failing InvalidValue not_sorted;
      check_tokens not_canonical not_sorted (Some token) rest
  end.

Fixpoint check_architectures (previous : option ArchitectureId) (ids : list ArchitectureId) : Status :=
  match ids with
  | [] => success
  | id :: rest =>
      return_if negb (id_valid id) failing InvalidValue "architecture set contains an invalid identity";
      return_if match previous with None => false | Some p => negb (key_ltb p id) end
        failing InvalidValue "architecture set must be sorted and deduplicated";
      check_architectures (Some id) rest
  end.

(** [maximum - minimum] on [std::int64_t]. The C++ subtraction is undefined
    when it overflows; the model wraps it around. *)
Definition i64_sub (a b : Z) : Z :=
  let d := Z.modulo (a - b) (2 ^ 64) in if (d <? 2 ^ 63)%Z then d else (d - 2 ^ 64)%Z.

Definition validate_predicate (condition : ConditionPtr) (limits : RegistryLimits) : Status :=
  match condition with
  | None => failure InvalidCondition "predicate value without condition"
  | Some node => validate_condition node limits
  end.

(** [validate_value] on every form but records. *)
Definition validate_scalar (value : CapabilityValue) (limits : RegistryLimits) : Status :=
  match value with
  | VNumericRange minimum maximum step =>
      return_if (maximum <? minimum)%Z failing InvalidRange "numeric range minimum exceeds maximum";
      return_if (step <=? 0)%Z failing InvalidRange "numeric range step must be positive";
      return_if (i64_sub maximum minimum <? 0)%Z failing InvalidRange "numeric range width overflows";
      success
  | VCount _ unit =>
      return_if negb (is_empty unit) && negb (is_canonical_token unit)
        failing InvalidValue "count unit is not a canonical token";
      success
  | VEnum domain value =>
      return_if negb (is_canonical_token domain) || negb (is_canonical_token value)
        failing InvalidValue "enumeration domain and value must be canonical tokens";
      success
  | VFeatureSet features =>
      return_if max_feature_set_entries limits <? lengthN features
        failing LimitExceeded "feature set exceeds entry limit";
      check_tokens "feature token is not canonical" "feature set must be sorted and deduplicated" None features
  | VVersionRange range =>
      return_if negb (range_valid range) failing InvalidRange "version range minimum exceeds maximum";
      return_if negb (version_valid (minimum range)) && negb (version_valid (maximum range))
        failing InvalidRange "version range has no bound";
      success
  | VArchitectureSet architectures =>
      return_if max_architecture_set_entries limits <? lengthN architectures
        failing LimitExceeded "architecture set exceeds entry limit";
      check_architectures None architectures
  | VRelationship _ target =>
      return_if negb (id_valid target) failing InvalidValue "capability relationship target is invalid";
      success
  | VPredicate condition => validate_predicate condition limits
  | _ => success
  end.

(** The field loop of [validate_record]; [validate_field] is what it does
    with the value of a field. *)
Section RecordLoop.
Variable validate_field : CapabilityValue -> Status.

Fixpoint record_loop (previous : option string) (fields : list (string * option CapabilityValue)) : Status :=
  match fields with
  | [] => success
  | (name, value) :: rest =>
      return_if negb (is_canonical_token name)
        failing InvalidValue "record field name is not a canonical token";
      return_if match previous with None => false | Some p => negb (string_ltb p name) end
        failing InvalidValue "record fields must be sorted and unique";
      match value with
      | None => failure InvalidValue "record field has no value"
      | Some v =>
          try! validate_field v;
          record_loop (Some name) rest
      end
  end.
End RecordLoop.

(** [validate_record], called with a record and its nesting depth; other
    forms are accepted. For a field the code calls [validate_value] (which
    enters records at depth 1 again) and then, for records and predicates,
    the nested check once more. *)
Fixpoint validate_record (limits : RegistryLimits) (depth : N) (value : CapabilityValue) : Status :=
  match value with
  | VRecord fields =>
      return_if max_record_depth limits <? depth failing LimitExceeded "record nesting exceeds depth limit";
      return_if max_record_fields limits <? lengthN fields failing LimitExceeded "record exceeds field limit";
      record_loop (fun v =>
        try! match v with VRecord _ => validate_record limits 1 v | _ => validate_scalar v limits end;
        try! validate_record limits (depth + 1) v;
        match v with VPredicate condition => validate_predicate condition limits | _ => success end)
        None fields
  | _ => success
  end.

Definition validate_value (value : CapabilityValue) (limits : RegistryLimits) : Status :=
  match value with
  | VRecord _ => validate_record limits 1 value
  | _ => validate_scalar value limits
  end.

(* ===================================================================== *)
(** ** Normalisation *)

Definition field_ltb (a b : string * option CapabilityValue) : bool := string_ltb a.1 b.1.

(** The scan for equal neighbours after the sort. *)
Fixpoint duplicate_names (fields : list (string * option CapabilityValue)) : bool :=
  match fields with
  | (n1, _) :: (((n2, _) :: _) as rest) => if n1 ==? n2 then true else duplicate_names rest
  | _ => false
  end.

Section NormalizeLoop.
Variable normalize : CapabilityValue -> Result CapabilityValue.

Fixpoint normalize_fields (fields : list (string * option CapabilityValue)) :
    Result (list (string * option CapabilityValue)) :=
  match fields with
  | [] => Value []
  | (name, None) :: rest =>
      match normalize_fields rest with
      | Value rest' => Value ((name, None) :: rest')
      | Failed s => Failed s
      end
  | (name, Some v) :: rest =>
      match normalize v with
      | Failed s => Failed s
      | Value v' =>
          match normalize_fields rest with
          | Value rest' => Value ((name, Some v') :: rest')
          | Failed s => Failed s
          end
      end
  end.
End NormalizeLoop.

Definition validated (value : CapabilityValue) (limits : RegistryLimits) : Result CapabilityValue :=
  let s := validate_value value limits in if status_ok s then Value value else Failed s.

(** The code normalises in place and returns a status; on failure the value
    is dropped by the callers, so the model returns the value or the
    failing status. *)
Fixpoint normalize_value (limits : RegistryLimits) (value : CapabilityValue) : Result CapabilityValue :=
  match value with
  | VFeatureSet features => validated (VFeatureSet (std_unique (std_sort string_ltb features))) limits
  | VArchitectureSet architectures =>
      validated (VArchitectureSet (std_unique (std_sort key_ltb architectures))) limits
  | VRecord fields =>
      match normalize_fields (normalize_value limits) fields with
      | Failed s => Failed s
      | Value fields' =>
          let fields'' := std_sort field_ltb fields' in
          if duplicate_names fields'' then Failed (failure InvalidValue "record contains duplicate field names")
          else validated (VRecord fields'') limits
      end
  | _ => validated value limits
  end.

(* ===================================================================== *)
(** ** Induction over values *)

Section ValueInd.
Variable P : CapabilityValue -> Prop.
Hypothesis scalar : forall v, value_kind v <> ValueKind.Record -> P v.
Hypothesis record : forall fields,
  Forall (fun field : string * option CapabilityValue => from_option P True field.2) fields ->
  P (VRecord fields).

Definition field_P (field : string * option CapabilityValue) : Prop := from_option P True field.2.

Fixpoint CapabilityValue_nested_ind (v : CapabilityValue) : P v.
Proof.
  destruct v; try (apply scalar; discriminate). apply record.
  induction fields as [|[name [value|]] fields IH]; constructor; try assumption.
  - exact (CapabilityValue_nested_ind value).
  - exact I.
Defined.
End ValueInd.

(* ===================================================================== *)
(** ** Lemmas on validation and normalisation *)

Lemma check_tokens_ok m1 m2 previous tokens :
  status_ok (check_tokens m1 m2 previous tokens) =
  forallb is_canonical_token tokens && ascending string_ltb previous tokens.
Proof.
  revert previous. induction tokens as [|t tokens IH]; intros previous; cbn -[is_canonical_token]; [done|].
  destruct (is_canonical_token t); cbn -[is_canonical_token]; [|done].
  destruct previous as [p|]; cbn -[is_canonical_token]; [destruct (string_ltb p t); cbn -[is_canonical_token]|];
    rewrite ?IH; [done|by rewrite andb_false_r|done].
Qed.

Lemma check_architectures_ok previous ids :
  status_ok (check_architectures previous ids) = forallb id_valid ids && ascending key_ltb previous ids.
Proof.
  revert previous. induction ids as [|t ids IH]; intros previous; cbn -[id_valid]; [done|].
  destruct (id_valid t); cbn -[id_valid]; [|done].
  destruct previous as [p|]; cbn -[id_valid]; [destruct (key_ltb p t); cbn -[id_valid]|];
    rewrite ?IH; [done|by rewrite andb_false_r|done].
Qed.

Definition field_ok (check : CapabilityValue -> Status) (field : string * option CapabilityValue) : bool :=
  is_canonical_token field.1 && match field.2 with None => false | Some v => status_ok (check v) end.

Lemma record_loop_ok check previous fields :
  status_ok (record_loop check previous fields) =
  forallb (field_ok check) fields && ascending string_ltb previous (map fst fields).
Proof.
  revert previous. induction fields as [|[name value] fields IH]; intros previous; [done|].
  cbn [record_loop forallb map ascending fst]. unfold field_ok at 1. cbn [fst snd].
  destruct (is_canonical_token name); cbn [negb andb]; [|done].
  destruct (match previous with None => false | Some p => negb (string_ltb p name) end) eqn:E.
  - destruct previous as [p|]; [|done]. apply negb_true_iff in E. rewrite E. cbn [andb].
    by rewrite andb_false_r.
  - destruct value as [v|]; [|done]. unfold and_then.
    destruct (status_ok (check v)) eqn:Ev; cbn [negb andb]; [|by rewrite Ev].
    rewrite IH. destruct previous as [p|]; [apply negb_false_iff in E; rewrite E|]; done.
Qed.

Lemma field_sort_id fields :
  strictly_sorted_by string_ltb (map fst fields) ->
  std_sort field_ltb fields = fields /\ duplicate_names fields = false.
Proof.
  induction fields as [|[n v] fields IH]; [done|]. intros Hs. inversion Hs as [|?? Hs' Hall]; subst.
  destruct (IH Hs') as [IH1 IH2]. split.
  - cbn [std_sort]. rewrite IH1. apply insert_sorted_id. apply Forall_map in Hall.
    eapply Forall_impl; [exact Hall|]. intros [n' v'] Hlt. exact (st_asym string_ltb _ _ Hlt).
  - destruct fields as [|[n' v'] fields]; [done|]. cbn [duplicate_names].
    apply Forall_map, Forall_cons in Hall as [Hlt _]. cbn in Hlt.
    destruct (n ==? n') eqn:E; [|done]. apply eqb_eq in E as ->. by rewrite st_irrefl in Hlt.
Qed.

Lemma validated_ok limits v v' :
  validated v limits = Value v' -> v' = v /\ status_ok (validate_value v limits) = true.
Proof. unfold validated. destruct (status_ok _) eqn:E; [|done]. by intros [= <-]. Qed.

Lemma validate_record_field limits depth fields name v :
  status_ok (validate_record limits depth (VRecord fields)) = true ->
  (name, Some v) ∈ fields -> status_ok (validate_value v limits) = true.
Proof.
  cbn [validate_record]. intros H Hin. accepts H. rewrite record_loop_ok in H.
  apply andb_true_iff in H as [H _]. rewrite forallb_forall in H.
  apply list_elem_of_In in Hin. specialize (H _ Hin). unfold field_ok in H. cbn [fst snd] in H.
  apply andb_true_iff in H as [_ H]. by apply and_then_ok in H as [H _].
Qed.

Lemma normalize_fields_id limits fields :
  Forall (fun field : string * option CapabilityValue =>
    from_option (fun v => normalize_value limits v = Value v) True field.2) fields ->
  normalize_fields (normalize_value limits) fields = Value fields.
Proof.
  induction 1 as [|[n [v|]] fields Hv _ IH]; cbn [normalize_fields]; [done| |by rewrite IH].
  cbn in Hv. by rewrite Hv, IH.
Qed.

(** A validated value is its own normal form. *)
Lemma normalize_validated limits v :
  status_ok (validate_value v limits) = true -> normalize_value limits v = Value v.
Proof.
  induction v as [v Hk|fields IH] using CapabilityValue_nested_ind; intros Hv.
  - assert (Hd : validated v limits = Value v) by (unfold validated; by rewrite Hv).
    destruct v; try done; cbn [normalize_value].
    + cbn [validate_value validate_scalar] in Hv. accepts Hv. rewrite check_tokens_ok in Hv.
      apply andb_true_iff in Hv as [_ Hv]. apply ascending_spec in Hv; [|apply _].
      rewrite (sort_unique_id string_ltb _ Hv). exact Hd.
    + cbn [validate_value validate_scalar] in Hv. accepts Hv. rewrite check_architectures_ok in Hv.
      apply andb_true_iff in Hv as [_ Hv]. apply ascending_spec in Hv; [|apply _].
      rewrite (sort_unique_id key_ltb _ Hv). exact Hd.
  - cbn [normalize_value]. rewrite normalize_fields_id.
    + assert (Hr := Hv). cbn [validate_value validate_record] in Hr. accepts Hr. rewrite record_loop_ok in Hr.
      apply andb_true_iff in Hr as [_ Hr]. apply ascending_spec in Hr; [|apply _].
      destruct (field_sort_id fields Hr) as [-> ->]. unfold validated. by rewrite Hv.
    + rewrite Forall_forall in IH |- *. intros [n [v|]] Hin; [|done]. cbn.
      apply (IH _ Hin). by eapply validate_record_field.
Qed.

Lemma normalize_value_kind limits v v' : normalize_value limits v = Value v' -> value_kind v' = value_kind v.
Proof.
  destruct v; cbn [normalize_value]; try (intros [-> ?]%validated_ok; done).
  destruct (normalize_fields _ _) as [fields'|]; [|done]. destruct (duplicate_names _); [done|].
  by intros [-> ?]%validated_ok.
Qed.

Lemma normalize_value_validated limits v v' :
  normalize_value limits v = Value v' -> status_ok (validate_value v' limits) = true.
Proof.
  destruct v; cbn [normalize_value]; try (intros [-> ?]%validated_ok; done).
  destruct (normalize_fields _ _) as [fields'|]; [|done].
  destruct (duplicate_names _); [done|]. by intros [-> ?]%validated_ok.
Qed.

(** No version range occurs in the value. *)
Fixpoint range_free (v : CapabilityValue) : bool :=
  match v with
  | VVersionRange _ => false
  | VRecord fields =>
      forallb (fun field : string * option CapabilityValue =>
        match field.2 with None => true | Some w => range_free w end) fields
  | _ => true
  end.

Definition describe_field (field : string * option CapabilityValue) : string :=
  (field.1 +:+ "=" +:+ match field.2 with None => "none" | Some value => value_describe value end)%string.

Lemma fields_eqb_describe fields1 fields2 :
  Forall (fun field : string * option CapabilityValue => from_option (fun v => forall w,
    value_eqb v w = true -> range_free v = true -> value_describe v = value_describe w) True field.2) fields1 ->
  length fields1 = length fields2 ->
  forallb (fun field : string * option CapabilityValue =>
        match field.2 with None => true | Some w => range_free w end) fields1 = true ->
  fields_eqb value_eqb fields1 fields2 = true ->
  map describe_field fields1 = map describe_field fields2.
Proof.
  intros H. revert fields2. induction H as [|[n1 v1] fields1 Hv _ IH]; intros [|[n2 v2] fields2] Hl Hr He;
    try discriminate; [done|].
  cbn [fields_eqb] in He. injection Hl as Hl. cbn [forallb snd] in Hr. apply andb_true_iff in Hr as [Hr1 Hr2].
  destruct (n1 ==? n2) eqn:En; cbn [negb] in He; [|done]. apply eqb_eq in En as ->.
  cbn [map]. destruct v1 as [v1|], v2 as [v2|]; try done.
  - destruct (value_eqb v1 v2) eqn:Ev; cbn [negb] in He; [|done].
    unfold describe_field at 1 3. cbn [fst snd]. cbn in Hv. by rewrite (Hv v2 Ev Hr1), (IH fields2).
  - by rewrite (IH fields2).
Qed.

Lemma value_eqb_describe a b :
  value_eqb a b = true -> range_free a = true -> value_describe a = value_describe b.
Proof.
  revert b. induction a as [a Hk|fields IH] using CapabilityValue_nested_ind; intros b He Hr.
  - destruct a, b; try discriminate; try done; cbn in He |- *; bsimpl; subst; try done;
      repeat match goal with H : Bool.eqb _ _ = true |- _ => apply eqb_prop in H; subst
             | H : (_ =? _)%Z = true |- _ => apply Z.eqb_eq in H; subst end; try done.
    by rewrite He.
  - destruct b as [| | | | | | | | | | | |fields2| |]; try discriminate. cbn [value_eqb] in He.
    destruct (lengthN fields =? lengthN fields2) eqn:El; cbn [negb] in He; [|done].
    apply N.eqb_eq in El. unfold lengthN in El.
    change (join_tokens (map describe_field fields) = join_tokens (map describe_field fields2)).
    f_equal. apply fields_eqb_describe; try done; lia.
Qed.

(** [operator==] is reflexive and symmetric. *)
Lemma version_eq_sym a b : (version_compare a b =? 0)%Z = (version_compare b a =? 0)%Z.
Proof. rewrite (version_compare_opp a b). destruct (Z.eqb_spec (version_compare a b) 0), (Z.eqb_spec (- version_compare a b) 0); lia || done. Qed.

Lemma version_range_eqb_sym a b : version_range_eqb a b = version_range_eqb b a.
Proof. unfold version_range_eqb. by rewrite (version_eq_sym (minimum a)), (version_eq_sym (maximum a)), bool_eqb_sym. Qed.

Lemma fields_eqb_refl fields :
  Forall (field_P (fun v => value_eqb v v = true)) fields -> fields_eqb value_eqb fields fields = true.
Proof.
  induction 1 as [|[n [v|]] fields Hv _ IH]; cbn [fields_eqb]; [done|rewrite eqb_refl; cbn [negb]..]; [|done].
  cbn in Hv. by rewrite Hv.
Qed.

Lemma value_eqb_refl v : value_eqb v v = true.
Proof.
  induction v as [v Hk|fields IH] using CapabilityValue_nested_ind.
  - destruct v as [|[]| | | | | | | | | | | | |]; cbn; rewrite ?N.eqb_refl, ?Z.eqb_refl, ?eqb_refl; try done.
    unfold version_range_eqb. by rewrite !version_compare_refl, Bool.eqb_reflx.
  - cbn [value_eqb]. rewrite N.eqb_refl. by apply fields_eqb_refl.
Qed.

Lemma fields_eqb_sym fields1 fields2 :
  Forall (field_P (fun v => forall w, value_eqb v w = value_eqb w v)) fields1 -> length fields1 = length fields2 ->
  fields_eqb value_eqb fields1 fields2 = fields_eqb value_eqb fields2 fields1.
Proof.
  intros H. revert fields2. induction H as [|[n [v|]] fields Hv _ IH]; intros [|[m [w|]] fields2] Hl;
    try discriminate; cbn [fields_eqb]; rewrite ?(eqb_sym n m); try done; injection Hl as Hl; rewrite (IH fields2) by done; [|done].
  cbn in Hv. by rewrite Hv.
Qed.

Lemma value_eqb_sym v w : value_eqb v w = value_eqb w v.
Proof.
  revert w. induction v as [v Hk|fields IH] using CapabilityValue_nested_ind; intros w.
  - destruct v; try (by destruct Hk); destruct w; try reflexivity; cbn [value_eqb];
      try apply version_range_eqb_sym; repeat apply (f_equal2 andb);
      first [apply N.eqb_sym|apply Z.eqb_sym|apply eqb_sym|apply bool_eqb_sym].
  - destruct w; try done. cbn [value_eqb]. rewrite (N.eqb_sym (lengthN fields)).
    destruct (N.eqb_spec (lengthN fields0) (lengthN fields)) as [Hl|]; cbn [negb]; [|done].
    apply fields_eqb_sym; [done|]. unfold lengthN in Hl. lia.
Qed.

(* ===================================================================== *)
(** ** Properties *)

(** Normalisation returns only values that validation accepts, is
    idempotent, leaves validated values alone, and turns a feature set into
    the strictly ascending list of the same members. *)
Theorem normalize_value_canonical limits v v' :
  normalize_value limits v = Value v' ->
  status_ok (validate_value v' limits) = true /\
  normalize_value limits v' = Value v' /\
  (status_ok (validate_value v limits) = true -> v' = v) /\
  (forall features, v = VFeatureSet features ->
     exists features', v' = VFeatureSet features' /\
       strictly_sorted_by string_ltb features' /\ forall t, t ∈ features' <-> t ∈ features).
Proof.
  intros Hn. pose proof (normalize_value_validated _ _ _ Hn) as Hv. split; [done|].
  split; [by apply normalize_validated|]. split.
  - intros Hok. rewrite (normalize_validated _ _ Hok) in Hn. by injection Hn.
  - intros features ->. cbn [normalize_value] in Hn. apply validated_ok in Hn as [-> _].
    eexists. split; [done|]. split; [apply sort_unique_strict, _|]. intros t. by rewrite elem_of_sort_unique.
Qed.

Lemma normalize_value_canonical_witness :
  let v := VRecord [("b", Some (VFeatureSet ["y"; "x"; "y"])); ("a", Some (VBytes 3))] in
  let v' := VRecord [("a", Some (VBytes 3)); ("b", Some (VFeatureSet ["x"; "y"]))] in
  normalize_value default_limits v = Value v' /\ status_ok (validate_value v' default_limits) = true.
Proof.
  split; [reflexivity|].
  apply (normalize_value_canonical default_limits
    (VRecord [("b", Some (VFeatureSet ["y"; "x"; "y"])); ("a", Some (VBytes 3))])). reflexivity.
Defined.

(** Equal values render identically as long as no version range occurs
    in them; two version ranges may be equal, because versions compare
    numerically, and yet render their source texts differently. *)
Theorem value_rendering_respects_equality a b :
  (value_eqb a b = true -> range_free a = true -> value_describe a = value_describe b) /\
  (exists a' b', value_eqb a' b' = true /\
     status_ok (validate_value a' default_limits) = true /\
     status_ok (validate_value b' default_limits) = true /\
     value_describe a' <> value_describe b').
Proof.
  split; [apply value_eqb_describe|].
  exists (VVersionRange (mk_VersionRange (version_parse "1.0") no_version false)),
         (VVersionRange (mk_VersionRange (version_parse "1.0.0") no_version false)).
  split; [reflexivity|]. split; [reflexivity|]. split; [reflexivity|]. vm_compute. discriminate.
Qed.
