(* ===== verification/Hardware.v ===== *)
(** * Hardware identities and capability records

    Models [hardware.hpp]/[hardware.cpp] (identities of devices, platforms,
    firmware, drivers and runtimes, and their validation) and
    [capability.hpp]/[capability.cpp] (schemas and capability records). *)

From S2P Require Import Prelude Tokens Versions Support Conditions Values.

(* ===================================================================== *)
(** ** Hardware ([hardware.hpp]) *)

Module HardwareClass.
Inductive HardwareClass :=
  | Unknown | Cpu | Gpu | Npu | TpuAccelerator | Fpga | AsicAccelerator | Nic | SmartNic | Dpu
  | CxlDevice | MemoryExpander | HbmDomain | DramDomain | PersistentMemory | PcieSwitch |
  NvSwitchLike | FabricSwitch | StorageController | NvmeDevice | NetworkAdapter | OffloadEngine
  | Other.

#[global] Instance HardwareClass_eq_dec : EqDecision HardwareClass.
Proof. solve_decision. Defined.

#[global] Program Instance HardwareClass_enum : CppEnum HardwareClass := {|
  enum_values := [Unknown; Cpu; Gpu; Npu; TpuAccelerator; Fpga; AsicAccelerator; Nic; SmartNic;
    Dpu; CxlDevice; MemoryExpander; HbmDomain; DramDomain; PersistentMemory; PcieSwitch;
    NvSwitchLike; FabricSwitch; StorageController; NvmeDevice; NetworkAdapter; OffloadEngine;
    Other]
|}.
Solve Obligations with solve_enum.
End HardwareClass.
Abbreviation HardwareClass := HardwareClass.HardwareClass.

Definition hardware_class_to_string (value : HardwareClass) : string :=
  match value with
  | HardwareClass.Unknown => "unknown"
  | HardwareClass.Cpu => "cpu"
  | HardwareClass.Gpu => "gpu"
  | HardwareClass.Npu => "npu"
  | HardwareClass.TpuAccelerator => "tpu-accelerator"
  | HardwareClass.Fpga => "fpga"
  | HardwareClass.AsicAccelerator => "asic-accelerator"
  | HardwareClass.Nic => "nic"
  | HardwareClass.SmartNic => "smartnic"
  | HardwareClass.Dpu => "dpu"
  | HardwareClass.CxlDevice => "cxl-device"
  | HardwareClass.MemoryExpander => "memory-expander"
  | HardwareClass.HbmDomain => "hbm-domain"
  | HardwareClass.DramDomain => "dram-domain"
  | HardwareClass.PersistentMemory => "persistent-memory"
  | HardwareClass.PcieSwitch => "pcie-switch"
  | HardwareClass.NvSwitchLike => "nvswitch-like"
  | HardwareClass.FabricSwitch => "fabric-switch"
  | HardwareClass.StorageController => "storage-controller"
  | HardwareClass.NvmeDevice => "nvme-device"
  | HardwareClass.NetworkAdapter => "network-adapter"
  | HardwareClass.OffloadEngine => "offload-engine"
  | HardwareClass.Other => "other"
  end.

Definition hardware_class_from_string (text : string) : option HardwareClass :=
  scan_values hardware_class_to_string text (enum_upto HardwareClass.Other).

Record NativeIdentifier := mk_NativeIdentifier {
  ni_key : string;
  ni_value : string
}.

#[global] Instance NativeIdentifier_eq_dec : EqDecision NativeIdentifier.
Proof. solve_decision. Defined.

#[global] Instance eta_NativeIdentifier : Eta NativeIdentifier := fun r =>
  mk_NativeIdentifier
    (ni_key r) (ni_value r).

Definition native_ltb (a b : NativeIdentifier) : bool :=
  if ni_key a !=? ni_key b then string_ltb (ni_key a) (ni_key b)
  else string_ltb (ni_value a) (ni_value b).

Record HardwareIdentity := mk_HardwareIdentity {
  hi_vendor : VendorId;
  hi_product : ProductId;
  hi_family : HardwareFamilyId;
  hi_model : HardwareModelId;
  hi_revision : HardwareRevisionId;
  hi_architecture : ArchitectureId;
  hi_class : HardwareClass;
  hi_native_identifiers : list NativeIdentifier
}.

#[global] Instance HardwareIdentity_eq_dec : EqDecision HardwareIdentity.
Proof. solve_decision. Defined.

#[global] Instance eta_HardwareIdentity : Eta HardwareIdentity := fun r =>
  mk_HardwareIdentity
    (hi_vendor r) (hi_product r) (hi_family r) (hi_model r) (hi_revision r)
    (hi_architecture r) (hi_class r) (hi_native_identifiers r).

Definition key_part {tag} (i : Id tag) : string := if id_valid i then id_str i else "-".

Definition canonical_key (h : HardwareIdentity) : string :=
  (key_part (hi_vendor h) +:+ "|" +:+ key_part (hi_product h) +:+ "|" +:+ key_part (hi_family h) +:+ "|" +:+
   key_part (hi_model h) +:+ "|" +:+ key_part (hi_revision h) +:+ "|" +:+ key_part (hi_architecture h))%string.

Definition normalize_hardware_identity (h : HardwareIdentity) : HardwareIdentity :=
  h <| hi_native_identifiers ::= fun l => std_unique (std_sort native_ltb l) |>.

Definition validate_native_identifier (limits : RegistryLimits) (identifier : NativeIdentifier) : Status :=
  return_if is_empty (ni_key identifier) failing InvalidIdentity "native identifier without key";
  return_if max_metadata_bytes limits <? strlen (ni_value identifier)
    failing LimitExceeded "native identifier value exceeds length limit";
  success.

Definition validate_hardware_identity (identity : HardwareIdentity) (limits : RegistryLimits) : Status :=
  return_if max_native_identifiers limits <? lengthN (hi_native_identifiers identity)
    failing LimitExceeded "too many native identifiers";
  try! check_all (validate_native_identifier limits) (hi_native_identifiers identity);
  return_if negb (id_valid (hi_vendor identity))
    failing InvalidIdentity "hardware identity requires a vendor";
  return_if negb (id_valid (hi_family identity)) && negb (id_valid (hi_model identity))
    failing InvalidIdentity "hardware identity requires a family or a model";
  return_if hi_class identity ==? HardwareClass.Unknown
    failing InvalidIdentity "hardware identity requires a hardware class";
  success.

Record DeviceIdentity := mk_DeviceIdentity {
  di_id : DeviceId;
  di_incarnation : DeviceIncarnationId;
  di_hardware : HardwareIdentity;
  di_platform : PlatformId;
  di_serial_number : option string;
  di_instance_locator : option string;
  di_display_name : string
}.

#[global] Instance DeviceIdentity_eq_dec : EqDecision DeviceIdentity.
Proof. solve_decision. Defined.

#[global] Instance eta_DeviceIdentity : Eta DeviceIdentity := fun r =>
  mk_DeviceIdentity
    (di_id r) (di_incarnation r) (di_hardware r) (di_platform r) (di_serial_number r)
    (di_instance_locator r) (di_display_name r).

Definition longer_than (limit : N) (text : option string) : bool :=
  match text with None => false | Some t => limit <? strlen t end.

Definition validate_device_identity (identity : DeviceIdentity) (limits : RegistryLimits) : Status :=
  return_if negb (id_valid (di_id identity))
    failing InvalidIdentity "device identity requires a canonical device id";
  return_if negb (id_valid (di_incarnation identity))
    failing InvalidIdentity "device identity requires an incarnation id";
  return_if max_name_length limits <? strlen (di_display_name identity)
    failing LimitExceeded "device display name exceeds length limit";
  return_if longer_than (max_metadata_bytes limits) (di_serial_number identity)
    failing LimitExceeded "serial number exceeds length limit";
  return_if longer_than (max_metadata_bytes limits) (di_instance_locator identity)
    failing LimitExceeded "instance locator exceeds length limit";
  validate_hardware_identity (di_hardware identity) limits.

Record PlatformIdentity := mk_PlatformIdentity {
  pl_id : PlatformId;
  pl_display_name : string;
  pl_vendor : string;
  pl_model : string;
  pl_architecture : ArchitectureId;
  pl_native_identifiers : list NativeIdentifier
}.

#[global] Instance PlatformIdentity_eq_dec : EqDecision PlatformIdentity.
Proof. solve_decision. Defined.

#[global] Instance eta_PlatformIdentity : Eta PlatformIdentity := fun r =>
  mk_PlatformIdentity
    (pl_id r) (pl_display_name r) (pl_vendor r) (pl_model r) (pl_architecture r)
    (pl_native_identifiers r).

Record FirmwareIdentity := mk_FirmwareIdentity {
  fw_id : FirmwareId;
  fw_version : string;
  fw_build : string
}.

#[global] Instance FirmwareIdentity_eq_dec : EqDecision FirmwareIdentity.
Proof. solve_decision. Defined.

#[global] Instance eta_FirmwareIdentity : Eta FirmwareIdentity := fun r =>
  mk_FirmwareIdentity
    (fw_id r) (fw_version r) (fw_build r).

Record DriverIdentity := mk_DriverIdentity {
  dv_id : DriverId;
  dv_version : string
}.

#[global] Instance DriverIdentity_eq_dec : EqDecision DriverIdentity.
Proof. solve_decision. Defined.

#[global] Instance eta_DriverIdentity : Eta DriverIdentity := fun r =>
  mk_DriverIdentity
    (dv_id r) (dv_version r).

Record RuntimeIdentity := mk_RuntimeIdentity {
  rt_id : RuntimeId;
  rt_version : string
}.

#[global] Instance RuntimeIdentity_eq_dec : EqDecision RuntimeIdentity.
Proof. solve_decision. Defined.

#[global] Instance eta_RuntimeIdentity : Eta RuntimeIdentity := fun r =>
  mk_RuntimeIdentity
    (rt_id r) (rt_version r).

Record DeviceSoftwareState := mk_DeviceSoftwareState {
  sw_firmware : FirmwareIdentity;
  sw_firmware_generation : FirmwareGeneration;
  sw_driver : DriverIdentity;
  sw_driver_generation : DriverGeneration;
  sw_runtime : RuntimeIdentity;
  sw_runtime_generation : RuntimeGeneration
}.

#[global] Instance DeviceSoftwareState_eq_dec : EqDecision DeviceSoftwareState.
Proof. solve_decision. Defined.

#[global] Instance eta_DeviceSoftwareState : Eta DeviceSoftwareState := fun r =>
  mk_DeviceSoftwareState
    (sw_firmware r) (sw_firmware_generation r) (sw_driver r) (sw_driver_generation r)
    (sw_runtime r) (sw_runtime_generation r).

Record DeviceRegistration := mk_DeviceRegistration {
  dr_identity : DeviceIdentity;
  dr_software : DeviceSoftwareState;
  dr_platform : PlatformIdentity;
  dr_device_boot_observed : bool;
  dr_observation_sequence : N;
  dr_observed_at_utc : string
}.

#[global] Instance DeviceRegistration_eq_dec : EqDecision DeviceRegistration.
Proof. solve_decision. Defined.

#[global] Instance eta_DeviceRegistration : Eta DeviceRegistration := fun r =>
  mk_DeviceRegistration
    (dr_identity r) (dr_software r) (dr_platform r) (dr_device_boot_observed r)
    (dr_observation_sequence r) (dr_observed_at_utc r).

(* ===================================================================== *)
(** ** Capabilities ([capability.hpp]) *)

Module CapabilityDomain.
Inductive CapabilityDomain :=
  | Other | Compute | Memory | Partitioning | Interconnect | Networking | Runtime | Reliability
  | Power | Platform.

#[global] Instance CapabilityDomain_eq_dec : EqDecision CapabilityDomain.
Proof. solve_decision. Defined.

#[global] Program Instance CapabilityDomain_enum : CppEnum CapabilityDomain := {|
  enum_values := [Other; Compute; Memory; Partitioning; Interconnect; Networking; Runtime;
    Reliability; Power; Platform]
|}.
Solve Obligations with solve_enum.
End CapabilityDomain.
Abbreviation CapabilityDomain := CapabilityDomain.CapabilityDomain.

Definition capability_domain_to_string (value : CapabilityDomain) : string :=
  match value with
  | CapabilityDomain.Other => "other"
  | CapabilityDomain.Compute => "compute"
  | CapabilityDomain.Memory => "memory"
  | CapabilityDomain.Partitioning => "partitioning"
  | CapabilityDomain.Interconnect => "interconnect"
  | CapabilityDomain.Networking => "networking"
  | CapabilityDomain.Runtime => "runtime"
  | CapabilityDomain.Reliability => "reliability"
  | CapabilityDomain.Power => "power"
  | CapabilityDomain.Platform => "platform"
  end.

Definition capability_domain_from_string (text : string) : option CapabilityDomain :=
  scan_values capability_domain_to_string text (enum_upto CapabilityDomain.Platform).

Record CapabilitySchema := mk_CapabilitySchema {
  cs_id : CapabilitySchemaId;
  cs_capability : CapabilityId;
  cs_domain : CapabilityDomain;
  cs_value_kind : ValueKind;
  cs_canonical_name : string;
  cs_unit : string
}.

#[global] Instance CapabilitySchema_eq_dec : EqDecision CapabilitySchema.
Proof. solve_decision. Defined.

#[global] Instance eta_CapabilitySchema : Eta CapabilitySchema := fun r =>
  mk_CapabilitySchema
    (cs_id r) (cs_capability r) (cs_domain r) (cs_value_kind r) (cs_canonical_name r)
    (cs_unit r).

(** The text after the last occurrence of [".v"] ([rfind]). *)
Fixpoint after_version_marker (token : list ascii) : option (list ascii) :=
  match token with
  | [] => None
  | c :: rest =>
      match after_version_marker rest with
      | Some suffix => Some suffix
      | None =>
          match rest with
          | c2 :: rest2 => if Ascii.eqb c "." && Ascii.eqb c2 "v" then Some rest2 else None
          | [] => None
          end
      end
  end.

Definition validate_capability_schema (schema : CapabilitySchema) (limits : RegistryLimits) : Status :=
  return_if negb (id_valid (cs_id schema))
    failing InvalidCapability "schema identity is not canonical";
  return_if negb (id_valid (cs_capability schema))
    failing InvalidCapability "capability identity is not canonical";
  return_if cs_value_kind schema ==? ValueKind.None
    failing InvalidCapability "schema must declare a typed value kind";
  return_if is_empty (cs_canonical_name schema) || (max_name_length limits <? strlen (cs_canonical_name schema))
    failing InvalidCapability "schema requires a bounded canonical name";
  return_if negb (is_empty (cs_unit schema)) && (max_metadata_bytes limits <? strlen (cs_unit schema))
    failing LimitExceeded "schema unit exceeds length limit";
  match after_version_marker (list_ascii_of_string (id_str (cs_id schema))) with
  | None | Some [] => failure InvalidCapability "schema identity must embed a version suffix"
  | Some suffix =>
      return_if negb (forallb is_digit suffix)
        failing InvalidCapability "schema version suffix must be numeric";
      success
  end.

Record CapabilityRecord := mk_CapabilityRecord {
  cr_device : DeviceId;
  cr_device_generation : DeviceGeneration;
  cr_device_boot : DeviceBootId;
  cr_capability : CapabilityId;
  cr_schema : CapabilitySchemaId;
  cr_capability_generation : CapabilityGeneration;
  cr_support : SupportState;
  cr_value : CapabilityValue;
  cr_precision : PrecisionClass;
  cr_source : EvidenceSource;
  cr_conditions : ConditionPtr;
  cr_firmware_generation : FirmwareGeneration;
  cr_driver_generation : DriverGeneration;
  cr_runtime_generation : RuntimeGeneration;
  cr_platform_generation : PlatformGeneration;
  cr_driver_id : DriverId;
  cr_firmware_id : FirmwareId;
  cr_runtime_id : RuntimeId;
  cr_withdrawn : bool
}.

#[global] Instance eta_CapabilityRecord : Eta CapabilityRecord := fun r =>
  mk_CapabilityRecord
    (cr_device r) (cr_device_generation r) (cr_device_boot r) (cr_capability r) (cr_schema
    r) (cr_capability_generation r) (cr_support r) (cr_value r) (cr_precision r)
    (cr_source r) (cr_conditions r) (cr_firmware_generation r) (cr_driver_generation r)
    (cr_runtime_generation r) (cr_platform_generation r) (cr_driver_id r) (cr_firmware_id
    r) (cr_runtime_id r) (cr_withdrawn r).

Definition validate_optional_condition (condition : ConditionPtr) (limits : RegistryLimits) : Status :=
  match condition with None => success | Some node => validate_condition node limits end.

Definition validate_capability_record (record : CapabilityRecord) (limits : RegistryLimits) : Status :=
  return_if negb (id_valid (cr_device record))
    failing InvalidIdentity "capability record requires a device identity";
  return_if negb (gen_valid (cr_device_generation record))
    failing InvalidIdentity "capability record requires a device generation";
  return_if negb (id_valid (cr_capability record))
    failing InvalidCapability "capability record requires a capability identity";
  return_if negb (id_valid (cr_schema record))
    failing InvalidCapability "capability record requires a schema identity";
  return_if negb (id_valid (pi_id (publisher (cr_source record))))
    failing InvalidProvenance "capability record requires a publisher identity";
  return_if is_empty (adapter (cr_source record))
    failing InvalidProvenance "capability record requires a source adapter";
  return_if max_metadata_bytes limits <? strlen (adapter (cr_source record))
    failing LimitExceeded "source adapter exceeds length limit";
  return_if max_metadata_bytes limits <? strlen (native_reference (cr_source record))
    failing LimitExceeded "native reference exceeds length limit";
  return_if max_metadata_bytes limits <? strlen (observed_at_utc (cr_source record))
    failing LimitExceeded "observation timestamp exceeds length limit";
  return_if source_class (cr_source record) ==? SourceClass.Unspecified
    failing InvalidProvenance "capability record requires a source class";
  return_if negb (provenance_allowed_for (provenance (cr_source record)) (source_class (cr_source record)))
    failing InvalidProvenance "claimed provenance is stronger than the source class can support";
  return_if cr_withdrawn record && (cr_support record !=? SupportState.Unknown)
    failing InvalidSupportState "a withdrawn capability must not assert a support state";
  return_if cr_withdrawn record && negb (value_empty (cr_value record))
    failing InvalidValue "a withdrawn capability must not carry a value";
  try! validate_optional_condition (cr_conditions record) limits;
  validate_value (cr_value record) limits.
