(* ===== verification/Quirks.v ===== *)
(** * Quirks

    Models [quirk.hpp]/[quirk.cpp]: quirk records, their validation, their
    precedence, and the evaluation of a quirk against a device. *)

From S2P Require Import Prelude Tokens Versions Support Conditions Values Hardware.

Module QuirkCategory.
Inductive QuirkCategory :=
  | CapabilityMisreport | DriverDefect | FirmwareDefect | RevisionLimitation |
  RequiredWorkaround | BrokenFeatureCombination | PerformanceCaveat | ResetRequirement |
  UnsupportedCombination | VersionIncompatibility | Other.

#[global] Instance QuirkCategory_eq_dec : EqDecision QuirkCategory.
Proof. solve_decision. Defined.

#[global] Program Instance QuirkCategory_enum : CppEnum QuirkCategory := {|
  enum_values := [CapabilityMisreport; DriverDefect; FirmwareDefect; RevisionLimitation;
    RequiredWorkaround; BrokenFeatureCombination; PerformanceCaveat; ResetRequirement;
    UnsupportedCombination; VersionIncompatibility; Other]
|}.
Solve Obligations with solve_enum.
End QuirkCategory.
Abbreviation QuirkCategory := QuirkCategory.QuirkCategory.

Module QuirkSeverity.
Inductive QuirkSeverity :=
  | Informational | Caveat | Degraded | Unusable | Fatal.

#[global] Instance QuirkSeverity_eq_dec : EqDecision QuirkSeverity.
Proof. solve_decision. Defined.

#[global] Program Instance QuirkSeverity_enum : CppEnum QuirkSeverity := {|
  enum_values := [Informational; Caveat; Degraded; Unusable; Fatal]
|}.
Solve Obligations with solve_enum.
End QuirkSeverity.
Abbreviation QuirkSeverity := QuirkSeverity.QuirkSeverity.

Module MitigationKind.
Inductive MitigationKind :=
  | None | UpgradeDriver | UpgradeFirmware | UpgradeRuntime | ChangeDeviceMode |
  ChangePlatformSetting | DisableFeature | UseAlternateCapability | ResetDevice | ContactVendor.

#[global] Instance MitigationKind_eq_dec : EqDecision MitigationKind.
Proof. solve_decision. Defined.

#[global] Program Instance MitigationKind_enum : CppEnum MitigationKind := {|
  enum_values := [None; UpgradeDriver; UpgradeFirmware; UpgradeRuntime; ChangeDeviceMode;
    ChangePlatformSetting; DisableFeature; UseAlternateCapability; ResetDevice; ContactVendor]
|}.
Solve Obligations with solve_enum.
End MitigationKind.
Abbreviation MitigationKind := MitigationKind.MitigationKind.

Module QuirkApplicabilityResult.
Inductive QuirkApplicabilityResult :=
  | Applies | DoesNotApply | Unknown.

#[global] Instance QuirkApplicabilityResult_eq_dec : EqDecision QuirkApplicabilityResult.
Proof. solve_decision. Defined.

#[global] Program Instance QuirkApplicabilityResult_enum : CppEnum QuirkApplicabilityResult := {|
  enum_values := [Applies; DoesNotApply; Unknown]
|}.
Solve Obligations with solve_enum.
End QuirkApplicabilityResult.
Abbreviation QuirkApplicabilityResult := QuirkApplicabilityResult.QuirkApplicabilityResult.

Definition quirk_category_to_string (value : QuirkCategory) : string :=
  match value with
  | QuirkCategory.CapabilityMisreport => "capability-misreport"
  | QuirkCategory.DriverDefect => "driver-defect"
  | QuirkCategory.FirmwareDefect => "firmware-defect"
  | QuirkCategory.RevisionLimitation => "revision-limitation"
  | QuirkCategory.RequiredWorkaround => "required-workaround"
  | QuirkCategory.BrokenFeatureCombination => "broken-feature-combination"
  | QuirkCategory.PerformanceCaveat => "performance-caveat"
  | QuirkCategory.ResetRequirement => "reset-requirement"
  | QuirkCategory.UnsupportedCombination => "unsupported-combination"
  | QuirkCategory.VersionIncompatibility => "version-incompatibility"
  | QuirkCategory.Other => "other"
  end.

Definition quirk_category_from_string (text : string) : option QuirkCategory :=
  scan_values quirk_category_to_string text (enum_upto QuirkCategory.Other).

Definition quirk_severity_to_string (value : QuirkSeverity) : string :=
  match value with
  | QuirkSeverity.Informational => "informational"
  | QuirkSeverity.Caveat => "caveat"
  | QuirkSeverity.Degraded => "degraded"
  | QuirkSeverity.Unusable => "unusable"
  | QuirkSeverity.Fatal => "fatal"
  end.

Definition quirk_severity_from_string (text : string) : option QuirkSeverity :=
  scan_values quirk_severity_to_string text (enum_upto QuirkSeverity.Fatal).

Definition mitigation_kind_to_string (value : MitigationKind) : string :=
  match value with
  | MitigationKind.None => "none"
  | MitigationKind.UpgradeDriver => "upgrade-driver"
  | MitigationKind.UpgradeFirmware => "upgrade-firmware"
  | MitigationKind.UpgradeRuntime => "upgrade-runtime"
  | MitigationKind.ChangeDeviceMode => "change-device-mode"
  | MitigationKind.ChangePlatformSetting => "change-platform-setting"
  | MitigationKind.DisableFeature => "disable-feature"
  | MitigationKind.UseAlternateCapability => "use-alternate-capability"
  | MitigationKind.ResetDevice => "reset-device"
  | MitigationKind.ContactVendor => "contact-vendor"
  end.

Definition mitigation_kind_from_string (text : string) : option MitigationKind :=
  scan_values mitigation_kind_to_string text (enum_upto MitigationKind.ContactVendor).

Definition quirk_applicability_result_to_string (value : QuirkApplicabilityResult) : string :=
  match value with
  | QuirkApplicabilityResult.Applies => "applies"
  | QuirkApplicabilityResult.DoesNotApply => "does-not-apply"
  | QuirkApplicabilityResult.Unknown => "unknown"
  end.

Record RevisionRange := mk_RevisionRange {
  rr_minimum : string;
  rr_maximum : string
}.

#[global] Instance RevisionRange_eq_dec : EqDecision RevisionRange.
Proof. solve_decision. Defined.

Record QuirkApplicability := mk_QuirkApplicability {
  qa_vendors : list VendorId;
  qa_families : list HardwareFamilyId;
  qa_models : list HardwareModelId;
  qa_devices : list DeviceId;
  qa_revisions : list HardwareRevisionId;
  qa_revision_ranges : list RevisionRange;
  qa_architectures : list ArchitectureId;
  qa_driver_ranges : list VersionRange;
  qa_firmware_ranges : list VersionRange;
  qa_runtime_ranges : list VersionRange;
  qa_platform_conditions : ConditionPtr
}.

#[global] Instance eta_QuirkApplicability : Eta QuirkApplicability := fun r =>
  mk_QuirkApplicability
    (qa_vendors r) (qa_families r) (qa_models r) (qa_devices r) (qa_revisions r)
    (qa_revision_ranges r) (qa_architectures r) (qa_driver_ranges r) (qa_firmware_ranges
    r) (qa_runtime_ranges r) (qa_platform_conditions r).

Record QuirkRecord := mk_QuirkRecord {
  qr_id : QuirkId;
  qr_generation : QuirkGeneration;
  qr_title : string;
  qr_description : string;
  qr_category : QuirkCategory;
  qr_severity : QuirkSeverity;
  qr_mitigation : MitigationKind;
  qr_applicability : QuirkApplicability;
  qr_impacted_capabilities : list CapabilityId;
  qr_source : EvidenceSource;
  qr_withdrawn : bool
}.

#[global] Instance eta_QuirkRecord : Eta QuirkRecord := fun r =>
  mk_QuirkRecord
    (qr_id r) (qr_generation r) (qr_title r) (qr_description r) (qr_category r)
    (qr_severity r) (qr_mitigation r) (qr_applicability r) (qr_impacted_capabilities r)
    (qr_source r) (qr_withdrawn r).

Record QuirkApplication := mk_QuirkApplication {
  qp_id : QuirkId;
  qp_generation : QuirkGeneration;
  qp_severity : QuirkSeverity;
  qp_mitigation : MitigationKind;
  qp_result : QuirkApplicabilityResult;
  qp_reason : string;
  qp_title : string
}.

#[global] Instance QuirkApplication_eq_dec : EqDecision QuirkApplication.
Proof. solve_decision. Defined.

#[global] Instance eta_QuirkApplication : Eta QuirkApplication := fun r =>
  mk_QuirkApplication
    (qp_id r) (qp_generation r) (qp_severity r) (qp_mitigation r) (qp_result r) (qp_reason
    r) (qp_title r).

(* ===================================================================== *)
(** ** Validation *)

(** Revisions compare as versions when both parse, byte-wise otherwise. *)
Definition compare_revision_token (a b : string) : Z :=
  let left := version_parse a in
  let right := version_parse b in
  if version_valid left && version_valid right then version_compare left right
  else if string_ltb a b then (-1)%Z
  else if string_ltb b a then 1%Z
  else 0%Z.

Definition describe_ranges (ranges : list VersionRange) : string := String.concat "|" (map range_describe ranges).

Definition check_ids {tag} (values : list (Id tag)) (what : string) : Status :=
  return_if 1024 <? lengthN values failing LimitExceeded ("quirk " +:+ what +:+ " selector too large")%string;
  check_all (fun value =>
    return_if negb (id_valid value) failing InvalidIdentity ("quirk " +:+ what +:+ " selector invalid")%string;
    success) values.

Definition check_revision_range (limits : RegistryLimits) (range : RevisionRange) : Status :=
  return_if is_empty (rr_minimum range) || is_empty (rr_maximum range)
    failing InvalidRange "revision range requires both bounds";
  return_if (max_metadata_bytes limits <? strlen (rr_minimum range)) ||
            (max_metadata_bytes limits <? strlen (rr_maximum range))
    failing LimitExceeded "revision bound exceeds length limit";
  return_if (0 <? compare_revision_token (rr_minimum range) (rr_maximum range))%Z
    failing InvalidRange "revision range minimum exceeds maximum";
  success.

Definition check_version_range (range : VersionRange) : Status :=
  return_if negb (range_valid range) failing InvalidRange "quirk version range is inverted";
  return_if negb (version_valid (minimum range)) && negb (version_valid (maximum range))
    failing InvalidRange "quirk version range has no bound";
  success.

Definition validate_quirk_applicability (applicability : QuirkApplicability) (limits : RegistryLimits) : Status :=
  try! check_ids (qa_vendors applicability) "vendor";
  try! check_ids (qa_families applicability) "family";
  try! check_ids (qa_models applicability) "model";
  try! check_ids (qa_devices applicability) "device";
  try! check_ids (qa_revisions applicability) "revision";
  try! check_ids (qa_architectures applicability) "architecture";
  return_if (64 <? lengthN (qa_revision_ranges applicability)) || (64 <? lengthN (qa_driver_ranges applicability)) ||
            (64 <? lengthN (qa_firmware_ranges applicability)) || (64 <? lengthN (qa_runtime_ranges applicability))
    failing LimitExceeded "quirk range selector too large";
  try! check_all (check_revision_range limits) (qa_revision_ranges applicability);
  try! check_all check_version_range (qa_driver_ranges applicability);
  try! check_all check_version_range (qa_firmware_ranges applicability);
  try! check_all check_version_range (qa_runtime_ranges applicability);
  validate_optional_condition (qa_platform_conditions applicability) limits.

Definition validate_quirk_record (record : QuirkRecord) (limits : RegistryLimits) : Status :=
  return_if negb (id_valid (qr_id record)) failing InvalidIdentity "quirk requires a canonical identity";
  return_if negb (gen_valid (qr_generation record)) failing InvalidIdentity "quirk requires a generation";
  return_if is_empty (qr_title record) || (max_name_length limits <? strlen (qr_title record))
    failing InvalidArgument "quirk requires a bounded title";
  return_if max_metadata_bytes limits <? strlen (qr_description record)
    failing LimitExceeded "quirk description exceeds length limit";
  return_if lengthN (qr_impacted_capabilities record) =? 0
    failing InvalidCapability "quirk must impact at least one capability";
  return_if 64 <? lengthN (qr_impacted_capabilities record)
    failing LimitExceeded "quirk impacts too many capabilities";
  try! check_all (fun capability =>
    return_if negb (id_valid capability)
      failing InvalidCapability "quirk impacts an invalid capability identity";
    success) (qr_impacted_capabilities record);
  return_if negb (id_valid (pi_id (publisher (qr_source record))))
    failing InvalidProvenance "quirk requires a publisher identity";
  return_if is_empty (adapter (qr_source record)) || (max_metadata_bytes limits <? strlen (adapter (qr_source record)))
    failing InvalidProvenance "quirk requires a bounded source adapter";
  return_if source_class (qr_source record) ==? SourceClass.Unspecified
    failing InvalidProvenance "quirk requires a source class";
  return_if negb (provenance_allowed_for (provenance (qr_source record)) (source_class (qr_source record)))
    failing InvalidProvenance "quirk provenance is stronger than its source class can support";
  validate_quirk_applicability (qr_applicability record) limits.

Definition quirk_precedes (a b : QuirkRecord) : bool :=
  if qr_severity a !=? qr_severity b then enum_index (qr_severity b) <? enum_index (qr_severity a)
  else if qr_id a !=? qr_id b then key_ltb (qr_id a) (qr_id b)
  else gen_ltb (qr_generation a) (qr_generation b).

(* ===================================================================== *)
(** ** Evaluation against a device

    Every selector of the quirk has one of four effects on the evaluation:
    nothing, a note of the reason, a deferral (the fact it needs is unknown),
    or a failure, which ends the evaluation. *)

Inductive SelectorOutcome :=
  | Matched
  | Noted (text : string)
  | Deferred (text : string)
  | Mismatched (text : string).

#[global] Instance SelectorOutcome_eq_dec : EqDecision SelectorOutcome.
Proof. solve_decision. Defined.

(** [if (!selector.empty()) ...]. *)
Definition when_set {A : Type} (selector : list A) (o : SelectorOutcome) : SelectorOutcome :=
  if lengthN selector =? 0 then Matched else o.

Definition select_device (a : QuirkApplicability) (device : DeviceIdentity) : SelectorOutcome :=
  when_set (qa_devices a)
    (if negb (contains (qa_devices a) (di_id device)) then Mismatched "device not selected"
     else Noted "device selected").

Definition select_required {tag} (selector : list (Id tag)) (observed : Id tag) (what : string) : SelectorOutcome :=
  when_set selector
    (if negb (id_valid observed) || negb (contains selector observed)
     then Mismatched (what +:+ " not selected")%string else Matched).

Definition select_optional {tag} (selector : list (Id tag)) (observed : Id tag) (what : string) : SelectorOutcome :=
  when_set selector
    (if negb (id_valid observed) then Deferred ("device " +:+ what +:+ " unknown")%string
     else if negb (contains selector observed) then Mismatched (what +:+ " not selected")%string else Matched).

Definition in_revision_range (revision : string) (range : RevisionRange) : bool :=
  (0 <=? compare_revision_token revision (rr_minimum range))%Z &&
  (compare_revision_token revision (rr_maximum range) <=? 0)%Z.

Definition select_revision_range (a : QuirkApplicability) (device : DeviceIdentity) : SelectorOutcome :=
  let revision := hi_revision (di_hardware device) in
  when_set (qa_revision_ranges a)
    (if negb (id_valid revision) then Deferred "device revision unknown"
     else if negb (existsb (in_revision_range (id_str revision)) (qa_revision_ranges a))
     then Mismatched "revision outside range" else Matched).

Definition select_versions (ranges : list VersionRange) (observed : string) (axis : string) : SelectorOutcome :=
  when_set ranges
    (if is_empty observed then Deferred ("device " +:+ axis +:+ " version unknown")
     else
       let version := version_parse observed in
       if negb (version_valid version) then Deferred ("device " +:+ axis +:+ " version unparseable")
       else if existsb (fun range => range_contains range version) ranges then Matched
       else Mismatched (axis +:+ " version " +:+ raw version +:+ " outside " +:+ describe_ranges ranges))%string.

Definition select_platform (a : QuirkApplicability) (environment : EnvironmentContext) : SelectorOutcome :=
  match qa_platform_conditions a with
  | None => Matched
  | Some _ =>
      let text := describe_condition (qa_platform_conditions a) in
      match outcome (evaluate_condition (qa_platform_conditions a) environment) with
      | ConditionOutcome.Unsatisfied => Mismatched ("platform condition unsatisfied: " +:+ text)%string
      | ConditionOutcome.Unknown => Deferred ("platform condition unknown: " +:+ text)%string
      | _ => Matched
      end
  end.

(** The selectors in the order the code tests them. *)
Definition quirk_selectors (a : QuirkApplicability) (device : DeviceIdentity) (software : DeviceSoftwareState)
    (environment : EnvironmentContext) : list SelectorOutcome :=
  let h := di_hardware device in
  [select_device a device;
   select_required (qa_vendors a) (hi_vendor h) "vendor";
   select_required (qa_families a) (hi_family h) "family";
   select_required (qa_models a) (hi_model h) "model";
   select_optional (qa_architectures a) (hi_architecture h) "architecture";
   select_optional (qa_revisions a) (hi_revision h) "revision";
   select_revision_range a device;
   select_versions (qa_driver_ranges a) (dv_version (sw_driver software)) "driver";
   select_versions (qa_firmware_ranges a) (fw_version (sw_firmware software)) "firmware";
   select_versions (qa_runtime_ranges a) (rt_version (sw_runtime software)) "runtime";
   select_platform a environment].

(** Runs the selectors with the local variables [unknown] and [reason]. *)
Fixpoint run_selectors (selectors : list SelectorOutcome) (unknown : bool) (reason : string) :
    QuirkApplicabilityResult * string :=
  match selectors with
  | [] =>
      if unknown then (QuirkApplicabilityResult.Unknown, reason)
      else (QuirkApplicabilityResult.Applies, "all applicability selectors matched"%string)
  | Matched :: rest => run_selectors rest unknown reason
  | Noted text :: rest => run_selectors rest unknown text
  | Deferred text :: rest => run_selectors rest true text
  | Mismatched text :: _ => (QuirkApplicabilityResult.DoesNotApply, text)
  end.

Definition evaluate_quirk (quirk : QuirkRecord) (device : DeviceIdentity) (software : DeviceSoftwareState)
    (environment : EnvironmentContext) : QuirkApplication :=
  let '(result, reason) :=
    run_selectors (quirk_selectors (qr_applicability quirk) device software environment) false EmptyString in
  {| qp_id := qr_id quirk; qp_generation := qr_generation quirk; qp_severity := qr_severity quirk;
     qp_mitigation := qr_mitigation quirk; qp_result := result; qp_reason := reason; qp_title := qr_title quirk |}.

(* ===================================================================== *)
(** ** Lemmas *)

Definition is_mismatch (s : SelectorOutcome) : bool := match s with Mismatched _ => true | _ => false end.
Definition is_deferral (s : SelectorOutcome) : bool := match s with Deferred _ => true | _ => false end.

Lemma run_selectors_result selectors unknown reason :
  (run_selectors selectors unknown reason).1 =
  if existsb is_mismatch selectors then QuirkApplicabilityResult.DoesNotApply
  else if unknown || existsb is_deferral selectors then QuirkApplicabilityResult.Unknown
  else QuirkApplicabilityResult.Applies.
Proof.
  revert unknown reason. induction selectors as [|[|t|t|t] selectors IH]; intros unknown reason; cbn; try done.
  - by destruct unknown.
  - rewrite IH. cbn. by rewrite orb_true_r.
Qed.

#[global] Instance enum_ltb_strict_total {A} `{CppEnum A} : StrictTotal (enum_ltb (A := A)).
Proof.
  split; unfold enum_ltb.
  - intros x. apply N.ltb_irrefl.
  - intros x y z. apply (st_trans (lt := N.ltb)).
  - intros x y H1 H2. apply enum_index_inj. by apply (st_total (lt := N.ltb)).
Qed.

(** Quirks are ordered by severity (highest first), identity, generation. *)
Definition quirk_order : QuirkRecord -> QuirkRecord -> bool :=
  lex_ltb (on_ltb qr_severity (desc_ltb enum_ltb))
    (lex_ltb (on_ltb qr_id key_ltb) (on_ltb qr_generation key_ltb)).

Lemma quirk_precedes_order a b : quirk_precedes a b = quirk_order a b.
Proof.
  unfold quirk_precedes.
  change (enum_index (qr_severity b) <? enum_index (qr_severity a)) with
    (enum_ltb (qr_severity b) (qr_severity a)).
  by rewrite (unless_equal_desc enum_ltb), (unless_equal_lex key_ltb) by apply eqb_true.
Qed.

#[global] Instance quirk_precedes_strict_weak : StrictWeak quirk_precedes.
Proof. apply (strict_weak_ext _ quirk_order quirk_precedes_order). unfold quirk_order. apply _. Qed.

(* ===================================================================== *)
(** ** Properties *)

(** Quirk evaluation is a three-valued conjunction of its selectors,
    whatever their order: a definite mismatch of any of them excludes the
    quirk, otherwise a missing fact leaves its applicability unknown, and it
    applies when every selector that is set matches. *)
Theorem evaluate_quirk_three_valued quirk device software environment :
  let selectors := quirk_selectors (qr_applicability quirk) device software environment in
  let result := qp_result (evaluate_quirk quirk device software environment) in
  (result = QuirkApplicabilityResult.DoesNotApply <-> (exists t, Mismatched t ∈ selectors)) /\
  (result = QuirkApplicabilityResult.Unknown <->
     (forall t, Mismatched t ∉ selectors) /\ (exists t, Deferred t ∈ selectors)) /\
  (result = QuirkApplicabilityResult.Applies <->
     (forall t, (Mismatched t ∉ selectors) /\ (Deferred t ∉ selectors))).
Proof.
  intros selectors result.
  assert (Hr : result = (run_selectors selectors false EmptyString).1).
  { subst result. unfold evaluate_quirk. fold selectors. by destruct (run_selectors _ _ _). }
  rewrite run_selectors_result in Hr. clearbody result selectors. cbn [orb] in Hr.
  assert (Hm : existsb is_mismatch selectors = true <-> (exists t, Mismatched t ∈ selectors)).
  { rewrite existsb_exists. setoid_rewrite list_elem_of_In. split.
    - intros ([| | |t] & Hin & ?); try done. by exists t.
    - intros [t Hin]. by exists (Mismatched t). }
  assert (Hd : existsb is_deferral selectors = true <-> (exists t, Deferred t ∈ selectors)).
  { rewrite existsb_exists. setoid_rewrite list_elem_of_In. split.
    - intros ([| |t|] & Hin & ?); try done. by exists t.
    - intros [t Hin]. by exists (Deferred t). }
  destruct (existsb is_mismatch selectors).
  { destruct (proj1 Hm eq_refl) as [t Ht]. subst result. split; [by split; [exists t|]|].
    split; (split; [done|]); [intros [H _]|intros H]; by destruct (H t). }
  assert (Hn : forall t, Mismatched t ∉ selectors) by (intros t Ht; discriminate (proj2 Hm (ex_intro _ t Ht))).
  destruct (existsb is_deferral selectors); subst result.
  - destruct (proj1 Hd eq_refl) as [t Ht]. split; [split; [done|intros [u Hu]; by destruct (Hn u)]|].
    split; [by split; [intros _; split; [|exists t]|]|]. split; [done|]. intros H. by destruct (H t).
  - assert (Hf : forall t, Deferred t ∉ selectors) by (intros t Ht; discriminate (proj2 Hd (ex_intro _ t Ht))).
    split; [split; [done|intros [u Hu]; by destruct (Hn u)]|].
    split; [|by split]. split; [done|]. intros [_ [u Hu]]. by destruct (Hf u).
Qed.
