(* ===== verification/Compat.v ===== *)
(** * Compatibility facts

    Models [compatibility.hpp]/[compatibility.cpp]: references to hardware and
    software, compatibility facts and their validation. *)

From S2P Require Import Prelude Tokens Versions Support Conditions Values Hardware.

Module CompatibilitySubjectKind.
Inductive CompatibilitySubjectKind :=
  | AcceleratorRuntime | AcceleratorDriver | AcceleratorCompilerTarget |
  AcceleratorKernelArchitecture | NicRdmaStack | GpuNicDirectPath | CxlPlatform |
  PartitionProfileDevice | FirmwareDriver | DpuServiceHardware | MemoryTypeExecutionEngine |
  PlatformDriver | Other.

#[global] Instance CompatibilitySubjectKind_eq_dec : EqDecision CompatibilitySubjectKind.
Proof. solve_decision. Defined.

#[global] Program Instance CompatibilitySubjectKind_enum : CppEnum CompatibilitySubjectKind := {|
  enum_values := [AcceleratorRuntime; AcceleratorDriver; AcceleratorCompilerTarget;
    AcceleratorKernelArchitecture; NicRdmaStack; GpuNicDirectPath; CxlPlatform;
    PartitionProfileDevice; FirmwareDriver; DpuServiceHardware; MemoryTypeExecutionEngine;
    PlatformDriver; Other]
|}.
Solve Obligations with solve_enum.
End CompatibilitySubjectKind.
Abbreviation CompatibilitySubjectKind := CompatibilitySubjectKind.CompatibilitySubjectKind.

Module ReferenceKind.
Inductive ReferenceKind :=
  | Device | HardwareFamily | HardwareModel | Architecture | Vendor | Firmware | Driver |
  Runtime | Platform.

#[global] Instance ReferenceKind_eq_dec : EqDecision ReferenceKind.
Proof. solve_decision. Defined.

#[global] Program Instance ReferenceKind_enum : CppEnum ReferenceKind := {|
  enum_values := [Device; HardwareFamily; HardwareModel; Architecture; Vendor; Firmware;
    Driver; Runtime; Platform]
|}.
Solve Obligations with solve_enum.
End ReferenceKind.
Abbreviation ReferenceKind := ReferenceKind.ReferenceKind.

Module CompatibilityOutcome.
Inductive CompatibilityOutcome :=
  | Compatible | CompatibleConditional | Incompatible | Unknown | Unsupported |
  RevalidationRequired.

#[global] Instance CompatibilityOutcome_eq_dec : EqDecision CompatibilityOutcome.
Proof. solve_decision. Defined.

#[global] Program Instance CompatibilityOutcome_enum : CppEnum CompatibilityOutcome := {|
  enum_values := [Compatible; CompatibleConditional; Incompatible; Unknown; Unsupported;
    RevalidationRequired]
|}.
Solve Obligations with solve_enum.
End CompatibilityOutcome.
Abbreviation CompatibilityOutcome := CompatibilityOutcome.CompatibilityOutcome.

Definition compatibility_subject_kind_to_string (value : CompatibilitySubjectKind) : string :=
  match value with
  | CompatibilitySubjectKind.AcceleratorRuntime => "accelerator-runtime"
  | CompatibilitySubjectKind.AcceleratorDriver => "accelerator-driver"
  | CompatibilitySubjectKind.AcceleratorCompilerTarget => "accelerator-compiler-target"
  | CompatibilitySubjectKind.AcceleratorKernelArchitecture => "accelerator-kernel-architecture"
  | CompatibilitySubjectKind.NicRdmaStack => "nic-rdma-stack"
  | CompatibilitySubjectKind.GpuNicDirectPath => "gpu-nic-direct-path"
  | CompatibilitySubjectKind.CxlPlatform => "cxl-platform"
  | CompatibilitySubjectKind.PartitionProfileDevice => "partition-profile-device"
  | CompatibilitySubjectKind.FirmwareDriver => "firmware-driver"
  | CompatibilitySubjectKind.DpuServiceHardware => "dpu-service-hardware"
  | CompatibilitySubjectKind.MemoryTypeExecutionEngine => "memory-type-execution-engine"
  | CompatibilitySubjectKind.PlatformDriver => "platform-driver"
  | CompatibilitySubjectKind.Other => "other"
  end.

Definition compatibility_subject_kind_from_string (text : string) : option CompatibilitySubjectKind :=
  scan_values compatibility_subject_kind_to_string text (enum_upto CompatibilitySubjectKind.Other).

Definition hardware_reference_kind_to_string (value : ReferenceKind) : string :=
  match value with
  | ReferenceKind.Device => "device"
  | ReferenceKind.HardwareFamily => "hardware-family"
  | ReferenceKind.HardwareModel => "hardware-model"
  | ReferenceKind.Architecture => "architecture"
  | ReferenceKind.Vendor => "vendor"
  | ReferenceKind.Firmware => "firmware"
  | ReferenceKind.Driver => "driver"
  | ReferenceKind.Runtime => "runtime"
  | ReferenceKind.Platform => "platform"
  end.

Definition hardware_reference_kind_from_string (text : string) : option ReferenceKind :=
  scan_values hardware_reference_kind_to_string text (enum_upto ReferenceKind.Platform).

Definition compatibility_outcome_to_string (value : CompatibilityOutcome) : string :=
  match value with
  | CompatibilityOutcome.Compatible => "COMPATIBLE"
  | CompatibilityOutcome.CompatibleConditional => "COMPATIBLE_CONDITIONAL"
  | CompatibilityOutcome.Incompatible => "INCOMPATIBLE"
  | CompatibilityOutcome.Unknown => "UNKNOWN"
  | CompatibilityOutcome.Unsupported => "UNSUPPORTED"
  | CompatibilityOutcome.RevalidationRequired => "REVALIDATION_REQUIRED"
  end.

Definition compatibility_outcome_from_string (text : string) : option CompatibilityOutcome :=
  scan_values compatibility_outcome_to_string text (enum_upto CompatibilityOutcome.RevalidationRequired).

Record HardwareReference := mk_HardwareReference {
  ref_kind : ReferenceKind;
  ref_token : string;
  ref_version : SoftwareVersion
}.

#[global] Instance HardwareReference_eq_dec : EqDecision HardwareReference.
Proof. solve_decision. Defined.

Definition reference_eqb (a b : HardwareReference) : bool :=
  (ref_kind a ==? ref_kind b) && (ref_token a ==? ref_token b) &&
  (version_compare (ref_version a) (ref_version b) =? 0)%Z.

Definition reference_ltb (a b : HardwareReference) : bool :=
  if ref_kind a !=? ref_kind b then enum_index (ref_kind a) <? enum_index (ref_kind b)
  else if ref_token a !=? ref_token b then string_ltb (ref_token a) (ref_token b)
  else (version_compare (ref_version a) (ref_version b) <? 0)%Z.

Definition hardware_reference_requires_subject (kind : ReferenceKind) : bool :=
  match kind with
  | ReferenceKind.Device | ReferenceKind.HardwareFamily | ReferenceKind.HardwareModel
  | ReferenceKind.Architecture | ReferenceKind.Platform => true
  | _ => false
  end.

Record CompatibilityFact := mk_CompatibilityFact {
  cf_id : CompatibilityFactId;
  cf_generation : CompatibilityGeneration;
  cf_kind : CompatibilitySubjectKind;
  cf_lhs : HardwareReference;
  cf_rhs : HardwareReference;
  cf_outcome : CompatibilityOutcome;
  cf_conditions : ConditionPtr;
  cf_version_window : VersionRange;
  cf_reason : string;
  cf_source : EvidenceSource;
  cf_withdrawn : bool
}.

#[global] Instance eta_CompatibilityFact : Eta CompatibilityFact := fun r =>
  mk_CompatibilityFact
    (cf_id r) (cf_generation r) (cf_kind r) (cf_lhs r) (cf_rhs r) (cf_outcome r)
    (cf_conditions r) (cf_version_window r) (cf_reason r) (cf_source r) (cf_withdrawn r).

Definition validate_compatibility_fact (fact : CompatibilityFact) (limits : RegistryLimits) : Status :=
  return_if negb (id_valid (cf_id fact))
    failing InvalidIdentity "compatibility fact requires a canonical identity";
  return_if negb (gen_valid (cf_generation fact))
    failing InvalidIdentity "compatibility fact requires a generation";
  return_if negb (is_canonical_token (ref_token (cf_lhs fact))) || negb (is_canonical_token (ref_token (cf_rhs fact)))
    failing InvalidReference "compatibility reference token is not canonical";
  return_if (ref_kind (cf_lhs fact) ==? ref_kind (cf_rhs fact)) && (ref_token (cf_lhs fact) ==? ref_token (cf_rhs fact)) &&
            (version_compare (ref_version (cf_lhs fact)) (ref_version (cf_rhs fact)) =? 0)%Z
    failing InvalidReference "compatibility fact references the same subject twice";
  return_if negb (is_empty (cf_reason fact)) && (max_metadata_bytes limits <? strlen (cf_reason fact))
    failing LimitExceeded "compatibility reason exceeds length limit";
  return_if ((cf_outcome fact ==? CompatibilityOutcome.Incompatible) ||
             (cf_outcome fact ==? CompatibilityOutcome.Unsupported)) && is_empty (cf_reason fact)
    failing InvalidArgument "incompatible or unsupported compatibility facts require a reason";
  return_if negb (range_valid (cf_version_window fact))
    failing InvalidRange "compatibility version window is inverted";
  return_if negb (id_valid (pi_id (publisher (cf_source fact))))
    failing InvalidProvenance "compatibility fact requires a publisher identity";
  return_if is_empty (adapter (cf_source fact)) || (max_metadata_bytes limits <? strlen (adapter (cf_source fact)))
    failing InvalidProvenance "compatibility fact requires a bounded source adapter";
  return_if source_class (cf_source fact) ==? SourceClass.Unspecified
    failing InvalidProvenance "compatibility fact requires a source class";
  return_if negb (provenance_allowed_for (provenance (cf_source fact)) (source_class (cf_source fact)))
    failing InvalidProvenance "compatibility provenance is stronger than its source class can support";
  validate_optional_condition (cf_conditions fact) limits.
