(* ===== verification/Publication.v ===== *)
(** * Publications

    Models [publication.hpp] and the publication helpers at the top of
    [registry.cpp]: the units of evidence the registry ingests, their
    validation and fingerprint, and the result of an ingestion. *)

From S2P Require Import Prelude Tokens Versions Support Conditions Values Hardware Quirks Compat.

Module PublicationKind.
Inductive PublicationKind :=
  | RegisterPublisher | RegisterDevice | PublishDeviceGeneration | PublishCapability |
  WithdrawCapability | PublishQuirk | WithdrawQuirk | PublishCompatibility |
  WithdrawCompatibility | RegisterCapabilitySchema | Heartbeat.

#[global] Instance PublicationKind_eq_dec : EqDecision PublicationKind.
Proof. solve_decision. Defined.

#[global] Program Instance PublicationKind_enum : CppEnum PublicationKind := {|
  enum_values := [RegisterPublisher; RegisterDevice; PublishDeviceGeneration;
    PublishCapability; WithdrawCapability; PublishQuirk; WithdrawQuirk; PublishCompatibility;
    WithdrawCompatibility; RegisterCapabilitySchema; Heartbeat]
|}.
Solve Obligations with solve_enum.
End PublicationKind.
Abbreviation PublicationKind := PublicationKind.PublicationKind.

Module ApplyCode.
Inductive ApplyCode :=
  | Accepted | AcceptedIdempotent | RejectedValidation | RejectedUnknownPublisher |
  RejectedFencedPublisher | RejectedStaleBoot | RejectedStaleEpoch | RejectedStaleSequence |
  RejectedGenerationRegression | RejectedDuplicateConflict | RejectedStaleDeviceGeneration |
  RejectedStaleCapabilityGeneration | RejectedUnknownDevice | RejectedUnknownSchema |
  RejectedLimit | RejectedBackpressure | RejectedShuttingDown | RejectedWithdrawnSubject |
  RejectedInvariant.

#[global] Instance ApplyCode_eq_dec : EqDecision ApplyCode.
Proof. solve_decision. Defined.

#[global] Program Instance ApplyCode_enum : CppEnum ApplyCode := {|
  enum_values := [Accepted; AcceptedIdempotent; RejectedValidation; RejectedUnknownPublisher;
    RejectedFencedPublisher; RejectedStaleBoot; RejectedStaleEpoch; RejectedStaleSequence;
    RejectedGenerationRegression; RejectedDuplicateConflict; RejectedStaleDeviceGeneration;
    RejectedStaleCapabilityGeneration; RejectedUnknownDevice; RejectedUnknownSchema;
    RejectedLimit; RejectedBackpressure; RejectedShuttingDown; RejectedWithdrawnSubject;
    RejectedInvariant]
|}.
Solve Obligations with solve_enum.
End ApplyCode.
Abbreviation ApplyCode := ApplyCode.ApplyCode.

Definition publication_kind_to_string (value : PublicationKind) : string :=
  match value with
  | PublicationKind.RegisterPublisher => "register-publisher"
  | PublicationKind.RegisterDevice => "register-device"
  | PublicationKind.PublishDeviceGeneration => "publish-device-generation"
  | PublicationKind.PublishCapability => "publish-capability"
  | PublicationKind.WithdrawCapability => "withdraw-capability"
  | PublicationKind.PublishQuirk => "publish-quirk"
  | PublicationKind.WithdrawQuirk => "withdraw-quirk"
  | PublicationKind.PublishCompatibility => "publish-compatibility"
  | PublicationKind.WithdrawCompatibility => "withdraw-compatibility"
  | PublicationKind.RegisterCapabilitySchema => "register-capability-schema"
  | PublicationKind.Heartbeat => "heartbeat"
  end.

Definition publication_kind_from_string (text : string) : option PublicationKind :=
  scan_values publication_kind_to_string text (enum_upto PublicationKind.Heartbeat).

Definition apply_code_to_string (value : ApplyCode) : string :=
  match value with
  | ApplyCode.Accepted => "accepted"
  | ApplyCode.AcceptedIdempotent => "accepted-idempotent"
  | ApplyCode.RejectedValidation => "rejected-validation"
  | ApplyCode.RejectedUnknownPublisher => "rejected-unknown-publisher"
  | ApplyCode.RejectedFencedPublisher => "rejected-fenced-publisher"
  | ApplyCode.RejectedStaleBoot => "rejected-stale-boot"
  | ApplyCode.RejectedStaleEpoch => "rejected-stale-epoch"
  | ApplyCode.RejectedStaleSequence => "rejected-stale-sequence"
  | ApplyCode.RejectedGenerationRegression => "rejected-generation-regression"
  | ApplyCode.RejectedDuplicateConflict => "rejected-duplicate-conflict"
  | ApplyCode.RejectedStaleDeviceGeneration => "rejected-stale-device-generation"
  | ApplyCode.RejectedStaleCapabilityGeneration => "rejected-stale-capability-generation"
  | ApplyCode.RejectedUnknownDevice => "rejected-unknown-device"
  | ApplyCode.RejectedUnknownSchema => "rejected-unknown-schema"
  | ApplyCode.RejectedLimit => "rejected-limit"
  | ApplyCode.RejectedBackpressure => "rejected-backpressure"
  | ApplyCode.RejectedShuttingDown => "rejected-shutting-down"
  | ApplyCode.RejectedWithdrawnSubject => "rejected-withdrawn-subject"
  | ApplyCode.RejectedInvariant => "rejected-invariant"
  end.

Record Publication := mk_Publication {
  pb_kind : PublicationKind;
  pb_publisher : PublisherIdentity;
  pb_sequence : N;
  pb_evidence_generation : EvidenceGeneration;
  pb_device : DeviceRegistration;
  pb_capability : CapabilityRecord;
  pb_quirk : QuirkRecord;
  pb_compatibility : CompatibilityFact;
  pb_schema : CapabilitySchema;
  pb_reason : string;
  pb_issued_at_utc : string
}.

#[global] Instance eta_Publication : Eta Publication := fun r =>
  mk_Publication
    (pb_kind r) (pb_publisher r) (pb_sequence r) (pb_evidence_generation r) (pb_device r)
    (pb_capability r) (pb_quirk r) (pb_compatibility r) (pb_schema r) (pb_reason r)
    (pb_issued_at_utc r).

Definition apply_code_accepted (code : ApplyCode) : bool :=
  (code ==? ApplyCode.Accepted) || (code ==? ApplyCode.AcceptedIdempotent).

Record ApplyResult := mk_ApplyResult {
  ar_code : ApplyCode;
  ar_mutated : bool;
  ar_detail : string;
  ar_assigned_publisher : PublisherIdentity;
  ar_device_generation : DeviceGeneration;
  ar_device_boot : DeviceBootId
}.

#[global] Instance ApplyResult_eq_dec : EqDecision ApplyResult.
Proof. solve_decision. Defined.

#[global] Instance eta_ApplyResult : Eta ApplyResult := fun r =>
  mk_ApplyResult
    (ar_code r) (ar_mutated r) (ar_detail r) (ar_assigned_publisher r)
    (ar_device_generation r) (ar_device_boot r).

Definition accepted (r : ApplyResult) : bool := apply_code_accepted (ar_code r).

(** [ApplyResult result;] followed by assignments to [code] and [detail]. *)
Definition rejected_result (code : ApplyCode) (detail : string) : ApplyResult :=
  mk_ApplyResult code false detail no_publisher Gen_none Gen_none.

Definition validate_publication (p : Publication) (limits : RegistryLimits) : Status :=
  return_if negb (id_valid (pi_id (pb_publisher p)))
    failing InvalidIdentity "publication requires a publisher identity";
  return_if negb (gen_valid (pi_boot (pb_publisher p)))
    failing InvalidIdentity "publication requires a publisher boot identity";
  return_if max_metadata_bytes limits <? strlen (pb_issued_at_utc p)
    failing LimitExceeded "publication timestamp exceeds length limit";
  return_if max_metadata_bytes limits <? strlen (pb_reason p)
    failing LimitExceeded "publication reason exceeds length limit";
  match pb_kind p with
  | PublicationKind.RegisterPublisher | PublicationKind.Heartbeat => success
  | PublicationKind.RegisterDevice | PublicationKind.PublishDeviceGeneration =>
      validate_device_identity (dr_identity (pb_device p)) limits
  | PublicationKind.PublishCapability | PublicationKind.WithdrawCapability =>
      return_if negb (Bool.eqb (cr_withdrawn (pb_capability p)) (pb_kind p ==? PublicationKind.WithdrawCapability))
        failing InvalidArgument "capability publication kind and withdrawal flag disagree";
      validate_capability_record (pb_capability p) limits
  | PublicationKind.PublishQuirk | PublicationKind.WithdrawQuirk => validate_quirk_record (pb_quirk p) limits
  | PublicationKind.PublishCompatibility | PublicationKind.WithdrawCompatibility =>
      return_if negb (Bool.eqb (cf_withdrawn (pb_compatibility p)) (pb_kind p ==? PublicationKind.WithdrawCompatibility))
        failing InvalidArgument "compatibility publication kind and withdrawal flag disagree";
      validate_compatibility_fact (pb_compatibility p) limits
  | PublicationKind.RegisterCapabilitySchema => validate_capability_schema (pb_schema p) limits
  end.

(** The parts of a publication that enter its fingerprint, in order. *)
Definition fingerprint_publication (p : Publication) : string :=
  let c := pb_capability p in
  let q := pb_quirk p in
  let f := pb_compatibility p in
  let d := pb_device p in
  let hash := kFnvOffsetBasis in
  let hash := fnv1a64_mix_text hash (publication_kind_to_string (pb_kind p)) in
  let hash := fnv1a64_mix_text hash (id_str (cr_device c)) in
  let hash := fnv1a64_mix_text hash (id_str (cr_capability c)) in
  let hash := fnv1a64_mix_text hash (id_str (cr_schema c)) in
  let hash := fnv1a64_mix_value hash (enum_index (cr_support c)) in
  let hash := fnv1a64_mix_text hash (value_describe (cr_value c)) in
  let hash := fnv1a64_mix_text hash (describe_condition (cr_conditions c)) in
  let hash := fnv1a64_mix_text hash (if cr_withdrawn c then "withdrawn" else "present") in
  let hash := fnv1a64_mix_text hash (id_str (qr_id q)) in
  let hash := fnv1a64_mix_text hash (pretty (gen_value (qr_generation q))) in
  let hash := fnv1a64_mix_text hash (qr_title q) in
  let hash := fnv1a64_mix_text hash (id_str (cf_id f)) in
  let hash := fnv1a64_mix_text hash (pretty (gen_value (cf_generation f))) in
  let hash := fnv1a64_mix_text hash (ref_token (cf_lhs f)) in
  let hash := fnv1a64_mix_text hash (ref_token (cf_rhs f)) in
  let hash := fnv1a64_mix_text hash (id_str (cs_id (pb_schema p))) in
  let hash := fnv1a64_mix_text hash (id_str (di_id (dr_identity d))) in
  let hash := fnv1a64_mix_text hash (id_str (di_incarnation (dr_identity d))) in
  let hash := fnv1a64_mix_text hash (dv_version (sw_driver (dr_software d))) in
  let hash := fnv1a64_mix_text hash (fw_version (sw_firmware (dr_software d))) in
  let hash := fnv1a64_mix_text hash (rt_version (sw_runtime (dr_software d))) in
  hex64 hash.

Definition capability_content_equal (left right : CapabilityRecord) : bool :=
  (cr_support left ==? cr_support right) && value_eqb (cr_value left) (cr_value right) &&
  (describe_condition (cr_conditions left) ==? describe_condition (cr_conditions right)).

(** [condition_tree_contains]: a depth-first search with an explicit stack;
    the number of nodes is enough fuel ([contains_loop_spec]). *)
Fixpoint contains_loop (fuel : nat) (axis : ConditionKind) (stack : list ConditionPtr) : bool :=
  match fuel, stack with
  | S fuel', node :: rest =>
      match node with
      | None => contains_loop fuel' axis rest
      | Some n =>
          if cond_kind n ==? axis then true
          else contains_loop fuel' axis (foldl (fun st child => child :: st) rest (cond_children n))
      end
  | _, _ => false
  end.

Definition condition_tree_contains (root : ConditionPtr) (axis : ConditionKind) : bool :=
  match root with
  | None => false
  | Some n => contains_loop (N.to_nat (count_nodes n)) axis [root]
  end.

Definition record_gate_axis (record : CapabilityRecord) (axis : ConditionKind) : bool :=
  condition_tree_contains (cr_conditions record) axis.

Definition condition_axis_name (kind : ConditionKind) : string :=
  match kind with
  | ConditionKind.MinDriverVersion => "driver"
  | ConditionKind.MinFirmwareVersion => "firmware"
  | ConditionKind.MinRuntimeVersion => "runtime"
  | _ => "unknown"
  end.

(* ===================================================================== *)
(** ** Lemmas *)

(** Specification of the search: some node of the tree has the kind. *)
Fixpoint node_contains (axis : ConditionKind) (node : ConditionNode) : bool :=
  let '(Condition kind _ _ children) := node in
  (kind ==? axis) || existsb (fun c => match c with None => false | Some n => node_contains axis n end) children.

Definition ptr_contains (axis : ConditionKind) (p : ConditionPtr) : bool :=
  match p with None => false | Some n => node_contains axis n end.

Lemma push_all_perm (children stack : list ConditionPtr) :
  foldl (fun st child => child :: st) stack children ≡ₚ children ++ stack.
Proof.
  revert stack. induction children as [|c children IH]; intros stack; cbn; [done|].
  rewrite IH. apply Permutation_sym, Permutation_middle.
Qed.

Lemma existsb_perm {A} (f : A -> bool) l1 l2 : l1 ≡ₚ l2 -> existsb f l1 = existsb f l2.
Proof. induction 1; cbn; [done|congruence| |congruence]. by destruct (f x), (f y). Qed.

Lemma contains_loop_spec fuel axis stack :
  sumN (map count_ptr stack) <= N.of_nat fuel ->
  contains_loop fuel axis stack = existsb (ptr_contains axis) stack.
Proof.
  revert stack. induction fuel as [|fuel IH]; intros [|p stack] Hf; try done.
  - cbn in Hf. pose proof (count_ptr_pos p). lia.
  - cbn [contains_loop existsb]. change (sumN (map count_ptr (p :: stack))) with
      (count_ptr p + sumN (map count_ptr stack)) in Hf.
    destruct p as [n|]; cbn [count_ptr] in Hf; [|apply IH; lia].
    rewrite count_nodes_eq in Hf. cbn [ptr_contains]. destruct n as [kind key value children].
    cbn [cond_kind cond_children node_contains] in *.
    destruct (kind ==? axis); [done|]. cbn [orb]. rewrite IH.
    + rewrite (existsb_perm _ _ _ (push_all_perm children stack)), existsb_app. done.
    + rewrite (sumN_perm _ _ (Permutation_map _ (push_all_perm children stack))), map_app, sumN_app. lia.
Qed.

Lemma condition_tree_contains_spec root axis : condition_tree_contains root axis = ptr_contains axis root.
Proof.
  destruct root as [n|]; [|done]. unfold condition_tree_contains. rewrite contains_loop_spec.
  - cbn. by rewrite orb_false_r.
  - unfold sumN. cbn. lia.
Qed.
