(* ===== verification/RegistryState.v ===== *)
(** * The state of the registry

    Models the state structs of [registry.cpp] ([StoredRecord], [KeyState],
    [DeviceState], [PublisherStateInternal], [GlobalEntry], [Impl]) with the
    records of [snapshot.hpp], [durable_state.hpp] and [registry.hpp] they
    hold, and the constructor. Ordered containers become finite maps and sets
    that are iterated with [map_entries] and [set_entries]. The mutex has no
    counterpart: every public method holds it from its first to its last
    access to the state, so that an operation is one atomic step. *)

From S2P Require Import Prelude Tokens Versions Support Conditions Values Hardware Quirks Compat Publication.

Abbreviation KeyId := (DeviceId * CapabilityId)%type.

Record StoredRecord := mk_StoredRecord {
  sr_record : CapabilityRecord;
  sr_persistent : StalenessFlag;
  sr_slot : string;
  sr_serial : N
}.

#[global] Instance eta_StoredRecord : Eta StoredRecord := fun r =>
  mk_StoredRecord
    (sr_record r) (sr_persistent r) (sr_slot r) (sr_serial r).

Record KeyState := mk_KeyState {
  ks_schema : CapabilitySchemaId;
  ks_generation : CapabilityGeneration;
  ks_has_evidence : bool;
  ks_records : list StoredRecord
}.

#[global] Instance eta_KeyState : Eta KeyState := fun r =>
  mk_KeyState
    (ks_schema r) (ks_generation r) (ks_has_evidence r) (ks_records r).

Record DeviceState := mk_DeviceState {
  ds_identity : DeviceIdentity;
  ds_software : DeviceSoftwareState;
  ds_generation : DeviceGeneration;
  ds_boot : DeviceBootId;
  ds_platform_generation : PlatformGeneration
}.

#[global] Instance DeviceState_eq_dec : EqDecision DeviceState.
Proof. solve_decision. Defined.

#[global] Instance eta_DeviceState : Eta DeviceState := fun r =>
  mk_DeviceState
    (ds_identity r) (ds_software r) (ds_generation r) (ds_boot r) (ds_platform_generation
    r).

(** [PublisherRecord] ([snapshot.hpp]) *)
Record PublisherRecord := mk_PublisherRecord {
  pr_identity : PublisherIdentity;
  pr_state : PublisherState;
  pr_adapter : string;
  pr_last_sequence : N;
  pr_max_evidence_generation : EvidenceGeneration;
  pr_accepted : N;
  pr_rejected : N;
  pr_reason : string;
  pr_registered_at_utc : string;
  pr_boot_history : N
}.

#[global] Instance PublisherRecord_eq_dec : EqDecision PublisherRecord.
Proof. solve_decision. Defined.

#[global] Instance eta_PublisherRecord : Eta PublisherRecord := fun r =>
  mk_PublisherRecord
    (pr_identity r) (pr_state r) (pr_adapter r) (pr_last_sequence r)
    (pr_max_evidence_generation r) (pr_accepted r) (pr_rejected r) (pr_reason r)
    (pr_registered_at_utc r) (pr_boot_history r).

#[global] Instance eta_PublisherIdentity : Eta PublisherIdentity := fun r =>
  mk_PublisherIdentity (pi_id r) (pi_boot r) (pi_epoch r).

(** [PublisherWatermark] ([durable_state.hpp]) *)
Record PublisherWatermark := mk_PublisherWatermark {
  wm_publisher : PublisherId;
  wm_boot : PublisherBootId;
  wm_max_sequence : N;
  wm_max_evidence_generation : EvidenceGeneration;
  wm_state : PublisherState;
  wm_adapter : string;
  wm_reason : string;
  wm_accepted : N;
  wm_rejected : N;
  wm_registered_at_utc : string
}.

#[global] Instance PublisherWatermark_eq_dec : EqDecision PublisherWatermark.
Proof. solve_decision. Defined.

#[global] Instance eta_PublisherWatermark : Eta PublisherWatermark := fun r =>
  mk_PublisherWatermark
    (wm_publisher r) (wm_boot r) (wm_max_sequence r) (wm_max_evidence_generation r)
    (wm_state r) (wm_adapter r) (wm_reason r) (wm_accepted r) (wm_rejected r)
    (wm_registered_at_utc r).

Record PublisherStateInternal := mk_PublisherStateInternal {
  ps_record : PublisherRecord;
  ps_fenced_boots : gset PublisherBootId;
  ps_watermarks : gmap PublisherBootId PublisherWatermark;
  ps_sequence_fingerprints : gmap N N;
  ps_boot_history : N;
  ps_publisher_fenced : bool
}.

#[global] Instance eta_PublisherStateInternal : Eta PublisherStateInternal := fun r =>
  mk_PublisherStateInternal
    (ps_record r) (ps_fenced_boots r) (ps_watermarks r) (ps_sequence_fingerprints r)
    (ps_boot_history r) (ps_publisher_fenced r).

Record GlobalEntry := mk_GlobalEntry {
  ge_key : KeyId;
  ge_serial : N
}.

#[global] Instance GlobalEntry_eq_dec : EqDecision GlobalEntry.
Proof. solve_decision. Defined.

(** [ResourceUsage] ([registry.hpp]) *)
Record ResourceUsage := mk_ResourceUsage {
  ru_devices : N;
  ru_platforms : N;
  ru_capability_keys : N;
  ru_evidence_records : N;
  ru_quirks : N;
  ru_compatibility_facts : N;
  ru_publishers : N;
  ru_schemas : N;
  ru_accepted_publications : N;
  ru_rejected_publications : N;
  ru_idempotent_publications : N;
  ru_snapshots_taken : N
}.

#[global] Instance ResourceUsage_eq_dec : EqDecision ResourceUsage.
Proof. solve_decision. Defined.

#[global] Instance eta_ResourceUsage : Eta ResourceUsage := fun r =>
  mk_ResourceUsage
    (ru_devices r) (ru_platforms r) (ru_capability_keys r) (ru_evidence_records r)
    (ru_quirks r) (ru_compatibility_facts r) (ru_publishers r) (ru_schemas r)
    (ru_accepted_publications r) (ru_rejected_publications r) (ru_idempotent_publications
    r) (ru_snapshots_taken r).

(** [CapabilityRegistry::Impl] *)
Record Registry := mk_Registry {
  r_limits : RegistryLimits;
  r_schemas : gmap CapabilitySchemaId CapabilitySchema;
  r_capability_schemas : gmap CapabilityId CapabilitySchemaId;
  r_devices : gmap DeviceId DeviceState;
  r_platforms : gmap PlatformId PlatformIdentity;
  r_keys : gmap KeyId KeyState;
  r_device_keys : gmap DeviceId (gset CapabilityId);
  r_families : gset HardwareFamilyId;
  r_models : gset HardwareModelId;
  r_architectures : gset ArchitectureId;
  r_global_order : list GlobalEntry;
  r_evidence_count : N;
  r_next_serial : N;
  r_quirks : gmap QuirkId QuirkRecord;
  r_compatibility : gmap CompatibilityFactId CompatibilityFact;
  r_publishers : gmap PublisherId PublisherStateInternal;
  r_epoch : CoordinatorEpoch;
  r_snapshot_generation : SnapshotGeneration;
  r_state_revision : N;
  r_shutting_down : bool;
  r_usage : ResourceUsage
}.

#[global] Instance eta_Registry : Eta Registry := fun r =>
  mk_Registry
    (r_limits r) (r_schemas r) (r_capability_schemas r) (r_devices r) (r_platforms r)
    (r_keys r) (r_device_keys r) (r_families r) (r_models r) (r_architectures r)
    (r_global_order r) (r_evidence_count r) (r_next_serial r) (r_quirks r)
    (r_compatibility r) (r_publishers r) (r_epoch r) (r_snapshot_generation r)
    (r_state_revision r) (r_shutting_down r) (r_usage r).

(** Default-constructed [PublisherRecord], [PublisherWatermark] and
    [PublisherStateInternal]. *)
Definition default_publisher_record : PublisherRecord :=
  mk_PublisherRecord no_publisher PublisherState.Unknown EmptyString 0 Gen_none 0 0 EmptyString EmptyString 0.

Definition default_watermark : PublisherWatermark :=
  mk_PublisherWatermark Id_none Gen_none 0 Gen_none PublisherState.Unknown EmptyString EmptyString 0 0 EmptyString.

Definition default_publisher_state : PublisherStateInternal :=
  mk_PublisherStateInternal default_publisher_record ∅ ∅ ∅ 0 false.

Definition default_usage : ResourceUsage := mk_ResourceUsage 0 0 0 0 0 0 0 0 0 0 0 0.

(** [watermark_for]. *)
Definition watermark_for (id : PublisherId) (p : PublisherStateInternal) : PublisherWatermark :=
  let r := ps_record p in
  mk_PublisherWatermark id (pi_boot (pr_identity r)) (pr_last_sequence r) (pr_max_evidence_generation r)
    (pr_state r) (pr_adapter r) (pr_reason r) (pr_accepted r) (pr_rejected r) (pr_registered_at_utc r).

Definition find_schema_locked (st : Registry) (id : CapabilitySchemaId) : option CapabilitySchema :=
  r_schemas st !! id.

Definition find_device_locked (st : Registry) (id : DeviceId) : option DeviceState := r_devices st !! id.

Definition touch_locked (st : Registry) : Registry := st <| r_state_revision ::= u64_succ |>.

(** [std::map::emplace]: an existing entry is kept. *)
Definition emplace {K V} `{Countable K} (k : K) (v : V) (m : gmap K V) : gmap K V :=
  match m !! k with Some _ => m | None => <[k := v]> m end.

(** An empty registry, before the constructor fills in the built-in schemas. *)
Definition empty_registry (limits : RegistryLimits) : Registry :=
  mk_Registry limits ∅ ∅ ∅ ∅ ∅ ∅ ∅ ∅ ∅ [] 0 1 ∅ ∅ ∅ Gen_none Gen_none 0 false default_usage.

(** The constructor, given the built-in schema catalogue. *)
Definition construct_registry (builtin : list CapabilitySchema) (limits : RegistryLimits) : Registry :=
  let st := foldl (fun st schema =>
    st <| r_schemas ::= emplace (cs_id schema) schema |>
       <| r_capability_schemas ::= emplace (cs_capability schema) (cs_id schema) |>)
    (empty_registry limits) builtin in
  st <| r_usage ::= fun u => u <| ru_schemas := sizeN (r_schemas st) |> |>
     <| r_epoch := Gen_first |>.

(* ===================================================================== *)
(** ** Authority and staleness of stored evidence *)

Definition publisher_is_authoritative (st : Registry) (record : CapabilityRecord) : bool :=
  match r_publishers st !! pi_id (publisher (cr_source record)) with
  | None => false
  | Some state =>
      if ps_publisher_fenced state then false
      else if pr_state (ps_record state) !=? PublisherState.Registered then false
      else if pi_boot (pr_identity (ps_record state)) !=? pi_boot (publisher (cr_source record)) then false
      else if bool_decide (pi_boot (publisher (cr_source record)) ∈ ps_fenced_boots state) then false
      else true
  end.

(** [if (condition) flags |= flag;] *)
Definition raise_if (condition : bool) (flag flags : StalenessFlag) : StalenessFlag :=
  if condition then flag_or flags flag else flags.

Definition compute_staleness_locked (st : Registry) (stored : StoredRecord) (device : DeviceState)
    (target : DeviceGeneration) (target_is_current : bool) : StalenessFlag :=
  let record := sr_record stored in
  let flags := sr_persistent stored in
  let flags := raise_if (cr_withdrawn record) Withdrawn flags in
  let flags := raise_if (cr_device_generation record !=? target) DeviceGenerationSuperseded flags in
  let flags := raise_if (negb target_is_current) DeviceGenerationSuperseded flags in
  if negb target_is_current then flags
  else
    let flags := raise_if (cr_device_boot record !=? ds_boot device) DeviceBootChanged flags in
    let live_bound := negb (provenance_is_durable (provenance (cr_source record))) in
    let software := ds_software device in
    let flags := raise_if
      ((live_bound || record_gate_axis record ConditionKind.MinDriverVersion) &&
       gen_valid (cr_driver_generation record) && (cr_driver_generation record !=? sw_driver_generation software))
      DriverGenerationChanged flags in
    let flags := raise_if
      ((live_bound || record_gate_axis record ConditionKind.MinFirmwareVersion) &&
       gen_valid (cr_firmware_generation record) && (cr_firmware_generation record !=? sw_firmware_generation software))
      FirmwareGenerationChanged flags in
    let same_runtime := id_valid (cr_runtime_id record) && (cr_runtime_id record ==? rt_id (sw_runtime software)) in
    let flags := raise_if
      ((live_bound || record_gate_axis record ConditionKind.MinRuntimeVersion) &&
       same_runtime && gen_valid (cr_runtime_generation record) &&
       (cr_runtime_generation record !=? sw_runtime_generation software))
      RuntimeGenerationChanged flags in
    let flags := raise_if
      (live_bound && gen_valid (cr_platform_generation record) &&
       (cr_platform_generation record !=? ds_platform_generation device))
      PlatformGenerationChanged flags in
    let flags := raise_if (live_bound && negb (publisher_is_authoritative st record)) PublisherFenced flags in
    raise_if (live_bound && (pi_epoch (publisher (cr_source record)) !=? r_epoch st)) EpochSuperseded flags.

(* ===================================================================== *)
(** ** Lemmas *)

Lemma raise_if_none condition flag flags :
  flag <> flag_None -> raise_if condition flag flags = flag_None <-> condition = false /\ flags = flag_None.
Proof.
  intros Hf. unfold raise_if, flag_None, flag_or in *. destruct condition; [|tauto].
  split; [|by intros []]. intros [_ ?]%N.lor_eq_0_iff. done.
Qed.

(** Evidence is current exactly when none of the reasons applies. *)
Record current_evidence (st : Registry) (stored : StoredRecord) (device : DeviceState) (target : DeviceGeneration)
    (target_is_current : bool) : Prop := {
  ce_persistent : sr_persistent stored = flag_None;
  ce_not_withdrawn : cr_withdrawn (sr_record stored) = false;
  ce_generation : cr_device_generation (sr_record stored) = target;
  ce_target : target_is_current = true;
  ce_boot : cr_device_boot (sr_record stored) = ds_boot device;
  ce_publisher : provenance_is_durable (provenance (cr_source (sr_record stored))) = false ->
    publisher_is_authoritative st (sr_record stored) = true;
  ce_epoch : provenance_is_durable (provenance (cr_source (sr_record stored))) = false ->
    pi_epoch (publisher (cr_source (sr_record stored))) = r_epoch st;
  ce_driver : provenance_is_durable (provenance (cr_source (sr_record stored))) = false ->
    gen_valid (cr_driver_generation (sr_record stored)) = true ->
    cr_driver_generation (sr_record stored) = sw_driver_generation (ds_software device);
  ce_firmware : provenance_is_durable (provenance (cr_source (sr_record stored))) = false ->
    gen_valid (cr_firmware_generation (sr_record stored)) = true ->
    cr_firmware_generation (sr_record stored) = sw_firmware_generation (ds_software device)
}.

Lemma staleness_none_current st stored device target cur :
  compute_staleness_locked st stored device target cur = flag_None ->
  current_evidence st stored device target cur.
Proof.
  unfold compute_staleness_locked. intros H.
  destruct cur; cbn [negb] in H.
  - rewrite !raise_if_none in H by discriminate.
    destruct (provenance_is_durable (provenance (cr_source (sr_record stored)))) eqn:Hd; cbn [negb andb orb] in H;
      destruct_and!; bsimpl; split; try done; try congruence; intros _ Hg;
      repeat match goal with H : context [gen_valid _] |- _ => rewrite Hg in H; cbn [andb] in H; bsimpl; done end.
  - rewrite !raise_if_none in H by discriminate. by destruct H.
Qed.
