(* ===== verification/Fixtures.v ===== *)
(** * Concrete inputs

    A small fleet on which the theorems with hypotheses are exercised: one
    GPU, one publisher process, one Boolean capability with its evidence. *)

From S2P Require Import Prelude Tokens Versions Support Conditions Values Hardware Quirks Compat Publication.
From S2P Require Import RegistryState.

Definition gpu : DeviceId := Id_parse "gpu-0".
Definition agent : PublisherId := Id_parse "agent-nvml".
Definition fp8 : CapabilityId := Id_parse "cap.compute.fp8".
Definition fp8_schema : CapabilitySchemaId := Id_parse "cap.compute.fp8.v1".
Definition agent_boot : PublisherIdentity := mk_PublisherIdentity agent Gen_first Gen_first.

Definition schema_entry : CapabilitySchema :=
  mk_CapabilitySchema fp8_schema fp8 CapabilityDomain.Compute ValueKind.Boolean "FP8 execution" EmptyString.

Definition gpu_hardware : HardwareIdentity :=
  mk_HardwareIdentity (Id_parse "nvidia") Id_none (Id_parse "hopper") Id_none Id_none Id_none HardwareClass.Gpu [].

Definition gpu_identity : DeviceIdentity :=
  mk_DeviceIdentity gpu (Id_parse "inc-a") gpu_hardware Id_none None None "GPU 0".

Definition gpu_software : DeviceSoftwareState :=
  mk_DeviceSoftwareState (mk_FirmwareIdentity Id_none EmptyString EmptyString) Gen_none
    (mk_DriverIdentity (Id_parse "nvidia-driver") "550.54") Gen_first (mk_RuntimeIdentity Id_none EmptyString) Gen_none.

Definition no_platform : PlatformIdentity :=
  mk_PlatformIdentity Id_none EmptyString EmptyString EmptyString Id_none [].

Definition gpu_registration : DeviceRegistration :=
  mk_DeviceRegistration gpu_identity gpu_software no_platform false 1 EmptyString.

Definition gpu_state : DeviceState := mk_DeviceState gpu_identity gpu_software Gen_first Gen_first Gen_first.

Definition nvml_source : EvidenceSource :=
  mk_EvidenceSource SourceClass.Nvml (default_provenance_for SourceClass.Nvml) agent_boot "nvml" EmptyString 2
    EmptyString Gen_first 0.

Definition synthetic_source : EvidenceSource :=
  mk_EvidenceSource SourceClass.SyntheticBackend ProvenanceClass.Synthetic agent_boot "synthetic" EmptyString 2
    EmptyString Gen_first 0.

(** A claim about [fp8]; [v] is [VBoolean] where support is asserted. *)
Definition fp8_record (source : EvidenceSource) (support : SupportState) (v : CapabilityValue) : CapabilityRecord :=
  mk_CapabilityRecord gpu Gen_first Gen_first fp8 fp8_schema Gen_first support v PrecisionClass.Exact source None
    Gen_none Gen_first Gen_none Gen_first (Id_parse "nvidia-driver") Id_none Id_none false.

Definition stored_record (record : CapabilityRecord) (serial : N) : StoredRecord :=
  mk_StoredRecord record flag_None "agent-nvml#1#nvml" serial.

Definition agent_state : PublisherStateInternal :=
  default_publisher_state
    <| ps_record := default_publisher_record
         <| pr_adapter := "nvml"%string |> <| pr_identity := agent_boot |>
         <| pr_state := PublisherState.Registered |> |>
    <| ps_boot_history := 1 |>.

(** Adds the GPU, the agent and one record about [fp8] to a registry. *)
Definition populate (record : CapabilityRecord) (base : Registry) : Registry :=
  base
    <| r_devices := {[gpu := gpu_state]} |>
    <| r_publishers := {[agent := agent_state]} |>
    <| r_keys := {[(gpu, fp8) := mk_KeyState fp8_schema Gen_first true [stored_record record 1]]} |>
    <| r_device_keys := {[gpu := {[fp8]}]} |>
    <| r_global_order := [mk_GlobalEntry (gpu, fp8) 1] |>
    <| r_evidence_count := 1 |>
    <| r_next_serial := 2 |>.

Definition fleet (record : CapabilityRecord) : Registry :=
  populate record (construct_registry [schema_entry] default_limits).

Definition no_quirk : QuirkRecord :=
  mk_QuirkRecord Id_none Gen_none EmptyString EmptyString QuirkCategory.Other QuirkSeverity.Informational
    MitigationKind.None (mk_QuirkApplicability [] [] [] [] [] [] [] [] [] [] None) [] default_source false.

Definition fp8_quirk : QuirkRecord :=
  no_quirk <| qr_id := Id_parse "q-1" |> <| qr_generation := Gen_first |> <| qr_title := "FP8 is slow"%string |>
           <| qr_impacted_capabilities := [fp8] |> <| qr_source := nvml_source |>.

Definition no_reference : HardwareReference := mk_HardwareReference ReferenceKind.Device EmptyString no_version.

Definition no_fact : CompatibilityFact :=
  mk_CompatibilityFact Id_none Gen_none CompatibilitySubjectKind.Other no_reference no_reference
    CompatibilityOutcome.Unknown None (mk_VersionRange no_version no_version false) EmptyString default_source false.

Definition no_schema : CapabilitySchema :=
  mk_CapabilitySchema Id_none Id_none CapabilityDomain.Compute ValueKind.None EmptyString EmptyString.

(** A publication of the agent, as sent by its first boot in the first epoch. *)
Definition publication (kind : PublicationKind) (sequence : N) : Publication :=
  mk_Publication kind agent_boot sequence Gen_first gpu_registration
    (fp8_record nvml_source SupportState.SupportedNative (VBoolean true)) no_quirk no_fact no_schema EmptyString
    EmptyString.
