(* ===== verification/Resolution.v ===== *)
(** * Resolution of a capability

    Models [resolution.hpp] and the resolution half of
    [CapabilityRegistry::Impl] in [registry.cpp]: from the retained evidence
    of a (device, capability) key to one answer, with its winner, its
    contradiction state, conditions, quirks, effective support, truth class
    and explanation. *)

From S2P Require Import Prelude Tokens Versions Support Conditions Values Hardware Quirks Compat Publication.
From S2P Require Import RegistryState Fixtures.

Record EvidenceView := mk_EvidenceView {
  ev_capability_generation : CapabilityGeneration;
  ev_support : SupportState;
  ev_value : CapabilityValue;
  ev_precision : PrecisionClass;
  ev_source : EvidenceSource;
  ev_staleness : StalenessFlag;
  ev_winner : bool;
  ev_withdrawn : bool
}.

#[global] Instance eta_EvidenceView : Eta EvidenceView := fun r =>
  mk_EvidenceView
    (ev_capability_generation r) (ev_support r) (ev_value r) (ev_precision r) (ev_source
    r) (ev_staleness r) (ev_winner r) (ev_withdrawn r).

Record ResolvedCapability := mk_ResolvedCapability {
  rc_device : DeviceId;
  rc_device_generation : DeviceGeneration;
  rc_device_boot : DeviceBootId;
  rc_capability : CapabilityId;
  rc_schema : CapabilitySchemaId;
  rc_capability_generation : CapabilityGeneration;
  rc_declared_support : SupportState;
  rc_effective_support : EffectiveSupport;
  rc_value : CapabilityValue;
  rc_precision : PrecisionClass;
  rc_truth : TruthClass;
  rc_contradiction : ContradictionState;
  rc_staleness : StalenessFlag;
  rc_conditions : ConditionPtr;
  rc_condition_evaluation : ConditionEvaluation;
  rc_quirks : list QuirkApplication;
  rc_evidence : list EvidenceView;
  rc_firmware_generation : FirmwareGeneration;
  rc_driver_generation : DriverGeneration;
  rc_runtime_generation : RuntimeGeneration;
  rc_current : bool;
  rc_known : bool;
  rc_explanation : string
}.

#[global] Instance eta_ResolvedCapability : Eta ResolvedCapability := fun r =>
  mk_ResolvedCapability
    (rc_device r) (rc_device_generation r) (rc_device_boot r) (rc_capability r) (rc_schema
    r) (rc_capability_generation r) (rc_declared_support r) (rc_effective_support r)
    (rc_value r) (rc_precision r) (rc_truth r) (rc_contradiction r) (rc_staleness r)
    (rc_conditions r) (rc_condition_evaluation r) (rc_quirks r) (rc_evidence r)
    (rc_firmware_generation r) (rc_driver_generation r) (rc_runtime_generation r)
    (rc_current r) (rc_known r) (rc_explanation r).

(** [usable()]. *)
Definition usable (r : ResolvedCapability) : bool :=
  (rc_effective_support r ==? EffectiveSupport.Supported) ||
  (rc_effective_support r ==? EffectiveSupport.SupportedWithCaveat).

(* ===================================================================== *)
(** ** Quirks of a key *)

Definition application_precedes (left right : QuirkApplication) : bool :=
  if qp_severity left !=? qp_severity right
  then enum_index (qp_severity right) <? enum_index (qp_severity left)
  else if qp_id left !=? qp_id right then key_ltb (qp_id left) (qp_id right)
  else gen_ltb (qp_generation left) (qp_generation right).

(** One iteration of the loop of [gather_quirks_locked]. *)
Definition gather_quirk (device : DeviceState) (capability : CapabilityId) (environment : EnvironmentContext)
    (entry : QuirkId * QuirkRecord) : option QuirkApplication :=
  let quirk := entry.2 in
  if qr_withdrawn quirk then None
  else if negb (contains (qr_impacted_capabilities quirk) capability) then None
  else
    let application := evaluate_quirk quirk (ds_identity device) (ds_software device) environment in
    if qp_result application ==? QuirkApplicabilityResult.DoesNotApply then None else Some application.

Definition gather_quirks_locked (st : Registry) (device : DeviceState) (capability : CapabilityId)
    (environment : EnvironmentContext) : list QuirkApplication :=
  let gathered := collect_until (max_query_results (r_limits st)) (gather_quirk device capability environment)
                    (map_entries (r_quirks st)) [] in
  let is_deferred a := qp_result a ==? QuirkApplicabilityResult.Unknown in
  std_sort application_precedes (List.filter (fun a => negb (is_deferred a)) gathered) ++
  std_sort application_precedes (List.filter is_deferred gathered).

Definition quirk_blocks (a : QuirkApplication) : bool :=
  (qp_result a ==? QuirkApplicabilityResult.Applies) &&
  ((qp_severity a ==? QuirkSeverity.Unusable) || (qp_severity a ==? QuirkSeverity.Fatal)).

Definition quirk_caveats (a : QuirkApplication) : bool :=
  if qp_result a !=? QuirkApplicabilityResult.Applies then false
  else (qp_severity a ==? QuirkSeverity.Caveat) || (qp_severity a ==? QuirkSeverity.Degraded).

(* ===================================================================== *)
(** ** Effective support and truth *)

Definition compute_effective_support (declared : SupportState) (condition : ConditionOutcome)
    (quirks : list QuirkApplication) : EffectiveSupport :=
  match declared with
  | SupportState.Unknown => EffectiveSupport.Unknown
  | SupportState.RevalidationRequired => EffectiveSupport.RevalidationRequired
  | SupportState.Unsupported => EffectiveSupport.Unsupported
  | SupportState.Disabled => EffectiveSupport.Disabled
  | _ =>
      match condition with
      | ConditionOutcome.Unsatisfied => EffectiveSupport.SupportedConditionalUnmet
      | ConditionOutcome.Unknown => EffectiveSupport.SupportedConditionalUnknown
      | _ =>
          if existsb quirk_blocks quirks then EffectiveSupport.BlockedByQuirk
          else if existsb quirk_caveats quirks then EffectiveSupport.SupportedWithCaveat
          else EffectiveSupport.Supported
      end
  end.

(** The loop of [classify_truth]: the first view marked as the winner. *)
Fixpoint winner_truth (evidence : list EvidenceView) : TruthClass :=
  match evidence with
  | [] => TruthClass.Unknown
  | view :: rest =>
      if ev_winner view then
        match provenance (ev_source view) with
        | ProvenanceClass.Synthetic => TruthClass.Synthetic
        | ProvenanceClass.UnknownSource => TruthClass.Unknown
        | _ => TruthClass.Real
        end
      else winner_truth rest
  end.

Definition classify_truth (declared : SupportState) (effective : EffectiveSupport)
    (evidence : list EvidenceView) : TruthClass :=
  if (declared ==? SupportState.Unsupported) || (effective ==? EffectiveSupport.Unsupported)
  then TruthClass.Unsupported
  else if (effective ==? EffectiveSupport.Unknown) && (declared ==? SupportState.Unknown)
  then TruthClass.Unknown
  else winner_truth evidence.

(* ===================================================================== *)
(** ** Candidates and the winner *)

Record Candidate := mk_Candidate { ca_record : CapabilityRecord; ca_assertion : string }.

Definition assertion_of (record : CapabilityRecord) : string :=
  (support_state_to_string (cr_support record) +:+ "|" +:+ value_describe (cr_value record) +:+ "|" +:+
   describe_condition (cr_conditions record))%string.

Definition by_authority (left right : Candidate) : bool :=
  let l := ca_record left in
  let r := ca_record right in
  if negb (authority (cr_source l) =? authority (cr_source r))%Z
  then (authority (cr_source r) <? authority (cr_source l))%Z
  else if negb (precision_class_rank (cr_precision l) =? precision_class_rank (cr_precision r))%Z
  then (precision_class_rank (cr_precision r) <? precision_class_rank (cr_precision l))%Z
  else if evidence_generation (cr_source l) !=? evidence_generation (cr_source r)
  then gen_ltb (evidence_generation (cr_source r)) (evidence_generation (cr_source l))
  else if pi_id (publisher (cr_source l)) !=? pi_id (publisher (cr_source r))
  then key_ltb (pi_id (publisher (cr_source l))) (pi_id (publisher (cr_source r)))
  else observation_sequence (cr_source r) <? observation_sequence (cr_source l).

(** The loop that keeps [winner_index]. *)
Definition select_winner (first : Candidate) (rest : list Candidate) : Candidate :=
  foldl (fun winner c => if by_authority c winner then c else winner) first rest.

(** The contradiction state of a non-empty list of candidates. *)
Definition resolve_contradiction (first : Candidate) (rest : list Candidate) (winner : Candidate) : ContradictionState :=
  let candidates := first :: rest in
  if forallb (fun c => ca_assertion c ==? ca_assertion first) rest then ContradictionState.Consistent
  else
    let top := List.filter
      (fun c => (authority (cr_source (ca_record c)) =? authority (cr_source (ca_record winner)))%Z) candidates in
    let top_agree :=
      match top with
      | [] => true
      | front :: _ => forallb (fun c => ca_assertion c ==? ca_assertion front) top
      end in
    if negb top_agree then ContradictionState.Ambiguous
    else
      let winner_live := provenance_is_real (provenance (cr_source (ca_record winner))) in
      let dissent_all_non_live := forallb (fun c =>
        (ca_assertion c ==? ca_assertion winner) ||
        negb (provenance_is_real (provenance (cr_source (ca_record c))))) candidates in
      if winner_live && dissent_all_non_live then ContradictionState.PreferredLiveEvidence
      else ContradictionState.PreferredHigherAuthoritySource.

(** [evidence_ordering]: the comparator handed to [std::sort]. Views whose
    flags differ without one being current are incomparable, so it is not a
    strict weak order and the C++ sort of such views is unspecified; the
    model sorts by insertion. *)
Definition evidence_ordering (left right : EvidenceView) : bool :=
  if negb (ev_staleness left =? ev_staleness right)
  then bool_ltb (is_stale (ev_staleness left)) (is_stale (ev_staleness right))
  else if negb (Bool.eqb (ev_winner left) (ev_winner right)) then ev_winner left
  else if ev_capability_generation left !=? ev_capability_generation right
  then gen_ltb (ev_capability_generation right) (ev_capability_generation left)
  else if negb (authority (ev_source left) =? authority (ev_source right))%Z
  then (authority (ev_source right) <? authority (ev_source left))%Z
  else if pi_id (publisher (ev_source left)) !=? pi_id (publisher (ev_source right))
  then key_ltb (pi_id (publisher (ev_source left))) (pi_id (publisher (ev_source right)))
  else observation_sequence (ev_source right) <? observation_sequence (ev_source left).

Definition view_of (stored : StoredRecord) (flags : StalenessFlag) : EvidenceView :=
  let record := sr_record stored in
  {| ev_capability_generation := cr_capability_generation record; ev_support := cr_support record;
     ev_value := cr_value record; ev_precision := cr_precision record; ev_source := cr_source record;
     ev_staleness := flags; ev_winner := false; ev_withdrawn := cr_withdrawn record |}.

Definition mark_winner (winner : CapabilityRecord) (view : EvidenceView) : EvidenceView :=
  view <| ev_winner :=
    (pi_id (publisher (ev_source view)) ==? pi_id (publisher (cr_source winner))) &&
    (ev_capability_generation view ==? cr_capability_generation winner) &&
    (native_reference (ev_source view) ==? native_reference (cr_source winner)) &&
    (observation_sequence (ev_source view) =? observation_sequence (cr_source winner)) |>.

(** The newest record that is not a withdrawal: highest capability
    generation, then highest serial. *)
Definition newer (stored newest : StoredRecord) : bool :=
  gen_ltb (cr_capability_generation (sr_record newest)) (cr_capability_generation (sr_record stored)) ||
  ((cr_capability_generation (sr_record stored) ==? cr_capability_generation (sr_record newest)) &&
   (sr_serial newest <? sr_serial stored)).

Definition newest_claim (records : list StoredRecord) : option StoredRecord :=
  foldl (fun newest stored =>
    if cr_withdrawn (sr_record stored) then newest
    else match newest with
         | None => Some stored
         | Some n => if newer stored n then Some stored else newest
         end) None records.

(* ===================================================================== *)
(** ** Explanation *)

Definition newline : string := String (ascii_of_N 10) EmptyString.

Definition explain_quirk (a : QuirkApplication) : string :=
  (newline +:+ "  quirk " +:+ id_str (qp_id a) +:+ " [" +:+ quirk_severity_to_string (qp_severity a) +:+ "/" +:+
   quirk_applicability_result_to_string (qp_result a) +:+ "]: " +:+ qp_reason a)%string.

Definition explain_evidence (view : EvidenceView) : string :=
  let s := ev_source view in
  (newline +:+ "  evidence " +:+ adapter s +:+
   (if negb (is_empty (native_reference s)) then " reference=" +:+ native_reference s else "") +:+
   " source=" +:+ source_class_to_string (source_class s) +:+
   " provenance=" +:+ provenance_class_to_string (provenance s) +:+
   " support=" +:+ support_state_to_string (ev_support view) +:+
   " publisher=" +:+ id_str (pi_id (publisher s)) +:+
   " boot=" +:+ gen_str (pi_boot (publisher s)) +:+
   " evidence-generation=" +:+ gen_str (evidence_generation s) +:+
   (if ev_winner view then " [selected]" else " [not-selected]") +:+
   (if is_stale (ev_staleness view) then " stale=" +:+ describe_staleness (ev_staleness view) else ""))%string.

Definition build_explanation (resolved : ResolvedCapability) (device : DeviceState) (target_is_current : bool) : string :=
  ("capability " +:+ id_str (rc_capability resolved) +:+ " on device " +:+ id_str (di_id (ds_identity device)) +:+
   " (generation " +:+ gen_str (ds_generation device) +:+
   (if target_is_current then ", current)" else ", historical)") +:+
   newline +:+ "  declared: " +:+ support_state_to_string (rc_declared_support resolved) +:+
   newline +:+ "  effective: " +:+ effective_support_to_string (rc_effective_support resolved) +:+
   (if negb (value_empty (rc_value resolved)) then newline +:+ "  value: " +:+ value_describe (rc_value resolved) else "") +:+
   newline +:+ "  truth: " +:+ truth_class_to_string (rc_truth resolved) +:+
   newline +:+ "  precision: " +:+ precision_class_to_string (rc_precision resolved) +:+
   newline +:+ "  contradiction: " +:+ contradiction_state_to_string (rc_contradiction resolved) +:+
   newline +:+ "  staleness: " +:+ describe_staleness (rc_staleness resolved) +:+
   match rc_conditions resolved with
   | None => ""
   | Some _ => newline +:+ "  conditions: " +:+ describe_condition (rc_conditions resolved) +:+ " => " +:+
               condition_outcome_to_string (outcome (rc_condition_evaluation resolved))
   end +:+
   String.concat "" (map explain_quirk (rc_quirks resolved)) +:+
   String.concat "" (map explain_evidence (rc_evidence resolved)))%string.

(* ===================================================================== *)
(** ** [resolve_locked] *)

(** The fields the code assigns before looking the key up. *)
Definition resolve_base (device : DeviceState) (capability : CapabilityId) (current : bool) : ResolvedCapability :=
  {| rc_device := di_id (ds_identity device);
     rc_device_generation := ds_generation device;
     rc_device_boot := ds_boot device;
     rc_capability := capability;
     rc_schema := Id_none;
     rc_capability_generation := Gen_none;
     rc_declared_support := SupportState.Unknown;
     rc_effective_support := EffectiveSupport.Unknown;
     rc_value := VNone;
     rc_precision := PrecisionClass.Unknown;
     rc_truth := TruthClass.Unknown;
     rc_contradiction := ContradictionState.Consistent;
     rc_staleness := flag_None;
     rc_conditions := None;
     rc_condition_evaluation := not_applicable;
     rc_quirks := [];
     rc_evidence := [];
     rc_firmware_generation := sw_firmware_generation (ds_software device);
     rc_driver_generation := sw_driver_generation (ds_software device);
     rc_runtime_generation := sw_runtime_generation (ds_software device);
     rc_current := current;
     rc_known := false;
     rc_explanation := EmptyString |}.

(** No key: an explicit UNKNOWN. *)
Definition resolve_unknown (base : ResolvedCapability) (device : DeviceState) (capability : CapabilityId) : ResolvedCapability :=
  base <| rc_current := false |>
       <| rc_explanation :=
            ("capability " +:+ id_str capability +:+ " on device " +:+ id_str (di_id (ds_identity device)) +:+
             ": no capability knowledge recorded; state UNKNOWN (absence of evidence is not evidence of absence)")%string |>.

(** A key without current evidence. *)
Definition resolve_stale (base : ResolvedCapability) (device : DeviceState) (capability : CapabilityId)
    (environment : EnvironmentContext) (key : KeyState) (evidence : list EvidenceView)
    (any_flags : StalenessFlag) (quirks : list QuirkApplication) : ResolvedCapability :=
  let staleness := if any_flags =? flag_None then RequiresRevalidation else any_flags in
  let base := base <| rc_current := false |>
                   <| rc_contradiction := ContradictionState.RevalidationRequired |>
                   <| rc_staleness := staleness |> in
  let base :=
    match newest_claim (ks_records key) with
    | Some newest =>
        let record := sr_record newest in
        base <| rc_declared_support := cr_support record |>
             <| rc_value := cr_value record |>
             <| rc_precision := cr_precision record |>
             <| rc_conditions := cr_conditions record |>
             <| rc_condition_evaluation := evaluate_condition (cr_conditions record) environment |>
    | None => base <| rc_declared_support := SupportState.Unknown |>
    end in
  base <| rc_effective_support := EffectiveSupport.RevalidationRequired |>
       <| rc_truth := if ks_has_evidence key then TruthClass.Real else TruthClass.Unknown |>
       <| rc_capability_generation := ks_generation key |>
       <| rc_explanation :=
            ("capability " +:+ id_str capability +:+ " on device " +:+ id_str (di_id (ds_identity device)) +:+
             ": no current evidence (" +:+ describe_staleness staleness +:+
             "); declared knowledge is retained for audit but is not authoritative")%string |>
       <| rc_evidence := std_sort evidence_ordering evidence |>
       <| rc_quirks := quirks |>.

(** A key with current evidence. *)
Definition resolve_current (base : ResolvedCapability) (device : DeviceState)
    (environment : EnvironmentContext) (key : KeyState) (evidence : list EvidenceView)
    (quirks : list QuirkApplication) (target_is_current : bool) (first : Candidate) (rest : list Candidate) : ResolvedCapability :=
  let winner := select_winner first rest in
  let record := ca_record winner in
  let evaluation := evaluate_condition (cr_conditions record) environment in
  let evidence := std_sort evidence_ordering (map (mark_winner record) evidence) in
  let effective := compute_effective_support (cr_support record) (outcome evaluation) quirks in
  let resolved :=
    base <| rc_contradiction := resolve_contradiction first rest winner |>
         <| rc_capability_generation := ks_generation key |>
         <| rc_declared_support := cr_support record |>
         <| rc_value := cr_value record |>
         <| rc_precision := cr_precision record |>
         <| rc_conditions := cr_conditions record |>
         <| rc_condition_evaluation := evaluation |>
         <| rc_staleness := flag_None |>
         <| rc_evidence := evidence |>
         <| rc_quirks := quirks |>
         <| rc_effective_support := effective |>
         <| rc_truth := classify_truth (cr_support record) effective evidence |> in
  resolved <| rc_explanation := build_explanation resolved device target_is_current |>.

(** The evidence of a key with its staleness flags, in storage order. *)
Definition flagged_records (st : Registry) (device : DeviceState) (target : DeviceGeneration)
    (target_is_current : bool) (key : KeyState) : list (StoredRecord * StalenessFlag) :=
  map (fun stored => (stored, compute_staleness_locked st stored device target target_is_current)) (ks_records key).

Definition current_candidates (flagged : list (StoredRecord * StalenessFlag)) : list Candidate :=
  omap (fun p : StoredRecord * StalenessFlag =>
    if p.2 =? flag_None then Some (mk_Candidate (sr_record p.1) (assertion_of (sr_record p.1))) else None) flagged.

Definition resolve_locked (st : Registry) (device : DeviceState) (capability : CapabilityId)
    (pinned : DeviceGeneration) (environment : EnvironmentContext) : ResolvedCapability :=
  let target := if gen_valid pinned then pinned else ds_generation device in
  let target_is_current := target ==? ds_generation device in
  let base := resolve_base device capability target_is_current in
  match r_keys st !! (di_id (ds_identity device), capability) with
  | None => resolve_unknown base device capability
  | Some key =>
      let base := base <| rc_known := true |> <| rc_schema := ks_schema key |> in
      let flagged := flagged_records st device target target_is_current key in
      let evidence := map (fun p => view_of p.1 p.2) flagged in
      let any_flags := foldl flag_or flag_None (map snd flagged) in
      let quirks := gather_quirks_locked st device capability environment in
      match current_candidates flagged with
      | [] => resolve_stale base device capability environment key evidence any_flags quirks
      | first :: rest =>
          resolve_current base device environment key evidence quirks target_is_current first rest
      end
  end.

(* ===================================================================== *)
(** ** Lemmas: orders *)

#[global] Instance bool_ltb_strict_total : StrictTotal bool_ltb.
Proof. split; [by intros []|by intros [] [] []|by intros [] []]. Qed.

#[global] Instance gen_ltb_strict_total tag : StrictTotal (gen_ltb (tag := tag)).
Proof. exact (key_order_ok_total (Gen tag)). Qed.

Definition candidate_order : Candidate -> Candidate -> bool :=
  lex_ltb (on_ltb (fun c => authority (cr_source (ca_record c))) (desc_ltb Z.ltb))
  (lex_ltb (on_ltb (fun c => precision_class_rank (cr_precision (ca_record c))) (desc_ltb Z.ltb))
  (lex_ltb (on_ltb (fun c => evidence_generation (cr_source (ca_record c))) (desc_ltb gen_ltb))
  (lex_ltb (on_ltb (fun c => pi_id (publisher (cr_source (ca_record c)))) key_ltb)
           (on_ltb (fun c => observation_sequence (cr_source (ca_record c))) (desc_ltb N.ltb))))).

Lemma by_authority_order x y : by_authority x y = candidate_order x y.
Proof.
  unfold by_authority, candidate_order.
  rewrite (unless_equal_desc Z.ltb (authority _ =? _)%Z), (unless_equal_desc Z.ltb (precision_class_rank _ =? _)%Z)
    by apply Z.eqb_eq.
  by rewrite (unless_equal_desc gen_ltb), (unless_equal_lex key_ltb) by apply eqb_true.
Qed.

#[global] Instance by_authority_strict_weak : StrictWeak by_authority.
Proof. apply (strict_weak_ext _ _ by_authority_order). unfold candidate_order. apply _. Qed.

(** Views of equal staleness are ordered. *)
Definition view_order : EvidenceView -> EvidenceView -> bool :=
  lex_ltb (on_ltb ev_winner (desc_ltb bool_ltb))
  (lex_ltb (on_ltb ev_capability_generation (desc_ltb gen_ltb))
  (lex_ltb (on_ltb (fun v => authority (ev_source v)) (desc_ltb Z.ltb))
  (lex_ltb (on_ltb (fun v => pi_id (publisher (ev_source v))) key_ltb)
           (on_ltb (fun v => observation_sequence (ev_source v)) (desc_ltb N.ltb))))).

#[global] Instance view_order_strict_weak : StrictWeak view_order.
Proof. unfold view_order. apply _. Qed.

Lemma evidence_ordering_same x y :
  ev_staleness x = ev_staleness y -> evidence_ordering x y = view_order x y.
Proof.
  intros Hs. unfold evidence_ordering, view_order. rewrite Hs, N.eqb_refl. cbn [negb].
  assert (Hw : forall k : bool, (if negb (Bool.eqb (ev_winner x) (ev_winner y)) then ev_winner x else k) =
    if negb (Bool.eqb (ev_winner x) (ev_winner y)) then bool_ltb (ev_winner y) (ev_winner x) else k)
    by (by destruct (ev_winner x), (ev_winner y)).
  rewrite Hw.
  rewrite (unless_equal_desc bool_ltb) by (apply Bool.eqb_true_iff).
  rewrite (unless_equal_desc gen_ltb) by apply eqb_true.
  rewrite (unless_equal_desc Z.ltb) by apply Z.eqb_eq.
  by rewrite (unless_equal_lex key_ltb) by apply eqb_true.
Qed.

(** What the sort guarantees in spite of the comparator: current views come
    before stale ones, and in order among themselves. *)
Definition view_after (y x : EvidenceView) : Prop :=
  ev_staleness x = flag_None -> ev_staleness y = flag_None /\ view_order x y = false.

Lemma evidence_ordering_current_stale x y :
  ev_staleness x = flag_None -> ev_staleness y <> flag_None -> evidence_ordering x y = true.
Proof.
  intros Hx Hy. unfold evidence_ordering. rewrite (proj2 (N.eqb_neq _ _)) by congruence. cbn [negb].
  apply is_stale_false in Hx as ->. destruct (is_stale (ev_staleness y)) eqn:E; [done|].
  by apply is_stale_false in E.
Qed.

Lemma evidence_sorted l : Sorted.StronglySorted view_after (std_sort evidence_ordering l).
Proof.
  assert (Hcur : forall x y, ev_staleness y = flag_None -> evidence_ordering y x = false -> ev_staleness x = flag_None).
  { intros x y Hy E. destruct (decide (ev_staleness x = flag_None)) as [|Hx]; [done|].
    by rewrite evidence_ordering_current_stale in E. }
  apply std_sort_invariant.
  - intros x y E Hx. destruct (decide (ev_staleness y = flag_None)) as [Hy|Hy].
    + split; [done|]. rewrite evidence_ordering_same in E by congruence. exact (sw_asym view_order _ _ E).
    + exfalso. unfold evidence_ordering in E. rewrite (proj2 (N.eqb_neq _ _)) in E by congruence.
      cbn [negb] in E. apply is_stale_false in Hx. rewrite Hx in E. by destruct (is_stale _).
  - intros x y E Hy. pose proof (Hcur x y Hy E) as Hx. split; [done|].
    by rewrite evidence_ordering_same in E by congruence.
  - intros x y z E Hyz Hz. destruct (Hyz Hz) as [Hy E2]. pose proof (Hcur x y Hy E) as Hx.
    split; [done|]. rewrite evidence_ordering_same in E by congruence. exact (sw_le_trans view_order x y z E E2).
Qed.

(* ===================================================================== *)
(** ** Lemmas: candidates *)

Lemma elem_of_flagged st device target cur key stored flags :
  (stored, flags) ∈ flagged_records st device target cur key <->
  stored ∈ ks_records key /\ flags = compute_staleness_locked st stored device target cur.
Proof.
  unfold flagged_records. rewrite list_elem_of_fmap. split.
  - by intros (s & [= -> ->] & Hin).
  - intros [Hin ->]. by exists stored.
Qed.

Lemma elem_of_candidates st device target cur key c :
  c ∈ current_candidates (flagged_records st device target cur key) <->
  exists stored, stored ∈ ks_records key /\
    compute_staleness_locked st stored device target cur = flag_None /\
    c = mk_Candidate (sr_record stored) (assertion_of (sr_record stored)).
Proof.
  unfold current_candidates. rewrite list_elem_of_omap. split.
  - intros ([stored flags] & [Hin ->]%elem_of_flagged & H). cbn [fst snd] in H.
    destruct (N.eqb_spec (compute_staleness_locked st stored device target cur) flag_None) as [E|E]; [|done].
    injection H as <-. by exists stored.
  - intros (stored & Hin & Hf & ->). exists (stored, flag_None). cbn. split; [|done].
    by apply elem_of_flagged.
Qed.

Lemma candidate_assertion st device target cur key c :
  c ∈ current_candidates (flagged_records st device target cur key) -> ca_assertion c = assertion_of (ca_record c).
Proof. by intros (stored & _ & _ & ->)%elem_of_candidates. Qed.

Lemma select_winner_spec first rest :
  select_winner first rest ∈ first :: rest /\
  forall c, c ∈ first :: rest -> by_authority c (select_winner first rest) = false.
Proof. apply (foldl_best by_authority). Qed.

(** The winner has the highest source authority. *)
Lemma winner_authority first rest c :
  c ∈ first :: rest ->
  (authority (cr_source (ca_record c)) <= authority (cr_source (ca_record (select_winner first rest))))%Z.
Proof.
  intros Hc. destruct (select_winner_spec first rest) as [_ H]. specialize (H c Hc).
  rewrite by_authority_order in H. unfold candidate_order, lex_ltb, on_ltb, desc_ltb in H.
  destruct (Z.ltb_spec (authority (cr_source (ca_record (select_winner first rest))))
    (authority (cr_source (ca_record c)))); [done|lia].
Qed.

Lemma newest_claim_spec records :
  match newest_claim records with
  | Some n => n ∈ records /\ cr_withdrawn (sr_record n) = false
  | None => True
  end.
Proof.
  unfold newest_claim.
  assert (H : forall acc, (match acc with Some n => n ∈ records /\ cr_withdrawn (sr_record n) = false | None => True end) ->
    forall l, (forall x, x ∈ l -> x ∈ records) ->
    match foldl (fun newest stored => if cr_withdrawn (sr_record stored) then newest
      else match newest with None => Some stored | Some n => if newer stored n then Some stored else newest end) acc l
    with Some n => n ∈ records /\ cr_withdrawn (sr_record n) = false | None => True end).
  { intros acc Hacc l. revert acc Hacc. induction l as [|x l IH]; intros acc Hacc Hl; cbn [foldl]; [done|].
    apply IH; [|intros y Hy; apply Hl; by right].
    destruct (cr_withdrawn (sr_record x)) eqn:E; [done|]. destruct acc as [n|].
    - destruct (newer x n); [|done]. split; [apply Hl; left|done].
    - split; [apply Hl; left|done]. }
  by apply (H None).
Qed.

(** The three shapes of an answer. *)
Lemma resolve_locked_cases st device capability pinned environment :
  let target := if gen_valid pinned then pinned else ds_generation device in
  let r := resolve_locked st device capability pinned environment in
  match r_keys st !! (di_id (ds_identity device), capability) with
  | None => r = resolve_unknown (resolve_base device capability (target ==? ds_generation device)) device capability
  | Some key =>
      let flagged := flagged_records st device target (target ==? ds_generation device) key in
      let base := resolve_base device capability (target ==? ds_generation device)
                    <| rc_known := true |> <| rc_schema := ks_schema key |> in
      let evidence := map (fun p => view_of p.1 p.2) flagged in
      let quirks := gather_quirks_locked st device capability environment in
      (current_candidates flagged = [] /\
       r = resolve_stale base device capability environment key evidence
             (foldl flag_or flag_None (map snd flagged)) quirks) \/
      exists first rest, current_candidates flagged = first :: rest /\ target = ds_generation device /\
        r = resolve_current base device environment key evidence quirks true first rest
  end.
Proof.
  cbn zeta. unfold resolve_locked. destruct (r_keys st !! _) as [key|]; [|done].
  destruct (current_candidates _) as [|first rest] eqn:E; [by left|]. right. exists first, rest.
  assert (Hf : first ∈ first :: rest) by left. rewrite <- E in Hf.
  apply elem_of_candidates in Hf as (stored & _ & Hs & _).
  pose proof (ce_target _ _ _ _ _ (staleness_none_current _ _ _ _ _ Hs)) as Ht.
  split; [done|]. rewrite Ht. split; [by apply eqb_true|done].
Qed.

Ltac resolve_cases st device capability pinned environment :=
  let H := fresh "Hcases" in
  pose proof (resolve_locked_cases st device capability pinned environment) as H; cbn zeta in H;
  set (r := resolve_locked st device capability pinned environment) in *;
  let key := fresh "key" in let Hk := fresh "Hkey" in
  destruct (r_keys st !! (di_id (ds_identity device), capability)) as [key|] eqn:Hk;
  [let Hc := fresh "Hcand" in let Hr := fresh "Hr" in
   destruct H as [[Hc Hr]|(first & rest & Hc & Htarget & Hr)]
  |rename H into Hr].

(** What a current answer carries over from the winning candidate. *)
Lemma resolve_current_fields base device environment key evidence quirks cur first rest :
  let r := resolve_current base device environment key evidence quirks cur first rest in
  let record := ca_record (select_winner first rest) in
  rc_current r = rc_current base /\ rc_declared_support r = cr_support record /\ rc_value r = cr_value record /\
  rc_precision r = cr_precision record /\ rc_conditions r = cr_conditions record /\
  rc_condition_evaluation r = evaluate_condition (cr_conditions record) environment /\
  rc_contradiction r = resolve_contradiction first rest (select_winner first rest) /\
  rc_staleness r = flag_None /\ rc_quirks r = quirks /\
  rc_effective_support r = compute_effective_support (cr_support record)
    (outcome (evaluate_condition (cr_conditions record) environment)) quirks /\
  rc_evidence r = std_sort evidence_ordering (map (mark_winner record) evidence) /\
  rc_truth r = classify_truth (cr_support record) (rc_effective_support r) (rc_evidence r).
Proof. cbn zeta. unfold resolve_current. cbn. tauto. Qed.

Lemma resolve_stale_fields base device capability environment key evidence flags quirks :
  let r := resolve_stale base device capability environment key evidence flags quirks in
  rc_current r = false /\ rc_effective_support r = EffectiveSupport.RevalidationRequired /\
  rc_contradiction r = ContradictionState.RevalidationRequired /\
  is_stale (rc_staleness r) = true /\ rc_quirks r = quirks /\
  rc_truth r = (if ks_has_evidence key then TruthClass.Real else TruthClass.Unknown) /\
  rc_declared_support r = match newest_claim (ks_records key) with
                          | Some n => cr_support (sr_record n) | None => SupportState.Unknown end.
Proof.
  cbn zeta. unfold resolve_stale.
  assert (Hs : is_stale (if flags =? flag_None then RequiresRevalidation else flags) = true).
  { destruct (N.eqb_spec flags flag_None) as [|E]; [done|]. destruct (is_stale flags) eqn:Es; [done|].
    by apply is_stale_false in Es. }
  destruct (newest_claim (ks_records key)); cbn; tauto.
Qed.

Definition target_generation (device : DeviceState) (pinned : DeviceGeneration) : DeviceGeneration :=
  if gen_valid pinned then pinned else ds_generation device.

(** A known key without candidates. *)
Lemma resolve_stale_answer st device capability pinned environment key :
  let target := target_generation device pinned in
  let r := resolve_locked st device capability pinned environment in
  r_keys st !! (di_id (ds_identity device), capability) = Some key ->
  current_candidates (flagged_records st device target (target ==? ds_generation device) key) = [] ->
  rc_known r = true /\ rc_current r = false /\ rc_effective_support r = EffectiveSupport.RevalidationRequired /\
  rc_contradiction r = ContradictionState.RevalidationRequired /\ is_stale (rc_staleness r) = true /\
  rc_truth r = (if ks_has_evidence key then TruthClass.Real else TruthClass.Unknown) /\
  rc_declared_support r = match newest_claim (ks_records key) with
                          | Some n => cr_support (sr_record n) | None => SupportState.Unknown end.
Proof.
  cbn zeta. unfold resolve_locked, target_generation. intros -> ->.
  match goal with |- context [resolve_stale ?b ?d ?c ?e ?k ?v ?f ?q] =>
    destruct (resolve_stale_fields b d c e k v f q) as (? & ? & ? & ? & ? & ? & ?) end.
  split; [|done]. unfold resolve_stale. by destruct (newest_claim _).
Qed.

Lemma compute_effective_unsupported declared o quirks :
  compute_effective_support declared o quirks = EffectiveSupport.Unsupported -> declared = SupportState.Unsupported.
Proof.
  unfold compute_effective_support.
  destruct declared, o; try done; by destruct (existsb quirk_blocks quirks), (existsb quirk_caveats quirks).
Qed.

Lemma classify_truth_unsupported declared o quirks evidence :
  classify_truth declared (compute_effective_support declared o quirks) evidence = TruthClass.Unsupported ->
  declared = SupportState.Unsupported.
Proof.
  unfold classify_truth. destruct (declared ==? SupportState.Unsupported) eqn:E; [by apply eqb_eq in E|].
  destruct (compute_effective_support declared o quirks ==? EffectiveSupport.Unsupported) eqn:E2; cbn [orb].
  { intros _. apply eqb_eq in E2. by eapply compute_effective_unsupported. }
  destruct (_ && _); [done|]. clear. induction evidence as [|v evidence IH]; cbn; [done|].
  destruct (ev_winner v); [|done]. by destruct (provenance (ev_source v)).
Qed.

(** Current evidence of a key, as the resolver sees it. *)
Definition has_current_evidence (st : Registry) (device : DeviceState) (capability : CapabilityId) : Prop :=
  exists key stored, r_keys st !! (di_id (ds_identity device), capability) = Some key /\
    stored ∈ ks_records key /\
    compute_staleness_locked st stored device (ds_generation device) true = flag_None.

Lemma current_candidates_cons_evidence st device capability key first rest :
  r_keys st !! (di_id (ds_identity device), capability) = Some key ->
  current_candidates (flagged_records st device (ds_generation device) true key) = first :: rest ->
  has_current_evidence st device capability.
Proof.
  intros Hk Hc. assert (Hf : first ∈ first :: rest) by left. rewrite <- Hc in Hf.
  apply elem_of_candidates in Hf as (stored & Hin & Hs & _). by exists key, stored.
Qed.

Lemma resolve_current_evidence st device capability pinned environment :
  rc_current (resolve_locked st device capability pinned environment) = true ->
  has_current_evidence st device capability.
Proof.
  resolve_cases st device capability pinned environment; intros Hcur.
  - destruct (resolve_stale_answer st device capability pinned environment key Hkey Hcand) as (_ & H & _).
    fold r in H. congruence.
  - rewrite Htarget, eqb_refl in Hcand. by eapply current_candidates_cons_evidence.
  - by rewrite Hr in Hcur.
Qed.

Lemma not_current_not_usable st device capability pinned environment :
  rc_current (resolve_locked st device capability pinned environment) = false ->
  usable (resolve_locked st device capability pinned environment) = false.
Proof.
  resolve_cases st device capability pinned environment; intros Hcur.
  - destruct (resolve_stale_answer st device capability pinned environment key Hkey Hcand) as (_ & _ & H & _).
    fold r in H. unfold usable. by rewrite H.
  - rewrite Hr, Htarget in Hcur. cbn in Hcur. by rewrite eqb_refl in Hcur.
  - by rewrite Hr.
Qed.

(** How the assertions of a list of candidates relate to a winner among them,
    for each contradiction state. *)
Definition contradiction_meaning (state : ContradictionState) (authority_of : Candidate -> Z)
    (current : Candidate -> Prop) (winner : Candidate) : Prop :=
  let agree c d := ca_assertion c = ca_assertion d in
  let real c := provenance_is_real (provenance (cr_source (ca_record c))) in
  let top_agrees := forall c d, current c -> current d ->
    authority_of c = authority_of winner -> authority_of d = authority_of winner -> agree c d in
  match state with
  | ContradictionState.Consistent => forall c d, current c -> current d -> agree c d
  | ContradictionState.Ambiguous => exists c d, current c /\ current d /\
      authority_of c = authority_of winner /\ authority_of d = authority_of winner /\ ~ agree c d
  | ContradictionState.PreferredLiveEvidence =>
      (exists c, current c /\ ~ agree c winner) /\ top_agrees /\ real winner = true /\
      forall c, current c -> ~ agree c winner -> real c = false
  | ContradictionState.PreferredHigherAuthoritySource =>
      (exists c, current c /\ ~ agree c winner) /\ top_agrees /\
      (real winner = true -> exists c, current c /\ ~ agree c winner /\ real c = true)
  | ContradictionState.ConflictingEvidence | ContradictionState.RevalidationRequired => False
  end.

Lemma contradiction_meaning_proper state rank (current current' : Candidate -> Prop) winner :
  (forall c, current c <-> current' c) ->
  contradiction_meaning state rank current winner -> contradiction_meaning state rank current' winner.
Proof. intros H. destruct state; cbn; try setoid_rewrite H; done. Qed.

Definition source_rank (c : Candidate) : Z := authority (cr_source (ca_record c)).

Lemma agree_with_front (l : list Candidate) front :
  forallb (fun c => ca_assertion c ==? ca_assertion front) l = true <->
  forall c, c ∈ l -> ca_assertion c = ca_assertion front.
Proof.
  rewrite forallb_forall. split; intros H c Hc.
  - apply eqb_true, H. by apply list_elem_of_In.
  - apply eqb_true, H. by apply list_elem_of_In.
Qed.

Lemma forallb_false_elem {A} (f : A -> bool) l : forallb f l = false -> exists c, c ∈ l /\ f c = false.
Proof.
  induction l as [|x l IH]; cbn [forallb]; [done|]. destruct (f x) eqn:E.
  - intros (c & Hc & Hd)%IH. exists c. split; [by right|done].
  - intros _. exists x. split; [left|done].
Qed.

Lemma disagree_with_front (l : list Candidate) front :
  forallb (fun c => ca_assertion c ==? ca_assertion front) l = false ->
  exists c, c ∈ l /\ ca_assertion c <> ca_assertion front.
Proof.
  intros (c & Hc & Hd)%forallb_false_elem. exists c. split; [done|]. intros E. by rewrite E, eqb_refl in Hd.
Qed.

Lemma resolve_contradiction_spec first rest winner :
  winner ∈ first :: rest ->
  contradiction_meaning (resolve_contradiction first rest winner) source_rank (fun c => c ∈ first :: rest) winner.
Proof.
  intros Hw. unfold resolve_contradiction.
  destruct (forallb _ rest) eqn:Eall.
  { assert (H : forall c, c ∈ first :: rest -> ca_assertion c = ca_assertion first).
    { intros c [->|Hc]%elem_of_cons; [done|]. by apply (proj1 (agree_with_front rest first) Eall). }
    cbn. intros c d Hc Hd. by rewrite (H c), (H d). }
  assert (Hdis : exists c, c ∈ first :: rest /\ ca_assertion c <> ca_assertion winner).
  { destruct (decide (ca_assertion first = ca_assertion winner)) as [E|E]; [|by exists first; split; [left|]].
    destruct (disagree_with_front _ _ Eall) as (c & Hc & Hd). exists c. split; [by right|congruence]. }
  clear Eall. set (candidates := first :: rest) in *.
  set (top := List.filter _ candidates).
  assert (Htop : forall c, c ∈ top <-> c ∈ candidates /\ source_rank c = source_rank winner).
  { intros c. unfold top. rewrite !list_elem_of_In, List.filter_In. unfold source_rank. by rewrite Z.eqb_eq. }
  destruct top as [|front top'].
  { exfalso. by apply (not_elem_of_nil winner), Htop. }
  destruct (Htop front) as [Hfront _]. specialize (Hfront ltac:(left)) as [Hfront Hfr].
  destruct (forallb _ (front :: top')) eqn:Etop; cbn [negb].
  - assert (Htops : forall c d, c ∈ candidates -> d ∈ candidates -> source_rank c = source_rank winner ->
      source_rank d = source_rank winner -> ca_assertion c = ca_assertion d).
    { pose proof (proj1 (agree_with_front _ _) Etop) as Hag. intros c d Hc Hd Hrc Hrd.
      rewrite (Hag c), (Hag d); [done|by apply Htop|by apply Htop]. }
    destruct (provenance_is_real (provenance (cr_source (ca_record winner)))) eqn:Ereal; cbn [andb];
      [destruct (forallb _ candidates) eqn:Elive|]; cbn; rewrite ?Ereal.
    + rewrite forallb_forall in Elive. split; [done|]. split; [done|]. split; [done|].
      intros c Hc Hd. apply list_elem_of_In in Hc. specialize (Elive c Hc).
      apply orb_true_iff in Elive as [E|E%negb_true_iff]; [by apply (proj1 (eqb_true _ _)) in E|done].
    + split; [done|]. split; [done|]. intros _. apply forallb_false_elem in Elive as (c & Hc & Hf).
      apply orb_false_iff in Hf as [Hne Hr]. exists c. split; [done|].
      split; [|by apply negb_false_iff in Hr]. intros E. by rewrite E, eqb_refl in Hne.
    + done.
  - destruct (disagree_with_front _ _ Etop) as (c & Hc & Hd). apply Htop in Hc as [Hc Hrc].
    cbn. by exists c, front.
Qed.

(* ===================================================================== *)
(** ** Properties *)

(** C29: an answer is marked current exactly when the query addresses the
    device's current generation and the key retains evidence to which no
    reason of staleness applies; every other answer about a known key asks
    for revalidation, and an unknown key is an explicit UNKNOWN. *)
Theorem resolve_current_iff st device capability pinned environment :
  let r := resolve_locked st device capability pinned environment in
  (rc_current r = true <->
     (gen_valid pinned = true -> pinned = ds_generation device) /\ has_current_evidence st device capability) /\
  (rc_known r = true -> rc_current r = false ->
     rc_effective_support r = EffectiveSupport.RevalidationRequired /\ is_stale (rc_staleness r) = true) /\
  (rc_known r = false ->
     rc_effective_support r = EffectiveSupport.Unknown /\ rc_declared_support r = SupportState.Unknown /\
     rc_truth r = TruthClass.Unknown /\ rc_current r = false).
Proof.
  cbn zeta. resolve_cases st device capability pinned environment.
  - destruct (resolve_stale_answer st device capability pinned environment key Hkey Hcand)
      as (H0 & H1 & H2 & _ & H4 & _). fold r in H0, H1, H2, H4. split; [|split].
    + rewrite H1. split; [done|]. intros (Hp & key' & stored & Hk' & Hin & Hs).
      rewrite Hkey in Hk'. injection Hk' as <-. exfalso.
      assert (Ht : (if gen_valid pinned then pinned else ds_generation device) = ds_generation device)
        by (destruct (gen_valid pinned); auto).
      rewrite Ht, eqb_refl in Hcand.
      assert (Hcc : mk_Candidate (sr_record stored) (assertion_of (sr_record stored)) ∈
        current_candidates (flagged_records st device (ds_generation device) true key))
        by (apply elem_of_candidates; by exists stored).
      rewrite Hcand in Hcc. by apply not_elem_of_nil in Hcc.
    + auto.
    + by rewrite H0.
  - rewrite Htarget, eqb_refl in Hcand. subst r. rewrite Hr, Htarget, eqb_refl. cbn [resolve_current]. split; [|split].
    + split; [|done]. intros _. split.
      * intros Hp. by rewrite Hp in Htarget.
      * by eapply current_candidates_cons_evidence.
    + done.
    + done.
  - rewrite Hr. split; [|split]; [|done|done]. split; [done|].
    intros (_ & key' & stored & Hk' & _). by rewrite Hkey in Hk'.
Qed.

(** C30: a current answer reports the claim of a retained record that is
    current evidence for the queried key, and no other current record of the
    key takes precedence over it in the order of authority (source class,
    precision, evidence generation, publisher, observation sequence); in
    particular none comes from a source class of higher authority. *)
Theorem resolve_winner_maximal st device capability pinned environment :
  let r := resolve_locked st device capability pinned environment in
  rc_current r = true ->
  exists key winner,
    r_keys st !! (di_id (ds_identity device), capability) = Some key /\ winner ∈ ks_records key /\
    current_evidence st winner device (ds_generation device) true /\
    rc_declared_support r = cr_support (sr_record winner) /\ rc_value r = cr_value (sr_record winner) /\
    rc_conditions r = cr_conditions (sr_record winner) /\
    forall other, other ∈ ks_records key ->
      compute_staleness_locked st other device (ds_generation device) true = flag_None ->
      by_authority (mk_Candidate (sr_record other) (assertion_of (sr_record other)))
                   (mk_Candidate (sr_record winner) (assertion_of (sr_record winner))) = false /\
      (source_authority (source_class (cr_source (sr_record other))) <=
       source_authority (source_class (cr_source (sr_record winner))))%Z.
Proof.
  cbn zeta. resolve_cases st device capability pinned environment; intros Hcur.
  - destruct (resolve_stale_answer st device capability pinned environment key Hkey Hcand) as (_ & H & _).
    fold r in H. congruence.
  - rewrite Htarget, eqb_refl in Hcand.
    destruct (select_winner_spec first rest) as [Hw Hmax].
    pose proof (winner_authority first rest) as Hauth. rewrite <- Hcand in Hw, Hmax, Hauth.
    apply elem_of_candidates in Hw as (winner & Hin & Hs & Hw). rewrite Hw in Hmax, Hauth.
    rewrite Hr.
    match goal with |- context [resolve_current ?b ?d ?e ?k ?v ?q ?c ?f ?l] =>
      destruct (resolve_current_fields b d e k v q c f l) as (_ & -> & -> & _ & -> & _) end.
    rewrite Hw. exists key, winner. split; [done|]. split; [done|]. split; [by apply staleness_none_current|].
    split; [done|]. split; [done|]. split; [done|]. intros other Hino Hso.
    assert (Hc : mk_Candidate (sr_record other) (assertion_of (sr_record other)) ∈
      current_candidates (flagged_records st device (ds_generation device) true key))
      by (apply elem_of_candidates; by exists other).
    split; [by apply Hmax|exact (Hauth _ Hc)].
  - by rewrite Hr in Hcur.
Qed.

(** Declared support that asserts the capability, conditions that hold, and
    the quirks that block or qualify. *)
Definition asserted (declared : SupportState) : Prop :=
  declared <> SupportState.Unknown /\ declared <> SupportState.RevalidationRequired /\
  declared <> SupportState.Unsupported /\ declared <> SupportState.Disabled.

Definition holds (condition : ConditionOutcome) : Prop :=
  condition <> ConditionOutcome.Unsatisfied /\ condition <> ConditionOutcome.Unknown.

Definition applies_with (severities : list QuirkSeverity) (quirks : list QuirkApplication) : Prop :=
  exists q, q ∈ quirks /\ qp_result q = QuirkApplicabilityResult.Applies /\ qp_severity q ∈ severities.

Definition blocked : list QuirkApplication -> Prop := applies_with [QuirkSeverity.Unusable; QuirkSeverity.Fatal].
Definition qualified : list QuirkApplication -> Prop := applies_with [QuirkSeverity.Caveat; QuirkSeverity.Degraded].

(** When each effective support is reported, case by case. *)
Definition reports (declared : SupportState) (condition : ConditionOutcome) (quirks : list QuirkApplication)
    (effective : EffectiveSupport) : Prop :=
  match effective with
  | EffectiveSupport.Unknown => declared = SupportState.Unknown
  | EffectiveSupport.RevalidationRequired => declared = SupportState.RevalidationRequired
  | EffectiveSupport.Unsupported => declared = SupportState.Unsupported
  | EffectiveSupport.Disabled => declared = SupportState.Disabled
  | EffectiveSupport.SupportedConditionalUnmet => asserted declared /\ condition = ConditionOutcome.Unsatisfied
  | EffectiveSupport.SupportedConditionalUnknown => asserted declared /\ condition = ConditionOutcome.Unknown
  | EffectiveSupport.BlockedByQuirk => asserted declared /\ holds condition /\ blocked quirks
  | EffectiveSupport.SupportedWithCaveat => asserted declared /\ holds condition /\ ~ blocked quirks /\ qualified quirks
  | EffectiveSupport.Supported => asserted declared /\ holds condition /\ ~ blocked quirks /\ ~ qualified quirks
  end.

Lemma existsb_applies (test : QuirkApplication -> bool) severities quirks :
  (forall q, test q = true <-> qp_result q = QuirkApplicabilityResult.Applies /\ qp_severity q ∈ severities) ->
  existsb test quirks = true <-> applies_with severities quirks.
Proof.
  intros Htest. rewrite existsb_exists. unfold applies_with. setoid_rewrite Htest. setoid_rewrite list_elem_of_In. done.
Qed.

Lemma blocked_spec quirks : existsb quirk_blocks quirks = true <-> blocked quirks.
Proof.
  apply existsb_applies. intros q. unfold quirk_blocks. rewrite andb_true_iff, orb_true_iff, !eqb_true.
  rewrite !elem_of_cons, elem_of_nil. tauto.
Qed.

Lemma qualified_spec quirks : existsb quirk_caveats quirks = true <-> qualified quirks.
Proof.
  apply existsb_applies. intros q. unfold quirk_caveats. destruct (qp_result q !=? _) eqn:E; bsimpl.
  - split; [done|]. by intros [? _].
  - rewrite orb_true_iff, !eqb_true, !elem_of_cons, elem_of_nil. tauto.
Qed.

(** The order of the tests. *)
Lemma effective_support_reports declared condition quirks effective :
  compute_effective_support declared condition quirks = effective <-> reports declared condition quirks effective.
Proof.
  pose proof (blocked_spec quirks) as Hb. pose proof (qualified_spec quirks) as Hq.
  unfold compute_effective_support, reports, asserted, holds.
  destruct (existsb quirk_blocks quirks), (existsb quirk_caveats quirks), declared, condition, effective;
    intuition congruence.
Qed.

(** C32: the effective support of an answer is decided in a fixed order. For a
    current answer each effective support is reported exactly in its case:
    declared states that assert no usable support are reported as such; then a
    condition that is unmet or undecided; then an applying quirk that makes the
    capability unusable; then one that qualifies it; and plain support only
    when none of these holds. An answer that is not current is reported to
    need revalidation or to be unknown. Only a present, conditionally satisfied,
    unblocked capability of a current answer is usable. *)
Theorem effective_support_precedence st device capability pinned environment :
  let r := resolve_locked st device capability pinned environment in
  let declared := rc_declared_support r in
  let condition := outcome (rc_condition_evaluation r) in
  (rc_current r = true ->
   forall effective, rc_effective_support r = effective <-> reports declared condition (rc_quirks r) effective) /\
  (rc_current r = false ->
   rc_effective_support r = EffectiveSupport.RevalidationRequired \/ rc_effective_support r = EffectiveSupport.Unknown) /\
  (usable r = true <->
     rc_current r = true /\ asserted declared /\ holds condition /\ ~ blocked (rc_quirks r)).
Proof.
  cbn zeta. resolve_cases st device capability pinned environment.
  - destruct (resolve_stale_answer st device capability pinned environment key Hkey Hcand) as (_ & H & He & _).
    fold r in H, He. unfold usable. rewrite H, He. split_and!; [done|by left|]. split; [done|by intros []].
  - assert (Hcur : rc_current r = true) by (rewrite Hr, Htarget; cbn; by rewrite eqb_refl).
    assert (Heff : rc_effective_support r = compute_effective_support (rc_declared_support r)
      (outcome (rc_condition_evaluation r)) (rc_quirks r)).
    { rewrite Hr. match goal with |- context [resolve_current ?b ?d ?e ?k ?v ?q ?c ?f ?l] =>
        destruct (resolve_current_fields b d e k v q c f l) as (_ & -> & _ & _ & _ & -> & _ & _ & -> & -> & _) end.
      done. }
    assert (Hreports := fun e => effective_support_reports (rc_declared_support r)
      (outcome (rc_condition_evaluation r)) (rc_quirks r) e). rewrite <- Heff in Hreports.
    split; [done|]. split; [congruence|]. unfold usable. rewrite orb_true_iff, !eqb_true, !Hreports. cbn [reports].
    destruct (existsb quirk_caveats (rc_quirks r)) eqn:E; pose proof (qualified_spec (rc_quirks r)); intuition congruence.
  - rewrite Hr. split_and!; [done|by right|]. split; [done|by intros []].
Qed.

(** C33: UNSUPPORTED is never inferred from missing evidence: an answer
    declares it, or classifies the truth as UNSUPPORTED, only when a retained
    claim of the key that is not a withdrawal asserts non-support. *)
Theorem unsupported_needs_evidence st device capability pinned environment :
  let r := resolve_locked st device capability pinned environment in
  rc_declared_support r = SupportState.Unsupported \/ rc_truth r = TruthClass.Unsupported ->
  exists key stored, r_keys st !! (di_id (ds_identity device), capability) = Some key /\
    stored ∈ ks_records key /\ cr_support (sr_record stored) = SupportState.Unsupported /\
    cr_withdrawn (sr_record stored) = false.
Proof.
  cbn zeta. resolve_cases st device capability pinned environment; intros Hu.
  - destruct (resolve_stale_answer st device capability pinned environment key Hkey Hcand)
      as (_ & _ & _ & _ & _ & Ht & Hd). fold r in Ht, Hd. rewrite Ht, Hd in Hu.
    pose proof (newest_claim_spec (ks_records key)) as Hn. destruct (newest_claim _) as [n|].
    + destruct Hn as [Hin Hw]. exists key, n. destruct Hu as [Hu|Hu]; [done|by destruct (ks_has_evidence key)].
    + destruct Hu as [Hu|Hu]; [done|by destruct (ks_has_evidence key)].
  - rewrite Htarget, eqb_refl in Hcand. rewrite Hr in Hu.
    destruct (select_winner_spec first rest) as [Hw _]. rewrite <- Hcand in Hw.
    apply elem_of_candidates in Hw as (winner & Hin & Hs & Hw).
    match type of Hu with context [resolve_current ?b ?d ?e ?k ?v ?q ?c ?f ?l] =>
      destruct (resolve_current_fields b d e k v q c f l) as (_ & Hds & _ & _ & _ & _ & _ & _ & _ & He & _ & Htr) end.
    rewrite Htr, He, Hds, Hw in Hu. cbn [ca_record] in Hu.
    exists key, winner. split; [done|]. split; [done|].
    split; [|exact (ce_not_withdrawn _ _ _ _ _ (staleness_none_current _ _ _ _ _ Hs))].
    destruct Hu as [Hu|Hu]; [done|]. by apply classify_truth_unsupported in Hu.
  - rewrite Hr in Hu. by destruct Hu.
Qed.

(** C31: the contradiction state of a current answer means what its name
    says. CONSISTENT: all current records of the key make one assertion.
    AMBIGUOUS: two current records of the winner's source authority disagree.
    PREFERRED-LIVE-EVIDENCE: a disagreement in which the winner is real and
    every dissenting record is not. PREFERRED-HIGHER-AUTHORITY: any other
    disagreement on which the highest authority is of one mind. *)
Theorem contradiction_state_meaning st device capability pinned environment :
  let r := resolve_locked st device capability pinned environment in
  rc_current r = true ->
  exists key winner,
    r_keys st !! (di_id (ds_identity device), capability) = Some key /\
    let candidate stored := mk_Candidate (sr_record stored) (assertion_of (sr_record stored)) in
    let current c := exists stored, stored ∈ ks_records key /\
      compute_staleness_locked st stored device (ds_generation device) true = flag_None /\ c = candidate stored in
    winner ∈ ks_records key /\ rc_value r = cr_value (sr_record winner) /\
    contradiction_meaning (rc_contradiction r) source_rank current (candidate winner).
Proof.
  cbn zeta. resolve_cases st device capability pinned environment; intros Hcur.
  - destruct (resolve_stale_answer st device capability pinned environment key Hkey Hcand) as (_ & H & _).
    fold r in H. congruence.
  - rewrite Htarget, eqb_refl in Hcand. destruct (select_winner_spec first rest) as [Hw _].
    pose proof (resolve_contradiction_spec first rest (select_winner first rest) Hw) as Hc.
    rewrite Hr. match goal with |- context [resolve_current ?b ?d ?e ?k ?v ?q ?c ?f ?l] =>
      destruct (resolve_current_fields b d e k v q c f l) as (_ & _ & -> & _ & _ & _ & -> & _) end.
    rewrite <- Hcand in Hw. apply elem_of_candidates in Hw as (winner & Hin & _ & Hw).
    exists key, winner. split; [done|]. split; [done|]. rewrite Hw in Hc |- *. split; [done|].
    refine (contradiction_meaning_proper _ _ _ _ _ _ Hc).
    intros c. rewrite <- Hcand. apply elem_of_candidates.
  - by rewrite Hr in Hcur.
Qed.

(** An answer about a known key shows every retained record of the key
    exactly once, stale ones included, and lists current evidence before
    stale evidence, current evidence being in the order of selection,
    generation, authority, publisher and sequence. *)
Theorem answer_shows_all_evidence st device capability pinned environment key :
  let target := target_generation device pinned in
  let r := resolve_locked st device capability pinned environment in
  r_keys st !! (di_id (ds_identity device), capability) = Some key ->
  map (fun view => view <| ev_winner := false |>) (rc_evidence r) ≡ₚ
    map (fun stored => view_of stored
      (compute_staleness_locked st stored device target (target ==? ds_generation device))) (ks_records key) /\
  Sorted.StronglySorted view_after (rc_evidence r).
Proof.
  cbn zeta. intros Hk.
  assert (Hviews : forall target cur, map (fun p => view_of p.1 p.2) (flagged_records st device target cur key) =
    map (fun stored => view_of stored (compute_staleness_locked st stored device target cur)) (ks_records key))
    by (intros; unfold flagged_records; by rewrite map_map).
  resolve_cases st device capability pinned environment; simplify_eq.
  - rewrite Hr. unfold resolve_stale. fold (target_generation device pinned).
    replace (rc_evidence _) with (std_sort evidence_ordering (map (fun p => view_of p.1 p.2)
      (flagged_records st device (target_generation device pinned)
         (target_generation device pinned ==? ds_generation device) key))) by (by destruct (newest_claim _)).
    split; [|apply evidence_sorted]. rewrite std_sort_perm, Hviews, map_map. done.
  - rewrite Hr. match goal with |- context [resolve_current ?b ?d ?e ?k ?v ?q ?c ?f ?l] =>
      destruct (resolve_current_fields b d e k v q c f l) as (_ & _ & _ & _ & _ & _ & _ & _ & _ & _ & -> & _) end.
    split; [|apply evidence_sorted]. rewrite std_sort_perm. fold (target_generation device pinned).
    rewrite Hviews, !map_map. done.
Qed.

(** The truth class of an answer without current evidence depends only
    on whether evidence was ever recorded, not on its provenance: stale
    synthetic evidence is classified REAL. *)
Theorem stale_truth_ignores_provenance st device capability pinned environment key :
  let r := resolve_locked st device capability pinned environment in
  r_keys st !! (di_id (ds_identity device), capability) = Some key ->
  rc_current r = false ->
  rc_truth r = (if ks_has_evidence key then TruthClass.Real else TruthClass.Unknown).
Proof.
  cbn zeta. intros Hk. resolve_cases st device capability pinned environment; simplify_eq; intros Hcur.
  - by destruct (resolve_stale_answer st device capability pinned environment key Hkey Hcand)
      as (_ & _ & _ & _ & _ & H & _).
  - rewrite Hr, Htarget in Hcur. cbn in Hcur. by rewrite eqb_refl in Hcur.
Qed.

(** ** The hypotheses hold on a small fleet *)

Definition supported_claim : CapabilityRecord :=
  fp8_record nvml_source SupportState.SupportedNative (VBoolean true).

Definition unsupported_claim : CapabilityRecord := fp8_record nvml_source SupportState.Unsupported VNone.

Definition fp8_answer (claim : CapabilityRecord) : ResolvedCapability :=
  resolve_locked (fleet claim) gpu_state fp8 Gen_none ∅.

Lemma resolve_winner_maximal_witness :
  rc_current (fp8_answer supported_claim) = true /\
  exists key winner,
    r_keys (fleet supported_claim) !! (gpu, fp8) = Some key /\ winner ∈ ks_records key /\
    rc_value (fp8_answer supported_claim) = cr_value (sr_record winner).
Proof.
  split; [vm_compute; reflexivity|].
  destruct (resolve_winner_maximal (fleet supported_claim) gpu_state fp8 Gen_none ∅)
    as (key & winner & Hk & Hin & _ & _ & Hv & _); [vm_compute; reflexivity|].
  exists key, winner. split; [exact Hk|]. split; [exact Hin|exact Hv].
Defined.

Lemma unsupported_needs_evidence_witness :
  rc_declared_support (fp8_answer unsupported_claim) = SupportState.Unsupported /\
  exists key stored,
    r_keys (fleet unsupported_claim) !! (gpu, fp8) = Some key /\ stored ∈ ks_records key /\
    cr_support (sr_record stored) = SupportState.Unsupported.
Proof.
  split; [vm_compute; reflexivity|].
  destruct (unsupported_needs_evidence (fleet unsupported_claim) gpu_state fp8 Gen_none ∅)
    as (key & stored & Hk & Hin & Hs & _); [left; vm_compute; reflexivity|].
  exists key, stored. split; [exact Hk|]. split; [exact Hin|exact Hs].
Defined.

Lemma contradiction_state_meaning_witness :
  rc_current (fp8_answer supported_claim) = true /\
  exists key winner,
    r_keys (fleet supported_claim) !! (gpu, fp8) = Some key /\ winner ∈ ks_records key.
Proof.
  split; [vm_compute; reflexivity|].
  destruct (contradiction_state_meaning (fleet supported_claim) gpu_state fp8 Gen_none ∅)
    as (key & winner & Hk & Hin & _); [vm_compute; reflexivity|].
  exists key, winner. split; [exact Hk|exact Hin].
Defined.

Lemma answer_shows_all_evidence_witness :
  Sorted.StronglySorted view_after (rc_evidence (fp8_answer supported_claim)).
Proof.
  exact (proj2 (answer_shows_all_evidence (fleet supported_claim) gpu_state fp8 Gen_none ∅
    (mk_KeyState fp8_schema Gen_first true [stored_record supported_claim 1]) ltac:(vm_compute; reflexivity))).
Defined.

(** Purely synthetic knowledge, queried for another device generation. *)
Definition synthetic_claim : CapabilityRecord :=
  fp8_record synthetic_source SupportState.SupportedNative (VBoolean true).

Lemma stale_truth_ignores_provenance_witness :
  let answer pinned := resolve_locked (fleet synthetic_claim) gpu_state fp8 pinned ∅ in
  rc_truth (answer Gen_none) = TruthClass.Synthetic /\
  rc_truth (answer (gen_next Gen_first)) = TruthClass.Real.
Proof.
  cbv zeta. split; [vm_compute; reflexivity|].
  exact (stale_truth_ignores_provenance (fleet synthetic_claim) gpu_state fp8 (gen_next Gen_first) ∅
    (mk_KeyState fp8_schema Gen_first true [stored_record synthetic_claim 1])
    ltac:(vm_compute; reflexivity) ltac:(vm_compute; reflexivity)).
Defined.
