(* ===== verification/Publishers.v ===== *)
(** * Publishers: registration, boots and fencing

    Models the publisher half of [registry.cpp]: [register_publisher_locked],
    [fence_publisher], [retire_publisher_boot], [reset_publisher_liveness] and
    the listings. A publisher process is named by (publisher, boot, epoch);
    only the registered, unfenced boot of a publisher has authority. The clock
    read by a registration ([utc_now_iso8601]) is the argument [now]. *)

From S2P Require Import Prelude Tokens Versions Support Conditions Values Hardware Quirks Compat Publication.
From S2P Require Import RegistryState Fixtures.

#[global] Instance PublisherIdentity_inhabited : Inhabited PublisherIdentity := base.populate no_publisher.

(** A result with [code] and [mutated] set. *)
Definition result_of (code : ApplyCode) (mutated : bool) (detail : string) : ApplyResult :=
  mk_ApplyResult code mutated detail no_publisher Gen_none Gen_none.

(** The state of the first boot of a publisher. *)
Definition first_boot_state (now : string) (epoch : CoordinatorEpoch) (id : PublisherId) (adapter : string) :
    PublisherStateInternal :=
  default_publisher_state
    <| ps_record := default_publisher_record
         <| pr_adapter := adapter |>
         <| pr_registered_at_utc := now |>
         <| pr_identity := mk_PublisherIdentity id Gen_first epoch |>
         <| pr_state := PublisherState.Registered |> |>
    <| ps_boot_history := 1 |>.

(** The boot a fresh process of a known publisher is given. *)
Definition next_boot (state : PublisherStateInternal) : PublisherBootId :=
  let boot := pi_boot (pr_identity (ps_record state)) in
  if gen_valid boot then mk_Gen (u64_succ (gen_value boot)) else mk_Gen 1.

(** A fresh process: a new boot, every earlier one retired. *)
Definition rebooted_state (now : string) (epoch : CoordinatorEpoch) (adapter : string)
    (state : PublisherStateInternal) : PublisherStateInternal :=
  let boot := pi_boot (pr_identity (ps_record state)) in
  let history := u64_succ (ps_boot_history state) in
  state <| ps_fenced_boots ::= fun s => if gen_valid boot then {[boot]} ∪ s else s |>
        <| ps_boot_history := history |>
        <| ps_record ::= fun r =>
             r <| pr_identity ::= fun i => i <| pi_boot := next_boot state |> <| pi_epoch := epoch |> |>
               <| pr_state := PublisherState.Registered |>
               <| pr_adapter := adapter |>
               <| pr_reason := EmptyString |>
               <| pr_registered_at_utc := now |>
               <| pr_boot_history := history |> |>.

(** The registered boot announces itself again. *)
Definition reaffirmed_state (epoch : CoordinatorEpoch) (adapter : string) (state : PublisherStateInternal) :
    PublisherStateInternal :=
  state <| ps_record ::= fun r =>
    r <| pr_identity ::= fun i => i <| pi_epoch := epoch |> |>
      <| pr_state := PublisherState.Registered |>
      <| pr_adapter := adapter |>
      <| pr_reason := EmptyString |> |>.

Definition register_publisher_locked (now : string) (identity : PublisherIdentity) (adapter : string)
    (st : Registry) : Registry * ApplyResult :=
  if negb (id_valid (pi_id identity)) then
    (st, rejected_result ApplyCode.RejectedValidation "publisher identity is not canonical")
  else if is_empty adapter || (max_metadata_bytes (r_limits st) <? strlen adapter) then
    (st, rejected_result ApplyCode.RejectedValidation "publisher adapter must be a bounded canonical name")
  else match r_publishers st !! pi_id identity with
  | None =>
      if max_publishers (r_limits st) <=? sizeN (r_publishers st) then
        (st, rejected_result ApplyCode.RejectedLimit "publisher limit reached")
      else if gen_valid (pi_boot identity) && (1 <? gen_value (pi_boot identity)) then
        (st, rejected_result ApplyCode.RejectedStaleBoot
          "first registration of a publisher must request boot assignment (boot 0 or 1)")
      else
        let state := first_boot_state now (r_epoch st) (pi_id identity) adapter in
        (touch_locked (st <| r_publishers ::= insert (pi_id identity) state |>
                          <| r_usage ::= fun u => u <| ru_publishers ::= u64_succ |> |>),
         result_of ApplyCode.Accepted true ("publisher registered with boot 1 in epoch " +:+ gen_str (r_epoch st))%string
           <| ar_assigned_publisher := pr_identity (ps_record state) |>)
  | Some state =>
      if ps_publisher_fenced state then
        (st, rejected_result ApplyCode.RejectedFencedPublisher
          ("publisher is permanently fenced: " +:+ pr_reason (ps_record state))%string)
      else if negb (gen_valid (pi_boot identity)) then
        let state' := rebooted_state now (r_epoch st) adapter state in
        (touch_locked (st <| r_publishers ::= insert (pi_id identity) state' |>),
         result_of ApplyCode.Accepted true
           ("publisher re-registered with fresh boot " +:+ gen_str (next_boot state) +:+ "; prior boots fenced")%string
           <| ar_assigned_publisher := pr_identity (ps_record state') |>)
      else if bool_decide (pi_boot identity ∈ ps_fenced_boots state) then
        (st, rejected_result ApplyCode.RejectedFencedPublisher
          ("publisher boot " +:+ gen_str (pi_boot identity) +:+ " is fenced and never regains authority")%string)
      else if pi_boot (pr_identity (ps_record state)) !=? pi_boot identity then
        (st, rejected_result ApplyCode.RejectedStaleBoot
          ("publisher boot " +:+ gen_str (pi_boot identity) +:+ " is not the registered boot " +:+
           gen_str (pi_boot (pr_identity (ps_record state))))%string)
      else
        let state' := reaffirmed_state (r_epoch st) adapter state in
        (st <| r_publishers ::= insert (pi_id identity) state' |>,
         result_of ApplyCode.AcceptedIdempotent false "publisher boot re-affirmed"
           <| ar_assigned_publisher := pr_identity (ps_record state') |>)
  end.

Definition register_publisher (now : string) (identity : PublisherIdentity) (adapter : string)
    (st : Registry) : Registry * ApplyResult :=
  if r_shutting_down st then
    (st, rejected_result ApplyCode.RejectedShuttingDown "registry is shutting down")
  else register_publisher_locked now identity adapter st.

(** [state] and [reason] of a watermark. *)
Definition mark_watermark (state : PublisherState) (reason : string) (w : PublisherWatermark) : PublisherWatermark :=
  w <| wm_state := state |> <| wm_reason := reason |>.

Definition fenced_state (reason : string) (state : PublisherStateInternal) : PublisherStateInternal :=
  let reason := if is_empty reason then "fenced by coordinator"%string else reason in
  let boot := pi_boot (pr_identity (ps_record state)) in
  state <| ps_publisher_fenced := true |>
        <| ps_record ::= fun r => r <| pr_state := PublisherState.Fenced |> <| pr_reason := reason |> |>
        <| ps_fenced_boots ::= fun s => if gen_valid boot then {[boot]} ∪ s else s |>
        <| ps_watermarks ::= fmap (mark_watermark PublisherState.Fenced reason) |>.

Definition fence_publisher (publisher : PublisherId) (reason : string) (st : Registry) : Registry * ApplyResult :=
  match r_publishers st !! publisher with
  | None => (st, rejected_result ApplyCode.RejectedUnknownPublisher
                   ("publisher " +:+ id_str publisher +:+ " is not registered")%string)
  | Some state =>
      if ps_publisher_fenced state then
        (st, result_of ApplyCode.AcceptedIdempotent false "publisher already fenced")
      else
        let state' := fenced_state reason state in
        (touch_locked (st <| r_publishers ::= insert publisher state' |>),
         result_of ApplyCode.Accepted true
           ("publisher " +:+ id_str publisher +:+ " fenced: " +:+ pr_reason (ps_record state'))%string)
  end.

Definition retired_state (boot : PublisherBootId) (reason : string) (state : PublisherStateInternal) :
    PublisherStateInternal :=
  let state := state <| ps_fenced_boots ::= union {[boot]} |>
                     <| ps_watermarks ::= alter (mark_watermark PublisherState.Dead reason) boot |> in
  if pi_boot (pr_identity (ps_record state)) ==? boot
  then state <| ps_record ::= fun r => r <| pr_state := PublisherState.Dead |> <| pr_reason := reason |> |>
  else state.

Definition retire_publisher_boot (publisher : PublisherId) (boot : PublisherBootId) (reason : string)
    (st : Registry) : Registry * ApplyResult :=
  match r_publishers st !! publisher with
  | None => (st, rejected_result ApplyCode.RejectedUnknownPublisher
                   ("publisher " +:+ id_str publisher +:+ " is not registered")%string)
  | Some state =>
      if negb (gen_valid boot) then
        (st, rejected_result ApplyCode.RejectedValidation "retiring a publisher boot requires the boot identity")
      else if bool_decide (boot ∈ ps_fenced_boots state) then
        (st, result_of ApplyCode.AcceptedIdempotent false
          ("publisher boot " +:+ gen_str boot +:+ " is already retired")%string)
      else
        (touch_locked (st <| r_publishers ::= insert publisher (retired_state boot reason state) |>),
         result_of ApplyCode.Accepted true ("publisher boot " +:+ gen_str boot +:+ " retired: " +:+ reason)%string)
  end.

(** The body of the loop of [reset_publisher_liveness]. *)
Definition deadened_state (reason : string) (state : PublisherStateInternal) : PublisherStateInternal :=
  if pr_state (ps_record state) ==? PublisherState.Registered then
    let boot := pi_boot (pr_identity (ps_record state)) in
    let state := state <| ps_record ::= fun r =>
                   r <| pr_state := PublisherState.Dead |> <| pr_reason := reason |> |> in
    if gen_valid boot
    then state <| ps_fenced_boots ::= union {[boot]} |>
               <| ps_watermarks ::= fmap (mark_watermark PublisherState.Dead reason) |>
    else state
  else state.

Definition reset_publisher_liveness (reason : string) (st : Registry) : Registry :=
  touch_locked (st <| r_publishers ::= fmap (deadened_state reason) |>).

Definition find_publisher_record (publisher : PublisherId) (st : Registry) : Result PublisherRecord :=
  match r_publishers st !! publisher with
  | None => Failed (failure NotFound ("publisher " +:+ id_str publisher +:+ " is not registered")%string)
  | Some state => Value (ps_record state)
  end.

(** [query.max_results == 0 ? limits.max_query_results : query.max_results]. *)
Definition result_limit (limits : RegistryLimits) (requested : N) : N :=
  if requested =? 0 then max_query_results limits else requested.

(** [std::optional] filters: an absent filter accepts everything. *)
Definition passes {A : Type} `{EqDecision A} (filter : option A) (x : A) : bool :=
  match filter with None => true | Some y => x ==? y end.

Definition list_publishers (state : option PublisherState) (max_results : N) (st : Registry) : list PublisherRecord :=
  collect_until (result_limit (r_limits st) max_results)
    (fun entry : PublisherId * PublisherStateInternal =>
       let record := ps_record entry.2 in
       if negb (passes state (pr_state record)) then None else Some record)
    (map_entries (r_publishers st)) [].

(* ===================================================================== *)
(** ** The contract: authority of boots

    The registry promises its clients that authority, once revoked, does not
    come back. [boot_revoked] is the revocation of one boot, [publisher_grows]
    how a publisher's state may evolve. *)

Definition boot_revoked (state : PublisherStateInternal) (boot : PublisherBootId) : Prop :=
  ps_publisher_fenced state = true \/ boot ∈ ps_fenced_boots state.

#[global] Instance boot_revoked_dec state boot : Decision (boot_revoked state boot).
Proof. unfold boot_revoked. apply _. Defined.

(** What holds between a state of a publisher and any later one. *)
Record publisher_grows (s s' : PublisherStateInternal) : Prop := {
  pg_fenced : ps_publisher_fenced s = true -> ps_publisher_fenced s' = true;
  pg_boots : ps_fenced_boots s ⊆ ps_fenced_boots s';
  pg_id : pi_id (pr_identity (ps_record s')) = pi_id (pr_identity (ps_record s));
  pg_superseded : pi_boot (pr_identity (ps_record s')) <> pi_boot (pr_identity (ps_record s)) ->
    gen_valid (pi_boot (pr_identity (ps_record s))) = true ->
    pi_boot (pr_identity (ps_record s)) ∈ ps_fenced_boots s'
}.

#[global] Instance publisher_grows_preorder : PreOrder publisher_grows.
Proof.
  split; [intros s; by split|]. intros s1 s2 s3 [a1 a2 a3 a4] [b1 b2 b3 b4]. split; [auto|set_solver|congruence|].
  intros Hne Hv. destruct (decide (pi_boot (pr_identity (ps_record s2)) = pi_boot (pr_identity (ps_record s1)))) as [E|E].
  - rewrite <- E. apply b4; congruence.
  - apply b2. auto.
Qed.

Definition publishers_grow (st st' : Registry) : Prop :=
  forall id s, r_publishers st !! id = Some s ->
    exists s', r_publishers st' !! id = Some s' /\ publisher_grows s s'.

#[global] Instance publishers_grow_preorder : PreOrder publishers_grow.
Proof.
  split; [intros st id s H; by exists s|].
  intros st1 st2 st3 H12 H23 id s H. destruct (H12 id s H) as (s2 & H2 & G2).
  destruct (H23 id s2 H2) as (s3 & H3 & G3). exists s3. split; [done|by etrans].
Qed.

Lemma publishers_grow_same st st' : r_publishers st' = r_publishers st -> publishers_grow st st'.
Proof. intros E id s H. exists s. by rewrite E. Qed.

Lemma publishers_grow_insert st st' id s s' :
  r_publishers st !! id = Some s -> r_publishers st' = <[id := s']> (r_publishers st) ->
  publisher_grows s s' -> publishers_grow st st'.
Proof.
  intros Hs E G id2 s2 H2. rewrite E. destruct (decide (id = id2)) as [<-|Hne].
  - exists s'. rewrite lookup_insert_eq. split; [done|]. by rewrite Hs in H2; injection H2 as <-.
  - exists s2. by rewrite lookup_insert_ne.
Qed.

Lemma publishers_grow_fresh st st' id s' :
  r_publishers st !! id = None -> r_publishers st' = <[id := s']> (r_publishers st) -> publishers_grow st st'.
Proof.
  intros Hs E id2 s2 H2. rewrite E. exists s2. rewrite lookup_insert_ne by congruence. done.
Qed.

Lemma boot_revoked_grows s s' boot : publisher_grows s s' -> boot_revoked s boot -> boot_revoked s' boot.
Proof. intros [H1 H2 _ _] [H|H]; [left; auto|right; set_solver]. Qed.

Lemma rebooted_grows now epoch adapter s : publisher_grows s (rebooted_state now epoch adapter s).
Proof.
  split; cbn; [done| |done|].
  - destruct (gen_valid _); set_solver.
  - intros _ ->. set_solver.
Qed.

Lemma reaffirmed_grows epoch adapter s : publisher_grows s (reaffirmed_state epoch adapter s).
Proof. by split; cbn. Qed.

Lemma fenced_grows reason s : publisher_grows s (fenced_state reason s).
Proof. split; cbn; [done|destruct (gen_valid _); set_solver|done|done]. Qed.

Lemma retired_grows boot reason s : publisher_grows s (retired_state boot reason s).
Proof. unfold retired_state. destruct (_ ==? boot); split; cbn; try done; set_solver. Qed.

Lemma deadened_grows reason s : publisher_grows s (deadened_state reason s).
Proof.
  unfold deadened_state. destruct (_ ==? _); [|done]. destruct (gen_valid _); split; cbn; try done; set_solver.
Qed.

#[export] Hint Resolve rebooted_grows reaffirmed_grows fenced_grows retired_grows deadened_grows : hcr.

(** A publisher operation keeps everything but the publisher table, the
    revision and the usage counters. *)
Definition same_knowledge (st st' : Registry) : Prop :=
  r_limits st' = r_limits st /\ r_schemas st' = r_schemas st /\ r_capability_schemas st' = r_capability_schemas st /\
  r_devices st' = r_devices st /\ r_platforms st' = r_platforms st /\ r_keys st' = r_keys st /\
  r_device_keys st' = r_device_keys st /\ r_families st' = r_families st /\ r_models st' = r_models st /\
  r_architectures st' = r_architectures st /\ r_global_order st' = r_global_order st /\
  r_evidence_count st' = r_evidence_count st /\ r_next_serial st' = r_next_serial st /\
  r_quirks st' = r_quirks st /\ r_compatibility st' = r_compatibility st.

Ltac publisher_cases st pub :=
  let s := fresh "s" in let Hs := fresh "Hs" in destruct (r_publishers st !! pub) as [s|] eqn:Hs.

Lemma register_publisher_locked_grows now identity adapter st :
  publishers_grow st (register_publisher_locked now identity adapter st).1 /\
  same_knowledge st (register_publisher_locked now identity adapter st).1.
Proof.
  unfold register_publisher_locked.
  destruct (negb _); [by repeat split|]. destruct (_ || _); [by repeat split|].
  publisher_cases st (pi_id identity).
  - destruct (ps_publisher_fenced s); [by repeat split|].
    destruct (negb _); [split; [by eapply publishers_grow_insert; eauto with hcr|by repeat split]|].
    destruct (bool_decide _); [by repeat split|]. destruct (_ !=? _); [by repeat split|].
    split; [by eapply publishers_grow_insert; eauto with hcr|by repeat split].
  - destruct (_ <=? _); [by repeat split|]. destruct (_ && _); [by repeat split|].
    split; [by eapply publishers_grow_fresh|by repeat split].
Qed.

Lemma register_publisher_grows now identity adapter st :
  publishers_grow st (register_publisher now identity adapter st).1 /\
  same_knowledge st (register_publisher now identity adapter st).1.
Proof.
  unfold register_publisher. destruct (r_shutting_down st); [by repeat split|]. apply register_publisher_locked_grows.
Qed.

Lemma fence_publisher_grows publisher reason st :
  publishers_grow st (fence_publisher publisher reason st).1 /\
  same_knowledge st (fence_publisher publisher reason st).1.
Proof.
  unfold fence_publisher. publisher_cases st publisher; [|by repeat split].
  destruct (ps_publisher_fenced s); [by repeat split|].
  split; [by eapply publishers_grow_insert; eauto with hcr|by repeat split].
Qed.

Lemma retire_publisher_boot_grows publisher boot reason st :
  publishers_grow st (retire_publisher_boot publisher boot reason st).1 /\
  same_knowledge st (retire_publisher_boot publisher boot reason st).1.
Proof.
  unfold retire_publisher_boot. publisher_cases st publisher; [|by repeat split].
  destruct (negb _); [by repeat split|]. destruct (bool_decide _); [by repeat split|].
  split; [by eapply publishers_grow_insert; eauto with hcr|by repeat split].
Qed.

Lemma reset_publisher_liveness_grows reason st :
  publishers_grow st (reset_publisher_liveness reason st) /\ same_knowledge st (reset_publisher_liveness reason st).
Proof.
  split; [|by repeat split]. intros id s Hs. exists (deadened_state reason s). cbn.
  rewrite lookup_fmap, Hs. split; [done|auto with hcr].
Qed.

(** Revoked boots have no authority. *)
Lemma revoked_not_authoritative st record s :
  r_publishers st !! pi_id (publisher (cr_source record)) = Some s ->
  boot_revoked s (pi_boot (publisher (cr_source record))) -> publisher_is_authoritative st record = false.
Proof.
  intros Hs Hr. unfold publisher_is_authoritative. rewrite Hs. destruct Hr as [->|Hr]; [done|].
  destruct (ps_publisher_fenced s); [done|]. destruct (_ !=? _); [done|]. destruct (_ !=? _); [done|].
  by rewrite (bool_decide_eq_true_2 _ Hr).
Qed.

(** *** Regaining authority *)

(** A process that has lost its boot, and [n] registrations of such. *)
Definition fresh_process (id : PublisherId) : PublisherIdentity := mk_PublisherIdentity id Gen_none Gen_none.

Definition reregister (now : string) (id : PublisherId) (adapter : string) (n : nat) (st : Registry) : Registry :=
  Nat.iter n (fun st => (register_publisher now (fresh_process id) adapter st).1) st.

(** What [n] registrations leave of the publisher that was in state [s]. *)
Record reregistered (st : Registry) (s : PublisherStateInternal) (n : nat) (st' : Registry)
    (s' : PublisherStateInternal) : Prop := {
  rr_limits : r_limits st' = r_limits st;
  rr_running : r_shutting_down st' = false;
  rr_unfenced : ps_publisher_fenced s' = false;
  rr_boot : gen_value (pi_boot (pr_identity (ps_record s'))) = gen_value (pi_boot (pr_identity (ps_record s))) + N.of_nat n;
  rr_state : (0 < n)%nat -> pr_state (ps_record s') = PublisherState.Registered;
  rr_boots : forall g, g ∈ ps_fenced_boots s' -> g ∈ ps_fenced_boots s \/
    gen_value g < gen_value (pi_boot (pr_identity (ps_record s'))) 
}.

Lemma reregister_spec now id adapter st s n :
  id_valid id = true -> r_publishers st !! id = Some s -> ps_publisher_fenced s = false -> r_shutting_down st = false ->
  is_empty adapter = false -> strlen adapter <= max_metadata_bytes (r_limits st) ->
  gen_value (pi_boot (pr_identity (ps_record s))) + N.of_nat n < u64_modulus ->
  exists s', r_publishers (reregister now id adapter n st) !! id = Some s' /\
    reregistered st s n (reregister now id adapter n st) s'.
Proof.
  intros Hid Hs Hf Hrun Ha Hlen. induction n as [|n IH]; intros Hn.
  { exists s. split; [done|]. split; try done; [cbn; lia|lia|by left]. }
  destruct IH as (s1 & Hs1 & [L1 L2 L3 L4 _ L6]); [lia|]. set (st1 := reregister now id adapter n st) in *.
  change (reregister now id adapter (S n) st) with (register_publisher now (fresh_process id) adapter st1).1.
  unfold register_publisher, register_publisher_locked. rewrite L2. cbn [fresh_process pi_id pi_boot]. rewrite Hid, Ha, L1.
  rewrite (proj2 (N.ltb_ge _ _) Hlen), Hs1, L3. cbn [negb orb gen_valid Gen_none gen_value N.eqb fst].
  set (s2 := rebooted_state now (r_epoch st1) adapter s1).
  assert (Hnext : gen_value (next_boot s1) = gen_value (pi_boot (pr_identity (ps_record s1))) + 1).
  { unfold next_boot, gen_valid. destruct (N.eqb_spec (gen_value (pi_boot (pr_identity (ps_record s1)))) 0) as [E|E].
    - rewrite E. reflexivity.
    - apply u64_succ_small. lia. }
  exists s2. split; [cbn; apply lookup_insert_eq|].
  assert (Hb : gen_value (pi_boot (pr_identity (ps_record s2))) = gen_value (pi_boot (pr_identity (ps_record s1))) + 1) by exact Hnext.
  split; try done; [lia|].
  intros g. change (ps_fenced_boots s2) with (let boot := pi_boot (pr_identity (ps_record s1)) in
    if gen_valid boot then {[boot]} ∪ ps_fenced_boots s1 else ps_fenced_boots s1). cbv zeta.
  assert (Hold : g ∈ ps_fenced_boots s1 -> g ∈ ps_fenced_boots s \/ gen_value g < gen_value (pi_boot (pr_identity (ps_record s2)))).
  { intros [?|?]%L6; [by left|right; lia]. }
  destruct (gen_valid _); [|exact Hold]. intros [->%elem_of_singleton|?]%elem_of_union; [right; lia|auto].
Qed.

(** Among [size boots + 1] consecutive boots one is not in [boots]. *)
Lemma unfenced_boot (boots : gset PublisherBootId) (b : N) :
  exists n, (1 <= n <= S (size boots))%nat /\ (mk_Gen (b + N.of_nat n) : PublisherBootId) ∉ boots.
Proof.
  set (candidates := map (fun n => mk_Gen (b + N.of_nat n) : PublisherBootId) (seq 1 (S (size boots)))).
  destruct (decide (Forall (fun g => g ∈ boots) candidates)) as [Hall|Hsome].
  - exfalso. assert (Hsub : list_to_set candidates ⊆ boots).
    { intros g. rewrite elem_of_list_to_set. rewrite Forall_forall in Hall. apply Hall. }
    assert (Hn : NoDup candidates).
    { apply (NoDup_fmap_2_strong (fun n => mk_Gen (b + N.of_nat n) : PublisherBootId)); [|apply NoDup_seq].
      intros x y _ _ E. apply (f_equal gen_value) in E. cbn in E. lia. }
    pose proof (subseteq_size _ _ Hsub) as Hsize. rewrite size_list_to_set in Hsize by done.
    unfold candidates in Hsize. rewrite length_map, length_seq in Hsize. lia.
  - apply not_Forall_Exists in Hsome; [|intros g; apply _]. apply Exists_exists in Hsome as (g & Hg & Hout).
    unfold candidates in Hg. apply list_elem_of_fmap in Hg as (n & -> & Hn%elem_of_seq). exists n. split; [lia|exact Hout].
Qed.

Lemma registered_authoritative st id s record :
  r_publishers st !! id = Some s -> ps_publisher_fenced s = false -> pr_state (ps_record s) = PublisherState.Registered ->
  pi_boot (pr_identity (ps_record s)) ∉ ps_fenced_boots s ->
  pi_id (publisher (cr_source record)) = id ->
  pi_boot (publisher (cr_source record)) = pi_boot (pr_identity (ps_record s)) ->
  publisher_is_authoritative st record = true.
Proof.
  intros Hs Hf Hst Hb Hid Hboot. unfold publisher_is_authoritative. rewrite Hid, Hs, Hf, Hst, Hboot.
  rewrite !eqb_refl. by rewrite bool_decide_eq_false_2.
Qed.

(* ===================================================================== *)
(** ** Properties *)

(** C37: a rejected registration changes nothing; an accepted one registers
    the publisher in the current epoch under the boot it reports, and from
    then on evidence of the publisher is authoritative exactly when it comes
    from that boot and the boot is not fenced. When a fresh boot replaced an
    earlier one, the earlier one is fenced. *)
Theorem registration_single_authority now identity adapter st :
  let st' := (register_publisher now identity adapter st).1 in
  let r := (register_publisher now identity adapter st).2 in
  (accepted r = false -> st' = st) /\
  (accepted r = true -> exists s,
     r_publishers st' !! pi_id identity = Some s /\ ar_assigned_publisher r = pr_identity (ps_record s) /\
     pr_state (ps_record s) = PublisherState.Registered /\ pi_epoch (pr_identity (ps_record s)) = r_epoch st /\
     ps_publisher_fenced s = false /\
     (forall record, pi_id (publisher (cr_source record)) = pi_id identity ->
        publisher_is_authoritative st' record = true <->
        pi_boot (publisher (cr_source record)) = pi_boot (ar_assigned_publisher r) /\
        pi_boot (ar_assigned_publisher r) ∉ ps_fenced_boots s) /\
     (forall old, r_publishers st !! pi_id identity = Some old ->
        gen_valid (pi_boot (pr_identity (ps_record old))) = true ->
        pi_boot (pr_identity (ps_record old)) = pi_boot (ar_assigned_publisher r) \/
        pi_boot (pr_identity (ps_record old)) ∈ ps_fenced_boots s)).
Proof.
  assert (Hauth : forall st' s, r_publishers st' !! pi_id identity = Some s ->
    pr_state (ps_record s) = PublisherState.Registered -> ps_publisher_fenced s = false ->
    forall record, pi_id (publisher (cr_source record)) = pi_id identity ->
      publisher_is_authoritative st' record = true <->
      pi_boot (publisher (cr_source record)) = pi_boot (pr_identity (ps_record s)) /\
      pi_boot (pr_identity (ps_record s)) ∉ ps_fenced_boots s).
  { intros st' s Hs Hst Hf record Hid. unfold publisher_is_authoritative. rewrite Hid, Hs, Hf, Hst. cbn [negb].
    rewrite eqb_refl. cbn [negb]. destruct (pi_boot (pr_identity (ps_record s)) ==? _) eqn:E; cbn [negb].
    - apply eqb_eq in E as <-. case_bool_decide; [by split; [|intros []]|done].
    - apply eqb_ne in E. split; [done|]. by intros [E2 _]. }
  cbn zeta. unfold register_publisher, register_publisher_locked. destruct (r_shutting_down st); [done|].
  destruct (negb (id_valid _)); [done|]. destruct (_ || _); [done|].
  publisher_cases st (pi_id identity).
  - destruct (ps_publisher_fenced s) eqn:Hf; [done|].
    destruct (negb (gen_valid _)) eqn:Hb; [|destruct (bool_decide _); [done|]; destruct (_ !=? _) eqn:Hne; [done|]].
    + split; [done|]. intros _. exists (rebooted_state now (r_epoch st) adapter s). cbn -[publisher_is_authoritative].
      rewrite lookup_insert_eq. split_and!; try done.
      * refine (Hauth _ (rebooted_state now (r_epoch st) adapter s) _ eq_refl _); [apply lookup_insert_eq|done].
      * intros old [= <-] Hv. right. rewrite Hv. set_solver.
    + split; [done|]. intros _. exists (reaffirmed_state (r_epoch st) adapter s). cbn -[publisher_is_authoritative].
      rewrite lookup_insert_eq. split_and!; try done.
      * refine (Hauth _ (reaffirmed_state (r_epoch st) adapter s) _ eq_refl _); [apply lookup_insert_eq|done].
      * intros old [= <-] _. by left.
  - destruct (_ <=? _); [done|]. destruct (_ && _); [done|]. split; [done|]. intros _.
    exists (first_boot_state now (r_epoch st) (pi_id identity) adapter). cbn -[publisher_is_authoritative].
    rewrite lookup_insert_eq. split_and!; try done. refine (Hauth _ (first_boot_state now (r_epoch st) (pi_id identity) adapter) _ eq_refl _); [apply lookup_insert_eq|done].
Qed.

(** C38: authority can always be regained. As long as boot numbers do not run
    out, a publisher that is not fenced for good regains authority by
    registering without a boot: at the first attempt when no boot after its
    last one was fenced, and otherwise after at most one attempt more than
    boots are fenced. All evidence under the boot it is then given is
    authoritative. *)
Theorem authority_can_be_regained now adapter id st s
    (Hid : id_valid id = true) (Hs : r_publishers st !! id = Some s) (Hfenced : ps_publisher_fenced s = false)
    (Hrunning : r_shutting_down st = false) (Hadapter : is_empty adapter = false)
    (Hlen : strlen adapter <= max_metadata_bytes (r_limits st))
    (Hboots : gen_value (pi_boot (pr_identity (ps_record s))) + set_sizeN (ps_fenced_boots s) + 1 < u64_modulus) :
  let authoritative_after n := exists s', r_publishers (reregister now id adapter n st) !! id = Some s' /\
    forall record, pi_id (publisher (cr_source record)) = id ->
      pi_boot (publisher (cr_source record)) = pi_boot (pr_identity (ps_record s')) ->
      publisher_is_authoritative (reregister now id adapter n st) record = true in
  (exists n, (1 <= n <= S (size (ps_fenced_boots s)))%nat /\ authoritative_after n) /\
  ((forall g, g ∈ ps_fenced_boots s -> gen_value g <= gen_value (pi_boot (pr_identity (ps_record s)))) ->
   authoritative_after 1%nat).
Proof.
  cbv zeta. set (b := gen_value (pi_boot (pr_identity (ps_record s)))) in *.
  assert (Hn : forall n, (1 <= n <= S (size (ps_fenced_boots s)))%nat ->
    (mk_Gen (b + N.of_nat n) : PublisherBootId) ∉ ps_fenced_boots s ->
    exists s', r_publishers (reregister now id adapter n st) !! id = Some s' /\
      forall record, pi_id (publisher (cr_source record)) = id ->
        pi_boot (publisher (cr_source record)) = pi_boot (pr_identity (ps_record s')) ->
        publisher_is_authoritative (reregister now id adapter n st) record = true).
  { intros n Hn Hout. destruct (reregister_spec now id adapter st s n) as (s' & Hs' & [_ _ Hf Hb Hst Hg]); try done.
    { unfold set_sizeN in Hboots. fold b. lia. }
    exists s'. split; [done|]. intros record Hrid Hrb. eapply registered_authoritative; try done; [apply Hst; lia|].
    intros [Hin|Hlt]%Hg; [|lia]. apply Hout. fold b in Hb. rewrite <- Hb. by destruct (pi_boot _). }
  split.
  - destruct (unfenced_boot (ps_fenced_boots s) b) as (n & Hle & Hout). exists n. split; [done|]. by apply Hn.
  - intros Hbelow. apply Hn; [lia|]. intros Hin%Hbelow. cbn in Hin. lia.
Qed.

(** The agent, whose boot and two later ones are retired, regains authority. *)
Definition retired_fleet : Registry :=
  foldl (fun st boot => (retire_publisher_boot agent (mk_Gen boot) "connection closed" st).1)
    (fleet (fp8_record nvml_source SupportState.SupportedNative (VBoolean true))) [1; 2; 3].

Lemma authority_can_be_regained_witness :
  publisher_is_authoritative (reregister "t" agent "nvml" 1 retired_fleet)
    (fp8_record (nvml_source <| publisher := mk_PublisherIdentity agent (mk_Gen 2) Gen_first |>)
       SupportState.SupportedNative (VBoolean true)) = false /\
  exists n s', (1 <= n <= 4)%nat /\ r_publishers (reregister "t" agent "nvml" n retired_fleet) !! agent = Some s'.
Proof.
  split; [vm_compute; reflexivity|].
  destruct (r_publishers retired_fleet !! agent) as [s|] eqn:Hs; [|exfalso; vm_compute in Hs; discriminate].
  assert (Hf : ps_publisher_fenced s = false) by (vm_compute in Hs; apply (inj Some) in Hs; subst s; reflexivity).
  assert (Hb : gen_value (pi_boot (pr_identity (ps_record s))) + set_sizeN (ps_fenced_boots s) + 1 < u64_modulus)
    by (vm_compute in Hs; apply (inj Some) in Hs; subst s; vm_compute; reflexivity).
  assert (Hsize : size (ps_fenced_boots s) = 3%nat) by (vm_compute in Hs; apply (inj Some) in Hs; subst s; reflexivity).
  destruct (authority_can_be_regained "t" "nvml" agent retired_fleet s eq_refl Hs Hf eq_refl eq_refl ltac:(vm_compute; discriminate) Hb)
    as [(n & Hn & s' & Hs' & _) _].
  exists n, s'. rewrite Hsize in Hn. split; [exact Hn|exact Hs'].
Defined.
