(* ===== verification/Devices.v ===== *)
(** * Devices: registration, generations and software axes

    Models [apply_device_locked] and [register_platform_locked] of
    [registry.cpp]: the only code that opens device generations and boots and
    that advances the firmware, driver, runtime and platform counters against
    which live evidence goes stale. *)

From S2P Require Import Prelude Tokens Versions Support Conditions Values Hardware Quirks Compat Publication.
From S2P Require Import RegistryState Fixtures Publishers.

Definition register_platform_locked (platform : PlatformIdentity) (st : Registry) : Registry :=
  if negb (id_valid (pl_id platform)) then st
  else match r_platforms st !! pl_id platform with
  | None =>
      if max_devices (r_limits st) <=? sizeN (r_platforms st) then st
      else st <| r_platforms ::= insert (pl_id platform) platform |>
              <| r_usage ::= fun u => u <| ru_platforms ::= u64_succ |> |>
  | Some current =>
      st <| r_platforms ::= insert (pl_id platform)
              (current <| pl_display_name := pl_display_name platform |>
                       <| pl_vendor := pl_vendor platform |>
                       <| pl_model := pl_model platform |>
                       <| pl_architecture := pl_architecture platform |>
                       <| pl_native_identifiers := std_sort native_ltb (pl_native_identifiers platform) |>) |>
  end.

(** [advance_firmware_generation], [advance_driver_generation] and
    [advance_runtime_generation]: the new counter of an axis and what is
    appended to the detail. [identified]: the software state names the axis;
    [known]: so did the previous one; [same]: they agree. *)
Definition advance_generation {tag} (axis : string) (identified known same : bool) (previous : Gen tag) :
    Gen tag * string :=
  if negb identified then (previous, EmptyString)
  else if negb known || negb same then
    let next := if gen_valid previous then gen_next previous else Gen_first in
    (next, ("; " +:+ axis +:+ " generation advanced to " +:+ gen_str next)%string)
  else (if gen_valid previous then previous else Gen_first, EmptyString).

Definition firmware_advance (previous software : DeviceSoftwareState) : FirmwareGeneration * string :=
  advance_generation "firmware" (id_valid (fw_id (sw_firmware software))) (id_valid (fw_id (sw_firmware previous)))
    (sw_firmware previous ==? sw_firmware software) (sw_firmware_generation previous).

Definition driver_advance (previous software : DeviceSoftwareState) : DriverGeneration * string :=
  advance_generation "driver" (id_valid (dv_id (sw_driver software))) (id_valid (dv_id (sw_driver previous)))
    (sw_driver previous ==? sw_driver software) (sw_driver_generation previous).

Definition runtime_advance (previous software : DeviceSoftwareState) : RuntimeGeneration * string :=
  advance_generation "runtime" (id_valid (rt_id (sw_runtime software))) (id_valid (rt_id (sw_runtime previous)))
    (sw_runtime previous ==? sw_runtime software) (sw_runtime_generation previous).

(** An axis the observation does not identify keeps what is known. *)
Definition merge_software (previous observed : DeviceSoftwareState) : DeviceSoftwareState :=
  observed
    <| sw_firmware ::= fun f => if negb (id_valid (fw_id f)) then sw_firmware previous else f |>
    <| sw_driver ::= fun d => if negb (id_valid (dv_id d)) then sw_driver previous else d |>
    <| sw_runtime ::= fun r => if negb (id_valid (rt_id r)) then sw_runtime previous else r |>.

(** The state of a device at its first registration. *)
Definition new_device (registration : DeviceRegistration) : DeviceState :=
  let software := dr_software registration in
  {| ds_identity := dr_identity registration <| di_hardware ::= normalize_hardware_identity |>;
     ds_software := software
       <| sw_driver_generation := if id_valid (dv_id (sw_driver software)) then Gen_first else Gen_none |>
       <| sw_firmware_generation := if id_valid (fw_id (sw_firmware software)) then Gen_first else Gen_none |>
       <| sw_runtime_generation := if id_valid (rt_id (sw_runtime software)) then Gen_first else Gen_none |>;
     ds_generation := Gen_first;
     ds_boot := Gen_first;
     ds_platform_generation := Gen_first |}.

(** [if (id.valid()) ids.insert(id);] *)
Definition insert_valid {tag} (i : Id tag) (s : gset (Id tag)) : gset (Id tag) :=
  if id_valid i then {[i]} ∪ s else s.

Definition register_new_device (registration : DeviceRegistration) (st : Registry) : Registry * ApplyResult :=
  let identity := dr_identity registration in
  let hardware := di_hardware identity in
  if max_devices (r_limits st) <=? sizeN (r_devices st) then
    (st, rejected_result ApplyCode.RejectedLimit "device limit reached")
  else if id_valid (hi_family hardware) && (max_families (r_limits st) <=? set_sizeN (r_families st)) &&
          negb (bool_decide (hi_family hardware ∈ r_families st)) then
    (st, rejected_result ApplyCode.RejectedLimit "hardware family limit reached")
  else
    let state := new_device registration in
    let st := st <| r_devices ::= insert (di_id identity) state |>
                 <| r_families ::= insert_valid (hi_family hardware) |>
                 <| r_models ::= insert_valid (hi_model hardware) |>
                 <| r_architectures ::= insert_valid (hi_architecture hardware) |> in
    let st := register_platform_locked (dr_platform registration) st in
    (st <| r_usage ::= fun u => u <| ru_devices ::= u64_succ |> |>,
     result_of ApplyCode.Accepted true "device registered at generation 1, boot 1"
       <| ar_device_generation := ds_generation state |> <| ar_device_boot := ds_boot state |>).

(** Whether a registration opens a new device generation, and why. *)
Definition boundary_detail (existing : DeviceState) (registration : DeviceRegistration) (explicit_generation : bool) :
    option string :=
  let identity := dr_identity registration in
  if di_incarnation (ds_identity existing) !=? di_incarnation identity then
    Some ("device incarnation changed (" +:+ id_str (di_incarnation (ds_identity existing)) +:+ " -> " +:+
          id_str (di_incarnation identity) +:+ "); new capability generation opened")%string
  else if dr_device_boot_observed registration || explicit_generation then
    Some "device boot observed; new capability generation opened"%string
  else None.

(** The identity fields a registration of a known device overwrites. *)
Definition refresh_identity (current observed : DeviceIdentity) : DeviceIdentity :=
  current <| di_display_name := di_display_name observed |>
          <| di_hardware := normalize_hardware_identity (di_hardware observed) |>
          <| di_serial_number := di_serial_number observed |>
          <| di_instance_locator := di_instance_locator observed |>
          <| di_platform := di_platform observed |>.

Definition refresh_device (existing : DeviceState) (registration : DeviceRegistration) (boundary : bool) : DeviceState :=
  let identity := dr_identity registration in
  let previous := ds_software existing in
  let merged := merge_software previous (dr_software registration) in
  {| ds_identity := refresh_identity (ds_identity existing) identity;
     ds_software := merged
       <| sw_firmware_generation := (firmware_advance previous merged).1 |>
       <| sw_driver_generation := (driver_advance previous merged).1 |>
       <| sw_runtime_generation := (runtime_advance previous merged).1 |>;
     ds_generation := if boundary then gen_next (ds_generation existing) else ds_generation existing;
     ds_boot := if boundary then gen_next (ds_boot existing) else ds_boot existing;
     ds_platform_generation :=
       if di_platform (ds_identity existing) !=? di_platform identity
       then gen_next (ds_platform_generation existing) else ds_platform_generation existing |}.

Definition refresh_detail (existing : DeviceState) (registration : DeviceRegistration) (explicit_generation : bool)
    (generation : DeviceGeneration) : string :=
  let previous := ds_software existing in
  let merged := merge_software previous (dr_software registration) in
  let detail :=
    (default EmptyString (boundary_detail existing registration explicit_generation) +:+
     (if di_platform (ds_identity existing) !=? di_platform (dr_identity registration)
      then "; platform identity changed, platform generation advanced" else EmptyString) +:+
     (firmware_advance previous merged).2 +:+ (driver_advance previous merged).2 +:+
     (runtime_advance previous merged).2)%string in
  if is_empty detail then "device registration refreshed"
  else ("device generation " +:+ gen_str generation +:+ "; " +:+ detail)%string.

Definition apply_device_locked (p : Publication) (st : Registry) : Registry * ApplyResult :=
  let registration := pb_device p in
  let identity := dr_identity registration in
  let explicit_generation := pb_kind p ==? PublicationKind.PublishDeviceGeneration in
  match find_device_locked st (di_id identity) with
  | None => register_new_device registration st
  | Some existing =>
      let boundary := bool_decide (is_Some (boundary_detail existing registration explicit_generation)) in
      let device := refresh_device existing registration boundary in
      let st := st <| r_devices ::= insert (di_id identity) device |> in
      (register_platform_locked (dr_platform registration) st,
       result_of ApplyCode.Accepted true
         (refresh_detail existing registration explicit_generation (ds_generation device))
         <| ar_device_generation := ds_generation device |> <| ar_device_boot := ds_boot device |>)
  end.

(* ===================================================================== *)
(** ** Lemmas *)

Lemma register_platform_devices platform st :
  let st' := register_platform_locked platform st in
  r_devices st' = r_devices st /\ r_keys st' = r_keys st /\ r_device_keys st' = r_device_keys st /\
  r_publishers st' = r_publishers st /\ r_global_order st' = r_global_order st /\
  r_evidence_count st' = r_evidence_count st /\ r_next_serial st' = r_next_serial st /\
  r_schemas st' = r_schemas st /\ r_capability_schemas st' = r_capability_schemas st /\
  r_quirks st' = r_quirks st /\ r_compatibility st' = r_compatibility st /\ r_limits st' = r_limits st /\
  r_families st' = r_families st /\ r_models st' = r_models st /\ r_architectures st' = r_architectures st /\
  r_epoch st' = r_epoch st /\ r_shutting_down st' = r_shutting_down st /\ r_state_revision st' = r_state_revision st.
Proof.
  unfold register_platform_locked. cbn zeta. destruct (negb _); [done|].
  destruct (r_platforms st !! _); [done|]. by destruct (_ <=? _).
Qed.

(** The fields a device publication leaves alone. *)
Lemma apply_device_frame p st :
  let st' := (apply_device_locked p st).1 in
  r_keys st' = r_keys st /\ r_device_keys st' = r_device_keys st /\ r_publishers st' = r_publishers st /\
  r_global_order st' = r_global_order st /\ r_evidence_count st' = r_evidence_count st /\
  r_next_serial st' = r_next_serial st /\ r_schemas st' = r_schemas st /\
  r_capability_schemas st' = r_capability_schemas st /\ r_quirks st' = r_quirks st /\
  r_compatibility st' = r_compatibility st /\ r_limits st' = r_limits st /\ r_epoch st' = r_epoch st /\
  r_shutting_down st' = r_shutting_down st.
Proof.
  unfold apply_device_locked, register_new_device. cbn zeta.
  destruct (find_device_locked _ _) as [d|]; [|destruct (_ <=? _); [done|]; destruct (_ && _ && _); [done|]].
  - match goal with |- context [register_platform_locked ?q ?s] =>
      pose proof (register_platform_devices q s) as Hp end. cbn in Hp |- *. tauto.
  - match goal with |- context [register_platform_locked ?q ?s] =>
      pose proof (register_platform_devices q s) as Hp end. cbn in Hp |- *. tauto.
Qed.

(** Counter monotonicity, short of the wrap-around of 64-bit counters. *)
Definition gen_advances {tag} (previous next : Gen tag) : Prop :=
  next = previous \/ next = gen_next previous \/ (previous = Gen_none /\ next = Gen_first).

Lemma advance_generation_advances {tag} axis identified known same (previous : Gen tag) :
  gen_advances previous (advance_generation axis identified known same previous).1.
Proof.
  unfold advance_generation, gen_advances. destruct identified; cbn; [|by left].
  destruct (gen_valid previous) eqn:Hv; [|assert (previous = Gen_none) as ->];
    [destruct (negb known || negb same); cbn; auto| |destruct (negb known || negb same); cbn; auto].
  destruct previous as [v]. unfold gen_valid in Hv. cbn in Hv. bsimpl. by subst.
Qed.

Lemma gen_advances_le {tag} (previous next : Gen tag) :
  gen_value previous + 1 < u64_modulus -> gen_advances previous next -> gen_value previous <= gen_value next.
Proof.
  intros Hs [-> |[-> |[-> ->]]]; [done| |done]. rewrite gen_next_value by done. lia.
Qed.

(** How a device evolves. *)
Record device_advances (d d' : DeviceState) : Prop := {
  da_id : di_id (ds_identity d') = di_id (ds_identity d);
  da_generation : gen_advances (ds_generation d) (ds_generation d');
  da_boot : gen_advances (ds_boot d) (ds_boot d');
  da_together : ds_generation d' = gen_next (ds_generation d) <-> ds_boot d' = gen_next (ds_boot d);
  da_platform : gen_advances (ds_platform_generation d) (ds_platform_generation d');
  da_firmware : gen_advances (sw_firmware_generation (ds_software d)) (sw_firmware_generation (ds_software d'));
  da_driver : gen_advances (sw_driver_generation (ds_software d)) (sw_driver_generation (ds_software d'));
  da_runtime : gen_advances (sw_runtime_generation (ds_software d)) (sw_runtime_generation (ds_software d'))
}.

Lemma gen_next_neq {tag} (g : Gen tag) : gen_next g <> g.
Proof.
  destruct g as [n]. unfold gen_next. cbn. intros [= H]. unfold u64_succ, wrap64 in H.
  assert (Hm : u64_modulus = 18446744073709551616) by done. rewrite Hm in H.
  pose proof (N.div_mod (n + 1) 18446744073709551616 ltac:(done)).
  rewrite H in *. assert ((n+1) mod 18446744073709551616 < 18446744073709551616) by (apply N.mod_lt; done). lia.
Qed.

Lemma refresh_device_advances d registration boundary : device_advances d (refresh_device d registration boundary).
Proof.
  split; cbn; try apply advance_generation_advances; unfold gen_advances.
  - done.
  - destruct boundary; auto.
  - destruct boundary; auto.
  - destruct boundary; [done|]. split; intros H; symmetry in H; by apply gen_next_neq in H.
  - destruct (negb _); auto.
Qed.

Lemma advance_generation_iff {tag} axis (identified known same : bool) (previous : Gen tag) :
  gen_valid previous = true ->
  (advance_generation axis identified known same previous).1 = gen_next previous <->
  identified = true /\ (known = false \/ same = false).
Proof.
  intros Hv. unfold advance_generation. rewrite Hv.
  destruct identified, known, same; cbn; split; intros H; try tauto;
    try (symmetry in H; by apply gen_next_neq in H); try (destruct H as [H1 H2]; destruct H2; discriminate).
  all: try (destruct H as [? _]; discriminate).
Qed.

(** The reasons for which a registration opens a device generation. *)
Definition opens_generation (existing : DeviceState) (p : Publication) : Prop :=
  di_incarnation (ds_identity existing) <> di_incarnation (dr_identity (pb_device p)) \/
  dr_device_boot_observed (pb_device p) = true \/ pb_kind p = PublicationKind.PublishDeviceGeneration.

Lemma boundary_detail_some existing p :
  is_Some (boundary_detail existing (pb_device p) (pb_kind p ==? PublicationKind.PublishDeviceGeneration)) <->
  opens_generation existing p.
Proof.
  unfold boundary_detail, opens_generation.
  destruct (di_incarnation (ds_identity existing) ==? di_incarnation (dr_identity (pb_device p))) eqn:E; cbn [negb].
  - apply eqb_eq in E. destruct (dr_device_boot_observed (pb_device p)); cbn [orb].
    + split; [|by eexists]. intros _. right. by left.
    + destruct (pb_kind p ==? PublicationKind.PublishDeviceGeneration) eqn:E2.
      * apply eqb_eq in E2. split; [|by eexists]. auto.
      * apply eqb_ne in E2. split; [by intros []|]. by intros [?|[?|?]].
  - apply eqb_ne in E. split; [by left|by eexists].
Qed.

Definition opens_generation_b (existing : DeviceState) (p : Publication) : bool :=
  bool_decide (is_Some (boundary_detail existing (pb_device p) (pb_kind p ==? PublicationKind.PublishDeviceGeneration))).

Lemma opens_generation_spec d p : opens_generation_b d p = true <-> opens_generation d p.
Proof. unfold opens_generation_b. by rewrite bool_decide_eq_true, boundary_detail_some. Qed.

Lemma apply_device_known p st d :
  r_devices st !! di_id (dr_identity (pb_device p)) = Some d ->
  let st' := (apply_device_locked p st).1 in
  let r := (apply_device_locked p st).2 in
  let d' := refresh_device d (pb_device p) (opens_generation_b d p) in
  r_devices st' = <[di_id (dr_identity (pb_device p)) := d']> (r_devices st) /\
  ar_code r = ApplyCode.Accepted /\ ar_mutated r = true /\
  ar_device_generation r = ds_generation d' /\ ar_device_boot r = ds_boot d'.
Proof.
  intros Hd. cbn zeta. unfold apply_device_locked, find_device_locked. rewrite Hd. cbn [fst snd].
  match goal with |- context [register_platform_locked ?q ?s] =>
    destruct (register_platform_devices q s) as [-> _] end.
  done.
Qed.

Lemma apply_device_new p st :
  r_devices st !! di_id (dr_identity (pb_device p)) = None ->
  let st' := (apply_device_locked p st).1 in
  let r := (apply_device_locked p st).2 in
  (accepted r = false /\ st' = st) \/
  (accepted r = true /\ sizeN (r_devices st) < max_devices (r_limits st) /\
   r_devices st' = <[di_id (dr_identity (pb_device p)) := new_device (pb_device p)]> (r_devices st)).
Proof.
  intros Hd. cbn zeta. unfold apply_device_locked, find_device_locked, register_new_device. rewrite Hd.
  destruct (max_devices _ <=? _) eqn:El; [by left|]. destruct (_ && _ && _); [by left|].
  right. bsimpl. split; [done|]. split; [done|]. cbn -[register_platform_locked].
  match goal with |- context [register_platform_locked ?q ?s] =>
    destruct (register_platform_devices q s) as [-> _] end.
  done.
Qed.

(* ===================================================================== *)
(** ** Properties *)

(** Registering a known device opens a new generation and a new boot,
    together and by exactly one, precisely when its incarnation differs, a
    boot was observed or the publication asks for it; the driver counter
    advances precisely when the observation names a driver that differs from
    the known one, and an observation that names none keeps the driver and
    its counter (likewise the firmware and the runtime). No other device
    changes. *)
Theorem device_generations_advance p st d (Hd : r_devices st !! di_id (dr_identity (pb_device p)) = Some d) :
  let st' := (apply_device_locked p st).1 in
  let observed := dr_software (pb_device p) in
  exists d', r_devices st' = <[di_id (dr_identity (pb_device p)) := d']> (r_devices st) /\
    device_advances d d' /\
    (ds_generation d' = gen_next (ds_generation d) <-> opens_generation d p) /\
    (~ opens_generation d p -> ds_generation d' = ds_generation d /\ ds_boot d' = ds_boot d) /\
    (gen_valid (sw_driver_generation (ds_software d)) = true ->
     (sw_driver_generation (ds_software d') = gen_next (sw_driver_generation (ds_software d)) <->
      id_valid (dv_id (sw_driver observed)) = true /\ sw_driver observed <> sw_driver (ds_software d)) /\
     (id_valid (dv_id (sw_driver observed)) = false ->
      sw_driver (ds_software d') = sw_driver (ds_software d) /\
      sw_driver_generation (ds_software d') = sw_driver_generation (ds_software d))).
Proof.
  cbn zeta. destruct (apply_device_known p st d Hd) as [-> _]. eexists. split; [done|].
  split; [apply refresh_device_advances|]. rewrite <- opens_generation_spec.
  split; [|split; [|intros Hv; split]].
  - cbn. destruct (opens_generation_b d p); split; try done. intros H. symmetry in H. by apply gen_next_neq in H.
  - cbn. by destruct (opens_generation_b d p).
  - cbn [refresh_device ds_software set]. cbn -[advance_generation].
    unfold driver_advance. rewrite advance_generation_iff by done. cbn.
    destruct (id_valid (dv_id (sw_driver (dr_software (pb_device p))))) eqn:Ei; cbn [negb].
    + split.
      * intros [_ H]. split; [done|]. intros E. destruct H as [H|H]; [by rewrite <- E, Ei in H|].
        apply eqb_ne in H. by rewrite E in H.
      * intros [_ H]. split; [done|]. right. by apply eqb_false.
    + split; [|by intros []]. rewrite eqb_refl. intros [H1 [H2|H2]]; congruence.
  - cbn -[advance_generation]. intros Ei. rewrite Ei. cbn -[advance_generation]. split; [done|].
    unfold driver_advance, advance_generation. cbn. rewrite Ei. cbn [negb]. rewrite eqb_refl, Hv. cbn.
    by destruct (id_valid (dv_id (sw_driver (ds_software d)))).
Qed.

Lemma device_generations_advance_witness :
  let p := publication PublicationKind.RegisterDevice 1 in
  let st := fleet (pb_capability p) in
  r_devices st !! di_id (dr_identity (pb_device p)) = Some gpu_state /\
  exists d', r_devices (apply_device_locked p st).1 !! gpu = Some d' /\ device_advances gpu_state d'.
Proof.
  split; [reflexivity|].
  destruct (device_generations_advance (publication PublicationKind.RegisterDevice 1)
    (fleet (pb_capability (publication PublicationKind.RegisterDevice 1))) gpu_state eq_refl) as (d' & -> & H & _).
  exists d'. split; [apply lookup_insert_eq|exact H].
Defined.

(** The stored incarnation of a device is never updated: after a
    registration with another incarnation the registry still compares against
    the first one, so that repeating the very same registration opens yet
    another generation and boot, each time. *)
Theorem reincarnation_never_settles p st d
    (Hd : r_devices st !! di_id (dr_identity (pb_device p)) = Some d)
    (Hi : di_incarnation (dr_identity (pb_device p)) <> di_incarnation (ds_identity d)) :
  let st1 := (apply_device_locked p st).1 in
  let st2 := (apply_device_locked p st1).1 in
  exists d1 d2, r_devices st1 !! di_id (dr_identity (pb_device p)) = Some d1 /\
    r_devices st2 !! di_id (dr_identity (pb_device p)) = Some d2 /\
    di_incarnation (ds_identity d1) = di_incarnation (ds_identity d) /\
    ds_generation d1 = gen_next (ds_generation d) /\ ds_generation d2 = gen_next (ds_generation d1) /\
    ds_boot d2 = gen_next (ds_boot d1).
Proof.
  cbn zeta. assert (Ho : forall e, di_incarnation (ds_identity e) = di_incarnation (ds_identity d) ->
    opens_generation_b e p = true).
  { intros e He. apply opens_generation_spec. left. congruence. }
  destruct (apply_device_known p st d Hd) as [H1 _]. rewrite (Ho d eq_refl) in H1.
  set (d1 := refresh_device d (pb_device p) true) in *.
  assert (Hd1 : r_devices (apply_device_locked p st).1 !! di_id (dr_identity (pb_device p)) = Some d1)
    by (rewrite H1; apply lookup_insert_eq).
  destruct (apply_device_known p _ d1 Hd1) as [H2 _]. rewrite (Ho d1 eq_refl) in H2.
  exists d1, (refresh_device d1 (pb_device p) true). split; [done|]. split; [|done].
  rewrite H2. apply lookup_insert_eq.
Qed.

Lemma reincarnation_never_settles_witness :
  let p := publication PublicationKind.RegisterDevice 1
             <| pb_device := gpu_registration <| dr_identity := gpu_identity <| di_incarnation := Id_parse "inc-b" |> |> |> in
  let st := fleet (pb_capability p) in
  exists d2, r_devices (apply_device_locked p (apply_device_locked p st).1).1 !! gpu = Some d2 /\ gen_value (ds_generation d2) = 3.
Proof.
  cbn zeta.
  set (p := publication PublicationKind.RegisterDevice 1
             <| pb_device := gpu_registration <| dr_identity := gpu_identity <| di_incarnation := Id_parse "inc-b" |> |> |>).
  assert (Hi : di_incarnation (dr_identity (pb_device p)) <> di_incarnation (ds_identity gpu_state))
    by (intros H; by vm_compute in H).
  destruct (reincarnation_never_settles p (fleet (pb_capability p)) gpu_state eq_refl Hi)
    as (d1 & d2 & _ & H2 & _ & H3 & H4 & _).
  exists d2. split; [exact H2|]. rewrite H4, H3. reflexivity.
Defined.
