(* ===== verification/Knowledge.v ===== *)
(** * Quirks, compatibility facts and schemas: ingestion

    Models [apply_quirk_locked], [reference_resolves_locked],
    [apply_compatibility_locked] and [register_capability_schema_locked] of
    [registry.cpp]. Quirks and compatibility facts follow the same versioning
    protocol: the first publication uses generation 1, a later one must not
    regress, an equal generation must repeat the content, and a withdrawal
    keeps the entry. *)

From S2P Require Import Prelude Tokens Versions Support Conditions Values Hardware Quirks Compat Publication.
From S2P Require Import RegistryState Publishers.

(** The loop over [quirk.impacted_capabilities]: the first capability no
    schema describes. *)
Definition unknown_capability (st : Registry) (capabilities : list CapabilityId) : option CapabilityId :=
  List.find (fun capability =>
    negb (existsb (fun entry : CapabilitySchemaId * CapabilitySchema => cs_capability entry.2 ==? capability)
            (map_entries (r_schemas st)))) capabilities.

Definition withdraw_quirk (quirk : QuirkRecord) (st : Registry) : Registry * ApplyResult :=
  match r_quirks st !! qr_id quirk with
  | None => (st, rejected_result ApplyCode.RejectedUnknownDevice
                   ("cannot withdraw unknown quirk " +:+ id_str (qr_id quirk))%string)
  | Some existing =>
      if qr_withdrawn existing then (st, result_of ApplyCode.AcceptedIdempotent false "quirk already withdrawn")
      else (st <| r_quirks ::= insert (qr_id quirk)
                     (existing <| qr_withdrawn := true |> <| qr_source := qr_source quirk |>) |>,
            result_of ApplyCode.Accepted true ("quirk " +:+ id_str (qr_id quirk) +:+ " withdrawn")%string)
  end.

(** The fields compared for an equal generation. *)
Definition same_quirk (existing quirk : QuirkRecord) : bool :=
  (qr_title existing ==? qr_title quirk) && (qr_severity existing ==? qr_severity quirk) &&
  (qr_category existing ==? qr_category quirk) &&
  (qr_impacted_capabilities existing ==? qr_impacted_capabilities quirk).

Definition publish_quirk (quirk : QuirkRecord) (st : Registry) : Registry * ApplyResult :=
  if negb (gen_valid (qr_generation quirk)) then
    (st, rejected_result ApplyCode.RejectedValidation "quirk requires a generation")
  else match r_quirks st !! qr_id quirk with
  | None =>
      if max_quirks (r_limits st) <=? sizeN (r_quirks st) then
        (st, rejected_result ApplyCode.RejectedLimit "quirk limit reached")
      else if 1 <? gen_value (qr_generation quirk) then
        (st, rejected_result ApplyCode.RejectedStaleCapabilityGeneration
          "first publication of a quirk must use generation 1")
      else
        (st <| r_quirks ::= insert (qr_id quirk) quirk |>
            <| r_usage ::= fun u => u <| ru_quirks ::= u64_succ |> |>,
         result_of ApplyCode.Accepted true ("quirk " +:+ id_str (qr_id quirk) +:+ " published at generation 1")%string)
  | Some existing =>
      if gen_ltb (qr_generation quirk) (qr_generation existing) then
        (st, rejected_result ApplyCode.RejectedGenerationRegression
          ("quirk generation " +:+ gen_str (qr_generation quirk) +:+ " regresses behind " +:+
           gen_str (qr_generation existing))%string)
      else if qr_generation quirk ==? qr_generation existing then
        if same_quirk existing quirk then
          (st, result_of ApplyCode.AcceptedIdempotent false "identical quirk publication")
        else
          (st, rejected_result ApplyCode.RejectedDuplicateConflict
            ("quirk generation " +:+ gen_str (qr_generation quirk) +:+
             " was already published with different content")%string)
      else
        (st <| r_quirks ::= insert (qr_id quirk) quirk |>,
         result_of ApplyCode.Accepted true
           ("quirk " +:+ id_str (qr_id quirk) +:+ " superseded at generation " +:+ gen_str (qr_generation quirk))%string)
  end.

Definition apply_quirk_locked (p : Publication) (st : Registry) : Registry * ApplyResult :=
  let quirk := pb_quirk p in
  match unknown_capability st (qr_impacted_capabilities quirk) with
  | Some capability =>
      (st, rejected_result ApplyCode.RejectedUnknownSchema
             ("quirk impacts unknown capability " +:+ id_str capability)%string)
  | None =>
      if pb_kind p ==? PublicationKind.WithdrawQuirk then withdraw_quirk quirk st else publish_quirk quirk st
  end.

Definition reference_resolves_locked (st : Registry) (reference : HardwareReference) : bool :=
  let token := ref_token reference in
  match ref_kind reference with
  | ReferenceKind.Device => bool_decide (is_Some (r_devices st !! Id_parse token))
  | ReferenceKind.Platform => bool_decide (is_Some (r_platforms st !! Id_parse token))
  | ReferenceKind.HardwareFamily => bool_decide (Id_parse token ∈ r_families st)
  | ReferenceKind.HardwareModel => bool_decide (Id_parse token ∈ r_models st)
  | ReferenceKind.Architecture => bool_decide (Id_parse token ∈ r_architectures st)
  | _ => true
  end.

Definition withdraw_fact (fact : CompatibilityFact) (st : Registry) : Registry * ApplyResult :=
  match r_compatibility st !! cf_id fact with
  | None => (st, rejected_result ApplyCode.RejectedUnknownDevice
                   ("cannot withdraw unknown compatibility fact " +:+ id_str (cf_id fact))%string)
  | Some existing =>
      if cf_withdrawn existing then
        (st, result_of ApplyCode.AcceptedIdempotent false "compatibility fact already withdrawn")
      else (st <| r_compatibility ::= insert (cf_id fact)
                     (existing <| cf_withdrawn := true |> <| cf_source := cf_source fact |>) |>,
            result_of ApplyCode.Accepted true ("compatibility fact " +:+ id_str (cf_id fact) +:+ " withdrawn")%string)
  end.

Definition same_fact (existing fact : CompatibilityFact) : bool :=
  (cf_outcome existing ==? cf_outcome fact) && reference_eqb (cf_lhs existing) (cf_lhs fact) &&
  reference_eqb (cf_rhs existing) (cf_rhs fact) && (cf_reason existing ==? cf_reason fact).

Definition publish_fact (fact : CompatibilityFact) (st : Registry) : Registry * ApplyResult :=
  if negb (gen_valid (cf_generation fact)) then
    (st, rejected_result ApplyCode.RejectedValidation "compatibility fact requires a generation")
  else match r_compatibility st !! cf_id fact with
  | None =>
      if max_compatibility_facts (r_limits st) <=? sizeN (r_compatibility st) then
        (st, rejected_result ApplyCode.RejectedLimit "compatibility fact limit reached")
      else if 1 <? gen_value (cf_generation fact) then
        (st, rejected_result ApplyCode.RejectedStaleCapabilityGeneration
          "first publication of a compatibility fact must use generation 1")
      else
        (st <| r_compatibility ::= insert (cf_id fact) fact |>
            <| r_usage ::= fun u => u <| ru_compatibility_facts ::= u64_succ |> |>,
         result_of ApplyCode.Accepted true
           ("compatibility fact " +:+ id_str (cf_id fact) +:+ " published at generation 1")%string)
  | Some existing =>
      if gen_ltb (cf_generation fact) (cf_generation existing) then
        (st, rejected_result ApplyCode.RejectedGenerationRegression
          ("compatibility generation " +:+ gen_str (cf_generation fact) +:+ " regresses behind " +:+
           gen_str (cf_generation existing))%string)
      else if cf_generation fact ==? cf_generation existing then
        if same_fact existing fact then
          (st, result_of ApplyCode.AcceptedIdempotent false "identical compatibility publication")
        else
          (st, rejected_result ApplyCode.RejectedDuplicateConflict
            ("compatibility generation " +:+ gen_str (cf_generation fact) +:+
             " was already published with different content")%string)
      else
        (st <| r_compatibility ::= insert (cf_id fact) fact |>,
         result_of ApplyCode.Accepted true
           ("compatibility fact " +:+ id_str (cf_id fact) +:+ " superseded at generation " +:+
            gen_str (cf_generation fact))%string)
  end.

Definition apply_compatibility_locked (p : Publication) (st : Registry) : Registry * ApplyResult :=
  let fact := pb_compatibility p in
  if negb (reference_resolves_locked st (cf_lhs fact)) then
    (st, rejected_result ApplyCode.RejectedValidation
      ("compatibility reference " +:+ ref_token (cf_lhs fact) +:+ " does not resolve to a known subject")%string)
  else if negb (reference_resolves_locked st (cf_rhs fact)) then
    (st, rejected_result ApplyCode.RejectedValidation
      ("compatibility reference " +:+ ref_token (cf_rhs fact) +:+ " does not resolve to a known subject")%string)
  else if pb_kind p ==? PublicationKind.WithdrawCompatibility then withdraw_fact fact st
  else publish_fact fact st.

Definition same_schema (current schema : CapabilitySchema) : bool :=
  (cs_capability current ==? cs_capability schema) && (cs_value_kind current ==? cs_value_kind schema) &&
  (cs_domain current ==? cs_domain schema) && (cs_canonical_name current ==? cs_canonical_name schema) &&
  (cs_unit current ==? cs_unit schema).

Definition register_capability_schema_locked (schema : CapabilitySchema) (st : Registry) : Registry * Status :=
  let validation := validate_capability_schema schema (r_limits st) in
  if negb (status_ok validation) then (st, validation)
  else match r_schemas st !! cs_id schema with
  | Some current =>
      if same_schema current schema then (st, failure AlreadyExists "identical schema already registered")
      else (st, failure AlreadyExists
              ("schema " +:+ id_str (cs_id schema) +:+ " is already registered with different content")%string)
  | None =>
      match r_capability_schemas st !! cs_capability schema with
      | Some bound =>
          (st, failure AlreadyExists
            ("capability " +:+ id_str (cs_capability schema) +:+ " is already bound to schema " +:+ id_str bound)%string)
      | None =>
          if wrap64 (max_families (r_limits st) * 16) <=? sizeN (r_schemas st) then
            (st, failure LimitExceeded "capability schema limit reached")
          else
            (st <| r_capability_schemas ::= emplace (cs_capability schema) (cs_id schema) |>
                <| r_schemas ::= emplace (cs_id schema) schema |>
                <| r_usage ::= fun u => u <| ru_schemas ::= u64_succ |> |>, success)
      end
  end.

Definition register_capability_schema (schema : CapabilitySchema) (st : Registry) : Registry * Status :=
  let out := register_capability_schema_locked schema st in
  if status_ok out.2 then (touch_locked out.1, out.2) else out.

(* ===================================================================== *)
(** ** The contract: versioned knowledge

    What the registry promises about a table of versioned entries, whatever
    the entries are. *)

Class Versioned (K R : Type) `{Countable K} := {
  ver_generation : R -> N;
  ver_withdrawn : R -> bool
}.

#[global] Instance quirk_versioned : Versioned QuirkId QuirkRecord :=
  {| ver_generation := fun q => gen_value (qr_generation q); ver_withdrawn := qr_withdrawn |}.

#[global] Instance fact_versioned : Versioned CompatibilityFactId CompatibilityFact :=
  {| ver_generation := fun f => gen_value (cf_generation f); ver_withdrawn := cf_withdrawn |}.

(** One step of a table bounded by [limit] at key [k]. *)
Inductive knowledge_step {K R} `{Versioned K R} (limit : N) (k : K) (m m' : gmap K R) : Prop :=
  | KnowledgeKept : m' = m -> knowledge_step limit k m m'
  | KnowledgeAdded x :
      m !! k = None -> sizeN m < limit -> ver_generation x = 1 -> m' = <[k := x]> m -> knowledge_step limit k m m'
  | KnowledgeSuperseded old x :
      m !! k = Some old -> ver_generation old < ver_generation x -> m' = <[k := x]> m -> knowledge_step limit k m m'
  | KnowledgeWithdrawn old x :
      m !! k = Some old -> ver_withdrawn old = false -> ver_withdrawn x = true ->
      ver_generation x = ver_generation old -> m' = <[k := x]> m -> knowledge_step limit k m m'.

Section Versioned.
Context {K R : Type} `{Versioned K R}.
Variable limit : N.

(** Generations start at 1 and the table stays within its limit. *)
Definition knowledge_ok (m : gmap K R) : Prop :=
  sizeN m <= limit /\ map_Forall (fun _ x => ver_generation x <> 0) m.

Lemma knowledge_step_ok k m m' : knowledge_step limit k m m' -> knowledge_ok m -> knowledge_ok m'.
Proof.
  intros Hs [H1 H2]. destruct Hs as [-> |x Hn Hl Hg -> |old x Ho Hg -> |old x Ho _ _ Hg ->]; [done|..].
  all: split; [unfold sizeN in *|apply map_Forall_insert_2; [|done]].
  - rewrite map_size_insert_None by done. lia.
  - lia.
  - by rewrite map_size_insert_Some.
  - lia.
  - by rewrite map_size_insert_Some.
  - rewrite Hg. exact (H2 k old Ho).
Qed.

(** Entries are never removed and their generations never regress. *)
Lemma knowledge_step_monotone k m m' i old :
  knowledge_step limit k m m' -> m !! i = Some old ->
  exists x, m' !! i = Some x /\ ver_generation old <= ver_generation x.
Proof.
  intros Hs Hi. destruct (decide (k = i)) as [<-|Hne].
  - destruct Hs as [-> |x Hn _ _ -> |o x Ho Hg -> |o x Ho _ _ Hg ->].
    + by exists old.
    + congruence.
    + rewrite Hi in Ho. injection Ho as <-. exists x. rewrite lookup_insert_eq. split; [done|lia].
    + rewrite Hi in Ho. injection Ho as <-. exists x. rewrite lookup_insert_eq. split; [done|lia].
  - exists old. split; [|done].
    destruct Hs as [-> |x _ _ _ -> |o x _ _ -> |o x _ _ _ _ ->]; [done|by rewrite lookup_insert_ne..].
Qed.
End Versioned.

Lemma gen_ltb_eqb_lt {tag} (a b : Gen tag) :
  gen_ltb a b = false -> (a ==? b) = false -> gen_value b < gen_value a.
Proof.
  unfold gen_ltb. intros H1 H2. bsimpl. destruct a as [a], b as [b]. cbn in *.
  destruct (decide (a = b)) as [->|]; [done|lia].
Qed.

Lemma first_generation {tag} (g : Gen tag) :
  gen_valid g = true -> (1 <? gen_value g) = false -> gen_value g = 1.
Proof. unfold gen_valid. intros H1 H2. bsimpl. lia. Qed.

(** The fields a quirk or fact publication leaves alone. *)
Definition same_evidence (st st' : Registry) : Prop :=
  r_limits st' = r_limits st /\ r_schemas st' = r_schemas st /\ r_capability_schemas st' = r_capability_schemas st /\
  r_devices st' = r_devices st /\ r_keys st' = r_keys st /\ r_device_keys st' = r_device_keys st /\
  r_global_order st' = r_global_order st /\ r_evidence_count st' = r_evidence_count st /\
  r_next_serial st' = r_next_serial st /\ r_publishers st' = r_publishers st /\ r_epoch st' = r_epoch st /\
  r_shutting_down st' = r_shutting_down st /\ r_platforms st' = r_platforms st /\ r_families st' = r_families st /\
  r_models st' = r_models st /\ r_architectures st' = r_architectures st.

Lemma apply_quirk_frame p st :
  same_evidence st (apply_quirk_locked p st).1 /\ r_compatibility (apply_quirk_locked p st).1 = r_compatibility st.
Proof.
  unfold apply_quirk_locked, withdraw_quirk, publish_quirk, same_evidence. split_ifs; cbn; split_and!; done.
Qed.

Lemma apply_compatibility_frame p st :
  same_evidence st (apply_compatibility_locked p st).1 /\ r_quirks (apply_compatibility_locked p st).1 = r_quirks st.
Proof.
  unfold apply_compatibility_locked, withdraw_fact, publish_fact, same_evidence. split_ifs; cbn; split_and!; done.
Qed.

Lemma apply_quirk_step p st :
  knowledge_step (max_quirks (r_limits st)) (qr_id (pb_quirk p)) (r_quirks st) (r_quirks (apply_quirk_locked p st).1).
Proof.
  unfold apply_quirk_locked. destruct (unknown_capability _ _); [by apply KnowledgeKept|].
  destruct (pb_kind p ==? PublicationKind.WithdrawQuirk).
  - unfold withdraw_quirk. destruct (r_quirks st !! _) as [old|] eqn:Ho; [|by apply KnowledgeKept].
    destruct (qr_withdrawn old) eqn:Hw; [by apply KnowledgeKept|].
    eapply KnowledgeWithdrawn; [done|done| | |reflexivity]; done.
  - unfold publish_quirk. destruct (gen_valid _) eqn:Hv; [|by apply KnowledgeKept]. cbn [negb].
    destruct (r_quirks st !! _) as [old|] eqn:Ho.
    + destruct (gen_ltb _ _) eqn:H1; [by apply KnowledgeKept|].
      destruct (_ ==? _) eqn:H2; [destruct (same_quirk _ _); by apply KnowledgeKept|].
      eapply KnowledgeSuperseded; [done| |done]; by apply gen_ltb_eqb_lt.
    + destruct (_ <=? _) eqn:Hl; [by apply KnowledgeKept|]. destruct (1 <? _) eqn:H1; [by apply KnowledgeKept|].
      eapply KnowledgeAdded; [done| | |done]; [by bsimpl|by apply first_generation].
Qed.

Lemma apply_compatibility_step p st :
  knowledge_step (max_compatibility_facts (r_limits st)) (cf_id (pb_compatibility p)) (r_compatibility st)
    (r_compatibility (apply_compatibility_locked p st).1).
Proof.
  unfold apply_compatibility_locked. destruct (negb _); [by apply KnowledgeKept|].
  destruct (negb _); [by apply KnowledgeKept|]. destruct (pb_kind p ==? PublicationKind.WithdrawCompatibility).
  - unfold withdraw_fact. destruct (r_compatibility st !! _) as [old|] eqn:Ho; [|by apply KnowledgeKept].
    destruct (cf_withdrawn old) eqn:Hw; [by apply KnowledgeKept|].
    eapply KnowledgeWithdrawn; [done|done| | |reflexivity]; done.
  - unfold publish_fact. destruct (gen_valid _) eqn:Hv; [|by apply KnowledgeKept]. cbn [negb].
    destruct (r_compatibility st !! _) as [old|] eqn:Ho.
    + destruct (gen_ltb _ _) eqn:H1; [by apply KnowledgeKept|].
      destruct (_ ==? _) eqn:H2; [destruct (same_fact _ _); by apply KnowledgeKept|].
      eapply KnowledgeSuperseded; [done| |done]; by apply gen_ltb_eqb_lt.
    + destruct (_ <=? _) eqn:Hl; [by apply KnowledgeKept|]. destruct (1 <? _) eqn:H1; [by apply KnowledgeKept|].
      eapply KnowledgeAdded; [done| | |done]; [by bsimpl|by apply first_generation].
Qed.

(* ===================================================================== *)
(** ** Properties *)

(** C39: quirk ingestion implements the versioned-knowledge contract: whatever
    is published, the quirk table makes one step of the contract at the
    published identity; a publication that is not accepted as a mutation
    leaves the table as it was, and one that publishes a new generation
    stores exactly the published quirk. *)
Theorem apply_quirk_refines p st :
  let st' := (apply_quirk_locked p st).1 in
  let r := (apply_quirk_locked p st).2 in
  knowledge_step (max_quirks (r_limits st)) (qr_id (pb_quirk p)) (r_quirks st) (r_quirks st') /\
  (ar_mutated r = false -> st' = st) /\
  (ar_mutated r = true -> ar_code r = ApplyCode.Accepted /\
     (pb_kind p <> PublicationKind.WithdrawQuirk -> r_quirks st' !! qr_id (pb_quirk p) = Some (pb_quirk p)) /\
     (pb_kind p = PublicationKind.WithdrawQuirk -> exists old x,
        r_quirks st !! qr_id (pb_quirk p) = Some old /\ r_quirks st' !! qr_id (pb_quirk p) = Some x /\
        x = old <| qr_withdrawn := true |> <| qr_source := qr_source (pb_quirk p) |>)).
Proof.
  cbn zeta. split; [apply apply_quirk_step|]. unfold apply_quirk_locked.
  destruct (unknown_capability _ _); [done|].
  destruct (pb_kind p ==? PublicationKind.WithdrawQuirk) eqn:Hk; [apply eqb_eq in Hk|apply eqb_ne in Hk].
  - unfold withdraw_quirk. destruct (r_quirks st !! _) as [old|] eqn:Ho; [|done]. destruct (qr_withdrawn old); [done|].
    split; [done|]. intros _. split; [done|]. split; [done|].
    intros _. eexists _, _. split; [done|]. split; [apply lookup_insert_eq|done].
  - unfold publish_quirk. destruct (negb _); [done|].
    assert (Hins : forall q : QuirkRecord, <[qr_id q := q]> (r_quirks st) !! qr_id q = Some q)
      by (intros q; apply lookup_insert_eq).
    destruct (r_quirks st !! _) as [old|].
    + destruct (gen_ltb _ _); [done|]. destruct (_ ==? _); [by destruct (same_quirk _ _)|].
      split; [done|]. intros _. split; [done|]. split; [intros _; apply Hins|done].
    + destruct (_ <=? _); [done|]. destruct (1 <? _); [done|].
      split; [done|]. intros _. split; [done|]. split; [intros _; apply Hins|done].
Qed.

(** Compatibility ingestion implements the same contract, and stores a
    fact about a device, platform, family, model or architecture only when
    both of its references resolve to known subjects. *)
Theorem apply_compatibility_refines p st :
  let st' := (apply_compatibility_locked p st).1 in
  let r := (apply_compatibility_locked p st).2 in
  let fact := pb_compatibility p in
  knowledge_step (max_compatibility_facts (r_limits st)) (cf_id fact) (r_compatibility st) (r_compatibility st') /\
  (ar_mutated r = false -> st' = st) /\
  (accepted r = true ->
     reference_resolves_locked st (cf_lhs fact) = true /\ reference_resolves_locked st (cf_rhs fact) = true) /\
  (ar_mutated r = true -> pb_kind p <> PublicationKind.WithdrawCompatibility ->
     r_compatibility st' !! cf_id fact = Some fact).
Proof.
  cbn zeta. split; [apply apply_compatibility_step|]. unfold apply_compatibility_locked.
  destruct (reference_resolves_locked st (cf_lhs _)); [|done].
  destruct (reference_resolves_locked st (cf_rhs _)); [|done]. cbn [negb].
  destruct (pb_kind p ==? PublicationKind.WithdrawCompatibility) eqn:Hk; [apply eqb_eq in Hk|apply eqb_ne in Hk].
  - unfold withdraw_fact. destruct (r_compatibility st !! _) as [old|]; [|done]. by destruct (cf_withdrawn old).
  - unfold publish_fact. destruct (negb _); [done|].
    assert (Hins : forall f : CompatibilityFact, <[cf_id f := f]> (r_compatibility st) !! cf_id f = Some f)
      by (intros f; apply lookup_insert_eq).
    destruct (r_compatibility st !! _) as [old|].
    + destruct (gen_ltb _ _); [done|]. destruct (_ ==? _); [by destruct (same_fact _ _)|].
      split; [done|]. split; [done|]. intros _ _. apply Hins.
    + destruct (_ <=? _); [done|]. destruct (1 <? _); [done|].
      split; [done|]. split; [done|]. intros _ _. apply Hins.
Qed.
