(* ===== verification/Evidence.v ===== *)
(** * Capability evidence: retention and ingestion

    Models [evict_if_needed_locked], [current_winner_record] and
    [apply_capability_locked] of [registry.cpp]: how one observation about a
    (device, capability) key is screened, given its generation, and stored
    under a bounded history. *)

From S2P Require Import Prelude Tokens Versions Support Conditions Values Hardware Quirks Compat Publication.
From S2P Require Import RegistryState Fixtures Resolution Publishers Devices.

(** Subtraction of [std::size_t] values. *)
Definition u64_sub (n k : N) : N := wrap64 (n + u64_modulus - wrap64 k).

(* ===================================================================== *)
(** ** Bounded retention *)

(** A record is superseded when a later record of its source slot is
    retained. (The test [j != index] of the code is implied by the strict
    comparison of serials.) *)
Definition superseded (records : list StoredRecord) (r : StoredRecord) : bool :=
  existsb (fun other => (sr_slot other ==? sr_slot r) && (sr_serial r <? sr_serial other)) records.

(** The index of the oldest superseded record, the first loop over [i]. *)
Fixpoint victim_from (all rest : list StoredRecord) (i : nat) (victim : option (nat * N)) : option (nat * N) :=
  match rest with
  | [] => victim
  | r :: rest' =>
      let better := match victim with None => true | Some v => sr_serial r <? v.2 end in
      victim_from all rest' (S i) (if superseded all r && better then Some (i, sr_serial r) else victim)
  end.

Definition find_victim (records : list StoredRecord) : option nat := fst <$> victim_from records records 0 None.

(** [while (key.records.size() > per_key_cap)]; every round removes a record,
    so that the number of records is enough fuel. *)
Fixpoint shrink_loop (fuel : nat) (cap : N) (records : list StoredRecord) : list StoredRecord :=
  match fuel with
  | O => records
  | S fuel' =>
      if cap <? lengthN records then
        match find_victim records with
        | None => records
        | Some victim => shrink_loop fuel' cap (delete victim records)
        end
      else records
  end.

Definition shrink_records (cap : N) (records : list StoredRecord) : list StoredRecord :=
  shrink_loop (length records) cap records.

(** Records retained over all keys. *)
Definition record_total (keys : gmap KeyId KeyState) : N :=
  map_fold (fun _ key total => lengthN (ks_records key) + total) 0 keys.

Definition per_key_cap (limits : RegistryLimits) : N := wrap64 (max_evidence_per_capability limits * 8).

(** The loop over [keys]; every removal decrements [evidence_count]. *)
Definition shrink_keys (st : Registry) : Registry :=
  let keys := (fun key => key <| ks_records ::= shrink_records (per_key_cap (r_limits st)) |>) <$> r_keys st in
  st <| r_keys := keys |>
     <| r_evidence_count ::= fun n => u64_sub n (record_total (r_keys st) - record_total keys) |>.

Definition index_of_serial (serial : N) (records : list StoredRecord) : option (nat * StoredRecord) :=
  list_find (fun r => sr_serial r = serial) records.

(** One iteration of the loop that consumes [global_order]. *)
Definition evict_front (front : GlobalEntry) (st : Registry) : Registry :=
  match r_keys st !! ge_key front with
  | None => st
  | Some key =>
      match index_of_serial (ge_serial front) (ks_records key) with
      | None => st
      | Some (index, r) =>
          if negb (superseded (ks_records key) r) then st
          else st <| r_keys ::= insert (ge_key front) (key <| ks_records ::= delete index |>) |>
                  <| r_evidence_count ::= fun n => u64_sub n 1 |>
      end
  end.

(** [while (evidence_count >= limits.max_evidence_history && guard-- > 0)]:
    the guard exceeds the length of the queue, which every round shortens, so
    that the queue runs empty before the guard does. *)
Fixpoint evict_history (order : list GlobalEntry) (st : Registry) : Registry :=
  match order with
  | [] => st <| r_global_order := [] |>
  | front :: rest =>
      if max_evidence_history (r_limits st) <=? r_evidence_count st
      then evict_history rest (evict_front front st)
      else st <| r_global_order := order |>
  end.

Definition trim_order (st : Registry) : Registry :=
  let cap := wrap64 (max_evidence_history (r_limits st) * 4) in
  st <| r_global_order ::= fun order => drop (N.to_nat (lengthN order - cap)) order |>.

Definition evict_if_needed_locked (st : Registry) : Registry :=
  let st := shrink_keys st in
  let st := evict_history (r_global_order st) st in
  trim_order st.

(* ===================================================================== *)
(** ** The current winner of a key *)

Definition winner_step (st : Registry) (device : DeviceState) (winner : option StoredRecord) (stored : StoredRecord) :
    option StoredRecord :=
  if sr_persistent stored !=? flag_None then winner
  else if compute_staleness_locked st stored device (ds_generation device) true !=? flag_None then winner
  else match winner with
  | None => Some stored
  | Some w =>
      let s := cr_source (sr_record stored) in
      let t := cr_source (sr_record w) in
      if (authority t <? authority s)%Z then Some stored
      else if (authority s =? authority t)%Z &&
              (key_ltb (pi_id (publisher s)) (pi_id (publisher t)) ||
               ((pi_id (publisher s) ==? pi_id (publisher t)) && (observation_sequence t <? observation_sequence s)))
      then Some stored else winner
  end.

Definition current_winner_record (st : Registry) (device : DeviceState) (capability : CapabilityId) : option StoredRecord :=
  match r_keys st !! (di_id (ds_identity device), capability) with
  | None => None
  | Some key => foldl (winner_step st device) None (ks_records key)
  end.

(* ===================================================================== *)
(** ** [apply_capability_locked] *)

(** The checks that precede every mutation. *)
Definition screen_capability (st : Registry) (record : CapabilityRecord) : ApplyResult + (CapabilityRecord * DeviceState) :=
  match find_schema_locked st (cr_schema record) with
  | None => inl (rejected_result ApplyCode.RejectedUnknownSchema
                   ("unknown capability schema " +:+ id_str (cr_schema record))%string)
  | Some schema =>
      if cs_capability schema !=? cr_capability record then
        inl (rejected_result ApplyCode.RejectedUnknownSchema
          ("schema " +:+ id_str (cr_schema record) +:+ " describes capability " +:+ id_str (cs_capability schema) +:+
           ", not " +:+ id_str (cr_capability record))%string)
      else if negb (value_empty (cr_value record)) && (value_kind (cr_value record) !=? cs_value_kind schema) then
        inl (rejected_result ApplyCode.RejectedValidation
          ("value kind " +:+ value_kind_to_string (value_kind (cr_value record)) +:+
           " does not match the schema kind " +:+ value_kind_to_string (cs_value_kind schema))%string)
      else if value_empty (cr_value record) && negb (asserts_capability_absent (cr_support record)) &&
              (cr_support record !=? SupportState.Unknown) && (cr_support record !=? SupportState.RevalidationRequired) then
        inl (rejected_result ApplyCode.RejectedValidation
          ("schema requires a typed value for support state " +:+ support_state_to_string (cr_support record))%string)
      else match normalize_value (r_limits st) (cr_value record) with
      | Failed status => inl (rejected_result ApplyCode.RejectedValidation (describe status))
      | Value value =>
          let record := record <| cr_value := value |> in
          match find_device_locked st (cr_device record) with
          | None => inl (rejected_result ApplyCode.RejectedUnknownDevice
                           ("device " +:+ id_str (cr_device record) +:+ " is not registered")%string)
          | Some device =>
              if cr_device_generation record !=? ds_generation device then
                inl (rejected_result ApplyCode.RejectedStaleDeviceGeneration
                  ("capability evidence targets device generation " +:+ gen_str (cr_device_generation record) +:+
                   " but the current generation is " +:+ gen_str (ds_generation device))%string)
              else if cr_device_boot record !=? ds_boot device then
                inl (rejected_result ApplyCode.RejectedStaleDeviceGeneration
                  ("capability evidence targets device boot " +:+ gen_str (cr_device_boot record) +:+
                   " but the current boot is " +:+ gen_str (ds_boot device))%string)
              else inr (record, device)
          end
      end
  end.

Definition fresh_key (schema : CapabilitySchemaId) : KeyState := mk_KeyState schema Gen_none false [].

(** Finds or creates the key; [device_keys[...]] creates the (empty) index
    entry even when a limit then refuses the key. *)
Definition open_key (record : CapabilityRecord) (st : Registry) : Registry * (ApplyResult + KeyState) :=
  let key_id := (cr_device record, cr_capability record) in
  match r_keys st !! key_id with
  | Some key => (st, inr key)
  | None =>
      let owned := default ∅ (r_device_keys st !! cr_device record) in
      let st := st <| r_device_keys ::= insert (cr_device record) owned |> in
      if max_capabilities_per_device (r_limits st) <=? set_sizeN owned then
        (st, inl (rejected_result ApplyCode.RejectedLimit
                    ("capability key limit reached for device " +:+ id_str (cr_device record))%string))
      else if max_evidence_history (r_limits st) <=? sizeN (r_keys st) then
        (st, inl (rejected_result ApplyCode.RejectedLimit "capability key limit reached"))
      else
        let state := fresh_key (cr_schema record) in
        (st <| r_keys ::= insert key_id state |>
            <| r_device_keys ::= insert (cr_device record) ({[cr_capability record]} ∪ owned) |>
            <| r_usage ::= fun u => u <| ru_capability_keys ::= u64_succ |> |>,
         inr state)
  end.

(** The device's software axes at ingestion. *)
Definition stamp_record (device : DeviceState) (record : CapabilityRecord) : CapabilityRecord :=
  let software := ds_software device in
  record <| cr_firmware_generation := sw_firmware_generation software |>
         <| cr_driver_generation := sw_driver_generation software |>
         <| cr_runtime_generation := sw_runtime_generation software |>
         <| cr_platform_generation := ds_platform_generation device |>
         <| cr_driver_id := dv_id (sw_driver software) |>
         <| cr_firmware_id := fw_id (sw_firmware software) |>
         <| cr_runtime_id := rt_id (sw_runtime software) |>.

Definition slot_of (source : EvidenceSource) : string :=
  (id_str (pi_id (publisher source)) +:+ "#" +:+ gen_str (pi_boot (publisher source)) +:+ "#" +:+
   source_class_to_string (source_class source))%string.

Definition slot_latest (slot : string) (records : list StoredRecord) : option StoredRecord :=
  foldl (fun latest stored =>
    if sr_slot stored !=? slot then latest
    else match latest with
         | None => Some stored
         | Some l => if sr_serial l <? sr_serial stored then Some stored else latest
         end) None records.

Definition same_observation (latest record : CapabilityRecord) : bool :=
  negb (cr_withdrawn record) && negb (cr_withdrawn latest) && capability_content_equal latest record &&
  (cr_device_generation latest ==? cr_device_generation record) &&
  (cr_driver_generation latest ==? cr_driver_generation record) &&
  (cr_firmware_generation latest ==? cr_firmware_generation record) &&
  (cr_runtime_generation latest ==? cr_runtime_generation record).

(** The capability generation the registry assigns to a claim. *)
Definition assign_generation (winner : option StoredRecord) (key : KeyState) (record : CapabilityRecord) :
    CapabilityGeneration :=
  let opened := if gen_valid (ks_generation key) then gen_next (ks_generation key) else Gen_first in
  match winner with
  | Some w =>
      if capability_content_equal (sr_record w) record &&
         (cr_device_generation (sr_record w) ==? cr_device_generation record)
      then if gen_valid (cr_capability_generation (sr_record w)) then cr_capability_generation (sr_record w) else Gen_first
      else opened
  | None => opened
  end.

Definition supersede_slot (slot : string) (stored : StoredRecord) : StoredRecord :=
  if sr_slot stored ==? slot
  then stored <| sr_persistent ::= fun flags => flag_or flags SupersededByNewerEvidence |> else stored.

(** Stores an accepted claim as the newest of its slot. *)
Definition store_record (record : CapabilityRecord) (st : Registry) : Registry :=
  let key_id := (cr_device record, cr_capability record) in
  let slot := slot_of (cr_source record) in
  let stored := mk_StoredRecord record flag_None slot (r_next_serial st) in
  let st := st <| r_keys ::= alter (fun key => key <| ks_records ::= fun l => map (supersede_slot slot) l ++ [stored] |>) key_id |>
               <| r_next_serial ::= u64_succ |>
               <| r_global_order ::= fun order => order ++ [mk_GlobalEntry key_id (sr_serial stored)] |>
               <| r_evidence_count ::= u64_succ |> in
  evict_if_needed_locked st.

Definition record_claim (device : DeviceState) (key : KeyState) (record : CapabilityRecord) (st : Registry) :
    Registry * ApplyResult :=
  let key_id := (cr_device record, cr_capability record) in
  let record := record <| cr_capability_generation :=
                  assign_generation (current_winner_record st device (cr_capability record)) key record |> in
  let st := st <| r_keys ::= insert key_id
                    (key <| ks_generation ::= fun g =>
                              if negb (gen_valid g) || gen_ltb g (cr_capability_generation record)
                              then cr_capability_generation record else g |>
                         <| ks_has_evidence := true |>) |> in
  let full st := max_evidence_history (r_limits st) <=? r_evidence_count st in
  let st := if full st then evict_if_needed_locked st else st in
  if full st then
    (st, rejected_result ApplyCode.RejectedBackpressure
           "evidence history is at its bound; no evictable record remains")
  else
    (store_record record st,
     result_of ApplyCode.Accepted true
       ("capability " +:+ id_str (cr_capability record) +:+ " accepted at capability generation " +:+
        gen_str (cr_capability_generation record))%string).

Definition apply_capability_locked (p : Publication) (st : Registry) : Registry * ApplyResult :=
  match screen_capability st (pb_capability p) with
  | inl rejection => (st, rejection)
  | inr (record, device) =>
      match open_key record st with
      | (st, inl rejection) => (st, rejection)
      | (st, inr key) =>
          if ks_schema key !=? cr_schema record then
            (st, rejected_result ApplyCode.RejectedValidation
              ("capability " +:+ id_str (cr_capability record) +:+ " is already bound to schema " +:+
               id_str (ks_schema key) +:+ " and may not be reinterpreted by " +:+ id_str (cr_schema record))%string)
          else if gen_valid (cr_capability_generation record) && gen_valid (ks_generation key) &&
                  gen_leb (cr_capability_generation record) (ks_generation key) then
            (st, rejected_result ApplyCode.RejectedStaleCapabilityGeneration
              ("capability generation " +:+ gen_str (cr_capability_generation record) +:+
               " does not advance the current generation " +:+ gen_str (ks_generation key))%string)
          else if gen_valid (cr_capability_generation record) && negb (gen_valid (ks_generation key)) &&
                  (1 <? gen_value (cr_capability_generation record)) then
            (st, rejected_result ApplyCode.RejectedStaleCapabilityGeneration
              "first publication for a capability key must not skip generations")
          else
            let record := stamp_record device record in
            match slot_latest (slot_of (cr_source record)) (ks_records key) with
            | Some latest =>
                if same_observation (sr_record latest) record then
                  (st, result_of ApplyCode.AcceptedIdempotent false
                         "identical evidence already recorded for this source slot")
                else record_claim device key record st
            | None => record_claim device key record st
            end
      end
  end.

(* ===================================================================== *)
(** ** The contract: what eviction may remove

    [evicted all l l']: [l'] is [l] without some records that [all]
    supersedes. [evicts st st']: the registry forgot superseded records and
    queue entries, and nothing else. *)

Inductive evicted (all : list StoredRecord) : list StoredRecord -> list StoredRecord -> Prop :=
  | EvictedNil : evicted all [] []
  | EvictedKeep r l l' : evicted all l l' -> evicted all (r :: l) (r :: l')
  | EvictedDrop r l l' : superseded all r = true -> evicted all l l' -> evicted all (r :: l) l'.

Record key_evicted (key key' : KeyState) : Prop := {
  ke_schema : ks_schema key' = ks_schema key;
  ke_generation : ks_generation key' = ks_generation key;
  ke_evidence : ks_has_evidence key' = ks_has_evidence key;
  ke_records : evicted (ks_records key) (ks_records key) (ks_records key')
}.

Definition keys_evicted (keys keys' : gmap KeyId KeyState) : Prop :=
  forall k, option_Forall2 key_evicted (keys !! k) (keys' !! k).

Lemma superseded_mono l l' r : l' ⊆ l -> superseded l' r = true -> superseded l r = true.
Proof.
  unfold superseded. rewrite !existsb_exists. intros Hl (o & Ho & H). exists o. split; [|done].
  apply list_elem_of_In, Hl. by apply list_elem_of_In.
Qed.

Lemma evicted_mono all all' l l' : all ⊆ all' -> evicted all l l' -> evicted all' l l'.
Proof.
  intros Hs H. induction H; [constructor|by constructor|]. apply EvictedDrop; [by eapply superseded_mono|done].
Qed.

Lemma evicted_refl all l : evicted all l l.
Proof. induction l; by constructor. Qed.

Lemma evicted_sublist all l l' : evicted all l l' -> sublist l' l.
Proof. induction 1; by constructor. Qed.

Lemma sublist_subseteq {A} (l l' : list A) : sublist l' l -> l' ⊆ l.
Proof. induction 1; set_solver. Qed.

Lemma evicted_trans all l1 l2 l3 : evicted all l1 l2 -> evicted all l2 l3 -> evicted all l1 l3.
Proof.
  intros H. revert l3. induction H as [|r l l' H IH|r l l' Hs H IH]; intros l3 H3; [done| |].
  - inversion H3 as [|? ? ? H4|? ? ? Hs H4]; subst; [apply EvictedKeep|apply EvictedDrop]; auto.
  - apply EvictedDrop; auto.
Qed.

Lemma evicted_step l1 l2 l3 : evicted l1 l1 l2 -> evicted l2 l2 l3 -> evicted l1 l1 l3.
Proof.
  intros H1 H2. eapply evicted_trans; [done|]. eapply evicted_mono; [|done].
  by eapply sublist_subseteq, evicted_sublist.
Qed.

Lemma evicted_delete all l i r : l !! i = Some r -> superseded all r = true -> evicted all l (delete i l).
Proof.
  revert i. induction l as [|x l IH]; intros [|i] Hi Hs; cbn in *; try done.
  - injection Hi as ->. apply EvictedDrop; [done|apply evicted_refl].
  - apply EvictedKeep. by apply IH.
Qed.

Lemma evicted_keeps all l l' r : evicted all l l' -> r ∈ l -> superseded all r = false -> r ∈ l'.
Proof.
  induction 1 as [|x l l' H IH|x l l' Hs H IH]; intros Hr Hn; [done| |].
  - apply elem_of_cons in Hr as [->|Hr]; [left|right; auto].
  - apply elem_of_cons in Hr as [->|Hr]; [congruence|auto].
Qed.

Lemma key_evicted_refl key : key_evicted key key.
Proof. split; [done..|apply evicted_refl]. Qed.

Lemma key_evicted_trans k1 k2 k3 : key_evicted k1 k2 -> key_evicted k2 k3 -> key_evicted k1 k3.
Proof. intros [a1 a2 a3 a4] [b1 b2 b3 b4]. split; [congruence..|by eapply evicted_step]. Qed.

#[global] Instance keys_evicted_preorder : PreOrder keys_evicted.
Proof.
  split.
  - intros m k. destruct (m !! k); constructor. apply key_evicted_refl.
  - intros m1 m2 m3 H12 H23 k. specialize (H12 k). specialize (H23 k).
    destruct H12 as [a b Hab|]; inversion H23; subst; constructor. by eapply key_evicted_trans.
Qed.

Lemma keys_evicted_some keys keys' k key' :
  keys_evicted keys keys' -> keys' !! k = Some key' -> exists key, keys !! k = Some key /\ key_evicted key key'.
Proof. intros H Hk. specialize (H k). rewrite Hk in H. inversion H; subst. eauto. Qed.

Lemma keys_evicted_some_l keys keys' k key :
  keys_evicted keys keys' -> keys !! k = Some key -> exists key', keys' !! k = Some key' /\ key_evicted key key'.
Proof. intros H Hk. specialize (H k). rewrite Hk in H. inversion H; subst. eauto. Qed.

Lemma keys_evicted_insert keys k key key' :
  keys !! k = Some key -> key_evicted key key' -> keys_evicted keys (<[k := key']> keys).
Proof.
  intros Hk He i. destruct (decide (k = i)) as [<-|Hne].
  - rewrite Hk, lookup_insert_eq. by constructor.
  - rewrite lookup_insert_ne by done. destruct (keys !! i); constructor. apply key_evicted_refl.
Qed.

(* ===================================================================== *)
(** ** Counting records *)

Lemma record_total_insert_new keys k key :
  keys !! k = None -> record_total (<[k := key]> keys) = lengthN (ks_records key) + record_total keys.
Proof.
  intros Hk. unfold record_total.
  rewrite (map_fold_insert_L (fun (_ : KeyId) key total => lengthN (ks_records key) + total));
    [done| |done]. intros. lia.
Qed.

Lemma record_total_delete keys k key :
  keys !! k = Some key -> record_total keys = lengthN (ks_records key) + record_total (delete k keys).
Proof.
  intros Hk. rewrite <- (insert_delete_id keys k key Hk) at 1.
  apply record_total_insert_new, lookup_delete_eq.
Qed.

Lemma record_total_insert keys k key key' :
  keys !! k = Some key ->
  record_total (<[k := key']> keys) + lengthN (ks_records key) = record_total keys + lengthN (ks_records key').
Proof.
  intros Hk. rewrite (record_total_delete keys k key Hk), <- insert_delete_eq.
  rewrite record_total_insert_new by apply lookup_delete_eq. lia.
Qed.

Lemma record_total_shrink (f : list StoredRecord -> list StoredRecord) keys :
  (forall l, lengthN (f l) <= lengthN l) ->
  record_total ((fun key => key <| ks_records ::= f |>) <$> keys) <= record_total keys.
Proof.
  intros Hf. induction keys as [|k key keys Hk IH] using map_ind; [by rewrite fmap_empty|].
  rewrite fmap_insert, !record_total_insert_new by (rewrite ?lookup_fmap, ?Hk; done).
  cbn. specialize (Hf (ks_records key)). lia.
Qed.

Lemma lengthN_delete {A} (l : list A) i x : l !! i = Some x -> lengthN (delete i l) + 1 = lengthN l.
Proof.
  intros Hi. unfold lengthN. rewrite length_delete by (by eexists).
  pose proof (lookup_lt_Some _ _ _ Hi). lia.
Qed.

Lemma u64_sub_exact n k : n < u64_modulus -> k <= n -> u64_sub n k = n - k.
Proof.
  intros Hn Hk. unfold u64_sub, wrap64. rewrite (N.mod_small k) by lia.
  replace (n + u64_modulus - k) with (n - k + 1 * u64_modulus) by lia.
  rewrite N.Div0.mod_add. apply N.mod_small. lia.
Qed.

(* ===================================================================== *)
(** ** Eviction meets its contract *)

Lemma victim_from_spec all rest i victim :
  rest = drop i all ->
  (forall v, victim = Some v -> exists r, all !! v.1 = Some r /\ superseded all r = true) ->
  forall v, victim_from all rest i victim = Some v -> exists r, all !! v.1 = Some r /\ superseded all r = true.
Proof.
  revert i victim. induction rest as [|r rest IH]; intros i victim Hrest Hv v; cbn; [auto|].
  assert (Hi : all !! i = Some r).
  { rewrite <- (Nat.add_0_r i), <- lookup_drop, <- Hrest. done. }
  apply IH.
  - rewrite (drop_S all r i Hi) in Hrest. by injection Hrest.
  - intros w. destruct (superseded all r && _) eqn:E; [|auto].
    apply andb_true_iff in E as [E _]. intros Hw. injection Hw as <-. by exists r.
Qed.

Lemma find_victim_spec l i :
  find_victim l = Some i -> exists r, l !! i = Some r /\ superseded l r = true.
Proof.
  unfold find_victim. rewrite fmap_Some. intros (v & Hv & ->).
  eapply victim_from_spec in Hv; [done|by rewrite drop_0|done].
Qed.

(** A superseded record is found when there is one. *)
Lemma victim_from_some all rest i victim v :
  victim = Some v -> is_Some (victim_from all rest i victim).
Proof.
  revert i victim v. induction rest as [|r rest IH]; intros i victim v ->; cbn; [by eexists|].
  destruct (superseded all r && _); by eapply IH.
Qed.

Lemma victim_from_none all rest i victim :
  victim_from all rest i victim = None -> Forall (fun r => superseded all r = false) rest.
Proof.
  revert i victim. induction rest as [|r rest IH]; intros i victim Hn; constructor; cbn in Hn.
  - destruct victim as [v|].
    + destruct (superseded all r && _); edestruct (victim_from_some all rest (S i)) as [? Hs]; try done;
        rewrite Hs in Hn; done.
    + destruct (superseded all r) eqn:E; [|done]. cbn in Hn.
      edestruct (victim_from_some all rest (S i)) as [? Hs]; [done|]. by rewrite Hs in Hn.
  - by eapply IH.
Qed.

Lemma shrink_loop_spec fuel cap l :
  (length l <= fuel)%nat ->
  evicted l l (shrink_loop fuel cap l) /\
  (lengthN (shrink_loop fuel cap l) <= cap \/
   Forall (fun r => superseded (shrink_loop fuel cap l) r = false) (shrink_loop fuel cap l)).
Proof.
  revert l. induction fuel as [|fuel IH]; intros l Hf; cbn.
  - split; [apply evicted_refl|]. destruct l; [right; constructor|cbn in Hf; lia].
  - destruct (cap <? lengthN l) eqn:Hc; bsimpl; [|split; [apply evicted_refl|by left]].
    destruct (find_victim l) as [i|] eqn:Hv.
    + apply find_victim_spec in Hv as (r & Hi & Hs). pose proof (lengthN_delete l i r Hi) as Hl.
      destruct (IH (delete i l)) as [H1 H2]; [unfold lengthN in Hl; lia|]. split; [|done].
      eapply evicted_step; [|done]. by eapply evicted_delete.
    + split; [apply evicted_refl|]. right. unfold find_victim in Hv.
      destruct (victim_from l l 0 None) eqn:E; [done|]. by apply victim_from_none in E.
Qed.

Lemma shrink_records_spec cap l :
  evicted l l (shrink_records cap l) /\
  (lengthN (shrink_records cap l) <= cap \/
   Forall (fun r => superseded (shrink_records cap l) r = false) (shrink_records cap l)).
Proof. by apply shrink_loop_spec. Qed.

Lemma evicted_length all l l' : evicted all l l' -> lengthN l' <= lengthN l.
Proof. intros H%evicted_sublist. apply sublist_length in H. unfold lengthN. lia. Qed.

(** What an eviction pass does to the registry. *)
Record evicts (st st' : Registry) : Prop := {
  evs_keys : keys_evicted (r_keys st) (r_keys st');
  evs_count : r_evidence_count st = record_total (r_keys st) -> r_evidence_count st < u64_modulus ->
    r_evidence_count st' = record_total (r_keys st') /\ r_evidence_count st' <= r_evidence_count st;
  evs_rest : st' = st <| r_keys := r_keys st' |> <| r_evidence_count := r_evidence_count st' |>
                      <| r_global_order := r_global_order st' |>
}.

#[global] Instance evicts_preorder : PreOrder evicts.
Proof.
  split.
  - intros st. split; [done|done|by destruct st].
  - intros s1 s2 s3 [a1 a2 a3] [b1 b2 b3]. split.
    + by etrans.
    + intros Hc Hb. destruct (a2 Hc Hb) as [Hc2 Hl2]. destruct (b2 Hc2) as [Hc3 Hl3]; [lia|]. split; [done|lia].
    + rewrite b3. rewrite a3. by destruct s1.
Qed.

Lemma evicts_queue st order : evicts st (st <| r_global_order := order |>).
Proof. split; cbn; [done|done|by destruct st]. Qed.

Lemma shrink_keys_evicts st : evicts st (shrink_keys st).
Proof.
  split.
  - intros k. cbn. rewrite lookup_fmap. destruct (r_keys st !! k) as [key|]; constructor.
    split; [done..|]. cbn. apply shrink_records_spec.
  - intros Hc Hb. cbn. rewrite Hc in *. pose proof (record_total_shrink (shrink_records (per_key_cap (r_limits st)))
      (r_keys st)) as Hle. rewrite u64_sub_exact; [| |lia].
    + assert (forall l, lengthN (shrink_records (per_key_cap (r_limits st)) l) <= lengthN l)
        by (intros l; eapply evicted_length, shrink_records_spec). specialize (Hle H). split; lia.
    + done.
  - unfold shrink_keys. by destruct st.
Qed.

Lemma index_of_serial_spec serial l i r :
  index_of_serial serial l = Some (i, r) -> l !! i = Some r /\ sr_serial r = serial.
Proof. unfold index_of_serial. by intros (? & ? & ?)%list_find_Some. Qed.

Lemma evict_front_evicts front st : evicts st (evict_front front st).
Proof.
  unfold evict_front. destruct (r_keys st !! ge_key front) as [key|] eqn:Hk; [|done].
  destruct (index_of_serial _ _) as [[i r]|] eqn:Hi; [|done]. apply index_of_serial_spec in Hi as [Hi _].
  destruct (superseded (ks_records key) r) eqn:Hs; [|done]. cbn [negb].
  pose proof (lengthN_delete _ _ _ Hi) as Hl.
  pose proof (record_total_insert (r_keys st) (ge_key front) key (key <| ks_records ::= delete i |>) Hk) as Ht.
  cbn in Ht. split.
  - cbn. eapply keys_evicted_insert; [done|]. split; [done..|]. cbn. by eapply evicted_delete.
  - cbn. intros Hc Hb. assert (0 < record_total (r_keys st)).
    { rewrite (record_total_delete _ _ _ Hk). lia. }
    rewrite u64_sub_exact by lia. split; lia.
  - by destruct st.
Qed.

Lemma evict_history_evicts order st : evicts st (evict_history order st).
Proof.
  revert st. induction order as [|front order IH]; intros st; cbn; [apply evicts_queue|].
  destruct (_ <=? _); [|apply evicts_queue]. etrans; [apply evict_front_evicts|apply IH].
Qed.

Lemma evict_if_needed_evicts st : evicts st (evict_if_needed_locked st).
Proof.
  unfold evict_if_needed_locked. etrans; [apply shrink_keys_evicts|].
  etrans; [apply evict_history_evicts|apply evicts_queue].
Qed.

(* ===================================================================== *)
(** ** The invariant of stored evidence

    [n] bounds every counter; each operation raises it by at most two, so
    that no counter wraps around in fewer than [2^63 - 1] operations. *)

Record records_ok (next_serial : N) (l : list StoredRecord) : Prop := {
  ro_serials : NoDup (map sr_serial l);
  ro_bound : Forall (fun r => sr_serial r < next_serial) l;
  ro_flags : Forall (fun r => superseded l r = true -> sr_persistent r <> flag_None) l
}.

Record stored_ok (k : KeyId) (key : KeyState) (generation : DeviceGeneration) (stored : StoredRecord) : Prop := {
  so_device : cr_device (sr_record stored) = k.1;
  so_capability : cr_capability (sr_record stored) = k.2;
  so_schema : cr_schema (sr_record stored) = ks_schema key;
  so_valid : gen_valid (cr_capability_generation (sr_record stored)) = true;
  so_generation : gen_value (cr_capability_generation (sr_record stored)) <= gen_value (ks_generation key);
  so_device_generation : gen_value (cr_device_generation (sr_record stored)) <= gen_value generation;
  so_slot : sr_slot stored = slot_of (cr_source (sr_record stored));
  so_provenance :
    provenance_allowed_for (provenance (cr_source (sr_record stored))) (source_class (cr_source (sr_record stored))) = true
}.

(** The value of a record passes validation and, unless it is empty, has the
    kind its schema prescribes. *)
Definition value_typed (limits : RegistryLimits) (schema : CapabilitySchema) (record : CapabilityRecord) : Prop :=
  status_ok (validate_value (cr_value record) limits) = true /\
  (value_empty (cr_value record) = false -> value_kind (cr_value record) = cs_value_kind schema).

Record key_ok (n : N) (st : Registry) (k : KeyId) (key : KeyState) : Prop := {
  ko_device : exists d, r_devices st !! k.1 = Some d /\ Forall (stored_ok k key (ds_generation d)) (ks_records key);
  ko_schema : exists s, r_schemas st !! ks_schema key = Some s /\ cs_capability s = k.2 /\
    Forall (fun r => value_typed (r_limits st) s (sr_record r)) (ks_records key);
  ko_generation : gen_value (ks_generation key) <= n;
  ko_records : records_ok (r_next_serial st) (ks_records key)
}.

(** The per-device index lists exactly the keys of the device. *)
Definition index_ok (st : Registry) : Prop :=
  forall d c, is_Some (r_keys st !! (d, c)) <-> exists s, r_device_keys st !! d = Some s /\ c ∈ s.

Record evidence_ok (n : N) (st : Registry) : Prop := {
  eo_index : index_ok st;
  eo_keys : map_Forall (key_ok n st) (r_keys st);
  eo_count : r_evidence_count st = record_total (r_keys st);
  eo_count_bound : r_evidence_count st <= n;
  eo_history : r_evidence_count st <= max_evidence_history (r_limits st);
  eo_serial : r_next_serial st <= n;
  eo_key_limit : sizeN (r_keys st) <= max_evidence_history (r_limits st);
  eo_device_limit : map_Forall (fun _ s => set_sizeN s <= max_capabilities_per_device (r_limits st)) (r_device_keys st);
  eo_overflow : n < u64_modulus
}.

(** Every device is filed under its identity and has a live generation. *)
Definition devices_ok (n : N) (st : Registry) : Prop :=
  map_Forall (fun id d => di_id (ds_identity d) = id /\ 1 <= gen_value (ds_generation d) <= n /\
                          1 <= gen_value (ds_boot d) <= n) (r_devices st).

Lemma records_ok_evicted next l l' : evicted l l l' -> records_ok next l -> records_ok next l'.
Proof.
  intros He [H1 H2 H3]. pose proof (evicted_sublist _ _ _ He) as Hs. pose proof (sublist_subseteq _ _ Hs) as Hsub.
  rewrite Forall_forall in H2, H3. split.
  - apply (sublist_NoDup (map sr_serial l') (map sr_serial l)); [done|]. by apply (fmap_sublist sr_serial).
  - apply Forall_forall. auto.
  - apply Forall_forall. intros r Hr Hsup. apply H3; [auto|]. by eapply superseded_mono.
Qed.

Lemma stored_ok_key k key key' g g' s :
  ks_schema key' = ks_schema key -> gen_value (ks_generation key) <= gen_value (ks_generation key') ->
  gen_value g <= gen_value g' -> stored_ok k key g s -> stored_ok k key' g' s.
Proof. intros Hs Hg Hd []. split; try done; [congruence|lia|lia]. Qed.

Lemma key_ok_evicted n st k key key' : key_evicted key key' -> key_ok n st k key -> key_ok n st k key'.
Proof.
  intros [e1 e2 _ e4] [(d & Hd & Hf) k2 k3 k4]. split.
  - exists d. split; [done|]. apply Forall_forall. intros s Hs. rewrite Forall_forall in Hf.
    eapply stored_ok_key; [exact e1|by rewrite e2|done|]. apply Hf.
    by eapply sublist_subseteq; [eapply evicted_sublist|].
  - destruct k2 as (s & Hs & Hc & Ht). exists s. rewrite e1. split; [done|]. split; [done|].
    rewrite Forall_forall in Ht. apply Forall_forall. intros r Hr. apply Ht.
    by eapply sublist_subseteq; [eapply evicted_sublist|].
  - by rewrite e2.
  - by eapply records_ok_evicted.
Qed.

(** What the keys depend on besides themselves. *)
Record context_grows (st st' : Registry) : Prop := {
  cg_devices : forall id d, r_devices st !! id = Some d ->
    exists d', r_devices st' !! id = Some d' /\ gen_value (ds_generation d) <= gen_value (ds_generation d');
  cg_schemas : forall id s, r_schemas st !! id = Some s -> r_schemas st' !! id = Some s;
  cg_serial : r_next_serial st <= r_next_serial st';
  cg_limits : r_limits st' = r_limits st
}.

Lemma context_grows_same st st' :
  r_devices st' = r_devices st -> r_schemas st' = r_schemas st -> r_next_serial st' = r_next_serial st ->
  r_limits st' = r_limits st -> context_grows st st'.
Proof. intros Hd Hs Hn Hl. split; [|by rewrite Hs|by rewrite Hn|done]. intros id d H. exists d. by rewrite Hd. Qed.

Lemma key_ok_grows n n' st st' k key : context_grows st st' -> n <= n' -> key_ok n st k key -> key_ok n' st' k key.
Proof.
  intros [g1 g2 g3 g4] Hn [(d & Hd & Hf) (s & Hs & Hc & Ht) k3 [r1 r2 r3]]. destruct (g1 _ _ Hd) as (d' & Hd' & Hle). split.
  - exists d'. split; [done|]. eapply Forall_impl; [exact Hf|]. intros x. by apply stored_ok_key.
  - exists s. rewrite g4. auto.
  - lia.
  - split; [done| |done]. eapply Forall_impl; [exact r2|]. cbn. lia.
Qed.

(** Operations that leave the evidence alone preserve the invariant. *)
Lemma evidence_ok_frame n n' st st' :
  context_grows st st' -> r_keys st' = r_keys st -> r_device_keys st' = r_device_keys st ->
  r_evidence_count st' = r_evidence_count st -> r_next_serial st' = r_next_serial st -> r_limits st' = r_limits st ->
  n <= n' < u64_modulus -> evidence_ok n st -> evidence_ok n' st'.
Proof.
  intros Hg Hk Hd Hc Hs Hl [Hn Hn'] [].
  split; unfold index_ok; rewrite ?Hk, ?Hd, ?Hc, ?Hs, ?Hl; try done; try lia.
  eapply map_Forall_impl; [done|]. intros k key. by apply key_ok_grows.
Qed.

Lemma evidence_ok_weaken n n' st : n <= n' < u64_modulus -> evidence_ok n st -> evidence_ok n' st.
Proof. intros Hn. apply evidence_ok_frame; try done. by apply context_grows_same. Qed.

Lemma evidence_ok_evicts n st st' : evicts st st' -> evidence_ok n st -> evidence_ok n st'.
Proof.
  intros [v1 v2 v3] []. destruct v2 as [Hc Hle]; [done|lia|].
  assert (Hdom : forall k, is_Some (r_keys st' !! k) <-> is_Some (r_keys st !! k)).
  { intros k. specialize (v1 k). inversion v1; [|done]. split; intros _; by eexists. }
  split.
  - intros d c. rewrite Hdom, (eo_index0 d c). by rewrite v3.
  - intros k key' Hk'. destruct (keys_evicted_some _ _ _ _ v1 Hk') as (key & Hk & He).
    eapply key_ok_evicted; [done|]. apply (key_ok_grows n n st st'); [|done|by apply eo_keys0].
    rewrite v3. by apply context_grows_same.
  - done.
  - lia.
  - rewrite v3. cbn. lia.
  - rewrite v3. done.
  - rewrite v3. cbn. unfold sizeN in *. replace (size (r_keys st')) with (size (r_keys st)); [done|].
    rewrite <- !size_dom. f_equal. apply set_eq. intros k. rewrite !elem_of_dom. by rewrite Hdom.
  - rewrite v3. done.
  - done.
Qed.

(** Replacing a key by one with the same records. *)
Lemma evidence_ok_update n st k key key' :
  evidence_ok n st -> r_keys st !! k = Some key -> ks_records key' = ks_records key -> key_ok n st k key' ->
  evidence_ok n (st <| r_keys ::= insert k key' |>).
Proof.
  intros [] Hk Hr Hok. pose proof (record_total_insert (r_keys st) k key key' Hk) as Ht. rewrite Hr in Ht.
  split; cbn; try done.
  - intros d c. cbn. rewrite <- (eo_index0 d c). destruct (decide ((d, c) = k)) as [->|Hne].
    + rewrite lookup_insert_eq, Hk. split; intros _; by eexists.
    + by rewrite lookup_insert_ne.
  - apply map_Forall_insert_2.
    + by apply (key_ok_grows n n st); [by apply context_grows_same|done|].
    + eapply map_Forall_impl; [done|]. intros. by apply (key_ok_grows n n st); [by apply context_grows_same|done|].
  - lia.
  - unfold sizeN in *. rewrite map_size_insert_Some; [done|by eexists].
Qed.

Definition key_id (record : CapabilityRecord) : KeyId := (cr_device record, cr_capability record).

(** The fields capability ingestion leaves alone. *)
Definition same_context (st st' : Registry) : Prop :=
  r_limits st' = r_limits st /\ r_schemas st' = r_schemas st /\ r_capability_schemas st' = r_capability_schemas st /\
  r_devices st' = r_devices st /\ r_platforms st' = r_platforms st /\ r_families st' = r_families st /\
  r_models st' = r_models st /\ r_architectures st' = r_architectures st /\ r_quirks st' = r_quirks st /\
  r_compatibility st' = r_compatibility st /\ r_publishers st' = r_publishers st /\ r_epoch st' = r_epoch st /\
  r_shutting_down st' = r_shutting_down st /\ r_state_revision st' = r_state_revision st.

#[global] Instance same_context_preorder : PreOrder same_context.
Proof.
  split; [by repeat split|]. intros s1 s2 s3 H12 H23. unfold same_context in *. destruct_and!.
  split_and!; congruence.
Qed.

Lemma evicts_context st st' : evicts st st' -> same_context st st'.
Proof. intros [_ _ ->]. by repeat split. Qed.

(** Opening the index entry of a device without adding a key. *)
Lemma evidence_ok_index_entry n st d :
  evidence_ok n st -> evidence_ok n (st <| r_device_keys ::= insert d (default ∅ (r_device_keys st !! d)) |>).
Proof.
  intros []. split; cbn; try done.
  - intros d' c. cbn. rewrite (eo_index0 d' c). destruct (decide (d = d')) as [<-|Hne].
    + rewrite lookup_insert_eq. destruct (r_device_keys st !! d) as [s|] eqn:E; cbn; [naive_solver|].
      split; [by intros (? & ? & _)|]. intros (? & [= <-] & Hc). set_solver.
    + by rewrite lookup_insert_ne.
  - eapply map_Forall_impl; [done|]. intros k key. apply key_ok_grows; [by apply context_grows_same|done].
  - apply map_Forall_insert_2; [|done]. destruct (r_device_keys st !! d) as [s|] eqn:E; cbn.
    + exact (eo_device_limit0 d s E).
    + unfold set_sizeN. rewrite size_empty. lia.
Qed.

Lemma evidence_ok_new_key n st d c key s :
  evidence_ok n st -> r_keys st !! (d, c) = None -> r_device_keys st !! d = Some s ->
  ks_records key = [] -> key_ok n st (d, c) key ->
  sizeN (r_keys st) < max_evidence_history (r_limits st) ->
  set_sizeN s < max_capabilities_per_device (r_limits st) ->
  evidence_ok n (st <| r_keys ::= insert (d, c) key |> <| r_device_keys ::= insert d ({[c]} ∪ s) |>
                    <| r_usage ::= fun u => u <| ru_capability_keys ::= u64_succ |> |>).
Proof.
  intros [] Hk Hd Hr Hok Hl1 Hl2. split; cbn; try done.
  - intros d' c'. cbn. destruct (decide (d = d')) as [<-|Hne].
    + rewrite lookup_insert_eq. destruct (decide (c = c')) as [<-|Hc].
      * rewrite lookup_insert_eq. split; [|by eexists]. intros _. exists ({[c]} ∪ s). set_solver.
      * rewrite lookup_insert_ne by congruence. rewrite (eo_index0 d c'), Hd. split; intros (s' & [= <-] & Hin);
          eexists; (split; [done|]); set_solver.
    + rewrite !lookup_insert_ne by congruence. apply eo_index0.
  - apply map_Forall_insert_2.
    + apply (key_ok_grows n n st); [by apply context_grows_same|done|done].
    + eapply map_Forall_impl; [done|]. intros k key'. apply key_ok_grows; [by apply context_grows_same|done].
  - rewrite record_total_insert_new by done. rewrite Hr. done.
  - unfold sizeN in *. rewrite map_size_insert_None by done. lia.
  - apply map_Forall_insert_2; [|done]. unfold set_sizeN in *.
    pose proof (size_union_alt {[c]} s) as Hu. rewrite Hu, size_singleton.
    pose proof (subseteq_size (s ∖ {[c]}) s ltac:(set_solver)). lia.
Qed.

Lemma open_key_spec n record st d s :
  evidence_ok n st -> r_devices st !! cr_device record = Some d ->
  r_schemas st !! cr_schema record = Some s -> cs_capability s = cr_capability record ->
  let st' := (open_key record st).1 in
  evidence_ok n st' /\ same_context st st' /\ r_next_serial st' = r_next_serial st /\
  (forall k key, r_keys st !! k = Some key -> r_keys st' !! k = Some key) /\
  (forall k key, r_keys st' !! k = Some key -> ks_records key <> [] -> r_keys st !! k = Some key) /\
  match (open_key record st).2 with
  | inl rejection => accepted rejection = false /\ r_keys st' = r_keys st
  | inr key => r_keys st' !! key_id record = Some key
  end.
Proof.
  intros Hok Hd Hs Hc. cbn zeta. unfold open_key, key_id. destruct (r_keys st !! _) as [key|] eqn:Hk.
  { cbn. split_and!; try done; naive_solver. }
  pose proof (evidence_ok_index_entry n st (cr_device record) Hok) as Hok'.
  set (owned := default ∅ (r_device_keys st !! cr_device record)) in *.
  set (st1 := st <| r_device_keys ::= insert (cr_device record) owned |>) in *.
  assert (Hctx : same_context st st1) by (by repeat split).
  change (r_limits st1) with (r_limits st). change (r_keys st1) with (r_keys st).
  destruct (_ <=? set_sizeN owned) eqn:El1; [cbn; split_and!; naive_solver|].
  destruct (_ <=? sizeN (r_keys st)) eqn:El2; [cbn; split_and!; naive_solver|].
  bsimpl. cbn [fst snd]. split_and!.
  - apply (evidence_ok_new_key n st1 _ _ _ owned); try done; [apply lookup_insert_eq|]. split.
    + exists d. split; [done|]. constructor.
    + exists s. split_and!; [done|done|constructor].
    + cbn. lia.
    + split; constructor.
  - by repeat split.
  - done.
  - intros k key. cbn. intros Hkk. rewrite lookup_insert_ne; [done|]. congruence.
  - intros k key. cbn. rewrite lookup_insert_Some. intros [[<- <-]|[_ ?]] Hne; [by cbn in Hne|done].
  - apply lookup_insert_eq.
Qed.

(* ===================================================================== *)
(** ** Storing a claim *)

Definition stored_claim (record : CapabilityRecord) (serial : N) : StoredRecord :=
  mk_StoredRecord record flag_None (slot_of (cr_source record)) serial.

Definition appended (record : CapabilityRecord) (serial : N) (l : list StoredRecord) : list StoredRecord :=
  map (supersede_slot (slot_of (cr_source record))) l ++ [stored_claim record serial].

Lemma supersede_slot_fields slot r :
  sr_record (supersede_slot slot r) = sr_record r /\ sr_slot (supersede_slot slot r) = sr_slot r /\
  sr_serial (supersede_slot slot r) = sr_serial r /\
  (sr_persistent r <> flag_None -> sr_persistent (supersede_slot slot r) <> flag_None) /\
  (sr_slot r = slot -> sr_persistent (supersede_slot slot r) <> flag_None).
Proof.
  unfold supersede_slot. destruct (sr_slot r ==? slot) eqn:E; cbn; unfold flag_or, flag_None.
  - split_and!; try done.
    + intros _ H%N.lor_eq_0_iff. by destruct H.
    + intros _ H%N.lor_eq_0_iff. by destruct H.
  - apply eqb_ne in E. done.
Qed.

Lemma elem_of_appended record serial l r :
  r ∈ appended record serial l <->
  r = stored_claim record serial \/ exists r0, r0 ∈ l /\ r = supersede_slot (slot_of (cr_source record)) r0.
Proof.
  unfold appended. rewrite elem_of_app, list_elem_of_singleton, list_elem_of_fmap. naive_solver.
Qed.

Lemma appended_superseded record serial l r :
  superseded (appended record serial l) r = true ->
  superseded l r = true \/ (sr_slot r = slot_of (cr_source record) /\ sr_serial r < serial).
Proof.
  unfold superseded. rewrite !existsb_exists. intros (o & Ho & H). apply list_elem_of_In, elem_of_appended in Ho.
  bsimpl. destruct Ho as [->|(o0 & Ho & ->)].
  - right. done.
  - left. exists o0. split; [by apply list_elem_of_In|].
    destruct (supersede_slot_fields (slot_of (cr_source record)) o0) as (_ & E1 & E2 & _).
    rewrite E1, E2 in *. apply andb_true_iff. split; [by apply eqb_true|by apply N.ltb_lt].
Qed.

Lemma superseded_supersede_slot l slot r : superseded l (supersede_slot slot r) = superseded l r.
Proof.
  unfold superseded. destruct (supersede_slot_fields slot r) as (_ & E1 & E2 & _). by rewrite E1, E2.
Qed.

Lemma records_ok_appended next record l :
  records_ok next l -> records_ok (next + 1) (appended record next l).
Proof.
  intros [H1 H2 H3]. rewrite Forall_forall in H2, H3.
  assert (Hmap : map sr_serial (appended record next l) = map sr_serial l ++ [next]).
  { unfold appended. rewrite map_app, map_map. cbn. f_equal. apply map_ext. intros r. apply supersede_slot_fields. }
  split.
  - rewrite Hmap. apply NoDup_app. split; [done|]. split; [|repeat constructor; by intros ?%not_elem_of_nil].
    intros x (r & Ex & Hr)%list_elem_of_fmap Hx%list_elem_of_singleton. specialize (H2 r Hr). lia.
  - apply Forall_forall. intros r [->|(r0 & Hr & ->)]%elem_of_appended; cbn; [lia|].
    destruct (supersede_slot_fields (slot_of (cr_source record)) r0) as (_ & _ & -> & _). specialize (H2 r0 Hr). lia.
  - apply Forall_forall. intros r [->|(r0 & Hr & ->)]%elem_of_appended Hs.
    + exfalso. apply appended_superseded in Hs as [Hs|[_ Hs]]; [|cbn in Hs; lia].
      unfold superseded in Hs. apply existsb_exists in Hs as (o & Ho%list_elem_of_In & Ho2). bsimpl. cbn in *.
      specialize (H2 o Ho). lia.
    + destruct (supersede_slot_fields (slot_of (cr_source record)) r0) as (_ & E1 & E2 & E3 & E4).
      apply appended_superseded in Hs as [Hs|[Hs _]]; [|apply E4; congruence].
      rewrite superseded_supersede_slot in Hs. auto.
Qed.

(** The newest record is not superseded. *)
Lemma stored_claim_current record next l :
  records_ok next l -> superseded (appended record next l) (stored_claim record next) = false.
Proof.
  intros [_ H2 _]. destruct (superseded _ _) eqn:E; [|done]. exfalso.
  unfold superseded in E. apply existsb_exists in E as (o & Ho%list_elem_of_In & Ho2). bsimpl. cbn in *.
  rewrite Forall_forall in H2. apply elem_of_appended in Ho as [->|(r0 & Hr & ->)]; cbn in *; [lia|].
  destruct (supersede_slot_fields (slot_of (cr_source record)) r0) as (_ & _ & E2 & _). rewrite E2 in *.
  specialize (H2 r0 Hr). lia.
Qed.

(** The state in which [store_record] runs its final eviction. *)
Definition appended_state (record : CapabilityRecord) (st : Registry) : Registry :=
  st <| r_keys ::= alter (fun key => key <| ks_records ::= fun l =>
                     map (supersede_slot (slot_of (cr_source record))) l ++ [stored_claim record (r_next_serial st)] |>)
                     (key_id record) |>
     <| r_next_serial ::= u64_succ |>
     <| r_global_order ::= fun order => order ++ [mk_GlobalEntry (key_id record) (r_next_serial st)] |>
     <| r_evidence_count ::= u64_succ |>.

Lemma store_record_eq record st : store_record record st = evict_if_needed_locked (appended_state record st).
Proof. done. Qed.

Lemma alter_some {K V} `{Countable K} (f : V -> V) (k : K) (m : gmap K V) v :
  m !! k = Some v -> alter f k m = <[k := f v]> m.
Proof.
  intros Hk. apply map_eq. intros i. destruct (decide (k = i)) as [<-|Hne].
  - rewrite lookup_alter_eq, lookup_insert_eq, Hk. done.
  - by rewrite lookup_alter_ne, lookup_insert_ne.
Qed.

Lemma appended_state_ok n record key st d :
  evidence_ok n st -> n + 1 < u64_modulus -> r_evidence_count st < max_evidence_history (r_limits st) ->
  r_keys st !! key_id record = Some key -> r_devices st !! cr_device record = Some d ->
  stored_ok (key_id record) key (ds_generation d) (stored_claim record (r_next_serial st)) ->
  (forall s, r_schemas st !! ks_schema key = Some s -> value_typed (r_limits st) s record) ->
  evidence_ok (n + 1) (appended_state record st) /\
  r_keys (appended_state record st) !! key_id record =
    Some (key <| ks_records := appended record (r_next_serial st) (ks_records key) |>).
Proof.
  intros Hok Hn Hroom Hk Hd Hnew Hty. set (key' := key <| ks_records := appended record (r_next_serial st) (ks_records key) |>).
  assert (Hkeys : r_keys (appended_state record st) = <[key_id record := key']> (r_keys st))
    by (cbn; by rewrite (alter_some _ _ _ _ Hk)).
  split; [|rewrite Hkeys; apply lookup_insert_eq].
  assert (Hctx : context_grows st (appended_state record st)).
  { split; cbn; [by eauto| done| |done]. rewrite u64_succ_small; [lia|]. destruct Hok. lia. }
  pose proof (record_total_insert (r_keys st) (key_id record) key key' Hk) as Ht.
  assert (Hlen : lengthN (ks_records key') = lengthN (ks_records key) + 1).
  { cbn. unfold appended, lengthN. rewrite length_app, length_map. cbn. lia. }
  destruct Hok. assert (Hs1 : u64_succ (r_next_serial st) = r_next_serial st + 1) by (apply u64_succ_small; lia).
  assert (Hs2 : u64_succ (r_evidence_count st) = r_evidence_count st + 1) by (apply u64_succ_small; lia).
  split; unfold index_ok; rewrite ?Hkeys; cbn; rewrite ?Hs1, ?Hs2; try done; try lia.
  - intros d' c. rewrite <- (eo_index0 d' c). destruct (decide (key_id record = (d', c))) as [<-|Hne].
    + rewrite lookup_insert_eq, Hk. split; intros _; by eexists.
    + by rewrite lookup_insert_ne.
  - apply map_Forall_insert_2.
    + destruct (eo_keys0 _ _ Hk) as [(d2 & Hd2 & Hf) k2 k3 k4]. cbn in Hd2.
      assert (d2 = d) as -> by congruence. split; cbn.
      * exists d. split; [done|]. apply Forall_forall. intros r [->|(r0 & Hr & ->)]%elem_of_appended.
        -- by eapply stored_ok_key; [| | |exact Hnew].
        -- rewrite Forall_forall in Hf. specialize (Hf r0 Hr).
           destruct (supersede_slot_fields (slot_of (cr_source record)) r0) as (E0 & E1 & _).
           destruct Hf. by split; rewrite ?E0, ?E1.
      * destruct k2 as (s & Hs & Hc & Htyped). exists s. split; [done|]. split; [done|].
        apply Forall_forall. intros r [->|(r0 & Hr & ->)]%elem_of_appended; [by apply Hty|].
        destruct (supersede_slot_fields (slot_of (cr_source record)) r0) as (E0 & _). rewrite E0.
        rewrite Forall_forall in Htyped. by apply Htyped.
      * lia.
      * rewrite Hs1. by apply records_ok_appended.
    + eapply map_Forall_impl; [exact eo_keys0|]. intros k2 key2. apply key_ok_grows; [done|lia].
  - unfold sizeN in *. rewrite map_size_insert_Some; [done|by eexists].
Qed.

(** A stored claim is retained by its own eviction pass, unsuperseded. *)
Lemma store_record_spec n record key st d :
  evidence_ok n st -> n + 1 < u64_modulus -> r_evidence_count st < max_evidence_history (r_limits st) ->
  r_keys st !! key_id record = Some key -> r_devices st !! cr_device record = Some d ->
  stored_ok (key_id record) key (ds_generation d) (stored_claim record (r_next_serial st)) ->
  (forall s, r_schemas st !! ks_schema key = Some s -> value_typed (r_limits st) s record) ->
  let st' := store_record record st in
  evidence_ok (n + 1) st' /\ same_context st st' /\
  keys_evicted (<[key_id record := key <| ks_records := appended record (r_next_serial st) (ks_records key) |>]> (r_keys st))
    (r_keys st') /\
  exists key', r_keys st' !! key_id record = Some key' /\ stored_claim record (r_next_serial st) ∈ ks_records key'.
Proof.
  intros Hok Hn Hroom Hk Hd Hnew Hty. cbn zeta. rewrite store_record_eq.
  destruct (appended_state_ok n record key st d) as [Hok' Hk']; try done.
  pose proof (evict_if_needed_evicts (appended_state record st)) as Hev. split; [by eapply evidence_ok_evicts|].
  split; [by etrans; [|by apply evicts_context]|].
  assert (Hkeys : r_keys (appended_state record st) = <[key_id record := key <| ks_records := appended record (r_next_serial st) (ks_records key) |>]> (r_keys st))
    by (cbn; by rewrite (alter_some _ _ _ _ Hk)).
  split; [rewrite <- Hkeys; apply Hev|].
  destruct (keys_evicted_some_l _ _ _ _ (evs_keys _ _ Hev) Hk') as (key' & Hk2 & He). exists key'. split; [done|].
  eapply evicted_keeps; [apply He| |].
  - cbn. apply elem_of_appended. by left.
  - cbn. apply stored_claim_current. destruct Hok. by destruct (eo_keys0 _ _ Hk).
Qed.

Lemma current_winner_in st device capability key w :
  r_keys st !! (di_id (ds_identity device), capability) = Some key ->
  current_winner_record st device capability = Some w ->
  w ∈ ks_records key /\ compute_staleness_locked st w device (ds_generation device) true = flag_None.
Proof.
  intros Hk. unfold current_winner_record. rewrite Hk.
  assert (H : forall l acc,
    (forall w, acc = Some w -> w ∈ ks_records key /\ compute_staleness_locked st w device (ds_generation device) true = flag_None) ->
    l ⊆ ks_records key ->
    forall w, foldl (winner_step st device) acc l = Some w ->
      w ∈ ks_records key /\ compute_staleness_locked st w device (ds_generation device) true = flag_None).
  { induction l as [|x l IH]; intros acc Hacc Hl v; cbn [foldl]; [apply Hacc|]. apply IH; [|set_solver].
    intros u. unfold winner_step. destruct (sr_persistent x !=? flag_None); [apply Hacc|].
    destruct (compute_staleness_locked st x device (ds_generation device) true ==? flag_None) eqn:E; cbn [negb]; [|apply Hacc].
    apply eqb_eq in E.
    assert (Hx : forall u, Some x = Some u -> u ∈ ks_records key /\
      compute_staleness_locked st u device (ds_generation device) true = flag_None)
      by (intros ? [= <-]; split; [set_solver|done]).
    destruct acc as [a|]; [|apply Hx]. destruct (_ <? _)%Z; [apply Hx|]. destruct (_ && _); [apply Hx|apply Hacc]. }
  by apply H.
Qed.

Lemma assign_generation_spec n winner key record :
  gen_value (ks_generation key) <= n -> n + 1 < u64_modulus ->
  (forall w, winner = Some w -> gen_valid (cr_capability_generation (sr_record w)) = true /\
     gen_value (cr_capability_generation (sr_record w)) <= gen_value (ks_generation key)) ->
  let g := assign_generation winner key record in
  gen_valid g = true /\ gen_value g <= N.max 1 (gen_value (ks_generation key) + 1).
Proof.
  intros Hn Hb Hw. cbn zeta. unfold assign_generation.
  set (opened := if gen_valid (ks_generation key) then _ else _).
  assert (Ho : gen_valid opened = true /\ gen_value opened <= N.max 1 (gen_value (ks_generation key) + 1)).
  { subst opened. destruct (gen_valid (ks_generation key)).
    - rewrite gen_valid_spec, gen_next_value by lia. lia.
    - split; [done|]. cbn. lia. }
  destruct winner as [w|]; [|done]. destruct (_ && _); [|done]. destruct (Hw w eq_refl) as [Hv Hl].
  rewrite Hv. split; [done|lia].
Qed.

(** The key after [record_claim] raised its generation. *)
Definition claimed_key (record : CapabilityRecord) (key : KeyState) : KeyState :=
  key <| ks_generation ::= fun g => if negb (gen_valid g) || gen_ltb g (cr_capability_generation record)
                                    then cr_capability_generation record else g |>
      <| ks_has_evidence := true |>.

Lemma claimed_key_generation record key :
  gen_valid (cr_capability_generation record) = true ->
  gen_value (ks_generation key) <= gen_value (ks_generation (claimed_key record key)) /\
  gen_value (cr_capability_generation record) <= gen_value (ks_generation (claimed_key record key)) /\
  gen_value (ks_generation (claimed_key record key)) <=
    N.max (gen_value (ks_generation key)) (gen_value (cr_capability_generation record)).
Proof.
  intros Hv. cbn. unfold gen_valid, gen_ltb in *. bsimpl.
  destruct (N.eqb_spec (gen_value (ks_generation key)) 0) as [E|E]; cbn [negb orb]; [lia|].
  destruct (N.ltb_spec (gen_value (ks_generation key)) (gen_value (cr_capability_generation record))); lia.
Qed.

Definition claim_with_generation (st : Registry) (device : DeviceState) (key : KeyState) (record : CapabilityRecord) :
    CapabilityRecord :=
  record <| cr_capability_generation :=
    assign_generation (current_winner_record st device (cr_capability record)) key record |>.

Lemma record_claim_spec n device key record st :
  evidence_ok n st -> devices_ok n st -> n + 2 < u64_modulus ->
  r_keys st !! key_id record = Some key -> ks_schema key = cr_schema record ->
  r_devices st !! cr_device record = Some device -> cr_device_generation record = ds_generation device ->
  provenance_allowed_for (provenance (cr_source record)) (source_class (cr_source record)) = true ->
  (forall s, r_schemas st !! cr_schema record = Some s -> value_typed (r_limits st) s record) ->
  let st' := (record_claim device key record st).1 in
  let r := (record_claim device key record st).2 in
  evidence_ok (n + 2) st' /\ same_context st st' /\
  ((ar_code r = ApplyCode.RejectedBackpressure /\ ar_mutated r = false /\
    keys_evicted (<[key_id record := claimed_key (claim_with_generation st device key record) key]> (r_keys st)) (r_keys st')) \/
   (ar_code r = ApplyCode.Accepted /\ ar_mutated r = true /\
    exists key' stored, r_keys st' !! key_id record = Some key' /\ stored ∈ ks_records key' /\
      sr_record stored = claim_with_generation st device key record /\ sr_persistent stored = flag_None)).
Proof.
  intros Hok Hdok Hn Hk Hsch Hd Hdg Hprov Hty. unfold record_claim. cbv zeta beta.
  fold (claim_with_generation st device key record). set (claim := claim_with_generation st device key record).
  fold (claimed_key claim key). change (cr_device record, cr_capability record) with (key_id record).
  destruct (Hdok _ _ Hd) as (Hdi & _ & _).
  assert (Hwin : forall w, current_winner_record st device (cr_capability record) = Some w ->
    gen_valid (cr_capability_generation (sr_record w)) = true /\
    gen_value (cr_capability_generation (sr_record w)) <= gen_value (ks_generation key)).
  { intros w Hw. apply (current_winner_in _ _ _ key) in Hw as [Hin _]; [|by rewrite Hdi].
    destruct (eo_keys n st Hok _ _ Hk) as [(d & _ & Hf) _ _ _]. rewrite Forall_forall in Hf. by destruct (Hf w Hin). }
  destruct (eo_keys n st Hok _ _ Hk) as [(d0 & Hd0 & Hf) Hks Hkg Hkr].
  cbn in Hd0. assert (d0 = device) as -> by congruence.
  destruct (assign_generation_spec n (current_winner_record st device (cr_capability record)) key record Hkg ltac:(lia) Hwin) as [Hgv Hgl].
  change (assign_generation _ key record) with (cr_capability_generation claim) in Hgv, Hgl.
  destruct (claimed_key_generation claim key Hgv) as (Hg1 & Hg2 & Hg3).
  set (st1 := st <| r_keys ::= insert (key_id record) (claimed_key claim key) |>).
  assert (Hok1 : evidence_ok (n + 1) st1).
  { apply (evidence_ok_update (n + 1) st _ key); [apply (evidence_ok_weaken n); [lia|done]|done|done|]. split.
    - exists device. split; [done|]. eapply Forall_impl; [exact Hf|]. intros s. by apply stored_ok_key.
    - done.
    - lia.
    - done. }
  assert (Hk1 : r_keys st1 !! key_id record = Some (claimed_key claim key)) by apply lookup_insert_eq.
  set (st2 := if max_evidence_history (r_limits st1) <=? r_evidence_count st1 then evict_if_needed_locked st1 else st1).
  assert (Hev : evicts st1 st2) by (subst st2; destruct (_ <=? _); [apply evict_if_needed_evicts|done]).
  assert (Hctx : same_context st st2) by (etrans; [|by apply evicts_context]; by repeat split).
  pose proof (evidence_ok_evicts _ _ _ Hev Hok1) as Hok2.
  destruct (_ <=? r_evidence_count st2) eqn:Hfull; cbn [fst snd].
  - split; [by apply (evidence_ok_weaken (n + 1)); [lia|]|]. split; [done|]. left. split; [done|]. split; [done|]. apply Hev.
  - bsimpl.
    destruct (keys_evicted_some_l _ _ _ _ (evs_keys _ _ Hev) Hk1) as (key2 & Hk2 & He2).
    assert (Hd2 : r_devices st2 !! cr_device record = Some device) by (destruct Hctx as (_ & _ & _ & -> & _); done).
    assert (Hks2 : ks_generation key2 = ks_generation (claimed_key claim key)) by apply He2.
    assert (Hsch2 : ks_schema key2 = ks_schema key) by apply He2.
    assert (Hnew : stored_ok (key_id claim) key2 (ds_generation device) (stored_claim claim (r_next_serial st2))).
    { split; cbn; try done; [congruence|by rewrite Hks2|by rewrite Hdg]. }
    destruct (store_record_spec (n + 1) claim key2 st2 device) as (S1 & S2 & S3 & key' & Hk' & Hin); try done; [lia| |].
    { intros s. destruct Hctx as (-> & -> & _). rewrite Hsch2, Hsch. apply Hty. }
    split; [by replace (n + 2) with (n + 1 + 1) by lia|]. split; [by etrans|]. right. split; [done|]. split; [done|].
    exists key', (stored_claim claim (r_next_serial st2)). done.
Qed.

Lemma open_key_context record st : same_context st (open_key record st).1.
Proof. unfold open_key. destruct (_ !! _); [done|]. destruct (_ <=? _); [by repeat split|]. by destruct (_ <=? _); repeat split. Qed.

Lemma record_claim_context device key record st : same_context st (record_claim device key record st).1.
Proof.
  unfold record_claim. cbv zeta beta. set (claim := record <| cr_capability_generation := _ |>).
  match goal with |- context [evict_if_needed_locked ?s] => set (st1 := s) end.
  set (st2 := if max_evidence_history (r_limits st1) <=? r_evidence_count st1 then evict_if_needed_locked st1 else st1).
  assert (H2 : same_context st st2).
  { subst st2. destruct (_ <=? _); [|by repeat split].
    etrans; [|apply evicts_context, evict_if_needed_evicts]. by repeat split. }
  destruct (max_evidence_history (r_limits st2) <=? r_evidence_count st2); [done|]. cbn [fst]. rewrite store_record_eq.
  etrans; [exact H2|]. etrans; [|apply evicts_context, evict_if_needed_evicts]. by repeat split.
Qed.

Lemma apply_capability_context p st : same_context st (apply_capability_locked p st).1.
Proof.
  unfold apply_capability_locked. destruct (screen_capability _ _) as [r|[record d]]; [done|].
  pose proof (open_key_context record st) as Ho. destruct (open_key record st) as [st1 [r|key]]; [done|]. cbn in Ho.
  destruct (_ !=? _); [done|]. destruct (_ && _ && _); [done|]. destruct (_ && _ && _); [done|].
  assert (Hr : same_context st (record_claim d key (stamp_record d record) st1).1)
    by (etrans; [exact Ho|apply record_claim_context]).
  destruct (slot_latest _ _); [by destruct (same_observation _ _)|exact Hr].
Qed.

Lemma screen_capability_spec st record record' d :
  screen_capability st record = inr (record', d) ->
  exists s v, r_schemas st !! cr_schema record = Some s /\ cs_capability s = cr_capability record /\
    normalize_value (r_limits st) (cr_value record) = Value v /\ record' = record <| cr_value := v |> /\
    r_devices st !! cr_device record = Some d /\ cr_device_generation record = ds_generation d /\
    cr_device_boot record = ds_boot d /\
    (value_empty (cr_value record) = false -> value_kind (cr_value record) = cs_value_kind s).
Proof.
  unfold screen_capability, find_schema_locked, find_device_locked.
  destruct (r_schemas st !! cr_schema record) as [s|] eqn:Hs; [|done].
  destruct (_ !=? _) eqn:E1; [done|]. destruct (negb (value_empty _) && _) eqn:E2; [done|].
  destruct (value_empty _ && _ && _ && _); [done|]. destruct (normalize_value _ _) as [v|] eqn:Hv; [|done].
  cbn. destruct (r_devices st !! cr_device record) as [d'|] eqn:Hd; [|done].
  destruct (cr_device_generation record !=? _) eqn:E3; [done|]. destruct (cr_device_boot record !=? _) eqn:E4; [done|].
  intros [= <- <-]. bsimpl. exists s, v. split_and!; try done. intros Hne. rewrite Hne in E2. cbn in E2. by bsimpl.
Qed.

Lemma screen_capability_rejects st record rejection :
  screen_capability st record = inl rejection -> accepted rejection = false /\ ar_mutated rejection = false.
Proof. unfold screen_capability. intros H. by split_ifs_in H; simplify_eq. Qed.

(** No record appeared, and those that disappeared were superseded. *)
Definition no_new_evidence (st st' : Registry) : Prop :=
  forall k,
    (forall key', r_keys st' !! k = Some key' -> ks_records key' = [] \/
       exists key, r_keys st !! k = Some key /\ evicted (ks_records key) (ks_records key) (ks_records key')) /\
    (forall key, r_keys st !! k = Some key ->
       exists key', r_keys st' !! k = Some key' /\ evicted (ks_records key) (ks_records key) (ks_records key')).

Lemma no_new_evidence_same_keys st st' : r_keys st' = r_keys st -> no_new_evidence st st'.
Proof. intros E k. rewrite E. split; intros key Hk; [right|]; exists key; (split; [done|apply evicted_refl]). Qed.

Lemma no_new_evidence_open st st1 st' :
  (forall k key, r_keys st !! k = Some key -> r_keys st1 !! k = Some key) ->
  (forall k key, r_keys st1 !! k = Some key -> ks_records key <> [] -> r_keys st !! k = Some key) ->
  no_new_evidence st1 st' -> no_new_evidence st st'.
Proof.
  intros H1 H2 H k. destruct (H k) as [Ha Hb]. split; [|auto].
  intros key' Hk'. destruct (Ha key' Hk') as [?|(key & Hk & He)]; [by left|].
  destruct (ks_records key) as [|r l] eqn:Hr.
  - left. by inversion He.
  - right. exists key. rewrite Hr. split; [|done]. apply H2; [done|by rewrite Hr].
Qed.

Lemma no_new_evidence_evicted st st' k key key1 :
  r_keys st !! k = Some key -> ks_records key1 = ks_records key ->
  keys_evicted (<[k := key1]> (r_keys st)) (r_keys st') -> no_new_evidence st st'.
Proof.
  intros Hk Hr He i. split.
  - intros key' Hi. right. destruct (keys_evicted_some _ _ _ _ He Hi) as (key2 & Hk2 & E2).
    destruct (decide (k = i)) as [<-|Hne].
    + rewrite lookup_insert_eq in Hk2. injection Hk2 as <-. exists key. rewrite <- Hr. split; [done|apply E2].
    + rewrite lookup_insert_ne in Hk2 by done. exists key2. split; [done|apply E2].
  - intros key2 Hi. destruct (decide (k = i)) as [<-|Hne].
    + destruct (keys_evicted_some_l _ _ k key1 He) as (key' & Hk' & E'); [apply lookup_insert_eq|].
      exists key'. split; [done|]. rewrite Hk in Hi. injection Hi as <-. rewrite <- Hr. apply E'.
    + destruct (keys_evicted_some_l _ _ i key2 He) as (key' & Hk' & E'); [by rewrite lookup_insert_ne|].
      exists key'. split; [done|apply E'].
Qed.

(** What an accepted claim looks like once stored. *)
Definition claim_recorded (p : Publication) (st st' : Registry) : Prop :=
  exists d key stored v, r_devices st !! cr_device (pb_capability p) = Some d /\
    r_keys st' !! key_id (pb_capability p) = Some key /\ stored ∈ ks_records key /\
    sr_persistent stored = flag_None /\
    normalize_value (r_limits st) (cr_value (pb_capability p)) = Value v /\
    exists g, sr_record stored =
      stamp_record d (pb_capability p <| cr_value := v |>) <| cr_capability_generation := g |> /\
      cr_device_generation (pb_capability p) = ds_generation d /\ cr_device_boot (pb_capability p) = ds_boot d.

Lemma apply_capability_spec n p st :
  evidence_ok n st -> devices_ok n st -> n + 2 < u64_modulus ->
  provenance_allowed_for (provenance (cr_source (pb_capability p))) (source_class (cr_source (pb_capability p))) = true ->
  let st' := (apply_capability_locked p st).1 in
  let r := (apply_capability_locked p st).2 in
  evidence_ok (n + 2) st' /\ same_context st st' /\
  (ar_mutated r = false -> no_new_evidence st st') /\
  (ar_mutated r = true -> ar_code r = ApplyCode.Accepted /\ claim_recorded p st st').
Proof.
  intros Hok Hdok Hn Hprov. cbn zeta. unfold apply_capability_locked.
  assert (Hkeep : forall r : ApplyResult, ar_mutated r = false ->
    evidence_ok (n + 2) st /\ same_context st st /\ (ar_mutated r = false -> no_new_evidence st st) /\
    (ar_mutated r = true -> ar_code r = ApplyCode.Accepted /\ claim_recorded p st st)).
  { intros r Hr. split; [by apply (evidence_ok_weaken n); [lia|]|]. split; [done|].
    split; [by intros _; apply no_new_evidence_same_keys|]. congruence. }
  destruct (screen_capability st (pb_capability p)) as [rejection|[record d]] eqn:Hsc.
  { apply screen_capability_rejects in Hsc as [_ Hm]. by apply Hkeep. }
  apply screen_capability_spec in Hsc as (s & v & Hs & Hc & Hv & -> & Hd & Hg & Hb & Hkind).
  set (record := pb_capability p <| cr_value := v |>).
  destruct (open_key_spec n record st d s Hok Hd Hs Hc) as (Hok1 & Hctx1 & Hser & Hk1 & Hk2 & Hout).
  destruct (open_key record st) as [st1 [rejection|key]] eqn:Hopen; cbn [fst snd] in *.
  { destruct Hout as [Ha Hkeys]. split; [by apply (evidence_ok_weaken n); [lia|]|]. split; [done|].
    split; [by intros _; apply no_new_evidence_same_keys|].
    intros Hm. exfalso. unfold open_key in Hopen. by split_ifs_in Hopen; simplify_eq. }
  assert (Hkeep1 : forall r : ApplyResult, ar_mutated r = false ->
    evidence_ok (n + 2) st1 /\ same_context st st1 /\ (ar_mutated r = false -> no_new_evidence st st1) /\
    (ar_mutated r = true -> ar_code r = ApplyCode.Accepted /\ claim_recorded p st st1)).
  { intros r Hr. split; [by apply (evidence_ok_weaken n); [lia|]|]. split; [done|]. split; [|congruence].
    intros _. eapply no_new_evidence_open; [done|done|]. by apply no_new_evidence_same_keys. }
  destruct (ks_schema key !=? cr_schema record) eqn:Hsch; [by apply Hkeep1|]. apply negb_false_iff, eqb_eq in Hsch.
  destruct (gen_valid _ && _ && _); [by apply Hkeep1|]. destruct (gen_valid _ && _ && _); [by apply Hkeep1|].
  assert (Hclaim : let st' := (record_claim d key (stamp_record d record) st1).1 in
    let r := (record_claim d key (stamp_record d record) st1).2 in
    evidence_ok (n + 2) st' /\ same_context st st' /\ (ar_mutated r = false -> no_new_evidence st st') /\
    (ar_mutated r = true -> ar_code r = ApplyCode.Accepted /\ claim_recorded p st st')).
  { assert (Hd1 : r_devices st1 = r_devices st) by apply Hctx1.
    destruct (record_claim_spec n d key (stamp_record d record) st1) as (R1 & R2 & R3); try done.
    - unfold devices_ok. by rewrite Hd1.
    - by rewrite Hd1.
    - destruct Hctx1 as (-> & -> & _). intros s'. cbn. rewrite Hs. intros [= <-].
      split; cbn; [by eapply normalize_value_validated|]. unfold value_empty in *.
      by rewrite (normalize_value_kind _ _ _ Hv).
    - cbn zeta. split; [done|]. split; [by etrans|]. split.
      + intros Hm. destruct R3 as [(_ & _ & Hev)|(_ & Hm' & _)]; [|congruence].
        eapply no_new_evidence_open; [done|done|]. by eapply no_new_evidence_evicted; [exact Hout| |exact Hev].
      + intros Hm. destruct R3 as [(_ & Hm' & _)|(Hcode & _ & key' & stored & Hk' & Hin & Hrec & Hp)]; [congruence|].
        split; [done|]. exists d, key', stored, v. split_and!; try done. by eexists. }
  destruct (slot_latest _ _) as [latest|]; [|exact Hclaim].
  destruct (same_observation _ _); [by apply Hkeep1|exact Hclaim].
Qed.

(* ===================================================================== *)
(** ** Eviction and answers *)

Lemma compute_staleness_same st st' stored device target cur :
  r_publishers st' = r_publishers st -> r_epoch st' = r_epoch st ->
  compute_staleness_locked st' stored device target cur = compute_staleness_locked st stored device target cur.
Proof.
  intros Hp He. unfold compute_staleness_locked, publisher_is_authoritative. by rewrite Hp, He.
Qed.

Lemma evicted_candidates st st' device target cur all key key' :
  r_publishers st' = r_publishers st -> r_epoch st' = r_epoch st ->
  Forall (fun r => superseded all r = true -> sr_persistent r <> flag_None) (ks_records key) ->
  evicted all (ks_records key) (ks_records key') ->
  current_candidates (flagged_records st' device target cur key') =
  current_candidates (flagged_records st device target cur key).
Proof.
  intros Hp He. unfold flagged_records. generalize (ks_records key) as l, (ks_records key') as l'. intros l l' Hf Hev.
  induction Hev as [|r l l' Hev IH|r l l' Hs Hev IH]; [done| |]; inversion Hf as [|? ? Hr Hf']; subst.
  - cbn. rewrite (compute_staleness_same st st') by done. specialize (IH Hf'). unfold current_candidates in IH.
    by rewrite IH.
  - rewrite IH by done. cbn. destruct (N.eqb_spec (compute_staleness_locked st r device target cur) flag_None) as [E|E];
      [|done]. exfalso. apply (Hr Hs). by apply staleness_none_current in E as [].
Qed.

Lemma evict_history_exhausts order st :
  let st' := evict_history order st in
  r_limits st' = r_limits st /\
  (r_evidence_count st' < max_evidence_history (r_limits st) \/ r_global_order st' = []).
Proof.
  cbn zeta. revert st. induction order as [|front order IH]; intros st; cbn; [split; [done|by right]|].
  destruct (_ <=? _) eqn:E; bsimpl; [|split; [done|by left]].
  assert (Hl : r_limits (evict_front front st) = r_limits st).
  { by destruct (evicts_context _ _ (evict_front_evicts front st)) as [-> _]. }
  destruct (IH (evict_front front st)) as [-> H]. rewrite Hl in *. done.
Qed.

Definition key_within (cap : N) (key : KeyState) : Prop :=
  lengthN (ks_records key) <= cap \/ Forall (fun r => superseded (ks_records key) r = false) (ks_records key).

Lemma key_within_evicted cap key key' : key_evicted key key' -> key_within cap key -> key_within cap key'.
Proof.
  intros [_ _ _ He] [H|H]; [left; apply evicted_length in He; lia|]. right.
  pose proof (sublist_subseteq _ _ (evicted_sublist _ _ _ He)) as Hs. rewrite Forall_forall in H |- *.
  intros r Hr. destruct (superseded _ r) eqn:E; [|done]. apply (superseded_mono _ _ r Hs) in E.
  specialize (H r (Hs r Hr)). congruence.
Qed.

Lemma evict_if_needed_bounds st :
  let st' := evict_if_needed_locked st in
  (r_evidence_count st' < max_evidence_history (r_limits st) \/ r_global_order st' = []) /\
  map_Forall (fun _ key => key_within (per_key_cap (r_limits st)) key) (r_keys st').
Proof.
  cbn zeta. unfold evict_if_needed_locked.
  destruct (evict_history_exhausts (r_global_order (shrink_keys st)) (shrink_keys st)) as [_ H]. split.
  - destruct H as [H|H]; [by left|right]. unfold trim_order. cbn -[evict_history shrink_keys]. by rewrite H, drop_nil.
  - intros k key Hk. change (r_keys (evict_history (r_global_order (shrink_keys st)) (shrink_keys st)) !! k = Some key) in Hk.
    destruct (keys_evicted_some _ _ _ _ (evs_keys _ _ (evict_history_evicts _ _)) Hk) as (key0 & Hk0 & He).
    eapply key_within_evicted; [exact He|]. cbn in Hk0. rewrite lookup_fmap in Hk0.
    destruct (r_keys st !! k) as [key1|]; [|done]. injection Hk0 as <-. unfold key_within. cbn. apply shrink_records_spec.
Qed.

(** The eviction queue is empty, the history full and no key above its cap. *)
Record exhausted (st : Registry) : Prop := {
  ex_queue : r_global_order st = [];
  ex_full : max_evidence_history (r_limits st) <= r_evidence_count st;
  ex_width : r_evidence_count st < u64_modulus;
  ex_keys : map_Forall (fun _ key => lengthN (ks_records key) <= per_key_cap (r_limits st)) (r_keys st)
}.

Lemma shrink_records_small cap l : lengthN l <= cap -> shrink_records cap l = l.
Proof.
  intros H. unfold shrink_records. destruct (length l); [done|]. cbn.
  by rewrite (proj2 (N.ltb_ge _ _) H).
Qed.

Lemma set_keys_id st keys : keys = r_keys st -> st <| r_keys := keys |> = st.
Proof. intros ->. by destruct st. Qed.

Lemma set_count_id st g : g (r_evidence_count st) = r_evidence_count st -> st <| r_evidence_count ::= g |> = st.
Proof. intros H. destruct st. cbv [set]. cbn in *. by rewrite H. Qed.

Lemma set_order_id st : r_global_order st = [] -> st <| r_global_order := [] |> = st.
Proof. intros H. destruct st. cbv [set]. cbn in *. by rewrite H. Qed.

Lemma evict_exhausted st : exhausted st -> evict_if_needed_locked st = st.
Proof.
  intros [H1 H2 H3 H4]. unfold evict_if_needed_locked.
  assert (Hk : (fun key => key <| ks_records ::= shrink_records (per_key_cap (r_limits st)) |>) <$> r_keys st = r_keys st).
  { apply map_eq. intros k. rewrite lookup_fmap. destruct (r_keys st !! k) as [key|] eqn:E; [|done]. cbn -[shrink_records].
    pose proof (shrink_records_small _ _ (H4 k key E)) as Hs. destruct key as [a b c l].
    exact (f_equal (fun l' => Some (mk_KeyState a b c l')) Hs). }
  assert (Hs : shrink_keys st = st).
  { unfold shrink_keys. rewrite Hk, N.sub_diag, set_keys_id by done. apply set_count_id. rewrite u64_sub_exact; lia. }
  rewrite Hs, H1. cbn [evict_history]. unfold trim_order.
  transitivity (st <| r_global_order := [] |>); [|by apply set_order_id].
  cbv [set]. cbn. by rewrite drop_nil.
Qed.

Lemma record_claim_exhausted device key record st :
  r_keys st !! key_id record = Some key -> exhausted st ->
  let out := record_claim device key record st in
  ar_code out.2 = ApplyCode.RejectedBackpressure /\ ar_mutated out.2 = false /\ exhausted out.1.
Proof.
  intros Hk [H1 H2 H3 H4]. cbv zeta. unfold record_claim. cbv zeta beta.
  match goal with |- context [evict_if_needed_locked ?s] => set (st1 := s) end.
  assert (He : exhausted st1).
  { split; [done|done|done|]. apply map_Forall_insert_2; [exact (H4 _ _ Hk)|done]. }
  change (max_evidence_history (r_limits st1) <=? r_evidence_count st1) with
    (max_evidence_history (r_limits st) <=? r_evidence_count st).
  rewrite (proj2 (N.leb_le _ _) H2), (evict_exhausted st1 He).
  change (max_evidence_history (r_limits st1) <=? r_evidence_count st1) with
    (max_evidence_history (r_limits st) <=? r_evidence_count st).
  by rewrite (proj2 (N.leb_le _ _) H2).
Qed.

Lemma open_key_exhausted record st : exhausted st -> exhausted (open_key record st).1.
Proof.
  intros [H1 H2 H3 H4]. unfold open_key. destruct (_ !! _); [done|]. destruct (_ <=? _); [done|].
  destruct (_ <=? _); [done|]. split; try done. apply map_Forall_insert_2; [apply N.le_0_l|done].
Qed.

Lemma open_key_present record st :
  match (open_key record st).2 with
  | inl rejection => ar_mutated rejection = false
  | inr key => r_keys (open_key record st).1 !! key_id record = Some key
  end.
Proof.
  unfold open_key, key_id. destruct (_ !! _) eqn:E; [done|]. destruct (_ <=? _); [done|].
  destruct (_ <=? _); [done|]. apply lookup_insert_eq.
Qed.

(** An exhausted registry accepts no capability evidence, ever. *)
Lemma apply_capability_exhausted p st :
  exhausted st ->
  ar_mutated (apply_capability_locked p st).2 = false /\ exhausted (apply_capability_locked p st).1.
Proof.
  intros He. unfold apply_capability_locked.
  destruct (screen_capability _ _) as [r|[record d]] eqn:Hs; [by apply screen_capability_rejects in Hs as [_ ?]|].
  pose proof (open_key_exhausted record st He) as Ho. pose proof (open_key_present record st) as Hp.
  destruct (open_key record st) as [st1 [r|key]]; cbn [fst snd] in *; [done|].
  destruct (_ !=? _); [done|]. destruct (_ && _ && _); [done|]. destruct (_ && _ && _); [done|].
  destruct (record_claim_exhausted d key (stamp_record d record) st1 Hp Ho) as (_ & Hm & Hx).
  destruct (slot_latest _ _); [by destruct (same_observation _ _)|done].
Qed.

(** C34: eviction never removes the newest record of a source slot and never
    changes an answer that is backed by current evidence: which keys are
    known, whether the answer is current and, if it is, what it declares and
    concludes are the same before and after. After the pass either the
    history is below its bound or the eviction queue has been exhausted, and
    every key holds at most its cap of records or no superseded one. *)
Theorem eviction_preserves_answers n st device capability pinned environment (Hok : evidence_ok n st) :
  let st' := evict_if_needed_locked st in
  let r := resolve_locked st device capability pinned environment in
  let r' := resolve_locked st' device capability pinned environment in
  evidence_ok n st' /\
  (r_evidence_count st' < max_evidence_history (r_limits st) \/ r_global_order st' = []) /\
  map_Forall (fun _ key => key_within (per_key_cap (r_limits st)) key) (r_keys st') /\
  (forall k key stored, r_keys st !! k = Some key -> stored ∈ ks_records key -> superseded (ks_records key) stored = false ->
     exists key', r_keys st' !! k = Some key' /\ stored ∈ ks_records key') /\
  rc_known r' = rc_known r /\ rc_current r' = rc_current r /\
  (rc_current r = true ->
     rc_declared_support r' = rc_declared_support r /\ rc_value r' = rc_value r /\ rc_conditions r' = rc_conditions r /\
     rc_contradiction r' = rc_contradiction r /\ rc_effective_support r' = rc_effective_support r).
Proof.
  cbn zeta. pose proof (evict_if_needed_evicts st) as Hev. set (st' := evict_if_needed_locked st) in *.
  split; [by eapply evidence_ok_evicts|]. split; [apply evict_if_needed_bounds|].
  split; [apply evict_if_needed_bounds|]. split.
  { intros k key stored Hk Hin Hs. destruct (keys_evicted_some_l _ _ _ _ (evs_keys _ _ Hev) Hk) as (key' & Hk' & He).
    exists key'. split; [done|]. by eapply evicted_keeps; [apply He| |]. }
  destruct (evicts_context _ _ Hev) as (Hl & _ & _ & _ & _ & _ & _ & _ & Hq & _ & Hp & He & _).
  unfold resolve_locked.
  assert (Hg : gather_quirks_locked st' device capability environment = gather_quirks_locked st device capability environment)
    by (unfold gather_quirks_locked; by rewrite Hl, Hq). rewrite Hg.
  pose proof (evs_keys _ _ Hev (di_id (ds_identity device), capability)) as Hkk.
  destruct (r_keys st !! _) as [key|] eqn:Hk; destruct (r_keys st' !! _) as [key'|] eqn:Hk'; try by inversion Hkk.
  assert (Hke : key_evicted key key') by by inversion Hkk.
  destruct (eo_keys n st Hok _ _ Hk) as [_ _ _ [_ _ Hf]].
  rewrite (evicted_candidates st st' device _ _ (ks_records key) key key') by (try done; apply Hke).
  destruct (current_candidates _) as [|first rest]; unfold resolve_current, resolve_stale; cbn.
  - by destruct (newest_claim (ks_records key)), (newest_claim (ks_records key')).
  - done.
Qed.

Definition fp8_fleet : Registry := fleet (fp8_record nvml_source SupportState.SupportedNative (VBoolean true)).

Lemma fp8_fleet_devices_ok : devices_ok 2 fp8_fleet.
Proof. apply map_Forall_singleton. split; [done|]. vm_compute. split_and!; done. Qed.

Lemma fp8_fleet_evidence_ok : evidence_ok 2 fp8_fleet.
Proof.
  split; [| |by vm_compute..| |by vm_compute].
  - intros d c. unfold fp8_fleet. cbn. destruct (decide ((gpu, fp8) = (d, c))) as [[= <- <-]|Hne].
    + rewrite !lookup_singleton_eq. split; intros _; [|by eexists]. exists {[fp8]}. split; [done|set_solver].
    + rewrite lookup_singleton_ne by done. split; [by intros []|]. intros (s & Hs & Hc). exfalso.
      apply lookup_singleton_Some in Hs as [<- <-]. apply elem_of_singleton in Hc as ->. done.
  - apply map_Forall_singleton. split.
    + exists gpu_state. split; [done|]. constructor; [|constructor]. by split.
    + exists schema_entry. split; [done|]. split; [done|]. by repeat constructor.
    + by vm_compute.
    + split; [apply NoDup_singleton|repeat constructor|constructor; [|constructor]]. by vm_compute.
  - apply map_Forall_singleton. by vm_compute.
Qed.

Lemma eviction_preserves_answers_witness :
  evidence_ok 2 fp8_fleet /\
  rc_current (resolve_locked (evict_if_needed_locked fp8_fleet) gpu_state fp8 Gen_none ∅) = true.
Proof.
  split; [exact fp8_fleet_evidence_ok|].
  destruct (eviction_preserves_answers 2 fp8_fleet gpu_state fp8 Gen_none ∅ fp8_fleet_evidence_ok)
    as (_ & _ & _ & _ & _ & -> & _).
  vm_compute. reflexivity.
Defined.

(** C35: ingesting a capability publication (already validated, so that its
    provenance is allowed for its source) keeps the invariant of stored
    evidence and touches no device, publisher, quirk, fact or schema. When it
    is accepted as a mutation, the claim is retained, unsuperseded, for the
    device's current generation and boot, with the publisher's support,
    precision, conditions, source and normalised value, and stamped with the
    device's driver, firmware and runtime (identity and generation) and its
    platform generation; otherwise no record is added and only superseded ones
    may disappear. *)
Theorem capability_ingestion_sound n p st
    (Hok : evidence_ok n st) (Hdok : devices_ok n st) (Hn : n + 2 < u64_modulus)
    (Hprov : provenance_allowed_for (provenance (cr_source (pb_capability p)))
               (source_class (cr_source (pb_capability p))) = true) :
  let st' := (apply_capability_locked p st).1 in
  let r := (apply_capability_locked p st).2 in
  evidence_ok (n + 2) st' /\ same_context st st' /\
  (ar_mutated r = false -> no_new_evidence st st') /\
  (ar_mutated r = true -> accepted r = true /\
     exists d key stored, r_devices st !! cr_device (pb_capability p) = Some d /\
       r_keys st' !! key_id (pb_capability p) = Some key /\ stored ∈ ks_records key /\
       sr_persistent stored = flag_None /\
       cr_source (sr_record stored) = cr_source (pb_capability p) /\
       cr_support (sr_record stored) = cr_support (pb_capability p) /\
       cr_conditions (sr_record stored) = cr_conditions (pb_capability p) /\
       normalize_value (r_limits st) (cr_value (pb_capability p)) = Value (cr_value (sr_record stored)) /\
       cr_device_generation (sr_record stored) = ds_generation d /\ cr_device_boot (sr_record stored) = ds_boot d /\
       cr_driver_generation (sr_record stored) = sw_driver_generation (ds_software d) /\
       cr_firmware_generation (sr_record stored) = sw_firmware_generation (ds_software d) /\
       cr_runtime_generation (sr_record stored) = sw_runtime_generation (ds_software d) /\
       cr_platform_generation (sr_record stored) = ds_platform_generation d /\
       cr_driver_id (sr_record stored) = dv_id (sw_driver (ds_software d)) /\
       cr_firmware_id (sr_record stored) = fw_id (sw_firmware (ds_software d)) /\
       cr_runtime_id (sr_record stored) = rt_id (sw_runtime (ds_software d)) /\
       cr_withdrawn (sr_record stored) = cr_withdrawn (pb_capability p) /\
       cr_precision (sr_record stored) = cr_precision (pb_capability p)).
Proof.
  cbn zeta. destruct (apply_capability_spec n p st Hok Hdok Hn Hprov) as (H1 & H2 & H3 & H4).
  split; [done|]. split; [done|]. split; [done|]. intros Hm. destruct (H4 Hm) as [Hc Hr].
  split; [unfold accepted; by rewrite Hc|].
  destruct Hr as (d & key & stored & v & Hd & Hk & Hin & Hp & Hv & g & Hrec & Hg & Hb).
  exists d, key, stored. rewrite Hrec. by split_and!.
Qed.

Lemma capability_ingestion_sound_witness :
  let p := publication PublicationKind.PublishCapability 5
             <| pb_capability := fp8_record nvml_source SupportState.Unsupported (VBoolean false)
                                   <| cr_capability_generation := Gen_none |> |> in
  ar_mutated (apply_capability_locked p fp8_fleet).2 = true /\
  accepted (apply_capability_locked p fp8_fleet).2 = true.
Proof.
  cbn zeta. match goal with |- context [apply_capability_locked ?q _] => set (p := q) end.
  assert (Hm : ar_mutated (apply_capability_locked p fp8_fleet).2 = true) by (vm_compute; reflexivity).
  split; [exact Hm|].
  destruct (capability_ingestion_sound 2 p fp8_fleet fp8_fleet_evidence_ok fp8_fleet_devices_ok eq_refl eq_refl)
    as (_ & _ & _ & H). by apply H.
Defined.
