(* ===== verification/Ingest.v ===== *)
(** * Ingestion

    Models [apply_locked] of [registry.cpp], the single entry point through
    which publications change the registry: attribution to the envelope's
    sender, schema binding and normalisation, validation, fencing, epochs,
    per-boot sequence watermarks with duplicate detection, and the dispatch to
    the component that handles the kind. [hash] is [std::hash<std::string>],
    whose values the C++ standard leaves to the implementation. *)

From S2P Require Import Prelude Tokens Versions Support Conditions Values Hardware Quirks Compat Publication.
From S2P Require Import RegistryState Fixtures Resolution Publishers Devices Evidence Knowledge.

Definition is_capability_kind (kind : PublicationKind) : bool :=
  (kind ==? PublicationKind.PublishCapability) || (kind ==? PublicationKind.WithdrawCapability).

(** The provenance publisher is always the sender of the envelope. *)
Definition attribute_publication (p : Publication) : Publication :=
  let attribute (source : EvidenceSource) := source <| publisher := pb_publisher p |> in
  p <| pb_capability ::= fun c => c <| cr_source ::= attribute |> |>
    <| pb_quirk ::= fun q => q <| qr_source ::= attribute |> |>
    <| pb_compatibility ::= fun f => f <| cf_source ::= attribute |> |>.

(** Binds the schema of a capability publication that names none. *)
Definition bind_schema (st : Registry) (p : Publication) : ApplyResult + Publication :=
  if is_capability_kind (pb_kind p) && negb (id_valid (cr_schema (pb_capability p))) then
    match r_capability_schemas st !! cr_capability (pb_capability p) with
    | None => inl (rejected_result ApplyCode.RejectedUnknownSchema
                     ("capability " +:+ id_str (cr_capability (pb_capability p)) +:+
                      " is not bound to any known schema")%string)
    | Some schema => inr (p <| pb_capability ::= fun c => c <| cr_schema := schema |> |>)
    end
  else inr p.

(** Values are canonicalised before they are validated. *)
Definition normalize_publication (st : Registry) (p : Publication) : ApplyResult + Publication :=
  if is_capability_kind (pb_kind p) then
    match normalize_value (r_limits st) (cr_value (pb_capability p)) with
    | Failed status => inl (rejected_result ApplyCode.RejectedValidation (describe status))
    | Value value => inr (p <| pb_capability ::= fun c => c <| cr_value := value |> |>)
    end
  else inr p.

Definition validated_publication (st : Registry) (p : Publication) : ApplyResult + Publication :=
  let validation := validate_publication p (r_limits st) in
  if negb (status_ok validation) then inl (rejected_result ApplyCode.RejectedValidation (describe validation))
  else inr p.

(** The publication the registry acts on, or the reason it refuses it. *)
Definition prepare_publication (st : Registry) (p : Publication) : ApplyResult + Publication :=
  match bind_schema st (attribute_publication p) with
  | inl r => inl r
  | inr p =>
      match normalize_publication st p with
      | inl r => inl r
      | inr p => validated_publication st p
      end
  end.

(** [++usage.rejected_publications; return result;] *)
Definition count_rejected (st : Registry) : Registry :=
  st <| r_usage ::= fun u => u <| ru_rejected_publications ::= u64_succ |> |>.

Definition count_accepted (st : Registry) : Registry :=
  st <| r_usage ::= fun u => u <| ru_accepted_publications ::= u64_succ |> |>.

Definition count_idempotent (st : Registry) : Registry :=
  st <| r_usage ::= fun u => u <| ru_idempotent_publications ::= u64_succ |> |>.

Definition refuse (st : Registry) (code : ApplyCode) (detail : string) : Registry * ApplyResult :=
  (count_rejected st, rejected_result code detail).

Definition apply_schema (p : Publication) (st : Registry) : Registry * ApplyResult :=
  match register_capability_schema_locked (pb_schema p) st with
  | (st, status) =>
      if negb (status_ok status) then
        refuse st (if status_code status ==? AlreadyExists then ApplyCode.RejectedDuplicateConflict
                   else ApplyCode.RejectedValidation) (describe status)
      else (touch_locked st,
            result_of ApplyCode.Accepted true
              ("capability schema " +:+ id_str (cs_id (pb_schema p)) +:+ " registered")%string)
  end.

Definition apply_registration (now : string) (p : Publication) (st : Registry) : Registry * ApplyResult :=
  let out := register_publisher_locked now (pb_publisher p) (pb_reason p) st in
  (if accepted out.2 then count_accepted out.1 else count_rejected out.1, out.2).

(** The sender must be a registered, unfenced boot in the current epoch. *)
Definition check_publisher (st : Registry) (p : Publication) : ApplyResult + PublisherStateInternal :=
  match r_publishers st !! pi_id (pb_publisher p) with
  | None => inl (rejected_result ApplyCode.RejectedUnknownPublisher
                   ("publisher " +:+ id_str (pi_id (pb_publisher p)) +:+ " is not registered")%string)
  | Some state =>
      let boot := pi_boot (pb_publisher p) in
      let registered := pi_boot (pr_identity (ps_record state)) in
      if ps_publisher_fenced state then
        inl (rejected_result ApplyCode.RejectedFencedPublisher
          ("publisher is permanently fenced: " +:+ pr_reason (ps_record state))%string)
      else if bool_decide (boot ∈ ps_fenced_boots state) then
        inl (rejected_result ApplyCode.RejectedFencedPublisher
          ("publisher boot " +:+ gen_str boot +:+ " is fenced; replay is refused")%string)
      else if registered !=? boot then
        inl (rejected_result ApplyCode.RejectedStaleBoot
          ("publication carries boot " +:+ gen_str boot +:+ " but the registered boot is " +:+ gen_str registered)%string)
      else if pi_epoch (pb_publisher p) !=? r_epoch st then
        inl (rejected_result ApplyCode.RejectedStaleEpoch
          ("publication carries epoch " +:+ gen_str (pi_epoch (pb_publisher p)) +:+
           " but the coordinator epoch is " +:+ gen_str (r_epoch st))%string)
      else inr state
  end.

(** [publisher.watermarks[boot]], initialised. *)
Definition open_watermark (p : Publication) (state : PublisherStateInternal) : PublisherWatermark :=
  let w := default default_watermark (ps_watermarks state !! pi_boot (pb_publisher p)) in
  let w := w <| wm_publisher := pi_id (pb_publisher p) |> <| wm_boot := pi_boot (pb_publisher p) |> in
  if wm_state w ==? PublisherState.Unknown
  then w <| wm_state := PublisherState.Registered |> <| wm_adapter := pr_adapter (ps_record state) |>
  else w.

(** The sequence checks: [None] lets the publication through. *)
Definition check_sequence (hash : string -> N) (p : Publication) (w : PublisherWatermark)
    (fingerprints : gmap N N) : option ApplyResult :=
  if pb_sequence p <? wm_max_sequence w then
    Some (rejected_result ApplyCode.RejectedStaleSequence
      ("sequence " +:+ pretty (pb_sequence p) +:+ " is behind the accepted watermark " +:+
       pretty (wm_max_sequence w))%string)
  else if pb_sequence p =? wm_max_sequence w then
    match fingerprints !! pb_sequence p with
    | None => Some (result_of ApplyCode.AcceptedIdempotent false
                      ("sequence " +:+ pretty (pb_sequence p) +:+ " was already accepted; no mutation applied")%string)
    | Some fingerprint =>
        if fingerprint =? hash (fingerprint_publication p) then
          Some (result_of ApplyCode.AcceptedIdempotent false
                  ("identical duplicate of sequence " +:+ pretty (pb_sequence p))%string)
        else
          Some (rejected_result ApplyCode.RejectedDuplicateConflict
                  ("sequence " +:+ pretty (pb_sequence p) +:+ " was already accepted with different content")%string)
    end
  else if gen_ltb (pb_evidence_generation p) (wm_max_evidence_generation w) then
    Some (rejected_result ApplyCode.RejectedGenerationRegression
      ("evidence generation " +:+ gen_str (pb_evidence_generation p) +:+
       " regresses behind the accepted watermark " +:+ gen_str (wm_max_evidence_generation w))%string)
  else None.

(** The [switch] over the kinds. *)
Definition dispatch (p : Publication) (st : Registry) : Registry * ApplyResult :=
  match pb_kind p with
  | PublicationKind.RegisterDevice | PublicationKind.PublishDeviceGeneration => apply_device_locked p st
  | PublicationKind.PublishCapability | PublicationKind.WithdrawCapability => apply_capability_locked p st
  | PublicationKind.PublishQuirk | PublicationKind.WithdrawQuirk => apply_quirk_locked p st
  | PublicationKind.PublishCompatibility | PublicationKind.WithdrawCompatibility => apply_compatibility_locked p st
  | PublicationKind.Heartbeat => (st, result_of ApplyCode.Accepted false "heartbeat recorded")
  | _ => (st, rejected_result ApplyCode.RejectedValidation "unsupported publication kind")
  end.

(** [while (fingerprints.size() > 4096) erase(begin())]. *)
Definition trim_fingerprints (m : gmap N N) : gmap N N :=
  foldl (fun m entry => delete entry.1 m) m (take (N.to_nat (sizeN m - 4096)) (map_entries m)).

(** The publisher's state after one of its publications was accepted. *)
Definition commit_state (hash : string -> N) (p : Publication) (w : PublisherWatermark)
    (state : PublisherStateInternal) : PublisherStateInternal :=
  let generation := if gen_ltb (wm_max_evidence_generation w) (pb_evidence_generation p)
                    then pb_evidence_generation p else wm_max_evidence_generation w in
  let record := ps_record state <| pr_last_sequence := pb_sequence p |>
                                <| pr_max_evidence_generation := generation |>
                                <| pr_accepted ::= u64_succ |> in
  state <| ps_sequence_fingerprints ::= fun m =>
             trim_fingerprints (<[pb_sequence p := hash (fingerprint_publication p)]> m) |>
        <| ps_record := record |>
        <| ps_watermarks ::= insert (pi_boot (pb_publisher p))
             (w <| wm_max_sequence := pb_sequence p |> <| wm_max_evidence_generation := generation |>
                <| wm_accepted := pr_accepted record |>) |>.

(** The publisher's state after a rejection that is charged to it. *)
Definition reject_state (p : Publication) (w : PublisherWatermark) (state : PublisherStateInternal) :
    PublisherStateInternal :=
  let record := ps_record state <| pr_rejected ::= u64_succ |> in
  state <| ps_record := record |>
        <| ps_watermarks ::= insert (pi_boot (pb_publisher p)) (w <| wm_rejected := pr_rejected record |>) |>.

Definition set_publisher (p : Publication) (state : PublisherStateInternal) (st : Registry) : Registry :=
  st <| r_publishers ::= insert (pi_id (pb_publisher p)) state |>.

Definition sequence_gap (p : Publication) (w : PublisherWatermark) : string :=
  if (u64_succ (wm_max_sequence w) <? pb_sequence p) && negb (wm_max_sequence w =? 0)
  then ("; sequence gap detected: " +:+ pretty (wm_max_sequence w) +:+ " -> " +:+ pretty (pb_sequence p))%string
  else EmptyString.

(** The part of [apply_locked] that follows the publisher checks. *)
Definition apply_sequenced (hash : string -> N) (p : Publication) (state : PublisherStateInternal) (st : Registry) :
    Registry * ApplyResult :=
  let w := open_watermark p state in
  let opened := state <| ps_watermarks ::= insert (pi_boot (pb_publisher p)) w |> in
  match check_sequence hash p w (ps_sequence_fingerprints state) with
  | Some result =>
      if accepted result then (count_idempotent (set_publisher p opened st), result)
      else (count_rejected (set_publisher p (reject_state p w opened) st), result)
  | None =>
      match dispatch p (set_publisher p opened st) with
      | (st, result) =>
          if accepted result then
            let result' := result <| ar_detail ::= fun detail => (detail +:+ sequence_gap p w)%string |> in
            let st := count_accepted (set_publisher p (commit_state hash p w opened) st) in
            let st := if ar_code result ==? ApplyCode.AcceptedIdempotent then count_idempotent st else st in
            (if ar_mutated result then touch_locked st else st, result')
          else (count_rejected (set_publisher p (reject_state p w opened) st), result)
      end
  end.

Definition apply_locked (hash : string -> N) (now : string) (p : Publication) (st : Registry) : Registry * ApplyResult :=
  if r_shutting_down st then
    (st, rejected_result ApplyCode.RejectedShuttingDown
           "registry is shutting down and no longer accepts evidence")
  else match prepare_publication st p with
  | inl result => (count_rejected st, result)
  | inr p =>
      if pb_kind p ==? PublicationKind.RegisterCapabilitySchema then apply_schema p st
      else if pb_kind p ==? PublicationKind.RegisterPublisher then apply_registration now p st
      else match check_publisher st p with
      | inl result => (count_rejected st, result)
      | inr state => apply_sequenced hash p state st
      end
  end.

(* ===================================================================== *)
(** ** Lemmas: preparation *)

(** What preparation keeps and what it establishes. *)
Record prepared (st : Registry) (p p' : Publication) : Prop := {
  pp_kind : pb_kind p' = pb_kind p;
  pp_publisher : pb_publisher p' = pb_publisher p;
  pp_sequence : pb_sequence p' = pb_sequence p;
  pp_generation : pb_evidence_generation p' = pb_evidence_generation p;
  pp_device : pb_device p' = pb_device p;
  pp_schema : pb_schema p' = pb_schema p;
  pp_capability : cr_device (pb_capability p') = cr_device (pb_capability p) /\
    cr_capability (pb_capability p') = cr_capability (pb_capability p);
  pp_source : publisher (cr_source (pb_capability p')) = pb_publisher p /\
    publisher (qr_source (pb_quirk p')) = pb_publisher p /\
    publisher (cf_source (pb_compatibility p')) = pb_publisher p;
  pp_valid : status_ok (validate_publication p' (r_limits st)) = true
}.

(** Binding and normalisation edit the capability's schema and value. *)
Definition edits (p p' : Publication) : Prop :=
  exists schema value, p' = p <| pb_capability ::= fun c => c <| cr_schema := schema |> <| cr_value := value |> |>.

#[global] Instance edits_preorder : PreOrder edits.
Proof.
  split.
  - intros p. exists (cr_schema (pb_capability p)), (cr_value (pb_capability p)). by destruct p as [? ? ? ? ? []].
  - intros p1 p2 p3 (s1 & v1 & ->) (s2 & v2 & ->). by exists s2, v2.
Qed.

Lemma bind_schema_edits st p p' : bind_schema st p = inr p' -> edits p p'.
Proof.
  unfold bind_schema. destruct (_ && _); [|by intros [= <-]]. destruct (_ !! _) as [s|]; [|done].
  intros [= <-]. exists s, (cr_value (pb_capability p)). by destruct p as [? ? ? ? ? []].
Qed.

Lemma normalize_publication_edits st p p' : normalize_publication st p = inr p' -> edits p p'.
Proof.
  unfold normalize_publication. destruct (is_capability_kind _); [|by intros [= <-]].
  destruct (normalize_value _ _) as [v|]; [|done].
  intros [= <-]. exists (cr_schema (pb_capability p)), v. by destruct p as [? ? ? ? ? []].
Qed.

Lemma validated_publication_spec st p p' :
  validated_publication st p = inr p' -> p' = p /\ status_ok (validate_publication p (r_limits st)) = true.
Proof. unfold validated_publication. destruct (status_ok _) eqn:E; [|done]. by intros [= <-]. Qed.

Lemma prepare_publication_spec st p p' : prepare_publication st p = inr p' -> prepared st p p'.
Proof.
  unfold prepare_publication. destruct (bind_schema _ _) as [|p1] eqn:E1; [done|]. apply bind_schema_edits in E1.
  destruct (normalize_publication _ _) as [|p2] eqn:E2; [done|]. apply normalize_publication_edits in E2.
  intros [-> Hv]%validated_publication_spec.
  destruct (transitivity E1 E2) as (s & v & ->). by split.
Qed.

Lemma prepare_publication_rejects st p r :
  prepare_publication st p = inl r -> accepted r = false /\ ar_mutated r = false.
Proof.
  unfold prepare_publication. destruct (bind_schema _ _) as [r1|p1] eqn:E1.
  { unfold bind_schema in E1. intros [= <-]. by split_ifs_in E1; simplify_eq. }
  destruct (normalize_publication _ _) as [r2|p2] eqn:E2.
  { unfold normalize_publication in E2. intros [= <-]. by split_ifs_in E2; simplify_eq. }
  unfold validated_publication. destruct (negb _); [by intros [= <-]|done].
Qed.

Lemma validate_record_provenance record limits :
  status_ok (validate_capability_record record limits) = true ->
  provenance_allowed_for (provenance (cr_source record)) (source_class (cr_source record)) = true.
Proof. unfold validate_capability_record. intros H. accepts H. by bsimpl. Qed.

Lemma prepared_provenance st p p' :
  prepared st p p' -> is_capability_kind (pb_kind p') = true ->
  provenance_allowed_for (provenance (cr_source (pb_capability p'))) (source_class (cr_source (pb_capability p'))) = true.
Proof.
  intros [_ _ _ _ _ _ _ _ Hv] Hk. unfold validate_publication in Hv. unfold is_capability_kind in Hk.
  accepts Hv. destruct (pb_kind p'); try done; accepts Hv; by eapply validate_record_provenance.
Qed.

(* ===================================================================== *)
(** ** Lemmas: publishers *)

Lemma open_watermark_fields p state :
  let w := open_watermark p state in
  wm_max_sequence w = wm_max_sequence (default default_watermark (ps_watermarks state !! pi_boot (pb_publisher p))) /\
  wm_max_evidence_generation w =
    wm_max_evidence_generation (default default_watermark (ps_watermarks state !! pi_boot (pb_publisher p))).
Proof. cbn zeta. unfold open_watermark. cbv zeta. by destruct (_ ==? _). Qed.

Lemma check_publisher_spec st p state :
  check_publisher st p = inr state ->
  r_publishers st !! pi_id (pb_publisher p) = Some state /\ ps_publisher_fenced state = false /\
  (pi_boot (pb_publisher p) ∉ ps_fenced_boots state) /\
  pi_boot (pr_identity (ps_record state)) = pi_boot (pb_publisher p) /\ pi_epoch (pb_publisher p) = r_epoch st.
Proof.
  unfold check_publisher. destruct (r_publishers st !! _) as [s|]; [|done].
  destruct (ps_publisher_fenced s) eqn:?; [done|]. case_bool_decide; [done|].
  destruct (pi_boot (pr_identity _) !=? _) eqn:?; [done|]. destruct (pi_epoch _ !=? _) eqn:?; [done|].
  intros Heq. injection Heq as <-. by bsimpl.
Qed.

Lemma check_publisher_rejects st p r : check_publisher st p = inl r -> accepted r = false /\ ar_mutated r = false.
Proof. unfold check_publisher. intros H. by split_ifs_in H; simplify_eq. Qed.

Lemma check_sequence_immutable hash p w m r : check_sequence hash p w m = Some r -> ar_mutated r = false.
Proof. unfold check_sequence. intros H. by split_ifs_in H; simplify_eq. Qed.

Lemma check_sequence_passes hash p w m : check_sequence hash p w m = None -> wm_max_sequence w < pb_sequence p.
Proof. unfold check_sequence. intros H. split_ifs_in H; try done. bsimpl. lia. Qed.


(** The handlers leave publishers, epoch, limits and schemas alone. *)
Definition same_authority (st st' : Registry) : Prop :=
  r_publishers st' = r_publishers st /\ r_epoch st' = r_epoch st /\ r_limits st' = r_limits st /\
  r_capability_schemas st' = r_capability_schemas st /\ r_schemas st' = r_schemas st /\
  r_shutting_down st' = r_shutting_down st.

Lemma dispatch_authority p st : same_authority st (dispatch p st).1.
Proof.
  unfold same_authority, dispatch. destruct (pb_kind p); cbn [fst]; try done.
  - destruct (apply_device_frame p st) as (_ & _ & ? & _ & _ & _ & ? & ? & _ & _ & ? & ? & ?). done.
  - destruct (apply_device_frame p st) as (_ & _ & ? & _ & _ & _ & ? & ? & _ & _ & ? & ? & ?). done.
  - destruct (apply_capability_context p st) as (? & ? & ? & _ & _ & _ & _ & _ & _ & _ & ? & ? & ? & _). done.
  - destruct (apply_capability_context p st) as (? & ? & ? & _ & _ & _ & _ & _ & _ & _ & ? & ? & ? & _). done.
  - destruct (apply_quirk_frame p st) as [(? & ? & ? & _ & _ & _ & _ & _ & _ & ? & ? & ? & _) _]. done.
  - destruct (apply_quirk_frame p st) as [(? & ? & ? & _ & _ & _ & _ & _ & _ & ? & ? & ? & _) _]. done.
  - destruct (apply_compatibility_frame p st) as [(? & ? & ? & _ & _ & _ & _ & _ & _ & ? & ? & ? & _) _]. done.
  - destruct (apply_compatibility_frame p st) as [(? & ? & ? & _ & _ & _ & _ & _ & _ & ? & ? & ? & _) _]. done.
Qed.

(* ===================================================================== *)
(** ** Lemmas: one sequenced publication *)

(** [same_registry st st']: equal but for publishers, usage counters and the
    revision. *)
Definition same_registry (st st' : Registry) : Prop :=
  same_knowledge st st' /\ r_epoch st' = r_epoch st /\ r_shutting_down st' = r_shutting_down st /\
  r_snapshot_generation st' = r_snapshot_generation st.

#[global] Instance same_registry_preorder : PreOrder same_registry.
Proof.
  split; [by repeat split|]. intros s1 s2 s3 H12 H23. unfold same_registry, same_knowledge in *. destruct_and!.
  split_and!; congruence.
Qed.

Lemma set_publisher_same p s st : same_registry st (set_publisher p s st).
Proof. by repeat split. Qed.

Lemma count_rejected_same st : same_registry st (count_rejected st).
Proof. by repeat split. Qed.
Lemma count_accepted_same st : same_registry st (count_accepted st).
Proof. by repeat split. Qed.
Lemma count_idempotent_same st : same_registry st (count_idempotent st).
Proof. by repeat split. Qed.
Lemma touch_same st : same_registry st (touch_locked st).
Proof. by repeat split. Qed.

#[export] Hint Resolve set_publisher_same count_rejected_same count_accepted_same count_idempotent_same touch_same : hcr.

(** The watermark of a boot, 0 before its first publication. *)
Definition watermark (s : PublisherStateInternal) (boot : PublisherBootId) : N :=
  wm_max_sequence (default default_watermark (ps_watermarks s !! boot)).

(** A publication of a boot leaves the standing of its publisher alone. *)
Definition same_standing (s s' : PublisherStateInternal) : Prop :=
  ps_publisher_fenced s' = ps_publisher_fenced s /\ ps_fenced_boots s' = ps_fenced_boots s /\
  pr_identity (ps_record s') = pr_identity (ps_record s) /\ pr_state (ps_record s') = pr_state (ps_record s).

Lemma same_standing_grows s s' : same_standing s s' -> publisher_grows s s'.
Proof. intros (H1 & H2 & H3 & _). split; rewrite ?H1, ?H2, ?H3; done. Qed.

(** The outcome of [apply_sequenced]: refused by the sequence checks, or
    handled and then committed or charged. *)
Definition known_content (hash : string -> N) (p : Publication) (fingerprints : gmap N N) : Prop :=
  fingerprints !! pb_sequence p = None \/
  fingerprints !! pb_sequence p = Some (hash (fingerprint_publication p)).

Inductive sequenced (hash : string -> N) (p : Publication) (state : PublisherStateInternal) (st : Registry) :
    Registry -> ApplyResult -> Prop :=
  | SequenceRefused st' s' r :
      same_registry st st' -> r_publishers st' = <[pi_id (pb_publisher p) := s']> (r_publishers st) ->
      same_standing state s' -> (forall boot, watermark s' boot = watermark state boot) ->
      ps_sequence_fingerprints s' = ps_sequence_fingerprints state ->
      ar_mutated r = false ->
      (accepted r = true -> pb_sequence p = watermark state (pi_boot (pb_publisher p)) /\
         known_content hash p (ps_sequence_fingerprints state)) ->
      sequenced hash p state st st' r
  | SequenceCommitted st0 st' s' r :
      st0 = (dispatch p (set_publisher p (state <| ps_watermarks ::= insert (pi_boot (pb_publisher p)) (open_watermark p state) |>) st)).1 ->
      same_registry st0 st' -> r_publishers st' = <[pi_id (pb_publisher p) := s']> (r_publishers st) ->
      same_standing state s' ->
      watermark state (pi_boot (pb_publisher p)) < pb_sequence p ->
      watermark s' (pi_boot (pb_publisher p)) = pb_sequence p ->
      (forall boot, boot <> pi_boot (pb_publisher p) -> watermark s' boot = watermark state boot) ->
      ps_sequence_fingerprints s' = trim_fingerprints
        (<[pb_sequence p := hash (fingerprint_publication p)]> (ps_sequence_fingerprints state)) ->
      accepted r = true ->
      sequenced hash p state st st' r
  | SequenceCharged st0 st' s' r :
      st0 = (dispatch p (set_publisher p (state <| ps_watermarks ::= insert (pi_boot (pb_publisher p)) (open_watermark p state) |>) st)).1 ->
      same_registry st0 st' -> r_publishers st' = <[pi_id (pb_publisher p) := s']> (r_publishers st) ->
      same_standing state s' -> (forall boot, watermark s' boot = watermark state boot) ->
      watermark state (pi_boot (pb_publisher p)) < pb_sequence p ->
      ps_sequence_fingerprints s' = ps_sequence_fingerprints state ->
      accepted r = false ->
      sequenced hash p state st st' r.

Lemma watermark_insert s boot w m :
  ps_watermarks s = <[boot := w]> m ->
  watermark s boot = wm_max_sequence w /\
  forall b, b <> boot -> watermark s b = wm_max_sequence (default default_watermark (m !! b)).
Proof.
  intros E. unfold watermark. rewrite E. split; [by rewrite lookup_insert_eq|].
  intros b Hb. by rewrite lookup_insert_ne.
Qed.

(** Rewriting the opened watermark with its old maximum changes no maximum. *)
Lemma watermark_same p state s' w :
  ps_watermarks s' = <[pi_boot (pb_publisher p) := w]> (ps_watermarks state) ->
  wm_max_sequence w = wm_max_sequence (open_watermark p state) ->
  forall boot, watermark s' boot = watermark state boot.
Proof.
  intros E Hw boot. destruct (watermark_insert s' _ w _ E) as [H1 H2].
  destruct (decide (boot = pi_boot (pb_publisher p))) as [->|Hne]; [|by rewrite H2].
  rewrite H1, Hw. apply open_watermark_fields.
Qed.

Lemma apply_sequenced_cases hash p state st :
  sequenced hash p state st (apply_sequenced hash p state st).1 (apply_sequenced hash p state st).2.
Proof.
  unfold apply_sequenced. cbv zeta. set (w := open_watermark p state).
  set (opened := state <| ps_watermarks ::= insert (pi_boot (pb_publisher p)) w |>).
  destruct (open_watermark_fields p state) as [Hw _]. fold w in Hw.
  destruct (check_sequence hash p w (ps_sequence_fingerprints state)) as [r|] eqn:Hc.
  - pose proof (check_sequence_immutable _ _ _ _ _ Hc) as Hm.
    assert (Hseq : accepted r = true -> pb_sequence p = watermark state (pi_boot (pb_publisher p)) /\
      known_content hash p (ps_sequence_fingerprints state)).
    { unfold watermark, known_content. rewrite <- Hw. unfold check_sequence in Hc. intros Ha.
      split_ifs_in Hc; simplify_eq; bsimpl; (split; [done|]); [|by left]. right. by subst. }
    destruct (accepted r) eqn:Ha; cbn [fst snd].
    + apply (SequenceRefused hash p state st _ opened); try done; [by apply (watermark_same p state opened w)|by auto].
    + apply (SequenceRefused hash p state st _ (reject_state p w opened)); try done; [|by rewrite Ha].
      eapply (watermark_same p state (reject_state p w opened)); [cbn; rewrite insert_insert_eq; reflexivity|done].
  - pose proof (check_sequence_passes _ _ _ _ Hc) as Hlt.
    pose proof (dispatch_authority p (set_publisher p opened st)) as (Hpub & _).
    destruct (dispatch p (set_publisher p opened st)) as [st1 r] eqn:Hd. cbn [fst] in Hpub.
    assert (Hins : forall s', r_publishers (set_publisher p s' st1) = <[pi_id (pb_publisher p) := s']> (r_publishers st)).
    { intros s'. cbn. rewrite Hpub. cbn. by rewrite insert_insert_eq. }
    destruct (accepted r) eqn:Ha; cbn [fst snd].
    + eapply (SequenceCommitted hash p state st st1 _ (commit_state hash p w opened)).
      * fold w opened. by rewrite Hd.
      * destruct (ar_mutated r), (ar_code r ==? ApplyCode.AcceptedIdempotent); by repeat split.
      * rewrite <- Hins. by destruct (ar_mutated r), (ar_code r ==? ApplyCode.AcceptedIdempotent).
      * by split.
      * unfold watermark. by rewrite <- Hw.
      * unfold watermark. cbn. by rewrite lookup_insert_eq.
      * intros boot Hb. unfold watermark. cbn. by rewrite !lookup_insert_ne.
      * done.
      * done.
    + eapply (SequenceCharged hash p state st st1 _ (reject_state p w opened)).
      * fold w opened. by rewrite Hd.
      * by repeat split.
      * exact (Hins _).
      * by split.
      * eapply (watermark_same p state (reject_state p w opened)); [cbn; rewrite insert_insert_eq; reflexivity|done].
      * unfold watermark. by rewrite <- Hw.
      * done.
      * done.
Qed.

(* ===================================================================== *)
(** ** Lemmas: fingerprints *)

Lemma trim_fingerprints_lookup m k : trim_fingerprints m !! k = m !! k \/ trim_fingerprints m !! k = None.
Proof.
  unfold trim_fingerprints. generalize (take (N.to_nat (sizeN m - 4096)) (map_entries m)) as l. intros l.
  assert (H : forall m' : gmap N N, (m' !! k = m !! k \/ m' !! k = None) ->
    foldl (fun (m : gmap N N) entry => delete entry.1 m) m' l !! k = m !! k \/
    foldl (fun (m : gmap N N) entry => delete entry.1 m) m' l !! k = None).
  { induction l as [|[i f] l IH]; intros m' Hm; cbn; [done|]. apply IH. cbn.
    destruct (decide (i = k)) as [->|Hne]; [right; apply lookup_delete_eq|by rewrite lookup_delete_ne]. }
  apply H. by left.
Qed.

Lemma size_delete_all (l : list (N * N)) (m : gmap N N) :
  NoDup l.*1 -> (forall e, e ∈ l -> is_Some (m !! e.1)) ->
  (size (foldl (fun (m : gmap N N) entry => delete entry.1 m) m l) + length l)%nat = size m.
Proof.
  revert m. induction l as [|[i f] l IH]; intros m Hnd Hl; cbn; [lia|].
  inversion Hnd as [|? ? Hi Hnd']; subst.
  assert (Hs : size m = S (size (delete i m))).
  { destruct (Hl (i, f) ltac:(left)) as [x Hx]. cbn in Hx. rewrite <- (insert_delete_id m i x Hx) at 1.
    apply map_size_insert_None, lookup_delete_eq. }
  specialize (IH (delete i m) Hnd'). rewrite Hs, <- IH; [lia|].
  intros e He. rewrite lookup_delete_ne; [apply Hl; by right|]. intros ->. apply Hi. by apply list_elem_of_fmap_2.
Qed.

Lemma trim_fingerprints_bound m : sizeN (trim_fingerprints m) <= 4096.
Proof.
  unfold trim_fingerprints. set (k := N.to_nat (sizeN m - 4096)).
  assert (Hlen : length (take k (map_entries m)) = Nat.min k (size m)).
  { rewrite length_take. pose proof (length_map_entries m) as Hl. unfold lengthN, sizeN in Hl. lia. }
  assert (Hnd : NoDup (take k (map_entries m)).*1).
  { apply (sublist_NoDup _ ((map_entries m).*1)); [apply NoDup_map_entries|].
    apply (fmap_sublist fst), sublist_take. }
  assert (Hin : forall e, e ∈ take k (map_entries m) -> is_Some (m !! e.1)).
  { intros [i f] He%(sublist_subseteq _ _ (sublist_take _ _))%elem_of_map_entries. by eexists. }
  pose proof (size_delete_all _ m Hnd Hin) as H. unfold sizeN in *. subst k. lia.
Qed.

(* ===================================================================== *)
(** ** Lemmas: the whole entry point *)

(** Publications that go through the sequence checks. *)
Definition is_sequenced (kind : PublicationKind) : bool :=
  (kind !=? PublicationKind.RegisterCapabilitySchema) && (kind !=? PublicationKind.RegisterPublisher).

(** The outcome of [apply_locked] for a sequenced publication. *)
Inductive ingested (hash : string -> N) (p : Publication) (st : Registry) : Registry -> ApplyResult -> Prop :=
  | IngestRefused st' r :
      same_registry st st' -> r_publishers st' = r_publishers st -> accepted r = false -> ar_mutated r = false ->
      ingested hash p st st' r
  | IngestSequenced p' state st' r :
      r_shutting_down st = false -> prepare_publication st p = inr p' -> check_publisher st p' = inr state ->
      sequenced hash p' state st st' r -> ingested hash p st st' r.

Lemma apply_locked_cases hash now p st :
  is_sequenced (pb_kind p) = true ->
  ingested hash p st (apply_locked hash now p st).1 (apply_locked hash now p st).2.
Proof.
  intros Hk. unfold is_sequenced in Hk. apply andb_true_iff in Hk as [Hk1 Hk2].
  apply negb_true_iff in Hk1, Hk2. unfold apply_locked.
  destruct (r_shutting_down st) eqn:Hsd; [by apply IngestRefused|].
  destruct (prepare_publication st p) as [r|p'] eqn:Hp.
  - destruct (prepare_publication_rejects _ _ _ Hp). by apply IngestRefused; try done; repeat split.
  - pose proof (pp_kind _ _ _ (prepare_publication_spec _ _ _ Hp)) as Hkind. rewrite Hkind, Hk1, Hk2.
    destruct (check_publisher st p') as [r|state] eqn:Hc.
    + destruct (check_publisher_rejects _ _ _ Hc). by apply IngestRefused; try done; repeat split.
    + eapply IngestSequenced; [done|done|done|]. apply apply_sequenced_cases.
Qed.

Lemma prepare_publication_same st st' p :
  r_limits st' = r_limits st -> r_capability_schemas st' = r_capability_schemas st ->
  prepare_publication st' p = prepare_publication st p.
Proof.
  intros Hl Hs. unfold prepare_publication, bind_schema, normalize_publication, validated_publication.
  by rewrite Hl, Hs.
Qed.

Lemma check_publisher_same st st' p state s' :
  check_publisher st p = inr state -> same_standing state s' ->
  r_publishers st' !! pi_id (pb_publisher p) = Some s' -> r_epoch st' = r_epoch st ->
  check_publisher st' p = inr s'.
Proof.
  intros Hc (H1 & H2 & H3 & _) Hs He. apply check_publisher_spec in Hc as (_ & Hf & Hb & Hr & Hep).
  unfold check_publisher. rewrite Hs, H1, H2, H3, He, Hf, Hr, Hep, !eqb_refl.
  by rewrite (bool_decide_eq_false_2 _ Hb).
Qed.

Lemma check_sequence_repeat hash p w fingerprints :
  wm_max_sequence w = pb_sequence p -> known_content hash p fingerprints ->
  exists detail, check_sequence hash p w fingerprints = Some (result_of ApplyCode.AcceptedIdempotent false detail).
Proof.
  intros Hw Hk. unfold check_sequence. rewrite Hw, N.ltb_irrefl, N.eqb_refl.
  destruct Hk as [-> | ->]; [by eexists|]. rewrite N.eqb_refl. by eexists.
Qed.

(** The watermark of a boot that had a publication accepted is filed and
    initialised, so that opening it again changes nothing. *)
Definition opened_at (p : Publication) (s : PublisherStateInternal) : Prop :=
  exists w, ps_watermarks s !! pi_boot (pb_publisher p) = Some w /\
    wm_publisher w = pi_id (pb_publisher p) /\ wm_boot w = pi_boot (pb_publisher p) /\ wm_state w <> PublisherState.Unknown.

Lemma open_watermark_opens p state :
  let w := open_watermark p state in
  wm_publisher w = pi_id (pb_publisher p) /\ wm_boot w = pi_boot (pb_publisher p) /\ wm_state w <> PublisherState.Unknown.
Proof.
  cbv zeta. unfold open_watermark. destruct (wm_state _ ==? PublisherState.Unknown) eqn:E; [done|].
  split_and!; [done|done|by bsimpl].
Qed.

Lemma open_opened p s : opened_at p s ->
  s <| ps_watermarks ::= insert (pi_boot (pb_publisher p)) (open_watermark p s) |> = s.
Proof.
  intros (w & Hw & Hpub & Hboot & Hstate). assert (open_watermark p s = w) as ->.
  { unfold open_watermark. rewrite Hw. cbn [default]. rewrite <- Hpub, <- Hboot.
    destruct w as [? ? ? ? state']. cbn in *. destruct (state' ==? PublisherState.Unknown) eqn:E; [by bsimpl|done]. }
  destruct s as [record fenced watermarks prints history dead]. cbn in *.
  change (mk_PublisherStateInternal record fenced (<[pi_boot (pb_publisher p) := w]> watermarks) prints history dead =
          mk_PublisherStateInternal record fenced watermarks prints history dead). by rewrite insert_id.
Qed.

Lemma set_publisher_id p s st : r_publishers st !! pi_id (pb_publisher p) = Some s -> set_publisher p s st = st.
Proof.
  intros Hs. transitivity (st <| r_publishers := <[pi_id (pb_publisher p) := s]> (r_publishers st) |>); [reflexivity|].
  rewrite insert_id by done. by destruct st.
Qed.

Lemma apply_sequenced_opened hash p state st :
  let out := apply_sequenced hash p state st in
  accepted out.2 = true -> exists s', r_publishers out.1 !! pi_id (pb_publisher p) = Some s' /\ opened_at p s'.
Proof.
  cbv zeta. destruct (open_watermark_opens p state) as (H1 & H2 & H3). unfold apply_sequenced.
  destruct (check_sequence _ _ _ _) as [r|].
  - destruct (accepted r) eqn:Ha; cbn [fst snd]; [|congruence]. intros _.
    eexists. split; [apply lookup_insert_eq|]. eexists. split; [apply lookup_insert_eq|done].
  - destruct (dispatch _ _) as [st1 r]. destruct (accepted r) eqn:Ha; cbn [fst snd]; [|congruence]. intros _.
    exists (commit_state hash p (open_watermark p state)
      (state <| ps_watermarks ::= insert (pi_boot (pb_publisher p)) (open_watermark p state) |>)). split.
    + destruct (ar_mutated r), (ar_code r ==? ApplyCode.AcceptedIdempotent); apply lookup_insert_eq.
    + eexists. split; [apply lookup_insert_eq|done].
Qed.

Lemma apply_locked_opened hash now p st :
  is_sequenced (pb_kind p) = true -> accepted (apply_locked hash now p st).2 = true ->
  exists p' s', prepare_publication st p = inr p' /\
    r_publishers (apply_locked hash now p st).1 !! pi_id (pb_publisher p') = Some s' /\ opened_at p' s'.
Proof.
  intros Hk. unfold is_sequenced in Hk. apply andb_true_iff in Hk as [Hk1 Hk2]. apply negb_true_iff in Hk1, Hk2.
  unfold apply_locked. destruct (r_shutting_down st); [done|].
  destruct (prepare_publication st p) as [r|p'] eqn:Hp; [destruct (prepare_publication_rejects _ _ _ Hp) as [E _]; cbn [snd]; congruence|].
  rewrite (pp_kind _ _ _ (prepare_publication_spec _ _ _ Hp)), Hk1, Hk2.
  destruct (check_publisher st p') as [r|state] eqn:Hc; [destruct (check_publisher_rejects _ _ _ Hc) as [E _]; cbn [snd]; congruence|].
  intros Ha. destruct (apply_sequenced_opened hash p' state st Ha) as (s' & Hs & Ho). eauto.
Qed.

(** A publication whose sequence is the watermark, with known content. *)
Lemma apply_repeat hash now p p' state st :
  r_shutting_down st = false -> is_sequenced (pb_kind p) = true -> prepare_publication st p = inr p' ->
  check_publisher st p' = inr state -> watermark state (pi_boot (pb_publisher p')) = pb_sequence p' ->
  known_content hash p' (ps_sequence_fingerprints state) ->
  let st' := (apply_locked hash now p st).1 in
  let r := (apply_locked hash now p st).2 in
  ar_code r = ApplyCode.AcceptedIdempotent /\ ar_mutated r = false /\
  st' = count_idempotent (set_publisher p'
          (state <| ps_watermarks ::= insert (pi_boot (pb_publisher p')) (open_watermark p' state) |>) st).
Proof.
  intros Hsd Hk Hp Hc Hw Hkc. cbn zeta. unfold apply_locked. rewrite Hsd, Hp.
  pose proof (pp_kind _ _ _ (prepare_publication_spec _ _ _ Hp)) as Hkind.
  unfold is_sequenced in Hk. apply andb_true_iff in Hk as [Hk1 Hk2]. apply negb_true_iff in Hk1, Hk2.
  rewrite Hkind, Hk1, Hk2, Hc. unfold apply_sequenced. cbv zeta.
  destruct (check_sequence_repeat hash p' (open_watermark p' state) (ps_sequence_fingerprints state)) as [d ->];
    [|done|].
  - destruct (open_watermark_fields p' state) as [-> _]. exact Hw.
  - by repeat split.
Qed.

(** What was accepted is found to be a repetition the next time. *)
Lemma accepted_repeats hash now now' p st :
  is_sequenced (pb_kind p) = true -> accepted (apply_locked hash now p st).2 = true ->
  let st1 := (apply_locked hash now p st).1 in
  let r2 := (apply_locked hash now' p st1).2 in
  exists p' s', prepare_publication st p = inr p' /\ r_publishers st1 !! pi_id (pb_publisher p') = Some s' /\
    ar_code r2 = ApplyCode.AcceptedIdempotent /\ ar_mutated r2 = false /\
    (apply_locked hash now' p st1).1 = count_idempotent (set_publisher p'
      (s' <| ps_watermarks ::= insert (pi_boot (pb_publisher p')) (open_watermark p' s') |>) st1).
Proof.
  intros Hk Ha. cbv zeta. revert Ha.
  destruct (apply_locked_cases hash now p st Hk) as [st1 r1 _ _ Hr _|p' state st1 r1 Hsd Hp Hc Hseq]; [congruence|].
  intros Ha. exists p'.
  destruct Hseq as [st1 s' r1 Hs Hpub Hst Hw Hfp _ Hseq|st0 st1 s' r1 Hd Hs Hpub Hst _ Hw _ Hfp _|
                    st0 st1 s' r1 _ _ _ _ _ _ _ Hr]; [| |congruence]; exists s';
    (split; [done|]); (split; [rewrite Hpub; apply lookup_insert_eq|]).
  - destruct (Hseq Ha) as [Hsq Hkc]. destruct Hs as ((Hl & _ & Hcs & _) & He & Hsd' & _).
    apply (apply_repeat hash now' p p' s'); try done.
    + by rewrite Hsd'.
    + rewrite <- Hp. by apply prepare_publication_same.
    + eapply check_publisher_same; try done. rewrite Hpub. apply lookup_insert_eq.
    + by rewrite Hw.
    + by rewrite Hfp.
  - pose proof (dispatch_authority p' (set_publisher p' (state <| ps_watermarks ::=
      insert (pi_boot (pb_publisher p')) (open_watermark p' state) |>) st)) as (_ & Hde & Hdl & Hdc & _ & Hdsd).
    rewrite <- Hd in Hde, Hdl, Hdc, Hdsd. destruct Hs as ((Hl & _ & Hcs & _) & He & Hsd' & _).
    apply (apply_repeat hash now' p p' s'); try done.
    + by rewrite Hsd', Hdsd.
    + rewrite <- Hp. apply prepare_publication_same; [by rewrite Hl, Hdl|by rewrite Hcs, Hdc].
    + eapply check_publisher_same; try done; [|by rewrite He, Hde]. rewrite Hpub. apply lookup_insert_eq.
    + rewrite Hfp. unfold known_content.
      destruct (trim_fingerprints_lookup (<[pb_sequence p' := hash (fingerprint_publication p')]>
        (ps_sequence_fingerprints state)) (pb_sequence p')) as [-> | ->]; [right; apply lookup_insert_eq|by left].
Qed.

(* ===================================================================== *)
(** ** Properties *)

(** The sender of [p] holds the authority to publish: its publisher is not
    fenced, its boot is the registered one and not fenced, its epoch is the
    coordinator's, and its sequence is above the boot's watermark. *)
Definition authorised (st : Registry) (p : Publication) : Prop :=
  exists s, r_publishers st !! pi_id (pb_publisher p) = Some s /\
    ~ boot_revoked s (pi_boot (pb_publisher p)) /\
    pi_boot (pr_identity (ps_record s)) = pi_boot (pb_publisher p) /\
    pi_epoch (pb_publisher p) = r_epoch st /\
    watermark s (pi_boot (pb_publisher p)) < pb_sequence p.

(** C5: only an authorised sender changes what the registry knows: when a
    sequenced publication is reported as a mutation, or changes a device,
    key, record, quirk, fact or schema, then its sender is an unfenced
    registered boot in the current epoch and its sequence is new. Everything
    else (a fenced or superseded boot, an old epoch, a replayed or stale
    sequence, a malformed or unattributable publication) changes at most
    counters and watermark bookkeeping. *)
Theorem only_authorised_changes_knowledge hash now p st (Hk : is_sequenced (pb_kind p) = true) :
  let st' := (apply_locked hash now p st).1 in
  let r := (apply_locked hash now p st).2 in
  ar_mutated r = true \/ ~ same_knowledge st st' -> r_shutting_down st = false /\ authorised st p.
Proof.
  cbn zeta. intros Hch.
  destruct (apply_locked_cases hash now p st Hk) as [st' r [Hs _] _ _ Hm|p' state st' r Hsd Hp Hc Hseq].
  { by destruct Hch as [?|?]; [congruence|]. }
  split; [done|]. destruct (prepare_publication_spec _ _ _ Hp) as [_ Hpub Hsq _ _ _ _ _ _].
  destruct (check_publisher_spec _ _ _ Hc) as (Hst & Hf & Hb & Hr & He). rewrite Hpub in *.
  assert (Hlt : watermark state (pi_boot (pb_publisher p)) < pb_sequence p).
  { rewrite <- Hsq, <- Hpub.
    destruct Hseq as [st' s' r [Hs _] _ _ _ _ Hm _|st0 st' s' r _ _ _ _ Hlt _ _ _ _|st0 st' s' r _ _ _ _ _ Hlt _ _];
      [|done|done]. by destruct Hch as [?|?]; [congruence|]. }
  exists state. split_and!; try done. intros [?|?]; [congruence|done].
Qed.

Lemma only_authorised_changes_knowledge_witness :
  let p := publication PublicationKind.Heartbeat 1 <| pb_kind := PublicationKind.PublishDeviceGeneration |> in
  ar_mutated (apply_locked strlen "t" p fp8_fleet).2 = true /\ authorised fp8_fleet p.
Proof.
  cbn zeta. match goal with |- context [apply_locked _ _ ?q _] => set (p := q) end.
  assert (Hm : ar_mutated (apply_locked strlen "t" p fp8_fleet).2 = true) by (vm_compute; reflexivity).
  split; [exact Hm|]. apply (only_authorised_changes_knowledge strlen "t" p fp8_fleet eq_refl). left. exact Hm.
Defined.

(** C6: retrying is harmless: a sequenced publication that was accepted is
    accepted again when its sender repeats it, as a duplicate, and the registry
    is afterwards exactly what it was, publishers with their fences, boots,
    watermarks and fingerprints included, but for the count of idempotent
    publications. *)
Theorem retry_is_idempotent hash now now' p st (Hk : is_sequenced (pb_kind p) = true) :
  let st1 := (apply_locked hash now p st).1 in
  let r1 := (apply_locked hash now p st).2 in
  let st2 := (apply_locked hash now' p st1).1 in
  let r2 := (apply_locked hash now' p st1).2 in
  accepted r1 = true ->
  ar_code r2 = ApplyCode.AcceptedIdempotent /\ ar_mutated r2 = false /\
  st2 = st1 <| r_usage ::= fun u => u <| ru_idempotent_publications ::= u64_succ |> |>.
Proof.
  cbn zeta. intros Ha. destruct (apply_locked_opened hash now p st Hk Ha) as (q & s1 & Hq & Hs1 & Hopened).
  destruct (accepted_repeats hash now now' p st Hk Ha) as (p' & s' & Hp' & Hs' & Hc & Hm & ->).
  assert (q = p') as -> by congruence.
  assert (s1 = s') as -> by congruence. split; [done|]. split; [done|].
  by rewrite (open_opened p' s' Hopened), (set_publisher_id p' s').
Qed.

Lemma retry_is_idempotent_witness :
  let p := publication PublicationKind.Heartbeat 1 in
  let st1 := (apply_locked strlen "t" p fp8_fleet).1 in
  accepted (apply_locked strlen "t" p fp8_fleet).2 = true /\
  ar_code (apply_locked strlen "u" p st1).2 = ApplyCode.AcceptedIdempotent.
Proof.
  cbn zeta. set (p := publication PublicationKind.Heartbeat 1).
  assert (Ha : accepted (apply_locked strlen "t" p fp8_fleet).2 = true) by (vm_compute; reflexivity).
  split; [exact Ha|]. exact (proj1 (retry_is_idempotent strlen "t" "u" p fp8_fleet eq_refl Ha)).
Defined.



(** The first publication of a boot must not use sequence 0: it equals
    the initial watermark, so the registry reports it as already accepted
    although it was never seen, and applies nothing. *)
Theorem sequence_zero_is_dropped hash now p p' state st
    (Hsd : r_shutting_down st = false) (Hk : is_sequenced (pb_kind p) = true)
    (Hp : prepare_publication st p = inr p') (Hc : check_publisher st p' = inr state)
    (Hzero : pb_sequence p' = 0) (Hnew : ps_watermarks state !! pi_boot (pb_publisher p') = None)
    (Hfp : ps_sequence_fingerprints state !! 0 = None) :
  let st' := (apply_locked hash now p st).1 in
  let r := (apply_locked hash now p st).2 in
  ar_code r = ApplyCode.AcceptedIdempotent /\ ar_mutated r = false /\ same_registry st st'.
Proof.
  cbv zeta. destruct (apply_repeat hash now p p' state st) as (H1 & H2 & ->); try done.
  - unfold watermark. by rewrite Hnew, Hzero.
  - left. by rewrite Hzero.
Qed.

Lemma sequence_zero_is_dropped_witness :
  let p := publication PublicationKind.PublishDeviceGeneration 0 in
  ar_code (apply_locked strlen "t" p fp8_fleet).2 = ApplyCode.AcceptedIdempotent /\
  r_devices (apply_locked strlen "t" p fp8_fleet).1 !! gpu = Some gpu_state.
Proof.
  cbn zeta. set (p := publication PublicationKind.PublishDeviceGeneration 0).
  destruct (prepare_publication fp8_fleet p) as [|p'] eqn:Hp; [by vm_compute in Hp|].
  assert (Hp' : p' = attribute_publication p) by (vm_compute in Hp; vm_compute; congruence).
  destruct (sequence_zero_is_dropped strlen "t" p p' agent_state fp8_fleet) as (H1 & _ & [(_ & _ & _ & H2 & _) _]);
    try (subst p'; reflexivity).
  split; [exact H1|]. rewrite H2. reflexivity.
Defined.
