(* ===== verification/Runs.v ===== *)
(** * Runs of the registry

    The public operations of [CapabilityRegistry] that change its state, all
    but [import_durable_state], as one labelled step function, and the
    properties of every run without an import: the
    well-formedness of the registry, the permanence of revocations, and what
    device boundaries and epochs do to evidence. The registry serialises its
    operations with one mutex, so a concurrent history is a sequence of these
    steps.

    An import is no step of a run: it replaces the whole state by that of an
    image, which need not be the image of a run. What it guarantees of its own
    is in [Durable]; what it does not, a fence, a serial above those of the
    image or a value of the kind its schema prescribes, is shown there too. *)

From S2P Require Import Prelude Tokens Versions Support Conditions Values Hardware Quirks Compat Publication.
From S2P Require Import RegistryState Fixtures Resolution Publishers Devices Knowledge Evidence Ingest.

(** [advance_coordinator_epoch]. *)
Definition advance_coordinator_epoch (st : Registry) : Registry :=
  touch_locked (st <| r_epoch ::= fun e => if gen_valid e then gen_next e else Gen_first |>).

(** [set_coordinator_epoch]. *)
Definition set_coordinator_epoch (epoch : CoordinatorEpoch) (st : Registry) : Registry * Status :=
  if negb (gen_valid epoch) then (st, failure InvalidArgument "coordinator epoch must be positive")
  else if gen_valid (r_epoch st) && gen_leb epoch (r_epoch st) then
    (st, failure GenerationRegression "coordinator epoch must strictly advance")
  else (touch_locked (st <| r_epoch := epoch |>), success).

Definition begin_shutdown (st : Registry) : Registry := st <| r_shutting_down := true |>.
Definition clear_shutdown (st : Registry) : Registry := st <| r_shutting_down := false |>.

(** The effect of [snapshot] on the registry. *)
Definition count_snapshot (st : Registry) : Registry :=
  if max_snapshot_records (r_limits st) <? sizeN (r_devices st) then st
  else st <| r_snapshot_generation ::= gen_next |>
          <| r_usage ::= fun u => u <| ru_snapshots_taken ::= u64_succ |> |>.

(** The calls of the public interface that change the registry, without
    [import_durable_state]. *)
Inductive Operation :=
  | OpRegisterSchema (schema : CapabilitySchema)
  | OpRegisterPublisher (now : string) (identity : PublisherIdentity) (adapter : string)
  | OpFencePublisher (publisher : PublisherId) (reason : string)
  | OpRetireBoot (publisher : PublisherId) (boot : PublisherBootId) (reason : string)
  | OpResetLiveness (reason : string)
  | OpApply (now : string) (p : Publication)
  | OpAdvanceEpoch
  | OpSetEpoch (epoch : CoordinatorEpoch)
  | OpBeginShutdown
  | OpClearShutdown
  | OpSnapshot.

Section Runs.
Variable hash : string -> N.

(** One call; its answer is dropped. *)
Definition step (op : Operation) (st : Registry) : Registry :=
  match op with
  | OpRegisterSchema schema => (register_capability_schema schema st).1
  | OpRegisterPublisher now identity adapter => (register_publisher now identity adapter st).1
  | OpFencePublisher publisher reason => (fence_publisher publisher reason st).1
  | OpRetireBoot publisher boot reason => (retire_publisher_boot publisher boot reason st).1
  | OpResetLiveness reason => reset_publisher_liveness reason st
  | OpApply now p => (apply_locked hash now p st).1
  | OpAdvanceEpoch => advance_coordinator_epoch st
  | OpSetEpoch epoch => (set_coordinator_epoch epoch st).1
  | OpBeginShutdown => begin_shutdown st
  | OpClearShutdown => clear_shutdown st
  | OpSnapshot => count_snapshot st
  end.

Definition run (ops : list Operation) (st : Registry) : Registry := foldl (fun st op => step op st) st ops.

End Runs.

(* ===================================================================== *)
(** ** The registry invariant *)

(** Schemas are filed under their identity, and describe one capability each. *)
Record schemas_ok (st : Registry) : Prop := {
  sk_schema : forall id s, r_schemas st !! id = Some s ->
    cs_id s = id /\ r_capability_schemas st !! cs_capability s = Some id;
  sk_capability : forall c id, r_capability_schemas st !! c = Some id ->
    exists s, r_schemas st !! id = Some s /\ cs_capability s = c
}.

Definition publisher_ok (id : PublisherId) (s : PublisherStateInternal) : Prop :=
  pi_id (pr_identity (ps_record s)) = id /\ sizeN (ps_sequence_fingerprints s) <= 4096.

Definition publishers_ok (st : Registry) : Prop :=
  map_Forall publisher_ok (r_publishers st) /\ sizeN (r_publishers st) <= max_publishers (r_limits st).

Record registry_ok (n : N) (st : Registry) : Prop := {
  rk_positive : 1 <= n;
  rk_evidence : evidence_ok n st;
  rk_devices : devices_ok n st;
  rk_device_limit : sizeN (r_devices st) <= max_devices (r_limits st);
  rk_schemas : schemas_ok st;
  rk_quirks : knowledge_ok (max_quirks (r_limits st)) (r_quirks st);
  rk_facts : knowledge_ok (max_compatibility_facts (r_limits st)) (r_compatibility st);
  rk_publishers : publishers_ok st
}.

Lemma devices_ok_weaken n n' st : n <= n' -> devices_ok n st -> devices_ok n' st.
Proof. intros Hn. unfold devices_ok. intros H. eapply map_Forall_impl; [done|]. cbn. intros ? ? (? & ? & ?). split; [done|lia]. Qed.

Lemma registry_ok_weaken n n' st : n <= n' < u64_modulus -> registry_ok n st -> registry_ok n' st.
Proof.
  intros Hn []. split; try done; [lia|by eapply evidence_ok_weaken|by eapply devices_ok_weaken; [apply Hn|]].
Qed.

(** Operations on publishers, counters, epochs. *)
Lemma registry_ok_same n st st' :
  same_knowledge st st' -> publishers_ok st' -> registry_ok n st -> registry_ok n st'.
Proof.
  intros (Hl & Hs & Hcs & Hd & Hp & Hk & Hdk & _ & _ & _ & Ho & Hc & Hn & Hq & Hf) Hpub [].
  split; try done.
  - eapply (evidence_ok_frame n n st); try done; [by apply context_grows_same|]. destruct rk_evidence0. lia.
  - unfold devices_ok. by rewrite Hd.
  - by rewrite Hd, Hl.
  - destruct rk_schemas0 as [k1 k2]. split; rewrite ?Hs, ?Hcs; [exact k1|exact k2].
  - by rewrite Hl, Hq.
  - by rewrite Hl, Hf.
Qed.

Lemma publishers_ok_insert st st' id s s' :
  r_limits st' = r_limits st -> r_publishers st' = <[id := s']> (r_publishers st) ->
  r_publishers st !! id = Some s -> publisher_ok id s' -> publishers_ok st -> publishers_ok st'.
Proof.
  intros Hl E Hs Hok [H1 H2]. unfold publishers_ok. rewrite E, Hl. split; [by apply map_Forall_insert_2|].
  unfold sizeN in *. rewrite map_size_insert_Some; [done|by eexists].
Qed.

Lemma publishers_ok_same st st' :
  r_limits st' = r_limits st -> r_publishers st' = r_publishers st -> publishers_ok st -> publishers_ok st'.
Proof. unfold publishers_ok. by intros -> ->. Qed.

Lemma register_publisher_ok now identity adapter st :
  publishers_ok st -> publishers_ok (register_publisher_locked now identity adapter st).1.
Proof.
  intros Hok. unfold register_publisher_locked. destruct (negb _); [done|]. destruct (_ || _); [done|].
  publisher_cases st (pi_id identity).
  - destruct (proj1 Hok _ _ Hs) as [Hi Hf]. destruct (ps_publisher_fenced s); [done|].
    destruct (negb _); [by apply (publishers_ok_insert st _ (pi_id identity) s (rebooted_state now (r_epoch st) adapter s))|].
    destruct (bool_decide _); [done|]. destruct (_ !=? _); [done|].
    by apply (publishers_ok_insert st _ (pi_id identity) s (reaffirmed_state (r_epoch st) adapter s)).
  - destruct (_ <=? _) eqn:Hl; [done|]. destruct (_ && _); [done|]. bsimpl. destruct Hok as [H1 H2].
    split; cbn.
    + apply map_Forall_insert_2; [|done]. split; [done|]. cbn. unfold sizeN. rewrite map_size_empty. lia.
    + unfold sizeN in *. rewrite map_size_insert_None by done. lia.
Qed.

Lemma fence_publisher_ok publisher reason st : publishers_ok st -> publishers_ok (fence_publisher publisher reason st).1.
Proof.
  intros Hok. unfold fence_publisher. publisher_cases st publisher; [|done]. destruct (ps_publisher_fenced s); [done|].
  apply (publishers_ok_insert st _ publisher s (fenced_state reason s)); [done|done|done| |done]. exact (proj1 Hok _ _ Hs).
Qed.

Lemma retire_publisher_boot_ok publisher boot reason st :
  publishers_ok st -> publishers_ok (retire_publisher_boot publisher boot reason st).1.
Proof.
  intros Hok. unfold retire_publisher_boot. publisher_cases st publisher; [|done]. destruct (negb _); [done|].
  destruct (bool_decide _); [done|]. apply (publishers_ok_insert st _ publisher s (retired_state boot reason s)); [done|done|done| |done].
  unfold retired_state, publisher_ok. cbv zeta. destruct (_ ==? _); exact (proj1 Hok _ _ Hs).
Qed.

Lemma reset_publisher_liveness_ok reason st : publishers_ok st -> publishers_ok (reset_publisher_liveness reason st).
Proof.
  intros [H1 H2]. split; cbn.
  - intros id s Hs. apply lookup_fmap_Some in Hs as (s0 & <- & Hs0). destruct (H1 id s0 Hs0) as [Ha Hb].
    unfold deadened_state, publisher_ok. destruct (_ ==? _); [|done]. by destruct (gen_valid _).
  - unfold sizeN in *. by rewrite map_size_fmap.
Qed.

(* ===================================================================== *)
(** ** The handlers preserve the invariant *)

Lemma gen_advances_bound {tag} (g g' : Gen tag) n :
  1 <= gen_value g <= n -> n + 1 < u64_modulus -> gen_advances g g' ->
  gen_value g <= gen_value g' /\ 1 <= gen_value g' <= n + 1.
Proof. intros H1 H2 [-> |[-> |[-> ->]]]; [lia| |cbn in *; lia]. rewrite gen_next_value by lia. lia. Qed.

Lemma apply_device_ok n p st :
  n + 2 < u64_modulus -> registry_ok n st -> registry_ok (n + 2) (apply_device_locked p st).1.
Proof.
  intros Hn Hok. set (st' := (apply_device_locked p st).1).
  destruct (apply_device_frame p st) as (Hk & Hdk & Hp & _ & Hc & Hns & Hs & Hcs & Hq & Hf & Hl & _).
  fold st' in Hk, Hdk, Hp, Hc, Hns, Hs, Hcs, Hq, Hf, Hl.
  assert (Hdev : devices_ok (n + 2) st' /\ sizeN (r_devices st') <= max_devices (r_limits st) /\
    forall id d, r_devices st !! id = Some d ->
      exists d', r_devices st' !! id = Some d' /\ gen_value (ds_generation d) <= gen_value (ds_generation d')).
  { destruct Hok. assert (Hold : devices_ok (n + 2) st) by (by apply (devices_ok_weaken n); [lia|]).
    destruct (r_devices st !! di_id (dr_identity (pb_device p))) as [d|] eqn:Hd.
    - destruct (apply_device_known p st d Hd) as [Hdd _]. fold st' in Hdd.
      set (d' := refresh_device d (pb_device p) (opens_generation_b d p)) in *.
      destruct (rk_devices0 _ _ Hd) as (Hi & Hg & Hb).
      destruct (refresh_device_advances d (pb_device p) (opens_generation_b d p)) as [Ai Ag Ab _ _ _ _ _]. fold d' in Ai, Ag, Ab.
      apply (gen_advances_bound _ _ n Hg) in Ag; [|lia]. apply (gen_advances_bound _ _ n Hb) in Ab; [|lia].
      rewrite Hdd. split_and!.
      + unfold devices_ok. rewrite Hdd. apply map_Forall_insert_2; [|exact Hold]. split; [congruence|lia].
      + unfold sizeN in *. rewrite map_size_insert_Some; [done|by eexists].
      + intros id e He. destruct (decide (di_id (dr_identity (pb_device p)) = id)) as [<-|Hne].
        * exists d'. rewrite lookup_insert_eq. split; [done|]. assert (e = d) as -> by congruence. lia.
        * exists e. by rewrite lookup_insert_ne.
    - destruct (apply_device_new p st Hd) as [[_ E]|(_ & Hlim & Hdd)]; [fold st' in E|fold st' in Hdd].
      + rewrite E. split_and!; [done|done|by eauto].
      + rewrite Hdd. split_and!.
        * unfold devices_ok. rewrite Hdd. apply map_Forall_insert_2; [|exact Hold]. cbn. split; [done|lia].
        * unfold sizeN in *. rewrite map_size_insert_None by done. lia.
        * intros id e He. exists e. rewrite lookup_insert_ne by congruence. done. }
  destruct Hdev as (H1 & H2 & H3). destruct Hok. split; rewrite ?Hl, ?Hq, ?Hf; try done.
  - lia.
  - eapply (evidence_ok_frame n (n + 2) st); try done; [|lia].
    split; [exact H3|by rewrite Hs|by rewrite Hns|done].
  - destruct rk_schemas0 as [k1 k2]. split; rewrite ?Hs, ?Hcs; [exact k1|exact k2].
  - by eapply publishers_ok_same.
Qed.

Lemma apply_capability_ok n p st :
  n + 2 < u64_modulus -> registry_ok n st ->
  provenance_allowed_for (provenance (cr_source (pb_capability p))) (source_class (cr_source (pb_capability p))) = true ->
  registry_ok (n + 2) (apply_capability_locked p st).1.
Proof.
  intros Hn [] Hprov. destruct (apply_capability_spec n p st) as (H1 & H2 & _); try done.
  destruct H2 as (Hl & Hs & Hcs & Hd & _ & _ & _ & _ & Hq & Hf & Hp & _).
  split; rewrite ?Hl, ?Hq, ?Hf; try done.
  - lia.
  - unfold devices_ok. rewrite Hd. apply (devices_ok_weaken n); [lia|done].
  - by rewrite Hd.
  - destruct rk_schemas0 as [k1 k2]. split; rewrite ?Hs, ?Hcs; [exact k1|exact k2].
  - by eapply publishers_ok_same.
Qed.

(** Quirks and facts: the table makes a step, the rest is unchanged. *)
Lemma registry_ok_knowledge n st st' :
  n < u64_modulus -> same_evidence st st' ->
  knowledge_ok (max_quirks (r_limits st)) (r_quirks st') ->
  knowledge_ok (max_compatibility_facts (r_limits st)) (r_compatibility st') ->
  registry_ok n st -> registry_ok n st'.
Proof.
  intros Hn (Hl & Hs & Hcs & Hd & Hk & Hdk & _ & Hc & Hns & Hp & _) Hq Hf [].
  split; rewrite ?Hl; try done.
  - eapply (evidence_ok_frame n n st); try done; by apply context_grows_same.
  - unfold devices_ok. by rewrite Hd.
  - by rewrite Hd.
  - destruct rk_schemas0 as [k1 k2]. split; rewrite ?Hs, ?Hcs; [exact k1|exact k2].
  - by eapply publishers_ok_same.
Qed.

Lemma dispatch_ok n p st :
  n + 2 < u64_modulus -> registry_ok n st ->
  (is_capability_kind (pb_kind p) = true ->
   provenance_allowed_for (provenance (cr_source (pb_capability p))) (source_class (cr_source (pb_capability p))) = true) ->
  registry_ok (n + 2) (dispatch p st).1.
Proof.
  intros Hn Hok Hprov. assert (Hw : registry_ok (n + 2) st) by (apply (registry_ok_weaken n); [lia|done]).
  assert (Hquirk : registry_ok (n + 2) (apply_quirk_locked p st).1).
  { destruct (apply_quirk_frame p st) as [He Hf]. apply (registry_ok_knowledge _ st); try done; destruct Hw.
    - eapply knowledge_step_ok; [|done]. apply apply_quirk_step.
    - by rewrite Hf. }
  assert (Hfact : registry_ok (n + 2) (apply_compatibility_locked p st).1).
  { destruct (apply_compatibility_frame p st) as [He Hf]. apply (registry_ok_knowledge _ st); try done; destruct Hw.
    - by rewrite Hf.
    - eapply knowledge_step_ok; [|done]. apply apply_compatibility_step. }
  unfold dispatch.
  destruct (pb_kind p) eqn:Hk; cbn [fst]; auto using apply_device_ok, apply_capability_ok.
Qed.

Lemma register_schema_ok n schema st :
  n < u64_modulus -> registry_ok n st -> registry_ok n (register_capability_schema_locked schema st).1.
Proof.
  intros Hn Hok. unfold register_capability_schema_locked. destruct (negb _); [done|].
  destruct (r_schemas st !! cs_id schema) as [c|] eqn:Hs; [by destruct (same_schema _ _)|].
  destruct (r_capability_schemas st !! cs_capability schema) as [b|] eqn:Hc; [done|].
  destruct (_ <=? _); [done|]. unfold emplace. destruct Hok. split; cbn [fst]; try done.
  - eapply (evidence_ok_frame n n st); try done.
    split; cbn; [by eauto| |done|done]. intros id s Hid. rewrite Hs. rewrite lookup_insert_ne by congruence. done.
  - destruct rk_schemas0 as [k1 k2]. split; cbn; rewrite Hs, Hc.
    + intros id s. rewrite !lookup_insert_Some. intros [[<- <-]|[Hne Hid]].
      * split; [done|by left].
      * destruct (k1 id s Hid) as [E1 E2]. split; [done|]. right. split; [|done]. congruence.
    + intros c id. rewrite lookup_insert_Some. intros [[<- <-]|[Hne Hid]].
      * exists schema. by rewrite lookup_insert_eq.
      * destruct (k2 c id Hid) as (s & Hsid & E). exists s. rewrite lookup_insert_ne by congruence. done.
Qed.

Lemma publishers_ok_sequenced hash p state st st' r :
  check_publisher st p = inr state -> publishers_ok st -> r_limits st' = r_limits st ->
  sequenced hash p state st st' r -> publishers_ok st'.
Proof.
  intros Hc Hok Hl Hseq. apply check_publisher_spec in Hc as (Hst & _).
  destruct (proj1 Hok _ _ Hst) as [Hi Hf].
  destruct Hseq as [st' s' r _ Hpub (_ & _ & Hid & _) _ Hfp _ _|st0 st' s' r _ _ Hpub (_ & _ & Hid & _) _ _ _ Hfp _|
                    st0 st' s' r _ _ Hpub (_ & _ & Hid & _) _ _ Hfp _];
    (eapply publishers_ok_insert; [exact Hl|exact Hpub|exact Hst| |exact Hok]); split; try congruence; rewrite Hfp;
    apply trim_fingerprints_bound.
Qed.

Lemma sequenced_ok hash n p state st st' r :
  n + 2 < u64_modulus -> registry_ok n st -> check_publisher st p = inr state ->
  (is_capability_kind (pb_kind p) = true ->
   provenance_allowed_for (provenance (cr_source (pb_capability p))) (source_class (cr_source (pb_capability p))) = true) ->
  sequenced hash p state st st' r -> registry_ok (n + 2) st'.
Proof.
  intros Hn Hok Hc Hprov Hseq.
  set (opened := set_publisher p (state <| ps_watermarks ::= insert (pi_boot (pb_publisher p)) (open_watermark p state) |>) st) in *.
  assert (Hopened : registry_ok n opened).
  { apply (registry_ok_same n st); [by repeat split| |done]. apply check_publisher_spec in Hc as (Hst & _).
    destruct (rk_publishers n st Hok) as [Hp1 Hp2].
    eapply (publishers_ok_insert st opened); [done|reflexivity|exact Hst|exact (Hp1 _ _ Hst)|done]. }
  pose proof (dispatch_ok n p opened Hn Hopened Hprov) as Hd.
  pose proof (dispatch_authority p opened) as (_ & _ & Hdl & _).
  assert (Hpub : r_limits st' = r_limits st -> publishers_ok st')
    by (intros Hl; eapply publishers_ok_sequenced; [exact Hc|apply Hok|exact Hl|exact Hseq]).
  destruct Hseq as [st' s' r [Hs _]|st0 st' s' r -> [Hs _]|st0 st' s' r -> [Hs _]].
  - apply (registry_ok_weaken n); [lia|]. eapply (registry_ok_same n st); [done| |done]. apply Hpub, Hs.
  - eapply registry_ok_same; [exact Hs| |exact Hd]. apply Hpub. by destruct Hs as [-> _].
  - eapply registry_ok_same; [exact Hs| |exact Hd]. apply Hpub. by destruct Hs as [-> _].
Qed.

Lemma apply_locked_ok hash now n p st :
  n + 2 < u64_modulus -> registry_ok n st -> registry_ok (n + 2) (apply_locked hash now p st).1.
Proof.
  intros Hn Hok. assert (Hw : registry_ok (n + 2) st) by (apply (registry_ok_weaken n); [lia|done]).
  assert (Hcount : forall s, registry_ok (n + 2) s -> registry_ok (n + 2) (count_rejected s) /\
    registry_ok (n + 2) (count_accepted s) /\ registry_ok (n + 2) (touch_locked s)).
  { intros s Hs. split_and!; (eapply registry_ok_same; [|eapply publishers_ok_same; [| |apply Hs]; done|exact Hs]); by repeat split. }
  destruct (is_sequenced (pb_kind p)) eqn:Hk.
  - destruct (apply_locked_cases hash now p st Hk) as [st' r [Hs _] Hpub _ _|p' state st' r _ Hp Hc Hseq].
    + eapply registry_ok_same; [exact Hs| |exact Hw]. eapply publishers_ok_same; [|exact Hpub|apply Hok]. apply Hs.
    + eapply sequenced_ok; [exact Hn|exact Hok|exact Hc| |exact Hseq]. intros Hcap.
      eapply prepared_provenance; [by apply prepare_publication_spec|exact Hcap].
  - unfold apply_locked. destruct (r_shutting_down st); [done|].
    destruct (prepare_publication st p) as [r|p'] eqn:Hp; [by apply Hcount|].
    rewrite (pp_kind _ _ _ (prepare_publication_spec _ _ _ Hp)).
    destruct (pb_kind p ==? PublicationKind.RegisterCapabilitySchema) eqn:H1.
    + pose proof (register_schema_ok (n + 2) (pb_schema p') st Hn Hw) as Hr. unfold apply_schema, refuse.
      destruct (register_capability_schema_locked _ _) as [s1 status]. cbn [fst] in Hr.
      destruct (negb _); by apply Hcount.
    + destruct (pb_kind p ==? PublicationKind.RegisterPublisher) eqn:H2.
      * unfold apply_registration. cbv zeta. cbn [fst].
        assert (Hr : registry_ok (n + 2) (register_publisher_locked now (pb_publisher p') (pb_reason p') st).1).
        { eapply registry_ok_same; [|apply register_publisher_ok, Hok|exact Hw].
          apply register_publisher_locked_grows. }
        destruct (accepted _); by apply Hcount.
      * exfalso. unfold is_sequenced in Hk. rewrite H1, H2 in Hk. done.
Qed.

Lemma step_ok hash n op st : n + 2 < u64_modulus -> registry_ok n st -> registry_ok (n + 2) (step hash op st).
Proof.
  intros Hn Hok. assert (Hw : registry_ok (n + 2) st) by (apply (registry_ok_weaken n); [lia|done]).
  assert (Hpub : publishers_ok st) by apply Hok.
  assert (Hsame : forall st', same_knowledge st st' -> publishers_ok st' -> registry_ok (n + 2) st')
    by (intros; by eapply registry_ok_same).
  destruct op; cbn [step].
  - unfold register_capability_schema. cbv zeta. pose proof (register_schema_ok (n + 2) schema st Hn Hw) as Hr.
    destruct (status_ok _); [|done]. cbn [fst]. eapply registry_ok_same; [|eapply publishers_ok_same; [| |apply Hr]; done|exact Hr].
    by repeat split.
  - apply Hsame; [apply register_publisher_grows|]. unfold register_publisher.
    destruct (r_shutting_down st); [done|]. by apply register_publisher_ok.
  - apply Hsame; [apply fence_publisher_grows|by apply fence_publisher_ok].
  - apply Hsame; [apply retire_publisher_boot_grows|by apply retire_publisher_boot_ok].
  - apply Hsame; [apply reset_publisher_liveness_grows|by apply reset_publisher_liveness_ok].
  - by apply apply_locked_ok.
  - apply Hsame; [by repeat split|done].
  - unfold set_coordinator_epoch. destruct (negb _); [done|]. destruct (_ && _); [done|].
    apply Hsame; [by repeat split|done].
  - apply Hsame; [by repeat split|done].
  - apply Hsame; [by repeat split|done].
  - unfold count_snapshot. destruct (_ <? _); [done|]. apply Hsame; [by repeat split|done].
Qed.

Lemma run_ok hash ops n st :
  n + 2 * lengthN ops < u64_modulus -> registry_ok n st -> registry_ok (n + 2 * lengthN ops) (run hash ops st).
Proof.
  revert n st. induction ops as [|op ops IH]; intros n st Hn Hok; cbn [run foldl].
  - unfold lengthN in *. cbn in *. by rewrite N.add_0_r.
  - rewrite lengthN_cons in *. replace (n + 2 * (1 + lengthN ops)) with (n + 2 + 2 * lengthN ops) by lia.
    apply IH; [lia|]. apply step_ok; [lia|done].
Qed.

(* ===================================================================== *)
(** ** The constructor establishes the invariant *)

Definition load_schema (st : Registry) (schema : CapabilitySchema) : Registry :=
  st <| r_schemas ::= emplace (cs_id schema) schema |>
     <| r_capability_schemas ::= emplace (cs_capability schema) (cs_id schema) |>.

(** A catalogue names every schema and every capability once. *)
Definition catalogue_ok (builtin : list CapabilitySchema) : Prop :=
  NoDup (map cs_id builtin) /\ NoDup (map cs_capability builtin).

Lemma load_schemas_ok builtin st :
  catalogue_ok builtin -> schemas_ok st ->
  (forall s, s ∈ builtin -> r_schemas st !! cs_id s = None /\ r_capability_schemas st !! cs_capability s = None) ->
  let st' := foldl load_schema st builtin in
  schemas_ok st' /\
  st' = st <| r_schemas := r_schemas st' |> <| r_capability_schemas := r_capability_schemas st' |> /\
  (forall s, s ∈ builtin -> r_schemas st' !! cs_id s = Some s) /\
  (forall id s, r_schemas st !! id = Some s -> r_schemas st' !! id = Some s).
Proof.
  cbn zeta. revert st. induction builtin as [|s builtin IH]; intros st [Hi Hc] Hok Hfresh; cbn [foldl].
  { split; [done|]. split; [by destruct st|]. split; [set_solver|done]. }
  cbn in Hi, Hc. inversion Hi as [|? ? Hi1 Hi2]; subst. inversion Hc as [|? ? Hc1 Hc2]; subst.
  destruct (Hfresh s ltac:(left)) as [F1 F2].
  assert (Hs1 : r_schemas (load_schema st s) = <[cs_id s := s]> (r_schemas st)) by (cbn; unfold emplace; by rewrite F1).
  assert (Hs2 : r_capability_schemas (load_schema st s) = <[cs_capability s := cs_id s]> (r_capability_schemas st))
    by (cbn; unfold emplace; by rewrite F2).
  destruct Hok as [k1 k2].
  destruct (IH (load_schema st s)) as (A & B & C & D).
  - done.
  - split; rewrite Hs1, Hs2.
    + intros id x. rewrite !lookup_insert_Some. intros [[<- <-]|[Hne Hid]]; [split; [done|by left]|].
      destruct (k1 id x Hid) as [E1 E2]. split; [done|]. right. split; [|done]. congruence.
    + intros c id. rewrite lookup_insert_Some. intros [[<- <-]|[Hne Hid]].
      * exists s. by rewrite lookup_insert_eq.
      * destruct (k2 c id Hid) as (x & Hx & E). exists x. rewrite lookup_insert_ne by congruence. done.
  - intros x Hx. destruct (Hfresh x ltac:(by right)) as [G1 G2]. rewrite Hs1, Hs2. split.
    + rewrite lookup_insert_ne; [done|]. intros E. apply Hi1. rewrite E. by apply list_elem_of_fmap_2.
    + rewrite lookup_insert_ne; [done|]. intros E. apply Hc1. rewrite E. by apply list_elem_of_fmap_2.
  - split; [done|]. split; [rewrite B; by destruct st|]. split.
    + intros x [->|Hx]%elem_of_cons; [|auto]. apply D. rewrite Hs1. apply lookup_insert_eq.
    + intros id x Hx. apply D. rewrite Hs1. rewrite lookup_insert_ne by congruence. done.
Qed.

Lemma construct_registry_ok builtin limits :
  catalogue_ok builtin ->
  registry_ok 1 (construct_registry builtin limits) /\
  (forall s, s ∈ builtin -> r_schemas (construct_registry builtin limits) !! cs_id s = Some s).
Proof.
  intros Hcat.
  assert (H0 : schemas_ok (empty_registry limits)) by (split; intros ? ?; cbn; by rewrite lookup_empty).
  destruct (load_schemas_ok builtin (empty_registry limits) Hcat H0) as (A & B & C & _).
  { intros s _. cbn. by rewrite !lookup_empty. }
  fold (foldl load_schema (empty_registry limits) builtin) in A, B, C.
  unfold construct_registry. change (foldl _ (empty_registry limits) builtin) with (foldl load_schema (empty_registry limits) builtin).
  set (st := foldl load_schema (empty_registry limits) builtin) in *. split; [|exact C].
  assert (Hz : forall (K V : Type) (H1 : EqDecision K) (H2 : Countable K), sizeN (∅ : gmap K V) = 0)
    by (intros; unfold sizeN; by rewrite map_size_empty).
  assert (Hst : exists x y, st = empty_registry limits <| r_schemas := x |> <| r_capability_schemas := y |>) by eauto.
  clearbody st. clear B C. destruct Hst as (x & y & ->).
  split; cbn.
  - done.
  - split; cbn; try done; try (rewrite ?Hz; lia); try apply map_Forall_empty.
    intros d c. cbn. rewrite !lookup_empty. split; [by intros []|by intros (? & [=] & _)].
  - apply map_Forall_empty.
  - rewrite Hz. lia.
  - destruct A as [a1 a2]. split; cbn; assumption.
  - split; [rewrite Hz; lia|apply map_Forall_empty].
  - split; [rewrite Hz; lia|apply map_Forall_empty].
  - split; cbn; [apply map_Forall_empty|rewrite Hz; lia].
Qed.
