(* ===== verification/Catalog.v ===== *)
(** * The built-in capability catalogue

    Models [catalog.cpp]: the schemas every registry is constructed with, one
    definition per section of the source, and the look-ups. *)

From S2P Require Import Prelude Tokens Versions Support Conditions Values Hardware Quirks Compat Publication.
From S2P Require Import RegistryState Fixtures Resolution Publishers Devices Knowledge Evidence Ingest Runs.

(** [token.substr(0, token.rfind(".v"))], or the whole token. *)
Fixpoint before_version_marker (token : list ascii) : option (list ascii) :=
  match token with
  | [] => None
  | c :: rest =>
      match before_version_marker rest with
      | Some prefix => Some (c :: prefix)
      | None =>
          match rest with
          | c2 :: _ => if Ascii.eqb c "." && Ascii.eqb c2 "v" then Some [] else None
          | [] => None
          end
      end
  end.

Definition make (schema_id : string) (domain : CapabilityDomain) (kind : ValueKind) (name unit : string) : CapabilitySchema :=
  mk_CapabilitySchema (Id_parse schema_id)
    (Id_parse match before_version_marker (list_ascii_of_string schema_id) with
              | Some prefix => string_of_list_ascii prefix
              | None => schema_id
              end) domain kind name unit.

Definition catalog_compute : list CapabilitySchema :=
  [make "cap.compute.architecture.v1" CapabilityDomain.Compute ValueKind.ArchitectureSet
     "Execution architectures exposed by the device" EmptyString;
   make "cap.compute.capability.v1" CapabilityDomain.Compute ValueKind.Enumeration
     "Vendor compute capability level" "domain=compute_capability";
   make "cap.compute.execution_units.v1" CapabilityDomain.Compute ValueKind.Count
     "Parallel execution units" "units";
   make "cap.compute.tensor_units.v1" CapabilityDomain.Compute ValueKind.Count
     "Matrix/tensor execution units" "units";
   make "cap.compute.multiprocessors.v1" CapabilityDomain.Compute ValueKind.Count
     "Streaming multiprocessors, as reported by the vendor driver API" "multiprocessors";
   make "cap.compute.vector_width_bits.v1" CapabilityDomain.Compute ValueKind.Count
     "SIMD/vector width in bits" "bits";
   make "cap.compute.datatypes.v1" CapabilityDomain.Compute ValueKind.FeatureSet
     "Data types the device can execute natively" EmptyString;
   make "cap.compute.fp64.v1" CapabilityDomain.Compute ValueKind.Boolean "FP64 execution" EmptyString;
   make "cap.compute.fp32.v1" CapabilityDomain.Compute ValueKind.Boolean "FP32 execution" EmptyString;
   make "cap.compute.tf32.v1" CapabilityDomain.Compute ValueKind.Boolean "TF32 execution" EmptyString;
   make "cap.compute.fp16.v1" CapabilityDomain.Compute ValueKind.Boolean "FP16 execution" EmptyString;
   make "cap.compute.bf16.v1" CapabilityDomain.Compute ValueKind.Boolean "BF16 execution" EmptyString;
   make "cap.compute.fp8.v1" CapabilityDomain.Compute ValueKind.Boolean "FP8 execution" EmptyString;
   make "cap.compute.fp4.v1" CapabilityDomain.Compute ValueKind.Boolean "FP4 execution" EmptyString;
   make "cap.compute.int8.v1" CapabilityDomain.Compute ValueKind.Boolean "INT8 execution" EmptyString;
   make "cap.compute.int4.v1" CapabilityDomain.Compute ValueKind.Boolean "INT4 execution" EmptyString;
   make "cap.compute.sparse_execution.v1" CapabilityDomain.Compute ValueKind.Boolean
     "Structured sparse execution" EmptyString;
   make "cap.compute.atomics.v1" CapabilityDomain.Compute ValueKind.FeatureSet
     "Atomic operations exposed to device code" EmptyString;
   make "cap.compute.cooperative_execution.v1" CapabilityDomain.Compute ValueKind.Boolean
     "Cooperative grid/block execution" EmptyString;
   make "cap.compute.dynamic_parallelism.v1" CapabilityDomain.Compute ValueKind.Boolean
     "Device-side launch of additional work" EmptyString;
   make "cap.compute.concurrent_kernels.v1" CapabilityDomain.Compute ValueKind.Boolean
     "Multiple kernels executing concurrently on one device" EmptyString;
   make "cap.compute.preemption.v1" CapabilityDomain.Compute ValueKind.Enumeration
     "Preemption granularity" "domain=preemption";
   make "cap.compute.context_isolation.v1" CapabilityDomain.Compute ValueKind.Boolean
     "Hardware context isolation between clients" EmptyString;
   make "cap.compute.programmable.v1" CapabilityDomain.Compute ValueKind.Boolean
     "Device executes publisher-supplied programs" EmptyString].

Definition catalog_memory : list CapabilitySchema :=
  [make "cap.memory.capacity.v1" CapabilityDomain.Memory ValueKind.Bytes "Device memory capacity" EmptyString;
   make "cap.memory.type.v1" CapabilityDomain.Memory ValueKind.Enumeration "Memory technology" "domain=memory_type";
   make "cap.memory.bandwidth.v1" CapabilityDomain.Memory ValueKind.Bandwidth
     "Nominal memory bandwidth" EmptyString;
   make "cap.memory.bus_width_bits.v1" CapabilityDomain.Memory ValueKind.Count "Memory bus width in bits" "bits";
   make "cap.memory.ecc.v1" CapabilityDomain.Memory ValueKind.Enumeration "ECC state" "domain=ecc";
   make "cap.memory.ecc_error_counters.v1" CapabilityDomain.Memory ValueKind.Boolean
     "ECC error counters are readable" EmptyString;
   make "cap.memory.page_sizes.v1" CapabilityDomain.Memory ValueKind.FeatureSet "Supported page sizes" EmptyString;
   make "cap.memory.unified_addressing.v1" CapabilityDomain.Memory ValueKind.Boolean
     "Unified virtual addressing across host and device" EmptyString;
   make "cap.memory.peer_access.v1" CapabilityDomain.Memory ValueKind.FeatureSet
     "Peer-visible memory access paths" EmptyString;
   make "cap.memory.managed_memory.v1" CapabilityDomain.Memory ValueKind.Boolean
     "Driver-managed unified memory" EmptyString;
   make "cap.memory.coherence.v1" CapabilityDomain.Memory ValueKind.Enumeration
     "Coherence model" "domain=coherence";
   make "cap.memory.address_translation.v1" CapabilityDomain.Memory ValueKind.FeatureSet
     "Address translation features" EmptyString;
   make "cap.memory.pinned_host_interaction.v1" CapabilityDomain.Memory ValueKind.Boolean
     "Pinned host memory interaction" EmptyString;
   make "cap.memory.partition_local.v1" CapabilityDomain.Memory ValueKind.Boolean
     "Partition-local memory semantics" EmptyString;
   make "cap.memory.cxl_exposure.v1" CapabilityDomain.Memory ValueKind.Boolean
     "CXL-class memory exposure" EmptyString;
   make "cap.memory.numa_nodes.v1" CapabilityDomain.Memory ValueKind.Count "NUMA nodes" "nodes"].

Definition catalog_partitioning : list CapabilitySchema :=
  [make "cap.partition.mechanism.v1" CapabilityDomain.Partitioning ValueKind.FeatureSet
     "Physical partitioning mechanisms" EmptyString;
   make "cap.partition.profiles.v1" CapabilityDomain.Partitioning ValueKind.FeatureSet
     "Supported partition profiles" EmptyString;
   make "cap.partition.max_partitions.v1" CapabilityDomain.Partitioning ValueKind.Count
     "Maximum concurrent partitions" "partitions";
   make "cap.partition.memory_isolation.v1" CapabilityDomain.Partitioning ValueKind.Boolean
     "Memory isolation between partitions" EmptyString;
   make "cap.partition.compute_isolation.v1" CapabilityDomain.Partitioning ValueKind.Boolean
     "Compute isolation between partitions" EmptyString;
   make "cap.partition.live_reconfiguration.v1" CapabilityDomain.Partitioning ValueKind.Enumeration
     "Reconfiguration without reset" "domain=live_reconfiguration";
   make "cap.partition.reset_required.v1" CapabilityDomain.Partitioning ValueKind.Boolean
     "A device reset is required to apply a partition change" EmptyString;
   make "cap.partition.migration.v1" CapabilityDomain.Partitioning ValueKind.Enumeration
     "Partition migration support" "domain=migration";
   make "cap.partition.sriov.v1" CapabilityDomain.Partitioning ValueKind.Boolean
     "SR-IOV virtual function exposure" EmptyString;
   make "cap.partition.mediated_devices.v1" CapabilityDomain.Partitioning ValueKind.Boolean
     "Mediated/virtual device support" EmptyString].

Definition catalog_interconnect : list CapabilitySchema :=
  [make "cap.interconnect.pcie_generation.v1" CapabilityDomain.Interconnect ValueKind.Count
     "Negotiated PCIe generation" "generation";
   make "cap.interconnect.pcie_width.v1" CapabilityDomain.Interconnect ValueKind.Count
     "Negotiated PCIe link width" "lanes";
   make "cap.interconnect.peer_to_peer.v1" CapabilityDomain.Interconnect ValueKind.Boolean
     "Direct peer-to-peer transfer between devices" EmptyString;
   make "cap.interconnect.link_bandwidth.v1" CapabilityDomain.Interconnect ValueKind.Bandwidth
     "Nominal interconnect bandwidth" EmptyString;
   make "cap.interconnect.collective_offload.v1" CapabilityDomain.Interconnect ValueKind.Boolean
     "Collective communication offload" EmptyString;
   make "cap.interconnect.nvlink.v1" CapabilityDomain.Interconnect ValueKind.Boolean
     "NVLink-class cache-coherent device interconnect" EmptyString;
   make "cap.interconnect.nvswitch.v1" CapabilityDomain.Interconnect ValueKind.Boolean
     "NVSwitch-class switched fabric presence" EmptyString;
   make "cap.interconnect.infinity_fabric.v1" CapabilityDomain.Interconnect ValueKind.Boolean
     "Infinity Fabric-class coherent interconnect" EmptyString;
   make "cap.interconnect.cxl.v1" CapabilityDomain.Interconnect ValueKind.Boolean "CXL link capability" EmptyString;
   make "cap.interconnect.topology_features.v1" CapabilityDomain.Interconnect ValueKind.FeatureSet
     "Link topology features" EmptyString].

Definition catalog_networking : list CapabilitySchema :=
  [make "cap.net.rdma.v1" CapabilityDomain.Networking ValueKind.Boolean "RDMA capability" EmptyString;
   make "cap.net.roce.v1" CapabilityDomain.Networking ValueKind.Boolean "RoCE capability" EmptyString;
   make "cap.net.infiniband.v1" CapabilityDomain.Networking ValueKind.Boolean "InfiniBand-class link" EmptyString;
   make "cap.net.gpudirect.v1" CapabilityDomain.Networking ValueKind.Boolean
     "GPUDirect-class peer memory path" EmptyString;
   make "cap.net.dma.v1" CapabilityDomain.Networking ValueKind.Boolean "Bus-master DMA" EmptyString;
   make "cap.net.scatter_gather.v1" CapabilityDomain.Networking ValueKind.Boolean "Scatter/gather DMA" EmptyString;
   make "cap.net.checksum_offload.v1" CapabilityDomain.Networking ValueKind.Boolean "Checksum offload" EmptyString;
   make "cap.net.encryption_offload.v1" CapabilityDomain.Networking ValueKind.Boolean
     "Encryption offload" EmptyString;
   make "cap.net.compression_offload.v1" CapabilityDomain.Networking ValueKind.Boolean
     "Compression offload" EmptyString;
   make "cap.net.smartnic_processing.v1" CapabilityDomain.Networking ValueKind.Boolean
     "Programmable on-adapter processing" EmptyString;
   make "cap.net.queue_pairs.v1" CapabilityDomain.Networking ValueKind.Count "Hardware queue pairs" "queues";
   make "cap.net.sriov.v1" CapabilityDomain.Networking ValueKind.Boolean
     "SR-IOV virtual function exposure" EmptyString;
   make "cap.net.flow_steering.v1" CapabilityDomain.Networking ValueKind.Boolean
     "Hardware flow steering" EmptyString;
   make "cap.net.link_speed.v1" CapabilityDomain.Networking ValueKind.Bandwidth "Negotiated link speed" EmptyString;
   make "cap.net.interface_state.v1" CapabilityDomain.Networking ValueKind.Enumeration
     "Interface administrative/operational state" "domain=interface_state";
   make "cap.net.mtu.v1" CapabilityDomain.Networking ValueKind.Count "Maximum transmission unit" "bytes"].

Definition catalog_runtime : list CapabilitySchema :=
  [make "cap.runtime.cuda.v1" CapabilityDomain.Runtime ValueKind.Enumeration
     "CUDA runtime/driver availability" "domain=runtime";
   make "cap.runtime.rocm.v1" CapabilityDomain.Runtime ValueKind.Enumeration
     "ROCm runtime availability" "domain=runtime";
   make "cap.runtime.level_zero.v1" CapabilityDomain.Runtime ValueKind.Enumeration
     "Level Zero runtime availability" "domain=runtime";
   make "cap.runtime.driver_api.v1" CapabilityDomain.Runtime ValueKind.Boolean
     "Low-level driver API exposure" EmptyString;
   make "cap.runtime.runtime_api.v1" CapabilityDomain.Runtime ValueKind.Boolean
     "High-level runtime API exposure" EmptyString;
   make "cap.runtime.compiler_targets.v1" CapabilityDomain.Runtime ValueKind.FeatureSet
     "Compiler targets accepted by the device" EmptyString;
   make "cap.runtime.binary_formats.v1" CapabilityDomain.Runtime ValueKind.FeatureSet
     "Accepted binary container formats" EmptyString;
   make "cap.runtime.kernel_architectures.v1" CapabilityDomain.Runtime ValueKind.ArchitectureSet
     "Kernel instruction architectures" EmptyString;
   make "cap.runtime.graph_capture.v1" CapabilityDomain.Runtime ValueKind.Boolean
     "Execution graph capture" EmptyString;
   make "cap.runtime.ipc.v1" CapabilityDomain.Runtime ValueKind.Boolean
     "Inter-process device memory sharing" EmptyString;
   make "cap.runtime.external_memory_handles.v1" CapabilityDomain.Runtime ValueKind.Boolean
     "Import/export of external memory handles" EmptyString;
   make "cap.runtime.external_semaphores.v1" CapabilityDomain.Runtime ValueKind.Boolean
     "External semaphore/event interop" EmptyString].

Definition catalog_reliability : list CapabilitySchema :=
  [make "cap.reliability.ecc_exposure.v1" CapabilityDomain.Reliability ValueKind.Boolean
     "ECC state is exposed to software" EmptyString;
   make "cap.reliability.reset.v1" CapabilityDomain.Reliability ValueKind.Enumeration
     "Reset capability" "domain=reset";
   make "cap.reliability.device_recovery.v1" CapabilityDomain.Reliability ValueKind.Boolean
     "Device recovery without host reboot" EmptyString;
   make "cap.reliability.error_containment.v1" CapabilityDomain.Reliability ValueKind.Boolean
     "Fault containment between clients" EmptyString;
   make "cap.reliability.fault_reporting.v1" CapabilityDomain.Reliability ValueKind.FeatureSet
     "Fault reporting channels" EmptyString;
   make "cap.reliability.telemetry_visibility.v1" CapabilityDomain.Reliability ValueKind.FeatureSet
     "Telemetry surfaces visible to software" EmptyString;
   make "cap.reliability.xid_reporting.v1" CapabilityDomain.Reliability ValueKind.Boolean
     "Structured error identifiers" EmptyString].

Definition catalog_power : list CapabilitySchema :=
  [make "cap.power.telemetry.v1" CapabilityDomain.Power ValueKind.Boolean "Power telemetry" EmptyString;
   make "cap.power.cap_range.v1" CapabilityDomain.Power ValueKind.NumericRange
     "Settable power cap range in milliwatts" "mW";
   make "cap.power.clock_control.v1" CapabilityDomain.Power ValueKind.FeatureSet "Clock domain control" EmptyString;
   make "cap.power.thermal_sensors.v1" CapabilityDomain.Power ValueKind.Count "Thermal sensors" "sensors";
   make "cap.power.fan_control.v1" CapabilityDomain.Power ValueKind.Boolean "Fan control" EmptyString;
   make "cap.power.throttle_reasons.v1" CapabilityDomain.Power ValueKind.FeatureSet
     "Throttle reason reporting" EmptyString].

Definition catalog_platform : list CapabilitySchema :=
  [make "cap.platform.os.v1" CapabilityDomain.Platform ValueKind.Enumeration "Operating system family" "domain=os";
   make "cap.platform.kernel.v1" CapabilityDomain.Platform ValueKind.Enumeration "Kernel version" "domain=kernel";
   make "cap.platform.cpu.logical_processors.v1" CapabilityDomain.Platform ValueKind.Count
     "Logical processors" "processors";
   make "cap.platform.cpu.physical_cores.v1" CapabilityDomain.Platform ValueKind.Count "Physical cores" "cores";
   make "cap.platform.cpu.isa_features.v1" CapabilityDomain.Platform ValueKind.FeatureSet
     "ISA features detected on this platform" EmptyString;
   make "cap.platform.cache_hierarchy.v1" CapabilityDomain.Platform ValueKind.Record
     "Cache hierarchy levels" EmptyString;
   make "cap.platform.page_sizes.v1" CapabilityDomain.Platform ValueKind.FeatureSet
     "Platform page sizes" EmptyString;
   make "cap.platform.iommu.v1" CapabilityDomain.Platform ValueKind.Boolean
     "IOMMU/translation hardware present and active" EmptyString;
   make "cap.platform.pci_devices.v1" CapabilityDomain.Platform ValueKind.Count "PCI devices enumerated" "devices";
   make "cap.platform.cxl_devices.v1" CapabilityDomain.Platform ValueKind.Count "CXL devices enumerated" "devices";
   make "cap.platform.nvswitch_devices.v1" CapabilityDomain.Platform ValueKind.Count
     "NVSwitch-class devices enumerated" "devices";
   make "cap.platform.accelerators.v1" CapabilityDomain.Platform ValueKind.Count
     "Hardware accelerators enumerated" "devices"].

Definition builtin_capability_schemas : list CapabilitySchema :=
  catalog_compute ++ catalog_memory ++ catalog_partitioning ++ catalog_interconnect ++ catalog_networking ++ catalog_runtime ++ catalog_reliability ++ catalog_power ++ catalog_platform.

Definition find_builtin_schema_by_capability (capability : CapabilityId) : option CapabilitySchema :=
  List.find (fun schema => cs_capability schema ==? capability) builtin_capability_schemas.

Definition find_builtin_schema (schema_id : CapabilitySchemaId) : option CapabilitySchema :=
  List.find (fun schema => cs_id schema ==? schema_id) builtin_capability_schemas.

(* ===================================================================== *)
(** ** Properties *)

Lemma builtin_catalogue_ok : catalogue_ok builtin_capability_schemas.
Proof. split; apply (bool_decide_unpack _); vm_compute; exact I. Qed.

(** Every built-in schema passes the registry's own validation under the
    default limits, and its capability identity is its schema identity
    without the version suffix; no two entries share a schema or a
    capability, so that a new registry loads all of them and both look-ups
    find exactly the entry asked for. *)
Theorem builtin_catalogue_well_formed limits :
  Forall (fun s => status_ok (validate_capability_schema s default_limits) = true /\
                   id_str (cs_id s) = (id_str (cs_capability s) +:+ ".v1")%string /\
                   find_builtin_schema (cs_id s) = Some s /\
                   find_builtin_schema_by_capability (cs_capability s) = Some s /\
                   r_schemas (construct_registry builtin_capability_schemas limits) !! cs_id s = Some s)
    builtin_capability_schemas /\
  catalogue_ok builtin_capability_schemas /\ lengthN builtin_capability_schemas = 113.
Proof.
  split; [|split; [exact builtin_catalogue_ok|vm_compute; reflexivity]].
  pose proof (construct_registry_ok _ limits builtin_catalogue_ok) as [_ Hload].
  assert (H : forallb (fun s => status_ok (validate_capability_schema s default_limits) &&
    (id_str (cs_id s) ==? (id_str (cs_capability s) +:+ ".v1")%string) &&
    match find_builtin_schema (cs_id s) with Some x => bool_decide (x = s) | None => false end &&
    match find_builtin_schema_by_capability (cs_capability s) with Some x => bool_decide (x = s) | None => false end)
    builtin_capability_schemas = true) by (vm_compute; reflexivity).
  rewrite forallb_forall in H. apply Forall_forall. intros s Hs.
  specialize (H s (proj1 (list_elem_of_In _ _) Hs)). bsimpl.
  destruct (find_builtin_schema _) as [x|] eqn:E1; [|done].
  destruct (find_builtin_schema_by_capability _) as [y|] eqn:E2; [|done]. bsimpl. subst. split_and!; auto.
Qed.
