(* ===== verification/System.v ===== *)
(** * Properties of every run

    What holds of a registry that was constructed with the built-in catalogue
    and then driven by any sequence of public operations: its invariant, the
    permanence of revocations, the effect of device boundaries on evidence,
    and two defects that only show in runs. *)

From S2P Require Import Prelude Tokens Versions Support Conditions Values Hardware Quirks Compat Publication.
From S2P Require Import RegistryState Fixtures Resolution Publishers Devices Knowledge Evidence Ingest Runs.
From S2P Require Import Catalog.

(* ===================================================================== *)
(** ** Lemmas *)

Lemma sequenced_grows hash p state st st' r :
  check_publisher st p = inr state -> sequenced hash p state st st' r -> publishers_grow st st'.
Proof.
  intros Hc Hseq. apply check_publisher_spec in Hc as (Hst & _).
  destruct Hseq; eapply publishers_grow_insert; try done; by apply same_standing_grows.
Qed.

Lemma apply_locked_grows hash now p st : publishers_grow st (apply_locked hash now p st).1.
Proof.
  destruct (is_sequenced (pb_kind p)) eqn:Hk.
  - destruct (apply_locked_cases hash now p st Hk) as [st' r _ Hpub _ _|p' state st' r _ _ Hc Hseq];
      [by apply publishers_grow_same|by eapply sequenced_grows].
  - unfold apply_locked. destruct (r_shutting_down st); [done|].
    destruct (prepare_publication st p) as [r|p'] eqn:Hp; [by apply publishers_grow_same|].
    rewrite (pp_kind _ _ _ (prepare_publication_spec _ _ _ Hp)).
    destruct (pb_kind p ==? PublicationKind.RegisterCapabilitySchema) eqn:H1.
    + unfold apply_schema, refuse, register_capability_schema_locked. apply publishers_grow_same.
      destruct (negb _); [by destruct (negb _)|]. destruct (_ !! cs_id _) as [c|]; [by destruct (same_schema _ _)|].
      destruct (_ !! cs_capability _); [done|]. by destruct (_ <=? _).
    + destruct (pb_kind p ==? PublicationKind.RegisterPublisher) eqn:H2.
      * unfold apply_registration. cbv zeta. cbn [fst].
        destruct (register_publisher_locked_grows now (pb_publisher p') (pb_reason p') st) as [Hg _].
        etrans; [exact Hg|]. apply publishers_grow_same. by destruct (accepted _).
      * exfalso. unfold is_sequenced in Hk. by rewrite H1, H2 in Hk.
Qed.

Lemma step_grows hash op st : publishers_grow st (step hash op st).
Proof.
  destruct op; cbn [step].
  - apply publishers_grow_same. unfold register_capability_schema, register_capability_schema_locked.
    destruct (negb _) eqn:?; [by destruct (status_ok _)|].
    destruct (_ !! cs_id _) as [c|]; [by destruct (same_schema _ _)|].
    destruct (_ !! cs_capability _); [done|]. by destruct (_ <=? _).
  - apply register_publisher_grows.
  - apply fence_publisher_grows.
  - apply retire_publisher_boot_grows.
  - apply reset_publisher_liveness_grows.
  - apply apply_locked_grows.
  - by apply publishers_grow_same.
  - apply publishers_grow_same. unfold set_coordinator_epoch. destruct (negb _); [done|]. by destruct (_ && _).
  - by apply publishers_grow_same.
  - by apply publishers_grow_same.
  - apply publishers_grow_same. unfold count_snapshot. by destruct (_ <? _).
Qed.

Lemma run_grows hash ops st : publishers_grow st (run hash ops st).
Proof.
  revert st. induction ops as [|op ops IH]; intros st; cbn; [done|]. etrans; [apply step_grows|apply IH].
Qed.

(** A sequenced publication of a revoked boot is refused. *)
Lemma revoked_refused hash now p st s :
  is_sequenced (pb_kind p) = true -> r_publishers st !! pi_id (pb_publisher p) = Some s ->
  boot_revoked s (pi_boot (pb_publisher p)) ->
  accepted (apply_locked hash now p st).2 = false /\ same_registry st (apply_locked hash now p st).1.
Proof.
  intros Hk Hs Hr. destruct (apply_locked_cases hash now p st Hk) as [st' r Hsame _ Ha _|p' state st' r _ Hp Hc _]; [done|].
  exfalso. apply check_publisher_spec in Hc as (Hst & Hf & Hb & _).
  rewrite (pp_publisher _ _ _ (prepare_publication_spec _ _ _ Hp)) in Hst, Hb.
  rewrite Hs in Hst. injection Hst as <-. destruct Hr as [Hr|Hr]; [congruence|done].
Qed.

(* ===================================================================== *)
(** ** Properties *)

Lemma reachable_ok hash limits ops :
  lengthN ops < 2 ^ 62 ->
  registry_ok (1 + 2 * lengthN ops) (run hash ops (construct_registry builtin_capability_schemas limits)).
Proof.
  intros Hlen. apply run_ok; [change u64_modulus with (2 ^ 64); lia|]. apply construct_registry_ok, builtin_catalogue_ok.
Qed.

(** C1: the registry invariant holds in every state a run reaches. After any
    sequence of fewer than 2^62 operations, imports of an image not among
    them, on a registry constructed with the built-in catalogue: every key is indexed under its device and bound to one
    schema of its capability, every record sits under its own key and slot
    with a provenance its source may claim, serials are distinct and
    superseded records flagged, the evidence count is exact and within the
    history bound, all tables are within their limits, and quirk and fact
    generations start at 1. *)
Theorem reachable_registry_ok hash limits ops (Hlen : lengthN ops < 2 ^ 62) :
  let st := run hash ops (construct_registry builtin_capability_schemas limits) in
  registry_ok (1 + 2 * lengthN ops) st /\
  r_evidence_count st = record_total (r_keys st) /\ r_evidence_count st <= max_evidence_history (r_limits st).
Proof.
  cbn zeta. assert (Hok := reachable_ok hash limits ops Hlen).
  split; [done|]. destruct (rk_evidence _ _ Hok). done.
Qed.

(** A run of a small registry: the agent registers itself and the GPU, then
    publishes claims about two capabilities. *)
Definition small_limits : RegistryLimits :=
  mk_RegistryLimits 20000 8192 2048 8 3 16384 16384 512 64 512 24 192 4 32 256 64 64 32 8192 8192 500000
    (N.shiftl 1 20) (N.shiftl 256 20) 64 1024 (N.shiftl 8 20) 4096.

Definition claim (sequence : N) (capability : string) (value : bool) : Publication :=
  publication PublicationKind.PublishCapability sequence
    <| pb_capability := fp8_record nvml_source SupportState.SupportedNative (VBoolean value)
         <| cr_capability := Id_parse capability |> <| cr_schema := Id_none |>
         <| cr_capability_generation := Gen_none |> |>.

Definition introduction : list Operation :=
  [OpRegisterPublisher "t" (mk_PublisherIdentity agent Gen_none Gen_none) "nvml";
   OpApply "t" (publication PublicationKind.RegisterDevice 1)].

Lemma reachable_registry_ok_witness :
  lengthN introduction < 2 ^ 62 /\
  registry_ok 5 (run strlen introduction (construct_registry builtin_capability_schemas default_limits)).
Proof.
  split; [vm_compute; reflexivity|]. exact (proj1 (reachable_registry_ok strlen default_limits introduction eq_refl)).
Defined.

(** C2: retained evidence is well typed in every registry that imported no
    image: after any run of fewer than 2^62 operations on a registry
    constructed with the built-in catalogue, an operation being any call of
    the interface but [import_durable_state], each record names the schema its
    key is bound to, the schema describes the capability of the key, and the
    value of the record passes validation and is empty or of the kind that
    schema prescribes. A registry started from an image is excluded: the
    import does not compare kinds ([Durable.import_ignores_value_kind]). *)
Theorem retained_values_typed hash limits ops (Hlen : lengthN ops < 2 ^ 62) :
  let st := run hash ops (construct_registry builtin_capability_schemas limits) in
  forall k key stored, r_keys st !! k = Some key -> stored ∈ ks_records key ->
    cr_device (sr_record stored) = k.1 /\ cr_capability (sr_record stored) = k.2 /\
    exists schema, r_schemas st !! cr_schema (sr_record stored) = Some schema /\
      cs_id schema = cr_schema (sr_record stored) /\ cs_capability schema = k.2 /\
      value_typed (r_limits st) schema (sr_record stored).
Proof.
  cbn zeta. intros k key stored Hk Hin. assert (Hok := reachable_ok hash limits ops Hlen).
  destruct (eo_keys _ _ (rk_evidence _ _ Hok) _ _ Hk) as [(d & _ & Hstored) (s & Hs & Hc & Htyped) _ _].
  rewrite Forall_forall in Hstored, Htyped. destruct (Hstored _ Hin) as [Hd Hcap Hsch _ _ _ _ _].
  split_and!; [done|done|]. exists s. rewrite Hsch. split; [done|].
  split; [by apply (sk_schema _ (rk_schemas _ _ Hok))|]. split; [done|by apply Htyped].
Qed.

Lemma retained_values_typed_witness :
  let st := run strlen (introduction ++ [OpApply "t" (claim 2 "cap.compute.fp8" true)])
              (construct_registry builtin_capability_schemas default_limits) in
  exists k key stored schema, r_keys st !! k = Some key /\ stored ∈ ks_records key /\
    r_schemas st !! cr_schema (sr_record stored) = Some schema /\ cs_value_kind schema = ValueKind.Boolean.
Proof.
  cbv zeta. set (ops := introduction ++ [OpApply "t" (claim 2 "cap.compute.fp8" true)]).
  set (st := run strlen ops (construct_registry builtin_capability_schemas default_limits)).
  destruct (r_keys st !! (gpu, fp8)) as [key|] eqn:Hk; [|exfalso; vm_compute in Hk; discriminate].
  assert (Hone : exists stored, ks_records key = [stored] /\ cr_value (sr_record stored) = VBoolean true).
  { vm_compute in Hk. apply (inj Some) in Hk. subst key. eexists. split; reflexivity. }
  destruct Hone as (stored & Hrecords & Hvalue).
  assert (Hin : stored ∈ ks_records key) by (rewrite Hrecords; left).
  destruct (retained_values_typed strlen default_limits ops eq_refl (gpu, fp8) key stored Hk Hin)
    as (_ & _ & schema & Hs & _ & _ & _ & Hkind).
  exists (gpu, fp8), key, stored, schema. split; [exact Hk|]. split; [exact Hin|]. split; [exact Hs|].
  rewrite <- Hkind by (rewrite Hvalue; reflexivity). rewrite Hvalue. reflexivity.
Defined.



(** C4: a device boundary invalidates everything known about the device.
    Right after a registration that opens a new generation (a new
    incarnation, an observed boot or an explicit request), no capability of
    the device has a current answer, whatever the environment and whether the
    query asks for the new or for an old generation. *)
Theorem boundary_revalidates_device n p st d
    (Hok : registry_ok n st) (Hn : n + 2 < u64_modulus)
    (Hd : r_devices st !! di_id (dr_identity (pb_device p)) = Some d) (Ho : opens_generation d p) :
  let st' := (apply_device_locked p st).1 in
  exists d', r_devices st' !! di_id (dr_identity (pb_device p)) = Some d' /\
    forall capability pinned environment,
      let r := resolve_locked st' d' capability pinned environment in
      rc_current r = false /\ usable r = false.
Proof.
  cbn zeta. destruct (apply_device_known p st d Hd) as (Hdd & _).
  rewrite (proj2 (opens_generation_spec d p) Ho) in Hdd. set (d' := refresh_device d (pb_device p) true) in *.
  exists d'. rewrite Hdd. split; [apply lookup_insert_eq|]. intros capability pinned environment.
  assert (Hcur : rc_current (resolve_locked (apply_device_locked p st).1 d' capability pinned environment) = false).
  { destruct (rc_current _) eqn:E; [|done]. exfalso.
    apply resolve_current_evidence in E as (key & stored & Hk & Hin & Hst).
    apply staleness_none_current in Hst as [_ _ Hg _ _ _ _ _ _].
    destruct (apply_device_frame p st) as (Hkeys & _). rewrite Hkeys in Hk.
    destruct (rk_devices _ _ Hok _ _ Hd) as (Hid & [_ Hgen] & _).
    destruct (eo_keys _ _ (rk_evidence _ _ Hok) _ _ Hk) as [(d0 & Hd0 & Hf) _ _ _].
    cbn in Hd0. rewrite Hid, Hd in Hd0. injection Hd0 as <-.
    rewrite Forall_forall in Hf. pose proof (so_device_generation _ _ _ _ (Hf stored Hin)) as Hle.
    rewrite Hg in Hle. cbn in Hle. change (gen_value (gen_next (ds_generation d)) <= gen_value (ds_generation d)) in Hle.
    rewrite gen_next_value in Hle by lia. lia. }
  split; [exact Hcur|]. by apply not_current_not_usable.
Qed.

Lemma populate_ok record base :
  registry_ok 1 base -> sizeN ({[gpu := gpu_state]} : gmap DeviceId DeviceState) <= max_devices (r_limits base) ->
  publishers_ok (populate record base) -> evidence_ok 2 (populate record base) -> devices_ok 2 (populate record base) ->
  registry_ok 2 (populate record base).
Proof. intros [_ _ _ _ [k1 k2] Hq Hf _] Hd Hp He Hdev. split; try done. Qed.

Lemma fp8_fleet_ok : registry_ok 2 fp8_fleet.
Proof.
  assert (Hcat : catalogue_ok [schema_entry]) by (split; apply NoDup_singleton).
  unfold fp8_fleet, fleet. apply populate_ok.
  - apply construct_registry_ok, Hcat.
  - vm_compute. discriminate.
  - split; [|vm_compute; discriminate]. apply map_Forall_singleton. split; [reflexivity|vm_compute; discriminate].
  - exact fp8_fleet_evidence_ok.
  - exact fp8_fleet_devices_ok.
Qed.

Lemma boundary_revalidates_device_witness :
  let p := publication PublicationKind.PublishDeviceGeneration 1 in
  rc_current (resolve_locked fp8_fleet gpu_state fp8 Gen_none ∅) = true /\
  exists d', r_devices (apply_device_locked p fp8_fleet).1 !! gpu = Some d' /\
    rc_current (resolve_locked (apply_device_locked p fp8_fleet).1 d' fp8 Gen_none ∅) = false.
Proof.
  cbv zeta. set (p := publication PublicationKind.PublishDeviceGeneration 1).
  split; [vm_compute; reflexivity|].
  assert (Ho : opens_generation gpu_state p) by (right; right; reflexivity).
  destruct (boundary_revalidates_device 2 p fp8_fleet gpu_state fp8_fleet_ok eq_refl eq_refl Ho) as (d' & Hd & H).
  exists d'. split; [exact Hd|]. exact (proj1 (H fp8 Gen_none ∅)).
Defined.

Definition fresh_fleet : Registry :=
  run strlen introduction (construct_registry builtin_capability_schemas default_limits).

(** A refused claim is not without effect: the first claim about a
    capability, refused because it skips a capability generation, still
    creates the capability's key, so that the answer to a query turns from
    "unknown" into "revalidation required". *)
Theorem refused_claim_changes_answer :
  let p := claim 2 "cap.compute.fp8" true <| pb_capability ::= fun c => c <| cr_capability_generation := mk_Gen 2 |> |> in
  let out := apply_locked strlen "t" p fresh_fleet in
  ar_code out.2 = ApplyCode.RejectedStaleCapabilityGeneration /\ ar_mutated out.2 = false /\
  exists d, r_devices fresh_fleet !! gpu = Some d /\ r_devices out.1 !! gpu = Some d /\
    rc_effective_support (resolve_locked fresh_fleet d fp8 Gen_none ∅) = EffectiveSupport.Unknown /\
    rc_effective_support (resolve_locked out.1 d fp8 Gen_none ∅) = EffectiveSupport.RevalidationRequired.
Proof.
  cbv zeta. split; [vm_compute; reflexivity|]. split; [vm_compute; reflexivity|].
  eexists. split; [vm_compute; reflexivity|]. split; [vm_compute; reflexivity|]. split; vm_compute; reflexivity.
Qed.

(** Claims that fill a history of three records. *)
Definition filling_run : list Operation :=
  introduction ++
  [OpApply "t" (claim 2 "cap.compute.fp8" true); OpApply "t" (claim 3 "cap.compute.fp16" true);
   OpApply "t" (claim 4 "cap.compute.fp16" false); OpApply "t" (claim 5 "cap.compute.fp8" false)].

Definition exhausted_b (st : Registry) : bool :=
  (lengthN (r_global_order st) =? 0) && (max_evidence_history (r_limits st) <=? r_evidence_count st) &&
  (r_evidence_count st <? u64_modulus) &&
  forallb (fun e : KeyId * KeyState => lengthN (ks_records e.2) <=? per_key_cap (r_limits st)) (map_to_list (r_keys st)).

Lemma exhausted_b_spec st : exhausted_b st = true -> exhausted st.
Proof.
  unfold exhausted_b. intros H. apply andb_true_iff in H as [H Hf]. bsimpl. split; try done.
  - destruct (r_global_order st); [done|]. by rewrite lengthN_cons in *; lia.
  - intros k key Hk. rewrite forallb_forall in Hf. apply N.leb_le.
    apply (Hf (k, key)), list_elem_of_In. by apply elem_of_map_to_list.
Qed.

(** Eviction can lose track of a record for good. An entry of the
    eviction queue is dropped when its record is not yet superseded and is
    never queued again; in this run, of four accepted claims, the queue is
    empty and the history at its bound while a superseded record is retained,
    and from then on every capability publication is refused, although the
    refusal says that no evictable record remains. *)
Theorem eviction_queue_loses_records :
  let st := run strlen filling_run (construct_registry builtin_capability_schemas small_limits) in
  (exists k key r, r_keys st !! k = Some key /\ r ∈ ks_records key /\ superseded (ks_records key) r = true) /\
  ar_code (apply_locked strlen "t" (claim 6 "cap.compute.fp16" true) st).2 = ApplyCode.RejectedBackpressure /\
  forall claims : list Publication,
    let st' := foldl (fun st p => (apply_capability_locked p st).1) st claims in
    forall p, ar_mutated (apply_capability_locked p st').2 = false.
Proof.
  cbv zeta. set (st := run _ _ _). assert (He : exhausted st) by (apply exhausted_b_spec; vm_compute; reflexivity).
  split; [|split; [vm_compute; reflexivity|]].
  - destruct (r_keys st !! (gpu, fp8)) as [key|] eqn:Hk; [|vm_compute in Hk; discriminate].
    destruct (List.find (superseded (ks_records key)) (ks_records key)) as [r|] eqn:Hf.
    + exists (gpu, fp8), key, r. apply List.find_some in Hf as [Hin Hs]. split; [done|]. split; [by apply list_elem_of_In|done].
    + exfalso. vm_compute in Hk. injection Hk as <-. vm_compute in Hf. discriminate.
  - intros claims. assert (H : exhausted (foldl (fun st p => (apply_capability_locked p st).1) st claims)).
    { clearbody st. revert st He. induction claims as [|p claims IH]; intros st He; cbn; [done|].
      by apply IH, apply_capability_exhausted. }
    intros p. by apply apply_capability_exhausted.
Qed.
