(* ===== verification/Wire.v ===== *)
(** * The byte codec

    Models [detail/binary.hpp]: [ByteWriter], [ByteReader], and what a codec
    built from them promises. A writer is the bytes it emits with its
    truncation flag, and writers are composed by appending. A reader is the
    unread input with its first failure; once it has failed every operation
    returns zero and leaves it as it is ([rd_sticky]).

    The read functions of [codec.cpp] go on after a failure, on zeros, and
    return a partly filled struct that their callers discard after asking
    [ok()]. [Reading] stops at the failure instead: by [rd_sticky] the reader
    is left in the same state, and only the discarded struct is not
    modelled. *)

From S2P Require Import Prelude Tokens Versions Support.

Abbreviation byte := ascii.

(* ===================================================================== *)
(** ** [ByteWriter] *)

Record Writer := mk_Writer { w_bytes : list byte; w_truncated : bool }.

Definition w_nothing : Writer := mk_Writer [] false.

Definition w_then (a b : Writer) : Writer := mk_Writer (w_bytes a ++ w_bytes b) (w_truncated a || w_truncated b).
Infix "+++" := w_then (at level 60, right associativity) : hcr_scope.

(** The byte loop of [u16], [u32] and [u64], from byte [i]. *)
Fixpoint uint_bytes (count : nat) (i value : N) : list byte :=
  match count with
  | O => []
  | S n => ascii_of_N (N.land (N.shiftr value (i * 8)) 255) :: uint_bytes n (i + 1) value
  end.

Definition w_u8 (value : N) : Writer := mk_Writer [ascii_of_N value] false.
Definition w_u16 (value : N) : Writer := mk_Writer (uint_bytes 2 0 value) false.
Definition w_u32 (value : N) : Writer := mk_Writer (uint_bytes 4 0 value) false.
Definition w_u64 (value : N) : Writer := mk_Writer (uint_bytes 8 0 value) false.

(** [static_cast<std::uint64_t>] of a signed value. *)
Definition w_i64 (value : Z) : Writer := w_u64 (Z.to_N (value mod 2 ^ 64)).

Definition w_boolean (value : bool) : Writer := w_u8 (if value then 1 else 0).

Definition w_raw (data : list byte) : Writer := mk_Writer data false.

Definition clamp (bound size : N) : N := if bound <? size then bound else size.

Definition w_blob (data : list byte) (max_length : N) : Writer :=
  let size := clamp max_length (lengthN data) in
  w_u32 size +++ mk_Writer (take (N.to_nat size) data) (max_length <? lengthN data).

Definition w_str (text : string) (max_length : N) : Writer := w_blob (list_ascii_of_string text) max_length.

(* ===================================================================== *)
(** ** [ByteReader] *)

Record Reader := mk_Reader { rd_input : list byte; rd_failure : option (ErrorCode * string) }.

Definition rd_open (data : list byte) : Reader := mk_Reader data None.

Definition rd_ok (r : Reader) : bool := match rd_failure r with None => true | Some _ => false end.
Definition rd_remaining (r : Reader) : N := lengthN (rd_input r).
Definition rd_exhausted (r : Reader) : bool := match rd_input r with [] => true | _ :: _ => false end.

Definition rd_fail (code : ErrorCode) (message : string) (r : Reader) : Reader :=
  if rd_ok r then mk_Reader (rd_input r) (Some (code, message)) else r.

Definition rd_status (r : Reader) : Status :=
  match rd_failure r with None => success | Some (code, message) => failure code message end.

Definition rd_u8 (r : Reader) : N * Reader :=
  if negb (rd_ok r) then (0, r)
  else match rd_input r with
  | [] => (0, rd_fail CorruptData "truncated input while reading a byte" r)
  | b :: rest => (N_of_ascii b, mk_Reader rest None)
  end.

(** The loop of [u16], [u32] and [u64]: [value |= u8() << (i * 8)]. *)
Fixpoint rd_uint (count : nat) (i value : N) (r : Reader) : N * Reader :=
  match count with
  | O => (value, r)
  | S n => let '(b, r) := rd_u8 r in rd_uint n (i + 1) (N.lor value (N.shiftl b (i * 8))) r
  end.

Definition rd_u16 : Reader -> N * Reader := rd_uint 2 0 0.
Definition rd_u32 : Reader -> N * Reader := rd_uint 4 0 0.
Definition rd_u64 : Reader -> N * Reader := rd_uint 8 0 0.

(** [static_cast<std::int64_t>] of an unsigned value. *)
Definition signed64 (n : N) : Z := if n <? 2 ^ 63 then Z.of_N n else (Z.of_N n - 2 ^ 64)%Z.

Definition rd_i64 (r : Reader) : Z * Reader := let '(n, r) := rd_u64 r in (signed64 n, r).
Definition rd_boolean (r : Reader) : bool * Reader := let '(n, r) := rd_u8 r in (negb (n =? 0), r).

Definition rd_bytes (what : string) (max_length : N) (r : Reader) : list byte * Reader :=
  let '(length, r) := rd_u32 r in
  if negb (rd_ok r) then ([], r)
  else if (max_length <? length) || (rd_remaining r <? length)
  then ([], rd_fail CorruptData (what +:+ " length exceeds the bound or the input")%string r)
  else (take (N.to_nat length) (rd_input r), mk_Reader (drop (N.to_nat length) (rd_input r)) None).

Definition rd_blob : N -> Reader -> list byte * Reader := rd_bytes "blob".
Definition rd_str (max_length : N) (r : Reader) : string * Reader :=
  let '(bytes, r) := rd_bytes "string" max_length r in (string_of_list_ascii bytes, r).

(* ===================================================================== *)
(** ** Read functions *)

Definition Reading (A : Type) : Type := Reader -> option A * Reader.

#[global] Instance Reading_ret : MRet Reading := fun _ a r => (Some a, r).
#[global] Instance Reading_bind : MBind Reading := fun _ _ f m r =>
  match m r with (Some a, r') => f a r' | (None, r') => (None, r') end.

(** One operation of the reader, after which [ok()] decides. *)
Definition reading {A} (op : Reader -> A * Reader) : Reading A := fun r =>
  let '(a, r) := op r in (if rd_ok r then Some a else None, r).

Definition read_u8 : Reading N := reading rd_u8.
Definition read_u16 : Reading N := reading rd_u16.
Definition read_u32 : Reading N := reading rd_u32.
Definition read_u64 : Reading N := reading rd_u64.
Definition read_i64 : Reading Z := reading rd_i64.
Definition read_boolean : Reading bool := reading rd_boolean.
Definition read_str (max_length : N) : Reading string := reading (rd_str max_length).
Definition read_remaining : Reading N := fun r => (Some (rd_remaining r), r).
Definition read_fail {A} (code : ErrorCode) (message : string) : Reading A := fun r => (None, rd_fail code message r).

(** [if (condition) { reader.fail(code, message); return ...; }] *)
Definition refuse_if (condition : bool) (code : ErrorCode) (message : string) : Reading unit :=
  if condition then read_fail code message else mret tt.

(** [static_cast<T>(raw)] of a raw value already checked against the last
    enumerator. *)
Definition cast_enum {A} `{CppEnum A} (raw : N) : Reading A :=
  match enum_cast raw with Some a => mret a | None => read_fail Internal EmptyString end.

(** A raw enumerator on its own, checked right after it is read. *)
Definition read_enum {A} `{CppEnum A} (last : A) (code : ErrorCode) (message : string) : Reading A :=
  raw ← read_u16;
  _ ← refuse_if (enum_index last <? raw) code message;
  cast_enum raw.

Definition w_enum {A} `{CppEnum A} (value : A) : Writer := w_u16 (enum_index value).

(** A count, refused when it exceeds the bound or the remaining input. *)
Definition read_count (bound : N) (code : ErrorCode) (message : string) : Reading N :=
  count ← read_u32;
  remaining ← read_remaining;
  _ ← refuse_if ((bound <? count) || (remaining <? count)) code message;
  mret count.

(** [for (i = 0; i < count; ++i) out.push_back(read(reader));] *)
Fixpoint read_times {A} (count : nat) (read : Reading A) : Reading (list A) :=
  match count with
  | O => mret []
  | S n => a ← read; l ← read_times n read; mret (a :: l)
  end.

Definition read_list {A} (bound : N) (code : ErrorCode) (message : string) (read : Reading A) : Reading (list A) :=
  count ← read_count bound code message;
  read_times (N.to_nat count) read.

(** [for (...) write(writer, values[i]);] *)
Definition w_all (writers : list Writer) : Writer := foldr w_then w_nothing writers.

(** The first [bound] elements, preceded by their number: elements beyond the
    bound are dropped without setting the truncation flag. *)
Definition w_writers (bound : N) (writers : list Writer) : Writer :=
  let count := N.min (lengthN writers) bound in
  w_u32 count +++ w_all (take (N.to_nat count) writers).

Definition w_list {A} (bound : N) (write : A -> Writer) (l : list A) : Writer := w_writers bound (map write l).

(** A flag followed by the value it announces. *)
Definition w_option {A} (write : A -> Writer) (o : option A) : Writer :=
  match o with None => w_boolean false | Some a => w_boolean true +++ write a end.

Definition read_option {A} (read : Reading A) : Reading (option A) :=
  present ← read_boolean;
  if (present : bool) then a ← read; mret (Some a) else mret None.

(* ===================================================================== *)
(** ** What a codec promises *)

(** What [w] writes, unless truncated, is read back by [m] as [a], whatever
    follows it. *)
Definition carries {A} (w : Writer) (m : Reading A) (a : A) : Prop :=
  w_truncated w = false -> forall rest, m (rd_open (w_bytes w ++ rest)) = (Some a, rd_open rest).

(** A pair of a write and a read function round-trips on every value that
    fits, and writes at least one byte. *)
Class WireCodec {A} (fits : A -> bool) (write : A -> Writer) (read : Reading A) : Prop := {
  wire_carries a : fits a = true -> carries (write a) read a;
  wire_nonempty a : w_bytes (write a) <> []
}.

Create HintDb wire.

(* ===================================================================== *)
(** ** Lemmas: sticky failure *)

Lemma rd_u8_failed r : rd_ok r = false -> rd_u8 r = (0, r).
Proof. unfold rd_u8. by intros ->. Qed.

Lemma rd_uint_failed count i r : rd_ok r = false -> rd_uint count i 0 r = (0, r).
Proof.
  intros Hr. revert i. induction count as [|n IH]; intros i; cbn [rd_uint]; [done|].
  by rewrite rd_u8_failed, N.shiftl_0_l, N.lor_0_l, IH.
Qed.

Lemma rd_bytes_failed what max_length r : rd_ok r = false -> rd_bytes what max_length r = ([], r).
Proof. intros Hr. unfold rd_bytes, rd_u32. by rewrite rd_uint_failed, Hr. Qed.

(** Once a reader has failed, every operation returns zero and changes
    nothing, the first failure included. *)
Lemma rd_sticky r :
  rd_ok r = false ->
  rd_u8 r = (0, r) /\ rd_u16 r = (0, r) /\ rd_u32 r = (0, r) /\ rd_u64 r = (0, r) /\ rd_i64 r = (0%Z, r) /\
  rd_boolean r = (false, r) /\ (forall max, rd_str max r = (EmptyString, r)) /\
  (forall max, rd_blob max r = ([], r)) /\ forall code message, rd_fail code message r = r.
Proof.
  intros Hr. unfold rd_i64, rd_boolean, rd_str, rd_blob, rd_u16, rd_u32, rd_u64, rd_fail.
  rewrite rd_u8_failed, !rd_uint_failed, Hr by done. repeat split; intros; by rewrite rd_bytes_failed.
Qed.

(* ===================================================================== *)
(** ** Lemmas: integers *)

Lemma ascii_N_byte n : n < 256 -> N_of_ascii (ascii_of_N n) = n.
Proof. apply N_ascii_embedding. Qed.

Lemma land_255_lt n : N.land n 255 < 256.
Proof.
  change 255 with (N.ones 8). rewrite N.land_ones. change 256 with (2 ^ 8). by apply N.mod_lt.
Qed.

(** Reading back the bytes [i .. i + count - 1] of [value]. *)
Lemma rd_uint_bytes count i acc value rest :
  rd_uint count i acc (rd_open (uint_bytes count i value ++ rest)) =
  (N.lor acc (N.shiftl (N.land (N.shiftr value (i * 8)) (N.ones (N.of_nat count * 8))) (i * 8)), rd_open rest).
Proof.
  revert i acc. induction count as [|n IH]; intros i acc; cbn [uint_bytes rd_uint app].
  - change (N.of_nat 0 * 8) with 0. change (N.ones 0) with 0.
    by rewrite N.land_0_r, N.shiftl_0_l, N.lor_0_r.
  - unfold rd_u8. cbn [rd_open rd_ok rd_failure negb rd_input].
    rewrite ascii_N_byte by apply land_255_lt. fold (rd_open (uint_bytes n (i + 1) value ++ rest)).
    rewrite IH. f_equal. rewrite <- N.lor_assoc. f_equal. apply N.bits_inj. intros k.
    rewrite N.lor_spec. destruct (N.lt_ge_cases k (i * 8)) as [Hk|Hk].
    { rewrite !N.shiftl_spec_low by lia. done. }
    rewrite (N.shiftl_spec_high' _ (i * 8)), (N.shiftl_spec_high' _ (i * 8) k) by lia.
    rewrite !N.land_spec. rewrite !N.shiftr_spec' . change 255 with (N.ones 8).
    destruct (N.lt_ge_cases k ((i + 1) * 8)) as [Hk'|Hk'].
    + rewrite N.shiftl_spec_low by lia. rewrite !N.ones_spec_low by lia. by rewrite orb_false_r.
    + rewrite N.shiftl_spec_high' by lia. rewrite N.land_spec, N.shiftr_spec'.
      rewrite (N.ones_spec_high 8) by lia. rewrite andb_false_r, orb_false_l.
      replace (k - (i + 1) * 8 + (i + 1) * 8) with (k - i * 8 + i * 8) by lia. f_equal.
      destruct (N.lt_ge_cases (k - (i + 1) * 8) (N.of_nat n * 8)).
      * by rewrite !N.ones_spec_low by lia.
      * by rewrite !N.ones_spec_high by lia.
Qed.

Lemma rd_uint_value count value rest :
  value < 2 ^ (N.of_nat count * 8) ->
  rd_uint count 0 0 (rd_open (uint_bytes count 0 value ++ rest)) = (value, rd_open rest).
Proof.
  intros Hv. rewrite rd_uint_bytes. change (0 * 8) with 0.
  rewrite N.shiftr_0_r, N.shiftl_0_r, N.lor_0_l, N.land_ones, N.mod_small by done. done.
Qed.

Lemma signed64_value z :
  (- 2 ^ 63 <= z < 2 ^ 63)%Z -> signed64 (Z.to_N (z mod 2 ^ 64)) = z.
Proof.
  intros Hz. unfold signed64.
  assert (Hm : (z mod 2 ^ 64 = if (z <? 0)%Z then z + 2 ^ 64 else z)%Z).
  { destruct (Z.ltb_spec z 0).
    - symmetry. apply Z.mod_unique with (-1)%Z; lia.
    - apply Z.mod_small. lia. }
  rewrite Hm. destruct (Z.ltb_spec z 0);
    match goal with |- context [?a <? ?b] => destruct (N.ltb_spec a b) end; lia.
Qed.

(* ===================================================================== *)
(** ** Lemmas: composition *)

Lemma carries_bind {A B} w1 w2 (m : Reading A) (f : A -> Reading B) a b :
  carries w1 m a -> carries w2 (f a) b -> carries (w1 +++ w2) (m ≫= f) b.
Proof.
  intros H1 H2 [Ht1 Ht2]%orb_false_iff rest. cbn [w_then w_bytes]. rewrite <- app_assoc.
  unfold mbind, Reading_bind. by rewrite H1, H2.
Qed.

Lemma carries_ret {A} (a : A) : carries w_nothing (mret a) a.
Proof. done. Qed.

Lemma carries_last {A B} w (m : Reading A) (f : A -> Reading B) a b :
  carries w m a -> f a = mret b -> carries w (m ≫= f) b.
Proof.
  intros H Hf Ht rest. unfold mbind, Reading_bind. rewrite H by done. by rewrite Hf.
Qed.

(** A check that passes is transparent. *)
Lemma carries_check {A} w condition code message (k : Reading A) a :
  condition = false -> carries w k a -> carries w (_ ← refuse_if condition code message; k) a.
Proof. by intros ->. Qed.

Lemma carries_nothing {A B} w (m : Reading A) (f : A -> Reading B) a b :
  carries w_nothing m a -> carries w (f a) b -> carries w (m ≫= f) b.
Proof.
  intros H1 H2 Ht rest. unfold mbind, Reading_bind. pose proof (H1 eq_refl (w_bytes w ++ rest)) as H.
  cbn [w_nothing w_bytes app] in H. rewrite H. by apply H2.
Qed.

Lemma carries_uint count value :
  value < 2 ^ (N.of_nat count * 8) ->
  carries (mk_Writer (uint_bytes count 0 value) false) (reading (rd_uint count 0 0)) value.
Proof. intros Hv _ rest. unfold reading. cbn [w_bytes]. by rewrite rd_uint_value. Qed.

Lemma carries_u16 value : value < 2 ^ 16 -> carries (w_u16 value) read_u16 value.
Proof. apply (carries_uint 2). Qed.
Lemma carries_u32 value : value < 2 ^ 32 -> carries (w_u32 value) read_u32 value.
Proof. apply (carries_uint 4). Qed.
Lemma carries_u64 value : value < 2 ^ 64 -> carries (w_u64 value) read_u64 value.
Proof. apply (carries_uint 8). Qed.

Lemma carries_i64 value : (- 2 ^ 63 <= value < 2 ^ 63)%Z -> carries (w_i64 value) read_i64 value.
Proof.
  intros Hv _ rest. unfold read_i64, reading, rd_i64, rd_u64, w_i64, w_u64. cbn [w_bytes].
  rewrite rd_uint_value.
  - cbn. by rewrite signed64_value.
  - change (2 ^ (N.of_nat 8 * 8)) with (Z.to_N (2 ^ 64)). pose proof (Z.mod_pos_bound value (2 ^ 64)). lia.
Qed.

Lemma carries_boolean value : carries (w_boolean value) read_boolean value.
Proof. intros _ rest. by destruct value. Qed.

Lemma carries_raw_enum {A} `{CppEnum A} (value : A) :
  (lengthN (enum_values (A := A)) <=? 65536) = true -> carries (w_enum value) read_u16 (enum_index value).
Proof. intros Hl%N.leb_le. apply carries_u16. pose proof (enum_index_lt value). lia. Qed.

Lemma enum_index_le_last {A} `{CppEnum A} (last value : A) :
  (enum_index last + 1 =? lengthN (enum_values (A := A))) = true -> (enum_index last <? enum_index value) = false.
Proof. intros Hl%N.eqb_eq. apply N.ltb_ge. pose proof (enum_index_lt value). lia. Qed.

Lemma carries_cast {A} `{CppEnum A} (value : A) : carries w_nothing (cast_enum (enum_index value)) value.
Proof. unfold cast_enum. rewrite enum_cast_index. apply carries_ret. Qed.

Lemma carries_enum {A} `{CppEnum A} (last value : A) code message :
  (lengthN (enum_values (A := A)) <=? 65536) = true ->
  (enum_index last + 1 =? lengthN (enum_values (A := A))) = true ->
  carries (w_enum value) (read_enum last code message) value.
Proof.
  intros Hl Hlast Ht rest. unfold read_enum, mbind, Reading_bind. rewrite carries_raw_enum by done.
  rewrite enum_index_le_last by done. unfold cast_enum. by rewrite enum_cast_index.
Qed.

Lemma take_lengthN {A} (l : list A) : take (N.to_nat (lengthN l)) l = l.
Proof. unfold lengthN. rewrite Nat2N.id. apply firstn_all. Qed.

Lemma drop_lengthN_app {A} (l k : list A) : drop (N.to_nat (lengthN l)) (l ++ k) = k.
Proof. unfold lengthN. rewrite Nat2N.id. apply drop_app_length. Qed.

Lemma take_lengthN_app {A} (l k : list A) : take (N.to_nat (lengthN l)) (l ++ k) = l.
Proof. unfold lengthN. rewrite Nat2N.id. apply take_app_length. Qed.

Lemma rd_bytes_carries what data max_length rest :
  max_length < 2 ^ 32 -> w_truncated (w_blob data max_length) = false ->
  rd_bytes what max_length (rd_open (w_bytes (w_blob data max_length) ++ rest)) = (data, rd_open rest).
Proof.
  intros Hmax Ht. cbn [w_blob w_then w_truncated w_u32 orb] in Ht. unfold w_blob, clamp. rewrite Ht.
  cbn [w_then w_bytes w_u32]. rewrite take_lengthN, <- app_assoc. apply N.ltb_ge in Ht.
  unfold rd_bytes, rd_u32. rewrite rd_uint_value by (change (2 ^ (N.of_nat 4 * 8)) with (2 ^ 32); lia).
  cbn [rd_open rd_ok rd_failure negb]. unfold rd_remaining, rd_open. cbn [rd_input]. rewrite lengthN_app.
  rewrite (proj2 (N.ltb_ge _ _)), (proj2 (N.ltb_ge _ _)) by lia. cbn [orb].
  by rewrite take_lengthN_app, drop_lengthN_app.
Qed.

Lemma carries_str text max_length : max_length < 2 ^ 32 -> carries (w_str text max_length) (read_str max_length) text.
Proof.
  intros Hmax Ht rest. unfold read_str, reading, rd_str, w_str. rewrite rd_bytes_carries by done.
  cbn. by rewrite string_of_list_ascii_of_string.
Qed.

Lemma carries_option {A} (write : A -> Writer) (read : Reading A) (o : option A) :
  (forall a, o = Some a -> carries (write a) read a) -> carries (w_option write o) (read_option read) o.
Proof.
  intros H. destruct o as [a|]; [|done]. unfold w_option, read_option.
  eapply carries_bind; [apply carries_boolean|]. cbn. eapply carries_last; [by apply H|done].
Qed.

Lemma carries_all {A} (write : A -> Writer) (read : Reading A) l :
  (forall a, a ∈ l -> carries (write a) read a) -> carries (w_all (map write l)) (read_times (length l) read) l.
Proof.
  induction l as [|x l IH]; intros H; [done|]. cbn [map w_all foldr length read_times].
  eapply carries_bind; [apply H; left|]. eapply carries_last; [|done]. apply IH. intros a Ha. apply H. by right.
Qed.

Lemma w_all_length {A} (write : A -> Writer) l :
  (forall a, w_bytes (write a) <> []) -> lengthN l <= lengthN (w_bytes (w_all (map write l))).
Proof.
  intros H. induction l as [|x l IH]; [done|]. cbn [map w_all foldr w_then w_bytes].
  rewrite lengthN_cons, lengthN_app. pose proof (H x) as Hx. destruct (w_bytes (write x)); [done|].
  rewrite lengthN_cons. unfold w_all in IH. lia.
Qed.

Lemma carries_list {A} bound code message (write : A -> Writer) (read : Reading A) l :
  bound < 2 ^ 32 -> (lengthN l <=? bound) = true ->
  (forall a, a ∈ l -> carries (write a) read a) -> (forall a, w_bytes (write a) <> []) ->
  carries (w_list bound write l) (read_list bound code message read) l.
Proof.
  intros Hb Hl%N.leb_le H Hne Ht rest. unfold w_list, w_writers in *.
  assert (Hm : lengthN (map write l) = lengthN l) by (unfold lengthN; by rewrite length_map).
  rewrite Hm in Ht |- *. rewrite N.min_l in Ht |- * by done.
  assert (Htake : take (N.to_nat (lengthN l)) (map write l) = map write l) by (rewrite <- Hm; apply take_lengthN).
  rewrite Htake in Ht |- *. cbn [w_then w_bytes w_truncated w_u32 orb] in *. rewrite <- app_assoc.
  unfold read_list, read_count, mbind, Reading_bind.
  pose proof (carries_u32 (lengthN l) ltac:(lia) eq_refl) as Hu. cbn [w_u32 w_bytes] in Hu. rewrite Hu.
  unfold read_remaining, refuse_if, rd_remaining, rd_open. cbn [rd_input]. rewrite lengthN_app.
  pose proof (w_all_length write l Hne).
  rewrite (proj2 (N.ltb_ge bound _)), (proj2 (N.ltb_ge _ (lengthN l))) by lia. cbn [orb].
  unfold mret, Reading_ret. cbv beta iota. unfold lengthN. rewrite Nat2N.id.
  exact (carries_all write read l H Ht rest).
Qed.

Lemma w_then_nonempty a b : w_bytes a <> [] -> w_bytes (a +++ b) <> [].
Proof. cbn. by destruct (w_bytes a). Qed.

Lemma w_str_nonempty text max_length : w_bytes (w_str text max_length) <> [].
Proof. done. Qed.

Lemma w_writers_nonempty bound writers : w_bytes (w_writers bound writers) <> [].
Proof. done. Qed.

(** ** Identities and generations *)

Definition write_id {tag} (id : Id tag) : Writer := w_str (id_str id) kMaxTokenLength.
Definition read_id {tag} : Reading (Id tag) := text ← read_str kMaxTokenLength; mret (Id_parse text).
Definition write_gen {tag} (g : Gen tag) : Writer := w_u64 (gen_value g).
Definition read_gen {tag} : Reading (Gen tag) := n ← read_u64; mret (mk_Gen n).

(** A value held in a [std::uint64_t] or a [std::size_t]. *)
Definition u64_fits (n : N) : bool := n <? 2 ^ 64.
Definition gen_fits {tag} (g : Gen tag) : bool := u64_fits (gen_value g).

Lemma carries_id {tag} (id : Id tag) : carries (write_id id) read_id id.
Proof.
  eapply carries_last; [by apply carries_str|]. by rewrite id_parse_str.
Qed.

Lemma carries_u64_fits n : u64_fits n = true -> carries (w_u64 n) read_u64 n.
Proof. intros H%N.ltb_lt. by apply carries_u64. Qed.

Lemma carries_gen {tag} (g : Gen tag) : gen_fits g = true -> carries (write_gen g) read_gen g.
Proof. intros H. eapply carries_last; [by apply carries_u64_fits|]. by rewrite gen_mk_value. Qed.

#[export] Hint Resolve carries_u64_fits carries_boolean carries_id carries_gen : wire.
#[export] Hint Resolve carries_str : wire.
#[export] Hint Extern 1 (carries (w_enum _) (read_enum _ _ _) _) => apply carries_enum; reflexivity : wire.
#[export] Hint Extern 1 (carries (w_enum _) read_u16 _) => apply carries_raw_enum; reflexivity : wire.
#[export] Hint Extern 1 (carries w_nothing (cast_enum _) _) => apply carries_cast : wire.

(** Splits a conjunction of tests in the hypotheses. *)
Ltac split_fits :=
  repeat match goal with
  | H : _ && _ = true |- _ => apply andb_true_iff in H as [? ?]
  end.

(** One step through a writer and the read function that mirrors it. *)
Ltac wire_step :=
  lazymatch goal with
  | |- carries _ (mbind _ (refuse_if _ _ _)) _ =>
      apply carries_check;
      [repeat rewrite enum_index_le_last by reflexivity; reflexivity|]
  | |- carries _ (mbind _ (cast_enum _)) _ => eapply carries_nothing; [apply carries_cast|cbv beta]
  | |- carries (_ +++ _) (mbind _ _) _ => eapply carries_bind; [solve [eauto with wire]|cbv beta]
  | |- carries w_nothing (mret _) _ => apply carries_ret
  | |- carries _ (mbind _ _) _ => eapply carries_last; [solve [eauto with wire]|reflexivity]
  end.
Ltac wire := repeat wire_step.

(** The same for the fields of [x], which the last step puts together. *)
Ltac wire_struct x :=
  repeat first [wire_step | eapply carries_last; [solve [eauto with wire]|by destruct x]].
