(* ===== verification/Checksum.v ===== *)
(** * The checksum

    Models [crc32] of [protocol.cpp], which protects frames and the durable
    image, and proves that it detects every corruption confined to four
    consecutive bytes. *)

From S2P Require Import Prelude Tokens Wire.

(* ===================================================================== *)
(** ** [crc32] *)

Definition crc_polynomial : N := 3988292384. (* 0xEDB88320 *)
Definition crc_bit (value : N) : N :=
  if N.land value 1 =? 0 then N.shiftr value 1 else N.lxor crc_polynomial (N.shiftr value 1).

(** An entry of the static [table]. *)
Definition crc_table (i : N) : N := Nat.iter 8 crc_bit i.

Definition crc_step (crc : N) (b : byte) : N :=
  N.lxor (crc_table (N.land (N.lxor crc (N_of_ascii b)) 255)) (N.shiftr crc 8).

Definition crc_all : N := 4294967295. (* 0xFFFFFFFF *)
Definition crc32 (data : list byte) : N := N.lxor (foldl crc_step crc_all data) crc_all.

(* ===================================================================== *)
(** ** One step of the register

    A step depends on the register and the byte only through their exclusive
    or, and is injective on 32 bits: the high byte of a table entry
    determines its index. *)

Definition crc_shift (x : N) : N := N.lxor (crc_table (N.land x 255)) (N.shiftr x 8).

Lemma byte_small (b : byte) : N_of_ascii b < 256.
Proof. apply N_ascii_bounded. Qed.

Lemma shiftr_small a n : a < 2 ^ n -> N.shiftr a n = 0.
Proof. intros H. rewrite N.shiftr_div_pow2. by apply N.div_small. Qed.

Lemma crc_step_shift crc b : crc_step crc b = crc_shift (N.lxor crc (N_of_ascii b)).
Proof.
  unfold crc_step, crc_shift. f_equal. rewrite N.shiftr_lxor.
  rewrite (shiftr_small (N_of_ascii b)) by apply byte_small. by rewrite N.lxor_0_r.
Qed.

(** The 256 entries, by computation: they have 32 bits and distinct high
    bytes. *)
Definition byte_values : list N := map N.of_nat (seq 0 256).

Lemma elem_of_byte_values x : x < 256 -> x ∈ byte_values.
Proof.
  intros Hx. unfold byte_values. apply list_elem_of_fmap. exists (N.to_nat x).
  split; [by rewrite N2Nat.id|]. apply elem_of_seq. lia.
Qed.

Definition high_byte (x : N) : N := N.shiftr (crc_table x) 24.

Lemma crc_table_entries :
  forallb (fun x => crc_table x <? 2 ^ 32) byte_values = true /\ bool_decide (NoDup (map high_byte byte_values)) = true.
Proof. split; vm_compute; reflexivity. Qed.

Lemma crc_table_small x : x < 256 -> crc_table x < 2 ^ 32.
Proof.
  intros Hx. pose proof (proj1 crc_table_entries) as H. rewrite forallb_forall in H.
  apply N.ltb_lt, H, list_elem_of_In, elem_of_byte_values, Hx.
Qed.

Lemma map_NoDup_inj {A B} (f : A -> B) l x y : NoDup (map f l) -> x ∈ l -> y ∈ l -> f x = f y -> x = y.
Proof.
  intros Hn Hx Hy Hf. apply list_elem_of_lookup in Hx as [i Hi], Hy as [j Hj].
  assert (Hij : i = j).
  { apply (proj1 (NoDup_alt _) Hn i j (f x)); rewrite list_lookup_fmap; [by rewrite Hi|by rewrite Hj, Hf]. }
  subst. congruence.
Qed.

Lemma high_byte_inj x y : x < 256 -> y < 256 -> high_byte x = high_byte y -> x = y.
Proof.
  intros Hx Hy. pose proof (proj2 crc_table_entries) as H. apply bool_decide_eq_true in H.
  apply (map_NoDup_inj high_byte byte_values); [done| |]; by apply elem_of_byte_values.
Qed.

Lemma lxor_small a b n : a < 2 ^ n -> b < 2 ^ n -> N.lxor a b < 2 ^ n.
Proof.
  intros Ha Hb. apply N.mod_small_iff; [by apply N.pow_nonzero|]. rewrite <- N.land_ones.
  apply N.bits_inj. intros k. rewrite N.land_spec, N.lxor_spec.
  destruct (N.lt_ge_cases k n) as [Hk|Hk].
  - by rewrite N.ones_spec_low, andb_true_r by lia.
  - rewrite N.ones_spec_high, andb_false_r by lia. symmetry.
    rewrite <- (N.mod_small a (2 ^ n)), <- (N.mod_small b (2 ^ n)) by done.
    by rewrite !N.mod_pow2_bits_high by lia.
Qed.

Lemma shiftr_lt a n m : a < 2 ^ (n + m) -> N.shiftr a n < 2 ^ m.
Proof.
  intros H. rewrite N.shiftr_div_pow2. apply N.Div0.div_lt_upper_bound. by rewrite <- N.pow_add_r.
Qed.

Lemma crc_shift_small x : x < 2 ^ 32 -> crc_shift x < 2 ^ 32.
Proof.
  intros Hx. apply lxor_small; [apply crc_table_small, land_255_lt|].
  apply N.lt_trans with (2 ^ 24); [by apply (shiftr_lt x 8 24)|done].
Qed.

Lemma crc_shift_inj x y : x < 2 ^ 32 -> y < 2 ^ 32 -> crc_shift x = crc_shift y -> x = y.
Proof.
  intros Hx Hy H.
  assert (Hhigh : forall z, z < 2 ^ 32 -> N.shiftr (crc_shift z) 24 = high_byte (N.land z 255)).
  { intros z Hz. unfold crc_shift. rewrite N.shiftr_lxor, N.shiftr_shiftr.
    rewrite (shiftr_small z) by done. by rewrite N.lxor_0_r. }
  assert (Hlow : N.land x 255 = N.land y 255).
  { apply high_byte_inj; [apply land_255_lt..|]. by rewrite <- !Hhigh, H by done. }
  unfold crc_shift in H. rewrite Hlow in H.
  assert (Hrest : N.shiftr x 8 = N.shiftr y 8).
  { rewrite <- (N.lxor_0_l (N.shiftr x 8)), <- (N.lxor_0_l (N.shiftr y 8)).
    rewrite <- (N.lxor_nilpotent (crc_table (N.land y 255))), !N.lxor_assoc. by rewrite H. }
  apply N.bits_inj. intros k. destruct (N.lt_ge_cases k 8) as [Hk|Hk].
  - assert (Hb : N.testbit (N.land x 255) k = N.testbit (N.land y 255) k) by (by rewrite Hlow).
    change 255 with (N.ones 8) in Hb. rewrite !N.land_spec, !N.ones_spec_low, !andb_true_r in Hb by lia. done.
  - replace k with (k - 8 + 8) by lia. rewrite <- !N.shiftr_spec'. by rewrite Hrest.
Qed.

(** The bytes above the first enter the register one step later. *)
Lemma crc_shift_lxor x y : N.lxor (crc_shift x) y = crc_shift (N.lxor x (N.shiftl y 8)).
Proof.
  unfold crc_shift. rewrite N.lxor_assoc. f_equal.
  - f_equal. apply N.bits_inj. intros k. change 255 with (N.ones 8). rewrite !N.land_spec, N.lxor_spec.
    destruct (N.lt_ge_cases k 8).
    + by rewrite N.shiftl_spec_low, xorb_false_r by done.
    + by rewrite N.ones_spec_high, !andb_false_r by done.
  - rewrite N.shiftr_lxor. by rewrite N.shiftr_shiftl_l, N.sub_diag, N.shiftl_0_r by done.
Qed.

(** The little-endian number of a block of bytes. *)
Fixpoint block (w : list byte) : N :=
  match w with [] => 0 | b :: rest => N.lxor (N_of_ascii b) (N.shiftl (block rest) 8) end.

Lemma crc_block w s : foldl crc_step s w = Nat.iter (length w) crc_shift (N.lxor s (block w)).
Proof.
  revert s. induction w as [|b w IH]; intros s; cbn [foldl block length Nat.iter]; [by rewrite N.lxor_0_r|].
  rewrite IH, crc_step_shift, crc_shift_lxor, N.lxor_assoc. by rewrite <- Nat.iter_succ_r.
Qed.

Lemma block_small w : block w < 2 ^ (8 * lengthN w).
Proof.
  induction w as [|b w IH]; [done|]. cbn [block]. rewrite lengthN_cons. apply lxor_small.
  - apply N.lt_le_trans with (2 ^ 8); [apply byte_small|]. apply N.pow_le_mono_r; lia.
  - rewrite N.shiftl_mul_pow2. replace (8 * (1 + lengthN w)) with (8 * lengthN w + 8) by lia.
    rewrite N.pow_add_r. apply N.mul_lt_mono_pos_r; [done|exact IH].
Qed.

Lemma block_inj v w : length v = length w -> block v = block w -> v = w.
Proof.
  revert w. induction v as [|a v IH]; intros [|b w] Hl; try done. cbn [block]. intros H. injection Hl as Hl.
  assert (Hlow : forall c r, N.land (N.lxor (N_of_ascii c) (N.shiftl r 8)) 255 = N_of_ascii c).
  { intros c r. apply N.bits_inj. intros k. change 255 with (N.ones 8). rewrite N.land_spec, N.lxor_spec.
    destruct (N.lt_ge_cases k 8).
    - by rewrite N.shiftl_spec_low, xorb_false_r, N.ones_spec_low, andb_true_r by done.
    - rewrite N.ones_spec_high, andb_false_r by done.
      rewrite <- (N.mod_small (N_of_ascii c) (2 ^ 8)) by apply byte_small. by rewrite N.mod_pow2_bits_high. }
  assert (Hab : N_of_ascii a = N_of_ascii b) by (by rewrite <- (Hlow a (block v)), H, Hlow).
  rewrite Hab in H. f_equal.
  - rewrite <- (ascii_N_embedding a), <- (ascii_N_embedding b). by rewrite Hab.
  - apply IH; [done|].
    assert (Hs : N.shiftl (block v) 8 = N.shiftl (block w) 8).
    { rewrite <- (N.lxor_0_l (N.shiftl (block v) 8)), <- (N.lxor_0_l (N.shiftl (block w) 8)).
      rewrite <- (N.lxor_nilpotent (N_of_ascii b)), !N.lxor_assoc. by rewrite H. }
    rewrite <- (N.shiftr_0_r (block v)), <- (N.shiftr_0_r (block w)), <- (N.sub_diag 8).
    by rewrite <- !N.shiftr_shiftl_r, Hs by done.
Qed.

Lemma crc_iter_inj n x y :
  x < 2 ^ 32 -> y < 2 ^ 32 -> Nat.iter n crc_shift x = Nat.iter n crc_shift y -> x = y.
Proof.
  assert (Hs : forall n x, x < 2 ^ 32 -> Nat.iter n crc_shift x < 2 ^ 32).
  { clear. induction n as [|n IH]; intros x Hx; [done|]. apply crc_shift_small. by apply IH. }
  induction n as [|n IH]; intros Hx Hy H; [done|]. apply IH; [done..|].
  apply crc_shift_inj; [by apply Hs..|exact H].
Qed.

Lemma crc_register_small w s : s < 2 ^ 32 -> foldl crc_step s w < 2 ^ 32.
Proof.
  revert s. induction w as [|b w IH]; intros s Hs; [done|]. cbn [foldl]. apply IH. rewrite crc_step_shift.
  apply crc_shift_small, lxor_small; [done|]. apply N.lt_trans with 256; [apply byte_small|done].
Qed.

Lemma crc_register_inj w s t : s < 2 ^ 32 -> t < 2 ^ 32 -> foldl crc_step s w = foldl crc_step t w -> s = t.
Proof.
  revert s t. induction w as [|b w IH]; intros s t Hs Ht H; [done|]. cbn [foldl] in H.
  assert (Hb : N_of_ascii b < 2 ^ 32) by (apply N.lt_trans with 256; [apply byte_small|done]).
  apply IH in H; [|rewrite crc_step_shift; by apply crc_shift_small, lxor_small..].
  rewrite !crc_step_shift in H. apply crc_shift_inj in H; [|by apply lxor_small..].
  apply (f_equal (fun x => N.lxor x (N_of_ascii b))) in H. cbv beta in H.
  by rewrite !N.lxor_assoc, !N.lxor_nilpotent, !N.lxor_0_r in H.
Qed.

Lemma crc32_small data : crc32 data < 2 ^ 32.
Proof. apply lxor_small; [by apply crc_register_small|done]. Qed.

(** The checksum detects every corruption that is confined to four consecutive
    bytes. *)
Lemma crc32_detects_bursts before corrupted original after :
  length corrupted = length original -> (length original <= 4)%nat -> corrupted <> original ->
  crc32 (before ++ corrupted ++ after) <> crc32 (before ++ original ++ after).
Proof.
  intros Hlen Hshort Hdiff H. apply Hdiff, block_inj; [done|]. unfold crc32 in H.
  apply (f_equal (fun x => N.lxor x crc_all)) in H. cbv beta in H.
  rewrite !N.lxor_assoc, !N.lxor_nilpotent, !N.lxor_0_r, !foldl_app in H.
  set (s := foldl crc_step crc_all before) in *.
  assert (Hs : s < 2 ^ 32) by (by apply crc_register_small).
  apply crc_register_inj in H; [|by apply crc_register_small..].
  rewrite !crc_block, Hlen in H.
  assert (Hblock : forall w : list byte, (length w <= 4)%nat -> block w < 2 ^ 32).
  { intros w Hw. apply N.lt_le_trans with (2 ^ (8 * lengthN w)); [apply block_small|].
    apply N.pow_le_mono_r; [done|]. unfold lengthN. lia. }
  apply crc_iter_inj in H; [|apply lxor_small; [done|apply Hblock; lia]..].
  apply (f_equal (N.lxor s)) in H. by rewrite <- !N.lxor_assoc, !N.lxor_nilpotent, !N.lxor_0_l in H.
Qed.

(** The check value of CRC-32. *)
Example crc32_check_value : crc32 (list_ascii_of_string "123456789") = 3421780262.
Proof. vm_compute. reflexivity. Qed.
