(* ===== verification/Codec.v ===== *)
(** * The canonical codecs

    Models the codecs of [codec.cpp] that publications and the durable state
    are made of, and proves that each read function reads back what its write
    function wrote. The codecs of query results are in the file Messages. *)

From S2P Require Import Prelude Tokens Versions Support Conditions Values Hardware Quirks Compat Publication.
From S2P Require Import RegistryState Wire.

(* ===================================================================== *)
(** ** Versions, identities and conditions *)

Definition write_version (version : SoftwareVersion) (limits : RegistryLimits) : Writer :=
  w_str (raw version) (max_name_length limits).

Definition read_version (limits : RegistryLimits) : Reading SoftwareVersion :=
  text ← read_str (max_name_length limits);
  mret (version_parse text).

Definition write_version_range (range : VersionRange) (limits : RegistryLimits) : Writer :=
  write_version (minimum range) limits +++
  write_version (maximum range) limits +++
  w_boolean (include_maximum range).

Definition read_version_range (limits : RegistryLimits) : Reading VersionRange :=
  minimum ← read_version limits;
  maximum ← read_version limits;
  include_maximum ← read_boolean;
  mret (mk_VersionRange minimum maximum include_maximum).

Definition write_publisher_identity (identity : PublisherIdentity) : Writer :=
  write_id (pi_id identity) +++ write_gen (pi_boot identity) +++ write_gen (pi_epoch identity).

Definition read_publisher_identity : Reading PublisherIdentity :=
  id ← read_id;
  boot ← read_gen;
  epoch ← read_gen;
  mret (mk_PublisherIdentity id boot epoch).

(** [write_condition] on a node, and on a pointer to one. *)
Fixpoint write_node (limits : RegistryLimits) (node : ConditionNode) : Writer :=
  let '(Condition kind key value children) := node in
  w_u8 1 +++ w_enum kind +++
  w_str key (max_name_length limits) +++ w_str value (max_name_length limits) +++
  w_writers (max_condition_children limits)
    (map (fun child => match child with None => w_u8 0 | Some n => write_node limits n end) children).

Definition write_condition (node : ConditionPtr) (limits : RegistryLimits) : Writer :=
  match node with None => w_u8 0 | Some n => write_node limits n end.

(** The recursion stops at [max_record_depth + 2], below which a node is
    refused; [condition_fuel] exceeds every depth that is not. *)
Fixpoint read_condition_at (fuel : nat) (limits : RegistryLimits) (depth : N) : Reading ConditionPtr :=
  present ← read_u8;
  if (present =? 0) then mret None
  else
    _ ← refuse_if (negb (present =? 1)) CorruptData "invalid condition presence marker";
    _ ← refuse_if (wrap64 (max_record_depth limits + 2) <? depth) LimitExceeded "condition nesting exceeds the bound";
    kind ← read_enum ConditionKind.Not InvalidCondition "unknown condition kind on the wire";
    key ← read_str (max_name_length limits);
    value ← read_str (max_name_length limits);
    children ← read_list (max_condition_children limits) LimitExceeded "condition child count exceeds the bound"
      (match fuel with
       | O => read_fail Internal EmptyString
       | S fuel' => read_condition_at fuel' limits (depth + 1)
       end);
    mret (Some (Condition kind key value children)).

Definition condition_fuel (limits : RegistryLimits) : nat := S (N.to_nat (wrap64 (max_record_depth limits + 2))).

Definition read_condition (limits : RegistryLimits) (depth : N) : Reading ConditionPtr :=
  read_condition_at (condition_fuel limits) limits depth.

(* ===================================================================== *)
(** ** Values *)

Fixpoint write_value (limits : RegistryLimits) (value : CapabilityValue) : Writer :=
  w_enum (value_kind value) +++
  match value with
  | VNone => w_nothing
  | VBoolean b => w_boolean b
  | VCount count unit => w_u64 count +++ w_str unit (max_name_length limits)
  | VBytes bytes => w_u64 bytes
  | VRate magnitude unit => w_u64 magnitude +++ w_enum unit
  | VBandwidth magnitude unit => w_u64 magnitude +++ w_enum unit
  | VLatency value => w_enum value
  | VEnum domain value => w_str domain (max_name_length limits) +++ w_str value (max_name_length limits)
  | VFeatureSet features =>
      w_list (max_feature_set_entries limits) (fun text => w_str text (max_metadata_bytes limits)) features
  | VVersionRange range => write_version_range range limits
  | VArchitectureSet architectures => w_list (max_architecture_set_entries limits) write_id architectures
  | VNumericRange minimum maximum step => w_i64 minimum +++ w_i64 maximum +++ w_i64 step
  | VRecord fields =>
      w_writers (max_record_fields limits)
        (map (fun field : string * option CapabilityValue =>
          w_str field.1 (max_name_length limits) +++
          match field.2 with None => w_u8 0 | Some nested => w_u8 1 +++ write_value limits nested end) fields)
  | VRelationship relation target => w_enum relation +++ write_id target
  | VPredicate condition => write_condition condition limits
  end.

(** One field of a record; [read] reads the nested value. *)
Definition read_field (limits : RegistryLimits) (read : Reading CapabilityValue) : Reading RecordField :=
  name ← read_str (max_name_length limits);
  present ← read_u8;
  if (present =? 1) then nested ← read; mret (name, Some nested)
  else
    _ ← refuse_if (negb (present =? 0)) CorruptData "invalid record field presence marker";
    mret (name, None).

(** The [switch] of [read_value], for a value at [depth] whose fields are
    read by [nested]. *)
Definition read_value_of (limits : RegistryLimits) (depth : N) (nested : Reading CapabilityValue) (kind : ValueKind) :
    Reading CapabilityValue :=
  match kind with
  | ValueKind.None => mret VNone
  | ValueKind.Boolean => b ← read_boolean; mret (VBoolean b)
  | ValueKind.Count => count ← read_u64; unit ← read_str (max_name_length limits); mret (VCount count unit)
  | ValueKind.Bytes => bytes ← read_u64; mret (VBytes bytes)
  | ValueKind.Rate =>
      magnitude ← read_u64;
      unit ← read_enum RateUnit.OperationsPerSecond InvalidValue "unknown rate unit on the wire";
      mret (VRate magnitude unit)
  | ValueKind.Bandwidth =>
      magnitude ← read_u64;
      unit ← read_enum BandwidthUnit.GigabitsPerSecond InvalidValue "unknown bandwidth unit on the wire";
      mret (VBandwidth magnitude unit)
  | ValueKind.LatencyClass =>
      value ← read_enum LatencyClass.VeryHigh InvalidValue "unknown latency class on the wire";
      mret (VLatency value)
  | ValueKind.Enumeration =>
      domain ← read_str (max_name_length limits);
      value ← read_str (max_name_length limits);
      mret (VEnum domain value)
  | ValueKind.FeatureSet =>
      features ← read_list (max_feature_set_entries limits) CorruptData "string list count exceeds the bound"
                   (read_str (max_metadata_bytes limits));
      mret (VFeatureSet features)
  | ValueKind.VersionRange => range ← read_version_range limits; mret (VVersionRange range)
  | ValueKind.ArchitectureSet =>
      architectures ← read_list (max_architecture_set_entries limits) LimitExceeded
                        "architecture set count exceeds the bound" read_id;
      mret (VArchitectureSet architectures)
  | ValueKind.NumericRange =>
      minimum ← read_i64;
      maximum ← read_i64;
      step ← read_i64;
      mret (VNumericRange minimum maximum step)
  | ValueKind.Record =>
      fields ← read_list (max_record_fields limits) LimitExceeded "record field count exceeds the bound"
                 (read_field limits nested);
      mret (VRecord fields)
  | ValueKind.Relationship =>
      relation ← read_enum CapabilityRelation.Exclusive InvalidValue "unknown capability relation on the wire";
      target ← read_id;
      mret (VRelationship relation target)
  | ValueKind.Predicate => condition ← read_condition limits (depth + 1); mret (VPredicate condition)
  end.

Fixpoint read_value_at (fuel : nat) (limits : RegistryLimits) (depth : N) : Reading CapabilityValue :=
  raw ← read_u16;
  _ ← refuse_if (enum_index ValueKind.Predicate <? raw) InvalidValue "unknown value kind on the wire";
  _ ← refuse_if (max_record_depth limits <? depth) LimitExceeded "value nesting exceeds the bound";
  kind ← cast_enum raw;
  read_value_of limits depth
    (match fuel with
     | O => read_fail Internal EmptyString
     | S fuel' => read_value_at fuel' limits (depth + 1)
     end) kind.

(** Depths above [max_record_depth] are refused. *)
Definition value_fuel (limits : RegistryLimits) : nat := S (N.to_nat (max_record_depth limits)).

Definition read_value (limits : RegistryLimits) (depth : N) : Reading CapabilityValue :=
  read_value_at (value_fuel limits) limits depth.

(* ===================================================================== *)
(** ** Evidence sources and hardware *)

Definition write_evidence_source (source : EvidenceSource) (limits : RegistryLimits) : Writer :=
  w_enum (source_class source) +++
  w_enum (provenance source) +++
  write_publisher_identity (publisher source) +++
  w_str (adapter source) (max_metadata_bytes limits) +++
  w_str (native_reference source) (max_metadata_bytes limits) +++
  w_u64 (observation_sequence source) +++
  w_str (observed_at_utc source) (max_metadata_bytes limits) +++
  write_gen (evidence_generation source) +++
  w_u64 (platform_generation source).

Definition read_evidence_source (limits : RegistryLimits) : Reading EvidenceSource :=
  raw_source ← read_u16;
  raw_provenance ← read_u16;
  _ ← refuse_if ((enum_index SourceClass.HardwareProbe <? raw_source) ||
                 (enum_index ProvenanceClass.UnknownSource <? raw_provenance))
        InvalidProvenance "unknown provenance enumeration on the wire";
  source_class ← cast_enum raw_source;
  provenance ← cast_enum raw_provenance;
  publisher ← read_publisher_identity;
  adapter ← read_str (max_metadata_bytes limits);
  native_reference ← read_str (max_metadata_bytes limits);
  observation_sequence ← read_u64;
  observed_at_utc ← read_str (max_metadata_bytes limits);
  evidence_generation ← read_gen;
  platform_generation ← read_u64;
  mret (mk_EvidenceSource source_class provenance publisher adapter native_reference observation_sequence
    observed_at_utc evidence_generation platform_generation).

Definition write_native_identifier (limits : RegistryLimits) (identifier : NativeIdentifier) : Writer :=
  w_str (ni_key identifier) (max_name_length limits) +++ w_str (ni_value identifier) (max_metadata_bytes limits).

Definition read_native_identifier (limits : RegistryLimits) : Reading NativeIdentifier :=
  key ← read_str (max_name_length limits);
  value ← read_str (max_metadata_bytes limits);
  mret (mk_NativeIdentifier key value).

Definition write_hardware_identity (identity : HardwareIdentity) (limits : RegistryLimits) : Writer :=
  write_id (hi_vendor identity) +++
  write_id (hi_product identity) +++
  write_id (hi_family identity) +++
  write_id (hi_model identity) +++
  write_id (hi_revision identity) +++
  write_id (hi_architecture identity) +++
  w_enum (hi_class identity) +++
  w_list (max_native_identifiers limits) (write_native_identifier limits) (hi_native_identifiers identity).

Definition read_hardware_identity (limits : RegistryLimits) : Reading HardwareIdentity :=
  vendor ← read_id;
  product ← read_id;
  family ← read_id;
  model ← read_id;
  revision ← read_id;
  architecture ← read_id;
  hardware_class ← read_enum HardwareClass.Other InvalidIdentity "unknown hardware class on the wire";
  native_identifiers ← read_list (max_native_identifiers limits) LimitExceeded
                         "native identifier count exceeds the bound" (read_native_identifier limits);
  mret (mk_HardwareIdentity vendor product family model revision architecture hardware_class native_identifiers).

Definition write_platform_identity (identity : PlatformIdentity) (limits : RegistryLimits) : Writer :=
  write_id (pl_id identity) +++
  w_str (pl_display_name identity) (max_name_length limits) +++
  w_str (pl_vendor identity) (max_name_length limits) +++
  w_str (pl_model identity) (max_name_length limits) +++
  write_id (pl_architecture identity) +++
  w_list (max_native_identifiers limits) (write_native_identifier limits) (pl_native_identifiers identity).

Definition read_platform_identity (limits : RegistryLimits) : Reading PlatformIdentity :=
  id ← read_id;
  display_name ← read_str (max_name_length limits);
  vendor ← read_str (max_name_length limits);
  model ← read_str (max_name_length limits);
  architecture ← read_id;
  native_identifiers ← read_list (max_native_identifiers limits) LimitExceeded
                         "platform native identifier count exceeds the bound" (read_native_identifier limits);
  mret (mk_PlatformIdentity id display_name vendor model architecture native_identifiers).

Definition write_device_identity (identity : DeviceIdentity) (limits : RegistryLimits) : Writer :=
  write_id (di_id identity) +++
  write_id (di_incarnation identity) +++
  write_hardware_identity (di_hardware identity) limits +++
  write_id (di_platform identity) +++
  w_option (fun text => w_str text (max_metadata_bytes limits)) (di_serial_number identity) +++
  w_option (fun text => w_str text (max_metadata_bytes limits)) (di_instance_locator identity) +++
  w_str (di_display_name identity) (max_name_length limits).

Definition read_device_identity (limits : RegistryLimits) : Reading DeviceIdentity :=
  id ← read_id;
  incarnation ← read_id;
  hardware ← read_hardware_identity limits;
  platform ← read_id;
  serial_number ← read_option (read_str (max_metadata_bytes limits));
  instance_locator ← read_option (read_str (max_metadata_bytes limits));
  display_name ← read_str (max_name_length limits);
  mret (mk_DeviceIdentity id incarnation hardware platform serial_number instance_locator display_name).

Definition write_software_state (state : DeviceSoftwareState) (limits : RegistryLimits) : Writer :=
  write_id (fw_id (sw_firmware state)) +++
  w_str (fw_version (sw_firmware state)) (max_name_length limits) +++
  w_str (fw_build (sw_firmware state)) (max_name_length limits) +++
  write_gen (sw_firmware_generation state) +++
  write_id (dv_id (sw_driver state)) +++
  w_str (dv_version (sw_driver state)) (max_name_length limits) +++
  write_gen (sw_driver_generation state) +++
  write_id (rt_id (sw_runtime state)) +++
  w_str (rt_version (sw_runtime state)) (max_name_length limits) +++
  write_gen (sw_runtime_generation state).

Definition read_software_state (limits : RegistryLimits) : Reading DeviceSoftwareState :=
  firmware_id ← read_id;
  firmware_version ← read_str (max_name_length limits);
  firmware_build ← read_str (max_name_length limits);
  firmware_generation ← read_gen;
  driver_id ← read_id;
  driver_version ← read_str (max_name_length limits);
  driver_generation ← read_gen;
  runtime_id ← read_id;
  runtime_version ← read_str (max_name_length limits);
  runtime_generation ← read_gen;
  mret (mk_DeviceSoftwareState (mk_FirmwareIdentity firmware_id firmware_version firmware_build) firmware_generation
    (mk_DriverIdentity driver_id driver_version) driver_generation
    (mk_RuntimeIdentity runtime_id runtime_version) runtime_generation).

Definition write_device_registration (registration : DeviceRegistration) (limits : RegistryLimits) : Writer :=
  write_device_identity (dr_identity registration) limits +++
  write_software_state (dr_software registration) limits +++
  write_platform_identity (dr_platform registration) limits +++
  w_boolean (dr_device_boot_observed registration) +++
  w_u64 (dr_observation_sequence registration) +++
  w_str (dr_observed_at_utc registration) (max_metadata_bytes limits).

Definition read_device_registration (limits : RegistryLimits) : Reading DeviceRegistration :=
  identity ← read_device_identity limits;
  software ← read_software_state limits;
  platform ← read_platform_identity limits;
  device_boot_observed ← read_boolean;
  observation_sequence ← read_u64;
  observed_at_utc ← read_str (max_metadata_bytes limits);
  mret (mk_DeviceRegistration identity software platform device_boot_observed observation_sequence observed_at_utc).

(* ===================================================================== *)
(** ** Capabilities, quirks, facts and publications *)

Definition write_capability_schema (schema : CapabilitySchema) (limits : RegistryLimits) : Writer :=
  write_id (cs_id schema) +++
  write_id (cs_capability schema) +++
  w_enum (cs_domain schema) +++
  w_enum (cs_value_kind schema) +++
  w_str (cs_canonical_name schema) (max_name_length limits) +++
  w_str (cs_unit schema) (max_metadata_bytes limits).

Definition read_capability_schema (limits : RegistryLimits) : Reading CapabilitySchema :=
  id ← read_id;
  capability ← read_id;
  domain ← read_u16;
  kind ← read_u16;
  _ ← refuse_if ((enum_index CapabilityDomain.Platform <? domain) || (enum_index ValueKind.Predicate <? kind))
        InvalidCapability "unknown capability domain or value kind on the wire";
  domain ← cast_enum domain;
  value_kind ← cast_enum kind;
  canonical_name ← read_str (max_name_length limits);
  unit ← read_str (max_metadata_bytes limits);
  mret (mk_CapabilitySchema id capability domain value_kind canonical_name unit).

Definition write_capability_record (record : CapabilityRecord) (limits : RegistryLimits) : Writer :=
  write_id (cr_device record) +++
  write_gen (cr_device_generation record) +++
  write_gen (cr_device_boot record) +++
  write_id (cr_capability record) +++
  write_id (cr_schema record) +++
  write_gen (cr_capability_generation record) +++
  w_enum (cr_support record) +++
  write_value limits (cr_value record) +++
  w_enum (cr_precision record) +++
  write_evidence_source (cr_source record) limits +++
  write_condition (cr_conditions record) limits +++
  write_gen (cr_firmware_generation record) +++
  write_gen (cr_driver_generation record) +++
  write_gen (cr_runtime_generation record) +++
  write_gen (cr_platform_generation record) +++
  write_id (cr_driver_id record) +++
  write_id (cr_firmware_id record) +++
  write_id (cr_runtime_id record) +++
  w_boolean (cr_withdrawn record).

Definition read_capability_record (limits : RegistryLimits) : Reading CapabilityRecord :=
  device ← read_id;
  device_generation ← read_gen;
  device_boot ← read_gen;
  capability ← read_id;
  schema ← read_id;
  capability_generation ← read_gen;
  support ← read_enum SupportState.RevalidationRequired InvalidSupportState "unknown support state on the wire";
  value ← read_value limits 1;
  precision ← read_enum PrecisionClass.Unknown InvalidProvenance "unknown precision class on the wire";
  source ← read_evidence_source limits;
  conditions ← read_condition limits 1;
  firmware_generation ← read_gen;
  driver_generation ← read_gen;
  runtime_generation ← read_gen;
  platform_generation ← read_gen;
  driver_id ← read_id;
  firmware_id ← read_id;
  runtime_id ← read_id;
  withdrawn ← read_boolean;
  mret (mk_CapabilityRecord device device_generation device_boot capability schema capability_generation support
    value precision source conditions firmware_generation driver_generation runtime_generation platform_generation
    driver_id firmware_id runtime_id withdrawn).

(** The local [write_ids] and [write_ranges] of [write_quirk_record]. *)
Definition write_ids {tag} : list (Id tag) -> Writer := w_list 1024 write_id.
Definition write_ranges (ranges : list VersionRange) (limits : RegistryLimits) : Writer :=
  w_list 64 (fun range => write_version_range range limits) ranges.

Definition read_id_list {tag} (bound : N) : Reading (list (Id tag)) :=
  read_list bound LimitExceeded "identity list count exceeds the bound" read_id.
Definition read_ranges (limits : RegistryLimits) : Reading (list VersionRange) :=
  read_list 64 LimitExceeded "version range count exceeds the bound" (read_version_range limits).

Definition write_revision_range (limits : RegistryLimits) (range : RevisionRange) : Writer :=
  w_str (rr_minimum range) (max_metadata_bytes limits) +++ w_str (rr_maximum range) (max_metadata_bytes limits).

Definition read_revision_range (limits : RegistryLimits) : Reading RevisionRange :=
  minimum ← read_str (max_metadata_bytes limits);
  maximum ← read_str (max_metadata_bytes limits);
  mret (mk_RevisionRange minimum maximum).

(** The applicability of a quirk, as [write_quirk_record] writes it. *)
Definition write_applicability (a : QuirkApplicability) (limits : RegistryLimits) : Writer :=
  write_ids (qa_vendors a) +++
  write_ids (qa_families a) +++
  write_ids (qa_models a) +++
  write_ids (qa_devices a) +++
  write_ids (qa_revisions a) +++
  write_ids (qa_architectures a) +++
  w_list 64 (write_revision_range limits) (qa_revision_ranges a) +++
  write_ranges (qa_driver_ranges a) limits +++
  write_ranges (qa_firmware_ranges a) limits +++
  write_ranges (qa_runtime_ranges a) limits +++
  write_condition (qa_platform_conditions a) limits.

Definition read_applicability (limits : RegistryLimits) : Reading QuirkApplicability :=
  vendors ← read_id_list 1024;
  families ← read_id_list 1024;
  models ← read_id_list 1024;
  devices ← read_id_list 1024;
  revisions ← read_id_list 1024;
  architectures ← read_id_list 1024;
  revision_ranges ← read_list 64 LimitExceeded "revision range count exceeds the bound" (read_revision_range limits);
  driver_ranges ← read_ranges limits;
  firmware_ranges ← read_ranges limits;
  runtime_ranges ← read_ranges limits;
  platform_conditions ← read_condition limits 1;
  mret (mk_QuirkApplicability vendors families models devices revisions revision_ranges architectures
    driver_ranges firmware_ranges runtime_ranges platform_conditions).

Definition write_quirk_record (quirk : QuirkRecord) (limits : RegistryLimits) : Writer :=
  write_id (qr_id quirk) +++
  write_gen (qr_generation quirk) +++
  w_str (qr_title quirk) (max_name_length limits) +++
  w_str (qr_description quirk) (max_metadata_bytes limits) +++
  w_enum (qr_category quirk) +++
  w_enum (qr_severity quirk) +++
  w_enum (qr_mitigation quirk) +++
  write_applicability (qr_applicability quirk) limits +++
  write_ids (qr_impacted_capabilities quirk) +++
  write_evidence_source (qr_source quirk) limits +++
  w_boolean (qr_withdrawn quirk).

Definition read_quirk_record (limits : RegistryLimits) : Reading QuirkRecord :=
  id ← read_id;
  quirk_generation ← read_gen;
  title ← read_str (max_name_length limits);
  description ← read_str (max_metadata_bytes limits);
  category ← read_u16;
  severity ← read_u16;
  mitigation ← read_u16;
  _ ← refuse_if ((enum_index QuirkCategory.Other <? category) || (enum_index QuirkSeverity.Fatal <? severity) ||
                 (enum_index MitigationKind.ContactVendor <? mitigation))
        CorruptData "unknown quirk enumeration on the wire";
  category ← cast_enum category;
  severity ← cast_enum severity;
  mitigation ← cast_enum mitigation;
  applicability ← read_applicability limits;
  impacted_capabilities ← read_id_list 1024;
  source ← read_evidence_source limits;
  withdrawn ← read_boolean;
  mret (mk_QuirkRecord id quirk_generation title description category severity mitigation applicability
    impacted_capabilities source withdrawn).

Definition write_hardware_reference (reference : HardwareReference) (limits : RegistryLimits) : Writer :=
  w_enum (ref_kind reference) +++
  w_str (ref_token reference) kMaxTokenLength +++
  write_version (ref_version reference) limits.

Definition read_hardware_reference (limits : RegistryLimits) : Reading HardwareReference :=
  kind ← read_enum ReferenceKind.Platform InvalidReference "unknown hardware reference kind on the wire";
  token ← read_str kMaxTokenLength;
  version ← read_version limits;
  mret (mk_HardwareReference kind token version).

Definition write_compatibility_fact (fact : CompatibilityFact) (limits : RegistryLimits) : Writer :=
  write_id (cf_id fact) +++
  write_gen (cf_generation fact) +++
  w_enum (cf_kind fact) +++
  write_hardware_reference (cf_lhs fact) limits +++
  write_hardware_reference (cf_rhs fact) limits +++
  w_enum (cf_outcome fact) +++
  write_condition (cf_conditions fact) limits +++
  write_version_range (cf_version_window fact) limits +++
  w_str (cf_reason fact) (max_metadata_bytes limits) +++
  write_evidence_source (cf_source fact) limits +++
  w_boolean (cf_withdrawn fact).

Definition read_compatibility_fact (limits : RegistryLimits) : Reading CompatibilityFact :=
  id ← read_id;
  compatibility_generation ← read_gen;
  kind ← read_enum CompatibilitySubjectKind.Other CorruptData "unknown compatibility subject kind on the wire";
  lhs ← read_hardware_reference limits;
  rhs ← read_hardware_reference limits;
  outcome ← read_enum CompatibilityOutcome.RevalidationRequired CorruptData "unknown compatibility outcome on the wire";
  conditions ← read_condition limits 1;
  version_window ← read_version_range limits;
  reason ← read_str (max_metadata_bytes limits);
  source ← read_evidence_source limits;
  withdrawn ← read_boolean;
  mret (mk_CompatibilityFact id compatibility_generation kind lhs rhs outcome conditions version_window reason
    source withdrawn).

Definition write_publication (p : Publication) (limits : RegistryLimits) : Writer :=
  w_enum (pb_kind p) +++
  write_publisher_identity (pb_publisher p) +++
  w_u64 (pb_sequence p) +++
  write_gen (pb_evidence_generation p) +++
  write_device_registration (pb_device p) limits +++
  write_capability_record (pb_capability p) limits +++
  write_quirk_record (pb_quirk p) limits +++
  write_compatibility_fact (pb_compatibility p) limits +++
  write_capability_schema (pb_schema p) limits +++
  w_str (pb_reason p) (max_metadata_bytes limits) +++
  w_str (pb_issued_at_utc p) (max_metadata_bytes limits).

Definition read_publication (limits : RegistryLimits) : Reading Publication :=
  kind ← read_enum PublicationKind.Heartbeat CorruptData "unknown publication kind on the wire";
  publisher ← read_publisher_identity;
  sequence ← read_u64;
  evidence_generation ← read_gen;
  device ← read_device_registration limits;
  capability ← read_capability_record limits;
  quirk ← read_quirk_record limits;
  compatibility ← read_compatibility_fact limits;
  schema ← read_capability_schema limits;
  reason ← read_str (max_metadata_bytes limits);
  issued_at_utc ← read_str (max_metadata_bytes limits);
  mret (mk_Publication kind publisher sequence evidence_generation device capability quirk compatibility schema
    reason issued_at_utc).

Definition write_publisher_record (record : PublisherRecord) (limits : RegistryLimits) : Writer :=
  write_publisher_identity (pr_identity record) +++
  w_enum (pr_state record) +++
  w_str (pr_adapter record) (max_metadata_bytes limits) +++
  w_u64 (pr_last_sequence record) +++
  write_gen (pr_max_evidence_generation record) +++
  w_u64 (pr_accepted record) +++
  w_u64 (pr_rejected record) +++
  w_str (pr_reason record) (max_metadata_bytes limits) +++
  w_str (pr_registered_at_utc record) (max_metadata_bytes limits) +++
  w_u64 (pr_boot_history record).

Definition read_publisher_record (limits : RegistryLimits) : Reading PublisherRecord :=
  identity ← read_publisher_identity;
  state ← read_enum PublisherState.Dead CorruptData "unknown publisher state on the wire";
  adapter ← read_str (max_metadata_bytes limits);
  last_sequence ← read_u64;
  max_evidence_generation ← read_gen;
  accepted ← read_u64;
  rejected ← read_u64;
  reason ← read_str (max_metadata_bytes limits);
  registered_at_utc ← read_str (max_metadata_bytes limits);
  boot_history ← read_u64;
  mret (mk_PublisherRecord identity state adapter last_sequence max_evidence_generation accepted rejected reason
    registered_at_utc boot_history).

(* ===================================================================== *)
(** ** What fits

    The values a codec reads back: counters of 64 bits, lists within the
    bounds of the wire, versions as [SoftwareVersion::parse] makes them,
    conditions and values no deeper than the reader goes. Strings are not
    constrained here: one that exceeds its bound sets the truncation flag,
    which the callers of the writer check. *)

Definition version_fits (v : SoftwareVersion) : bool := version_parse (raw v) ==? v.
Definition range_fits (r : VersionRange) : bool := version_fits (minimum r) && version_fits (maximum r).
Definition within {A} (bound : N) (l : list A) : bool := lengthN l <=? bound.
Definition identity_fits (i : PublisherIdentity) : bool := gen_fits (pi_boot i) && gen_fits (pi_epoch i).

Fixpoint node_fits (limits : RegistryLimits) (depth : N) (node : ConditionNode) : bool :=
  let '(Condition _ _ _ children) := node in
  (depth <=? wrap64 (max_record_depth limits + 2)) && within (max_condition_children limits) children &&
  forallb (fun child => match child with None => true | Some n => node_fits limits (depth + 1) n end) children.

Definition condition_fits (limits : RegistryLimits) (depth : N) (node : ConditionPtr) : bool :=
  match node with None => true | Some n => node_fits limits depth n end.

Definition i64_fits (z : Z) : bool := ((- 2 ^ 63 <=? z) && (z <? 2 ^ 63))%Z.

Fixpoint value_fits (limits : RegistryLimits) (depth : N) (value : CapabilityValue) : bool :=
  (depth <=? max_record_depth limits) &&
  match value with
  | VCount count _ => u64_fits count
  | VBytes bytes => u64_fits bytes
  | VRate magnitude _ => u64_fits magnitude
  | VBandwidth magnitude _ => u64_fits magnitude
  | VFeatureSet features => within (max_feature_set_entries limits) features
  | VVersionRange range => range_fits range
  | VArchitectureSet architectures => within (max_architecture_set_entries limits) architectures
  | VNumericRange minimum maximum step => i64_fits minimum && i64_fits maximum && i64_fits step
  | VRecord fields => within (max_record_fields limits) fields &&
      forallb (fun field : string * option CapabilityValue =>
        match field.2 with None => true | Some nested => value_fits limits (depth + 1) nested end) fields
  | VPredicate condition => condition_fits limits (depth + 1) condition
  | _ => true
  end.

Definition source_fits (s : EvidenceSource) : bool :=
  identity_fits (publisher s) && u64_fits (observation_sequence s) && gen_fits (evidence_generation s) &&
  u64_fits (platform_generation s).

Definition hardware_fits (limits : RegistryLimits) (h : HardwareIdentity) : bool :=
  within (max_native_identifiers limits) (hi_native_identifiers h).
Definition platform_fits (limits : RegistryLimits) (p : PlatformIdentity) : bool :=
  within (max_native_identifiers limits) (pl_native_identifiers p).
Definition device_fits (limits : RegistryLimits) (d : DeviceIdentity) : bool := hardware_fits limits (di_hardware d).
Definition software_fits (s : DeviceSoftwareState) : bool :=
  gen_fits (sw_firmware_generation s) && gen_fits (sw_driver_generation s) && gen_fits (sw_runtime_generation s).
Definition registration_fits (limits : RegistryLimits) (r : DeviceRegistration) : bool :=
  device_fits limits (dr_identity r) && software_fits (dr_software r) && platform_fits limits (dr_platform r) &&
  u64_fits (dr_observation_sequence r).

Definition record_fits (limits : RegistryLimits) (r : CapabilityRecord) : bool :=
  gen_fits (cr_device_generation r) && gen_fits (cr_device_boot r) && gen_fits (cr_capability_generation r) &&
  value_fits limits 1 (cr_value r) && source_fits (cr_source r) && condition_fits limits 1 (cr_conditions r) &&
  gen_fits (cr_firmware_generation r) && gen_fits (cr_driver_generation r) &&
  gen_fits (cr_runtime_generation r) && gen_fits (cr_platform_generation r).

Definition ids_fit {tag} (l : list (Id tag)) : bool := within 1024 l.
Definition ranges_fit (l : list VersionRange) : bool := within 64 l && forallb range_fits l.

Definition applicability_fits (limits : RegistryLimits) (a : QuirkApplicability) : bool :=
  ids_fit (qa_vendors a) && ids_fit (qa_families a) && ids_fit (qa_models a) && ids_fit (qa_devices a) &&
  ids_fit (qa_revisions a) && ids_fit (qa_architectures a) && within 64 (qa_revision_ranges a) &&
  ranges_fit (qa_driver_ranges a) && ranges_fit (qa_firmware_ranges a) && ranges_fit (qa_runtime_ranges a) &&
  condition_fits limits 1 (qa_platform_conditions a).

Definition quirk_fits (limits : RegistryLimits) (q : QuirkRecord) : bool :=
  gen_fits (qr_generation q) && applicability_fits limits (qr_applicability q) &&
  ids_fit (qr_impacted_capabilities q) && source_fits (qr_source q).

Definition fact_fits (limits : RegistryLimits) (f : CompatibilityFact) : bool :=
  gen_fits (cf_generation f) && version_fits (ref_version (cf_lhs f)) && version_fits (ref_version (cf_rhs f)) &&
  condition_fits limits 1 (cf_conditions f) && range_fits (cf_version_window f) && source_fits (cf_source f).

Definition publication_fits (limits : RegistryLimits) (p : Publication) : bool :=
  identity_fits (pb_publisher p) && u64_fits (pb_sequence p) && gen_fits (pb_evidence_generation p) &&
  registration_fits limits (pb_device p) && record_fits limits (pb_capability p) && quirk_fits limits (pb_quirk p) &&
  fact_fits limits (pb_compatibility p).

Definition publisher_fits (r : PublisherRecord) : bool :=
  identity_fits (pr_identity r) && u64_fits (pr_last_sequence r) && gen_fits (pr_max_evidence_generation r) &&
  u64_fits (pr_accepted r) && u64_fits (pr_rejected r) && u64_fits (pr_boot_history r).

(** The bounds of the wire are 32-bit counts. *)
Definition limits_fit (limits : RegistryLimits) : bool :=
  (max_name_length limits <? 2 ^ 32) && (max_metadata_bytes limits <? 2 ^ 32) &&
  (max_condition_children limits <? 2 ^ 32) && (max_feature_set_entries limits <? 2 ^ 32) &&
  (max_architecture_set_entries limits <? 2 ^ 32) && (max_record_fields limits <? 2 ^ 32) &&
  (max_native_identifiers limits <? 2 ^ 32).

(* ===================================================================== *)
(** ** Round trips *)

Section RoundTrips.
Context (limits : RegistryLimits) (Hlimits : limits_fit limits = true).

Lemma limits_name : max_name_length limits < 2 ^ 32.
Proof. unfold limits_fit in Hlimits. split_fits. by apply N.ltb_lt. Qed.
Lemma limits_metadata : max_metadata_bytes limits < 2 ^ 32.
Proof. unfold limits_fit in Hlimits. split_fits. by apply N.ltb_lt. Qed.
Lemma limits_children : max_condition_children limits < 2 ^ 32.
Proof. unfold limits_fit in Hlimits. split_fits. by apply N.ltb_lt. Qed.
Lemma limits_features : max_feature_set_entries limits < 2 ^ 32.
Proof. unfold limits_fit in Hlimits. split_fits. by apply N.ltb_lt. Qed.
Lemma limits_architectures : max_architecture_set_entries limits < 2 ^ 32.
Proof. unfold limits_fit in Hlimits. split_fits. by apply N.ltb_lt. Qed.
Lemma limits_fields : max_record_fields limits < 2 ^ 32.
Proof. unfold limits_fit in Hlimits. split_fits. by apply N.ltb_lt. Qed.
Lemma limits_natives : max_native_identifiers limits < 2 ^ 32.
Proof. unfold limits_fit in Hlimits. split_fits. by apply N.ltb_lt. Qed.
Hint Resolve limits_name limits_metadata limits_children limits_features limits_architectures limits_fields
  limits_natives : wire.

Lemma carries_version v : version_fits v = true -> carries (write_version v limits) (read_version limits) v.
Proof.
  intros Hv%eqb_eq. eapply carries_last; [by apply carries_str, limits_name|]. by rewrite Hv.
Qed.
Hint Resolve carries_version : wire.

Lemma carries_version_range r : range_fits r = true -> carries (write_version_range r limits) (read_version_range limits) r.
Proof. unfold range_fits, write_version_range, read_version_range. intros. split_fits. wire_struct r. Qed.
Hint Resolve carries_version_range : wire.

Lemma carries_publisher_identity i :
  identity_fits i = true -> carries (write_publisher_identity i) read_publisher_identity i.
Proof.
  unfold identity_fits, write_publisher_identity, read_publisher_identity. intros. split_fits. wire_struct i.
Qed.
Hint Resolve carries_publisher_identity : wire.

Definition write_child (child : ConditionPtr) : Writer :=
  match child with None => w_u8 0 | Some n => write_node limits n end.

Lemma write_node_nonempty n : w_bytes (write_node limits n) <> [].
Proof. by destruct n. Qed.

Lemma write_child_nonempty child : w_bytes (write_child child) <> [].
Proof. destruct child; [apply write_node_nonempty|done]. Qed.

Lemma carries_null_condition fuel depth : carries (w_u8 0) (read_condition_at fuel limits depth) None.
Proof. destruct fuel; done. Qed.

Lemma carries_present value (rest : N -> Reading ConditionPtr) w c :
  value < 256 -> carries w (rest value) c -> carries (w_u8 value +++ w) (present ← read_u8; rest present) c.
Proof.
  intros Hv. apply carries_bind. intros _ tail. unfold read_u8, reading, rd_u8. cbn.
  by rewrite ascii_N_byte.
Qed.

Lemma carries_node n : forall fuel depth,
  node_fits limits depth n = true -> wrap64 (max_record_depth limits + 2) < N.of_nat fuel + depth ->
  carries (write_node limits n) (read_condition_at fuel limits depth) (Some n).
Proof.
  induction n as [kind key value children IH] using ConditionNode_nested_ind. intros fuel depth Hfits Hfuel.
  cbn [node_fits] in Hfits. split_fits. rename H into Hdepth, H1 into Hlen, H0 into Hch.
  apply N.leb_le in Hdepth. rewrite forallb_forall in Hch.
  destruct fuel as [|fuel]; [lia|]. cbn [write_node read_condition_at].
  apply (carries_present 1); [lia|]. change (1 =? 0) with false. cbv beta iota.
  apply carries_check; [done|]. apply carries_check; [by apply N.ltb_ge|].
  wire_step. wire_step. wire_step.
  eapply carries_last; [|reflexivity].
  apply (carries_list _ _ _ write_child); [apply limits_children|done| |apply write_child_nonempty].
  intros child Hin. destruct child as [n|]; [|apply carries_null_condition].
  rewrite Forall_forall in IH. apply (IH (Some n)); [done| |lia].
  apply list_elem_of_In in Hin. exact (Hch _ Hin).
Qed.

Lemma carries_condition depth c :
  1 <= depth -> condition_fits limits depth c = true -> carries (write_condition c limits) (read_condition limits depth) c.
Proof.
  intros Hd Hf. destruct c as [n|]; [|apply carries_null_condition].
  apply carries_node; [done|]. unfold condition_fuel. lia.
Qed.

Lemma carries_string_list bound code message l :
  bound < 2 ^ 32 -> within bound l = true ->
  carries (w_list bound (fun text => w_str text (max_metadata_bytes limits)) l)
    (read_list bound code message (read_str (max_metadata_bytes limits))) l.
Proof. intros Hb Hl. apply carries_list; try done. intros; by apply carries_str, limits_metadata. Qed.

Lemma carries_id_list {tag} bound code message (l : list (Id tag)) :
  bound < 2 ^ 32 -> within bound l = true -> carries (w_list bound write_id l) (read_list bound code message read_id) l.
Proof. intros Hb Hl. apply carries_list; try done. intros; apply carries_id. Qed.

Lemma carries_i64_fits z : i64_fits z = true -> carries (w_i64 z) read_i64 z.
Proof. intros [H1%Z.leb_le H2%Z.ltb_lt]%andb_true_iff. by apply carries_i64. Qed.

Hint Resolve carries_string_list carries_id_list carries_i64_fits carries_condition : wire.

(** A presence byte with the branch it selects. *)
Lemma carries_byte {A} value (rest : N -> Reading A) w a :
  value < 256 -> carries w (rest value) a -> carries (w_u8 value +++ w) (present ← read_u8; rest present) a.
Proof.
  intros Hv. apply carries_bind. intros _ tail. unfold read_u8, reading, rd_u8. cbn. by rewrite ascii_N_byte.
Qed.

Lemma carries_byte_only {A} value (rest : N -> Reading A) a :
  value < 256 -> rest value = mret a -> carries (w_u8 value) (present ← read_u8; rest present) a.
Proof.
  intros Hv Hr. eapply carries_last; [|exact Hr]. intros _ tail. unfold read_u8, reading, rd_u8. cbn.
  by rewrite ascii_N_byte.
Qed.

Definition write_field (field : RecordField) : Writer :=
  w_str field.1 (max_name_length limits) +++
  match field.2 with None => w_u8 0 | Some nested => w_u8 1 +++ write_value limits nested end.

Lemma carries_field read (field : RecordField) :
  (forall nested, field.2 = Some nested -> carries (write_value limits nested) read nested) ->
  carries (write_field field) (read_field limits read) field.
Proof.
  destruct field as [name [nested|]]; intros H; unfold write_field, read_field; cbn [fst snd];
    (eapply carries_bind; [apply carries_str, limits_name|]).
  - apply (carries_byte 1); [lia|]. change (1 =? 1) with true. cbv beta iota.
    eapply carries_last; [by apply H|done].
  - by apply (carries_byte_only 0).
Qed.

Lemma carries_value_head value fuel depth payload :
  depth <= max_record_depth limits ->
  carries payload (read_value_of limits depth
    match fuel with O => read_fail Internal EmptyString | S fuel' => read_value_at fuel' limits (depth + 1) end
    (value_kind value)) value ->
  carries (w_enum (value_kind value) +++ payload) (read_value_at fuel limits depth) value.
Proof.
  intros Hd H. assert (Hh : forall k : N -> Reading CapabilityValue,
    carries payload (k (enum_index (value_kind value))) value ->
    carries (w_enum (value_kind value) +++ payload) (raw ← read_u16; k raw) value)
    by (intros k; apply carries_bind, carries_raw_enum; reflexivity).
  destruct fuel; cbn [read_value_at]; apply Hh; wire_step;
    (apply carries_check; [by apply N.ltb_ge|]); wire_step; exact H.
Qed.

Lemma carries_value_at value : forall fuel depth,
  1 <= depth -> value_fits limits depth value = true -> max_record_depth limits < N.of_nat fuel + depth ->
  carries (write_value limits value) (read_value_at fuel limits depth) value.
Proof.
  induction value as [value Hk|fields IH] using CapabilityValue_nested_ind; intros fuel depth Hd Hf Hfuel.
  - destruct value; try done; cbn [value_fits] in Hf; split_fits; cbn [write_value];
      (apply carries_value_head; [by apply N.leb_le|]); cbn [value_kind read_value_of]; unfold source_fits in *;
      try (by wire).
    eapply carries_last; [|reflexivity]. apply carries_condition; [lia|done].
  - cbn [value_fits] in Hf. split_fits. cbn [write_value]. apply N.leb_le in H.
    apply carries_value_head; [done|]. cbn [value_kind read_value_of]. destruct fuel as [|fuel]; [lia|].
    eapply carries_last; [|reflexivity]. apply (carries_list _ _ _ write_field); try done; [apply limits_fields|].
    intros field Hin. apply carries_field. intros nested Hn. rewrite Forall_forall in IH.
    specialize (IH field Hin). rewrite Hn in IH. apply IH; [lia| |lia].
    rewrite forallb_forall in H1. apply list_elem_of_In in Hin. specialize (H1 field Hin). by rewrite Hn in H1.
Qed.

Lemma carries_value value :
  value_fits limits 1 value = true -> carries (write_value limits value) (read_value limits 1) value.
Proof. intros Hf. apply carries_value_at; [lia|done|]. unfold value_fuel. lia. Qed.
Hint Resolve carries_value : wire.

Lemma one_le_one : 1 <= 1.
Proof. done. Qed.
Hint Resolve one_le_one : wire.

(** Splits the test and goes through both functions. *)
Ltac codec x write read fits :=
  unfold fits, write, read; intros; split_fits; wire_struct x.

Lemma carries_evidence_source s :
  source_fits s = true -> carries (write_evidence_source s limits) (read_evidence_source limits) s.
Proof. codec s write_evidence_source read_evidence_source source_fits. Qed.

Lemma carries_native_identifier n : carries (write_native_identifier limits n) (read_native_identifier limits) n.
Proof. unfold write_native_identifier, read_native_identifier. wire_struct n. Qed.

Lemma carries_native_identifiers code message l :
  within (max_native_identifiers limits) l = true ->
  carries (w_list (max_native_identifiers limits) (write_native_identifier limits) l)
    (read_list (max_native_identifiers limits) code message (read_native_identifier limits)) l.
Proof.
  intros Hl. apply carries_list; try done; [apply limits_natives|]. intros; apply carries_native_identifier.
Qed.
Hint Resolve carries_evidence_source carries_native_identifiers : wire.

Lemma carries_hardware_identity h :
  hardware_fits limits h = true -> carries (write_hardware_identity h limits) (read_hardware_identity limits) h.
Proof. codec h write_hardware_identity read_hardware_identity hardware_fits. Qed.

Lemma carries_platform_identity p :
  platform_fits limits p = true -> carries (write_platform_identity p limits) (read_platform_identity limits) p.
Proof. codec p write_platform_identity read_platform_identity platform_fits. Qed.

Lemma carries_optional_text o :
  carries (w_option (fun text => w_str text (max_metadata_bytes limits)) o)
    (read_option (read_str (max_metadata_bytes limits))) o.
Proof. apply carries_option. intros; by apply carries_str, limits_metadata. Qed.
Hint Resolve carries_hardware_identity carries_platform_identity carries_optional_text : wire.

Lemma carries_device_identity d :
  device_fits limits d = true -> carries (write_device_identity d limits) (read_device_identity limits) d.
Proof. codec d write_device_identity read_device_identity device_fits. Qed.

Lemma carries_software_state s :
  software_fits s = true -> carries (write_software_state s limits) (read_software_state limits) s.
Proof.
  unfold software_fits, write_software_state, read_software_state. destruct s as [[] ? [] ? [] ?].
  cbn. intros. split_fits. wire.
Qed.
Hint Resolve carries_device_identity carries_software_state : wire.

Lemma carries_device_registration r :
  registration_fits limits r = true -> carries (write_device_registration r limits) (read_device_registration limits) r.
Proof. codec r write_device_registration read_device_registration registration_fits. Qed.

Lemma carries_capability_schema s : carries (write_capability_schema s limits) (read_capability_schema limits) s.
Proof. unfold write_capability_schema, read_capability_schema. wire_struct s. Qed.

Lemma carries_capability_record r :
  record_fits limits r = true -> carries (write_capability_record r limits) (read_capability_record limits) r.
Proof. codec r write_capability_record read_capability_record record_fits. Qed.

Lemma carries_ids {tag} (l : list (Id tag)) : ids_fit l = true -> carries (write_ids l) (read_id_list 1024) l.
Proof. intros Hl. by apply carries_id_list. Qed.

Lemma carries_ranges l : ranges_fit l = true -> carries (write_ranges l limits) (read_ranges limits) l.
Proof.
  intros [Hl Hr]%andb_true_iff. apply carries_list; try done. intros r Hin. apply carries_version_range.
  rewrite forallb_forall in Hr. by apply Hr, list_elem_of_In.
Qed.

Lemma carries_revision_ranges code message l :
  within 64 l = true ->
  carries (w_list 64 (write_revision_range limits) l) (read_list 64 code message (read_revision_range limits)) l.
Proof.
  intros Hl. apply carries_list; try done. intros r _. unfold write_revision_range, read_revision_range. wire_struct r.
Qed.
Hint Resolve carries_device_registration carries_capability_schema carries_capability_record carries_ids
  carries_ranges carries_revision_ranges : wire.

Lemma carries_applicability a :
  applicability_fits limits a = true -> carries (write_applicability a limits) (read_applicability limits) a.
Proof. codec a write_applicability read_applicability applicability_fits. Qed.
Hint Resolve carries_applicability : wire.

Lemma carries_quirk_record q :
  quirk_fits limits q = true -> carries (write_quirk_record q limits) (read_quirk_record limits) q.
Proof. codec q write_quirk_record read_quirk_record quirk_fits. Qed.

Lemma carries_hardware_reference r :
  version_fits (ref_version r) = true ->
  carries (write_hardware_reference r limits) (read_hardware_reference limits) r.
Proof.
  intros. unfold write_hardware_reference, read_hardware_reference. wire_step.
  eapply carries_bind; [by apply carries_str|cbv beta]. wire_struct r.
Qed.
Hint Resolve carries_quirk_record carries_hardware_reference : wire.

Lemma carries_compatibility_fact f :
  fact_fits limits f = true -> carries (write_compatibility_fact f limits) (read_compatibility_fact limits) f.
Proof. codec f write_compatibility_fact read_compatibility_fact fact_fits. Qed.
Hint Resolve carries_compatibility_fact : wire.

Lemma carries_publication p :
  publication_fits limits p = true -> carries (write_publication p limits) (read_publication limits) p.
Proof. codec p write_publication read_publication publication_fits. Qed.

Lemma carries_publisher_record r :
  publisher_fits r = true -> carries (write_publisher_record r limits) (read_publisher_record limits) r.
Proof. codec r write_publisher_record read_publisher_record publisher_fits. Qed.
End RoundTrips.
