(* ===== verification/Frames.v ===== *)
(** * Frames

    Models the framing half of [protocol.cpp]: [encode_frame],
    [FrameDecoder], [receive_frame] and the publication payload. The socket
    is a script of what [TcpConnection::recv_some] will answer. *)

From S2P Require Import Prelude Tokens Versions Support Conditions Values Hardware Quirks Compat Publication.
From S2P Require Import RegistryState Fixtures Wire Checksum Codec.

Module MessageType.
Inductive MessageType :=
  | Hello | Welcome | RegisterPublisher | PublisherAccepted | Publication | PublicationAccepted
  | QueryRequest | QueryResponse | FencePublisher | FenceAccepted | SnapshotRequest
  | SnapshotResponse | ShutdownRequest | ShutdownAccepted | ErrorResponse | Heartbeat
  | HeartbeatAccepted.

#[global] Instance MessageType_eq_dec : EqDecision MessageType.
Proof. solve_decision. Defined.

#[global] Program Instance MessageType_enum : CppEnum MessageType := {|
  enum_values := [Hello; Welcome; RegisterPublisher; PublisherAccepted; Publication;
    PublicationAccepted; QueryRequest; QueryResponse; FencePublisher; FenceAccepted;
    SnapshotRequest; SnapshotResponse; ShutdownRequest; ShutdownAccepted; ErrorResponse;
    Heartbeat; HeartbeatAccepted]
|}.
Solve Obligations with solve_enum.
End MessageType.
Abbreviation MessageType := MessageType.MessageType.

Definition message_type_to_string (type : MessageType) : string :=
  match type with
  | MessageType.Hello => "HELLO"
  | MessageType.Welcome => "WELCOME"
  | MessageType.RegisterPublisher => "REGISTER_PUBLISHER"
  | MessageType.PublisherAccepted => "PUBLISHER_ACCEPTED"
  | MessageType.Publication => "PUBLICATION"
  | MessageType.PublicationAccepted => "PUBLICATION_ACCEPTED"
  | MessageType.QueryRequest => "QUERY_REQUEST"
  | MessageType.QueryResponse => "QUERY_RESPONSE"
  | MessageType.FencePublisher => "FENCE_PUBLISHER"
  | MessageType.FenceAccepted => "FENCE_ACCEPTED"
  | MessageType.SnapshotRequest => "SNAPSHOT_REQUEST"
  | MessageType.SnapshotResponse => "SNAPSHOT_RESPONSE"
  | MessageType.ShutdownRequest => "SHUTDOWN_REQUEST"
  | MessageType.ShutdownAccepted => "SHUTDOWN_ACCEPTED"
  | MessageType.ErrorResponse => "ERROR_RESPONSE"
  | MessageType.Heartbeat => "HEARTBEAT"
  | MessageType.HeartbeatAccepted => "HEARTBEAT_ACCEPTED"
  end.

Definition message_type_from_string (text : string) : option MessageType :=
  scan_values message_type_to_string text (enum_upto MessageType.HeartbeatAccepted).

(** The enumerators are numbered from 1. *)
Definition message_type_raw (type : MessageType) : N := enum_index type + 1.
Definition message_type_known (raw : N) : bool := (1 <=? raw) && (raw <=? message_type_raw MessageType.HeartbeatAccepted).

(* ===================================================================== *)
(** ** [encode_frame] *)

Definition kFrameHeaderSize : N := 28.
Definition kFrameMagic : N := 1347568456. (* 0x50524348 *)
Definition kKnownFrameFlags : N := 3.
Definition protocol_version : N := 1.

Record Frame := mk_Frame {
  fr_type : MessageType;
  fr_flags : N;
  fr_correlation : N;
  fr_payload : list byte
}.

Definition frame_header (frame : Frame) : Writer :=
  w_u32 kFrameMagic +++
  w_u16 protocol_version +++
  w_u16 (message_type_raw (fr_type frame)) +++
  w_u32 (fr_flags frame) +++
  w_u32 (lengthN (fr_payload frame)) +++
  w_u32 (crc32 (fr_payload frame)) +++
  w_u64 (fr_correlation frame).

Definition frame_bytes (frame : Frame) : list byte := w_bytes (frame_header frame) ++ fr_payload frame.

Definition encode_frame (frame : Frame) (limits : RegistryLimits) : Status * list byte :=
  if negb (message_type_known (message_type_raw (fr_type frame)))
  then (failure ProtocolError "refusing to encode an unknown message type", [])
  else if max_frame_bytes limits <? lengthN (fr_payload frame)
  then (failure LimitExceeded "frame payload exceeds the configured bound", [])
  else if negb (N.ldiff (fr_flags frame) kKnownFrameFlags =? 0)
  then (failure ProtocolError "refusing to encode undefined frame flags", [])
  else (success, frame_bytes frame).

(* ===================================================================== *)
(** ** [FrameDecoder] *)

(** What one iteration of the loop of [feed] finds at the front of the
    unconsumed bytes, which hold at least a header. *)
Inductive Parsed :=
  | Refused (status : Status)
  | Incomplete
  | Complete (frame : Frame) (rest : list byte).

Definition parse_frame (limits : RegistryLimits) (data : list byte) : Parsed :=
  let header := rd_open (take (N.to_nat kFrameHeaderSize) data) in
  let '(magic, header) := rd_u32 header in
  let '(version, header) := rd_u16 header in
  let '(raw_type, header) := rd_u16 header in
  let '(flags, header) := rd_u32 header in
  let '(length, header) := rd_u32 header in
  let '(checksum, header) := rd_u32 header in
  let '(correlation, header) := rd_u64 header in
  if negb (magic =? kFrameMagic) then Refused (failure ProtocolError "frame magic does not match")
  else if negb (version =? protocol_version)
  then Refused (failure UnsupportedVersion ("frame declares protocol version " +:+ pretty version)%string)
  else if negb (message_type_known raw_type)
  then Refused (failure ProtocolError "frame declares an unknown message type")
  else if negb (N.ldiff flags kKnownFrameFlags =? 0)
  then Refused (failure ProtocolError "frame declares undefined flags")
  else if max_frame_bytes limits <? length
  then Refused (failure LimitExceeded "frame payload length exceeds the configured bound")
  else if lengthN data <? kFrameHeaderSize + length then Incomplete
  else
    let body := drop (N.to_nat kFrameHeaderSize) data in
    let payload := take (N.to_nat length) body in
    if negb (crc32 payload =? checksum)
    then Refused (failure IntegrityFailure "frame checksum does not match its payload")
    else match enum_cast (raw_type - 1) with
         | None => Refused (failure ProtocolError "frame declares an unknown message type")
         | Some type => Complete (mk_Frame type flags correlation payload) (drop (N.to_nat length) body)
         end.

(** The loop of [feed] over the unconsumed bytes; every frame consumes at
    least a header, so that the number of bytes is enough fuel. *)
Fixpoint feed_loop (fuel : nat) (limits : RegistryLimits) (data : list byte) (out : list Frame) :
    Status * list Frame * list byte :=
  match fuel with
  | O => (success, out, data)
  | S fuel' =>
      if lengthN data <? kFrameHeaderSize then (success, out, data)
      else match parse_frame limits data with
      | Refused status => (status, out, data)
      | Incomplete => (success, out, data)
      | Complete frame rest => feed_loop fuel' limits rest (out ++ [frame])
      end
  end.

(** [feed] on the buffered bytes: the status, the frames appended to [out]
    and the new buffer. A refusal in the loop leaves the buffer with all the
    bytes it held, those of the frames already delivered included. *)
Definition feed (limits : RegistryLimits) (buffer data : list byte) : Status * list Frame * list byte :=
  if max_frame_bytes limits + kFrameHeaderSize <? lengthN buffer + lengthN data
  then (failure LimitExceeded "frame buffer would exceed the configured bound", [], buffer)
  else
    let buffer := buffer ++ data in
    let '(status, frames, rest) := feed_loop (length buffer) limits buffer [] in
    if status_ok status then (success, frames, rest) else (status, frames, buffer).

Definition finish (buffer : list byte) : Status :=
  match buffer with
  | [] => success
  | _ => failure ProtocolError
           ("connection ended with " +:+ pretty (lengthN buffer) +:+ " bytes of an incomplete frame")%string
  end.

(* ===================================================================== *)
(** ** [receive_frame] *)

(** An answer of [recv_some]. *)
Inductive Received :=
  | Data (bytes : list byte)
  | Closed
  | Failed (status : Status).

(** The loop of [receive_frame]: the result, the decoder's buffer and what
    is left of the script. A script that ends counts as a closed peer. *)
Fixpoint receive_frame (limits : RegistryLimits) (buffer : list byte) (script : list Received) :
    (Status + Frame) * list byte * list Received :=
  match feed limits buffer [] with
  | (status, frame :: _, buffer) =>
      if status_ok status then (inr frame, buffer, script) else (inl status, buffer, script)
  | (status, [], buffer) =>
      if negb (status_ok status) then (inl status, buffer, script)
      else
        let closed script :=
          let trailing := finish buffer in
          (inl (if negb (status_ok trailing) then trailing
                else failure IoFailure "peer closed the connection"), buffer, script) in
        match script with
        | [] => closed []
        | Closed :: script => closed script
        | Failed status :: script => (inl status, buffer, script)
        | Data bytes :: script =>
            match feed limits buffer bytes with
            | (status, frame :: _, buffer) =>
                if status_ok status then (inr frame, buffer, script) else (inl status, buffer, script)
            | (status, [], buffer) =>
                if negb (status_ok status) then (inl status, buffer, script)
                else receive_frame limits buffer script
            end
        end
  end.

(* ===================================================================== *)
(** ** [TcpConnection]

    A connection is the results its calls of [send_all] are going to have,
    what was sent with success, and what is going to arrive. *)

Record Connection := mk_Connection {
  cn_open : bool;
  cn_results : list Status;
  cn_sent : list Frame;
  cn_arrivals : list Received
}.

#[global] Instance eta_Connection : Eta Connection := fun r =>
  mk_Connection (cn_open r) (cn_results r) (cn_sent r) (cn_arrivals r).

Definition no_connection : Connection := mk_Connection false [] [] [].
Definition close (connection : Connection) : Connection := connection <| cn_open := false |>.

(** [send_frame]; results that run out count as success. *)
Definition send_frame (frame : Frame) (limits : RegistryLimits) (connection : Connection) : Status * Connection :=
  let '(encoded, bytes) := encode_frame frame limits in
  if negb (status_ok encoded) then (encoded, connection)
  else if negb (cn_open connection) then (failure IoFailure "send on a closed connection", connection)
  else match cn_results connection with
  | [] => (success, connection <| cn_sent ::= fun sent => sent ++ [frame] |>)
  | result :: results =>
      (result, connection <| cn_results := results |>
                          <| cn_sent ::= fun sent => if status_ok result then sent ++ [frame] else sent |>)
  end.

(** [receive_frame] on a connection. *)
Definition receive_on (limits : RegistryLimits) (buffer : list byte) (connection : Connection) :
    (Status + Frame) * list byte * Connection :=
  if cn_open connection then
    let '(received, buffer, arrivals) := receive_frame limits buffer (cn_arrivals connection) in
    (received, buffer, connection <| cn_arrivals := arrivals |>)
  else
    let '(received, buffer, _) :=
      receive_frame limits buffer [Failed (failure IoFailure "receive on a closed connection")] in
    (received, buffer, connection).

(* ===================================================================== *)
(** ** The publication payload *)

Definition encode_publication (p : Publication) (limits : RegistryLimits) : Status * list byte :=
  let writer := write_publication p limits in
  if w_truncated writer
  then (failure LimitExceeded "publication carries a field longer than the configured bound", w_bytes writer)
  else if max_frame_bytes limits <? lengthN (w_bytes writer)
  then (failure LimitExceeded "publication exceeds the frame bound", w_bytes writer)
  else (success, w_bytes writer).

(** [decode_publication]: what the reader returned, and the status. *)
Definition decode_all {A} (read : Reading A) (trailing : Status) (data : list byte) : Status + A :=
  match read (rd_open data) with
  | (Some a, reader) => if negb (rd_exhausted reader) then inl trailing else inr a
  | (None, reader) => inl (rd_status reader)
  end.

Definition decode_publication (data : list byte) (limits : RegistryLimits) : Status + Publication :=
  decode_all (read_publication limits) (failure ProtocolError "publication payload carries trailing bytes") data.

(* ===================================================================== *)
(** ** Lemmas: one frame *)

(** What [encode_frame] accepts, and the width of the correlation id. *)
Definition frame_fits (limits : RegistryLimits) (f : Frame) : bool :=
  (N.ldiff (fr_flags f) kKnownFrameFlags =? 0) && (lengthN (fr_payload f) <=? max_frame_bytes limits) &&
  u64_fits (fr_correlation f).

Lemma uint_bytes_length count i value : length (uint_bytes count i value) = count.
Proof. revert i. induction count as [|n IH]; intros i; cbn; [done|]. by rewrite IH. Qed.

Lemma frame_header_length f : length (w_bytes (frame_header f)) = 28%nat.
Proof. unfold frame_header. cbn [w_then w_bytes w_u16 w_u32 w_u64]. by rewrite !length_app, !uint_bytes_length. Qed.

Lemma frame_bytes_length f : length (frame_bytes f) = (28 + length (fr_payload f))%nat.
Proof. unfold frame_bytes. by rewrite length_app, frame_header_length. Qed.

Lemma message_type_raw_known type : message_type_known (message_type_raw type) = true.
Proof. by destruct type. Qed.

Lemma message_type_raw_cast type : enum_cast (message_type_raw type - 1) = Some type.
Proof. by destruct type. Qed.

Lemma known_flags flags : (N.ldiff flags kKnownFrameFlags =? 0) = true -> flags < 2 ^ 32.
Proof.
  intros H%N.eqb_eq. apply N.lt_trans with 4; [|done]. change 4 with (2 ^ 2). change kKnownFrameFlags with (N.ones 2) in H.
  rewrite N.ldiff_ones_r in H. apply N.shiftl_eq_0_iff in H. rewrite N.shiftr_div_pow2 in H.
  by apply N.div_small_iff in H.
Qed.

Lemma encode_frame_accepts limits f :
  frame_fits limits f = true -> encode_frame f limits = (success, frame_bytes f).
Proof.
  intros [[Hf Hp%N.leb_le]%andb_true_iff Hc]%andb_true_iff. unfold encode_frame.
  by rewrite message_type_raw_known, Hf, (proj2 (N.ltb_ge _ _)).
Qed.

Section Decoder.
Context (limits : RegistryLimits) (Hmax : max_frame_bytes limits < 2 ^ 32).

Lemma rd_u16_value value rest : value < 2 ^ 16 -> rd_u16 (rd_open (uint_bytes 2 0 value ++ rest)) = (value, rd_open rest).
Proof. intros. by apply rd_uint_value. Qed.
Lemma rd_u32_value value rest : value < 2 ^ 32 -> rd_u32 (rd_open (uint_bytes 4 0 value ++ rest)) = (value, rd_open rest).
Proof. intros. by apply rd_uint_value. Qed.
Lemma rd_u64_value value rest : value < 2 ^ 64 -> rd_u64 (rd_open (uint_bytes 8 0 value ++ rest)) = (value, rd_open rest).
Proof. intros. by apply rd_uint_value. Qed.

(** Parsing bytes that start with a valid header: what remains is to compare
    the lengths and the checksum. *)
Lemma parse_frame_header f data :
  frame_fits limits f = true -> take 28 data = w_bytes (frame_header f) ->
  parse_frame limits data =
  if lengthN data <? 28 + lengthN (fr_payload f) then Incomplete
  else
    let payload := take (length (fr_payload f)) (drop 28 data) in
    if negb (crc32 payload =? crc32 (fr_payload f))
    then Refused (failure IntegrityFailure "frame checksum does not match its payload")
    else Complete (mk_Frame (fr_type f) (fr_flags f) (fr_correlation f) payload)
           (drop (length (fr_payload f)) (drop 28 data)).
Proof.
  intros Hfit Ht. apply andb_true_iff in Hfit as [[Hf Hp%N.leb_le]%andb_true_iff Hc%N.ltb_lt].
  pose proof (known_flags _ Hf) as Hflags. pose proof (crc32_small (fr_payload f)) as Hcrc.
  assert (Htype : message_type_raw (fr_type f) < 2 ^ 16) by (by destruct (fr_type f)).
  unfold parse_frame. change (N.to_nat kFrameHeaderSize) with 28%nat. rewrite Ht. unfold frame_header.
  cbn [w_then w_bytes w_u16 w_u32 w_u64].
  rewrite rd_u32_value by done. rewrite rd_u16_value by done. rewrite rd_u16_value by done.
  rewrite rd_u32_value by done. rewrite rd_u32_value by lia. rewrite rd_u32_value by done.
  rewrite <- (app_nil_r (uint_bytes 8 0 _)). rewrite rd_u64_value by done.
  change (negb (kFrameMagic =? kFrameMagic)) with false. change (negb (protocol_version =? protocol_version)) with false.
  rewrite message_type_raw_known, Hf, (proj2 (N.ltb_ge (max_frame_bytes limits) _)), message_type_raw_cast by done.
  cbn [negb]. change kFrameHeaderSize with 28.
  assert (Hn : N.to_nat (lengthN (fr_payload f)) = length (fr_payload f)) by apply Nat2N.id.
  by rewrite Hn.
Qed.

Lemma parse_frame_complete f rest :
  frame_fits limits f = true -> parse_frame limits (frame_bytes f ++ rest) = Complete f rest.
Proof.
  intros Hfit. unfold frame_bytes. rewrite <- app_assoc.
  assert (Ht : take 28 (w_bytes (frame_header f) ++ fr_payload f ++ rest) = w_bytes (frame_header f))
    by (rewrite <- (frame_header_length f); apply take_app_length).
  assert (Hd : drop 28 (w_bytes (frame_header f) ++ fr_payload f ++ rest) = fr_payload f ++ rest)
    by (rewrite <- (frame_header_length f); apply drop_app_length).
  rewrite (parse_frame_header f) by done. cbv zeta. rewrite Hd, take_app_length, drop_app_length.
  rewrite (proj2 (N.ltb_ge _ _)), N.eqb_refl.
  - cbn [negb]. by destruct f.
  - unfold lengthN. rewrite !length_app, frame_header_length. lia.
Qed.

Lemma parse_frame_incomplete f data more :
  frame_fits limits f = true -> data ++ more = frame_bytes f -> (28 <= length data < length (frame_bytes f))%nat ->
  parse_frame limits data = Incomplete.
Proof.
  intros Hfit Hdata Hlen. rewrite (parse_frame_header f); [|done|].
  - rewrite (proj2 (N.ltb_lt _ _)); [done|]. rewrite frame_bytes_length in Hlen. unfold lengthN. lia.
  - rewrite <- (take_app_le data more) by lia. rewrite Hdata. unfold frame_bytes.
    rewrite <- (frame_header_length f). apply take_app_length.
Qed.

(* ===================================================================== *)
(** ** Lemmas: a stream of frames *)

Definition stream (frames : list Frame) : list byte := concat (map frame_bytes frames).

Lemma stream_app a b : stream (a ++ b) = stream a ++ stream b.
Proof. unfold stream. by rewrite map_app, concat_app. Qed.

(** The bytes left over are the beginning of the next frame. *)
Definition leftover (rest : list byte) (frames : list Frame) : Prop :=
  match frames with [] => rest = [] | f :: _ => (length rest < length (frame_bytes f))%nat end.

Lemma feed_loop_stream frames : forall fuel data more out,
  Forall (fun f => frame_fits limits f = true) frames ->
  data ++ more = stream frames -> (length data <= fuel)%nat ->
  exists received pending rest, frames = received ++ pending /\
    feed_loop fuel limits data out = (success, out ++ received, rest) /\
    rest ++ more = stream pending /\ leftover rest pending.
Proof.
  induction frames as [|f frames IH]; intros fuel data more out Hfit Hs Hfuel.
  - apply app_eq_nil in Hs as [-> ->]. exists [], [], []. rewrite (app_nil_r out). split; [done|].
    split; [by destruct fuel|done].
  - apply Forall_cons in Hfit as [Hf Hfit]. change (stream (f :: frames)) with (frame_bytes f ++ stream frames) in Hs.
    destruct (Nat.lt_ge_cases (length data) (length (frame_bytes f))) as [Hlt|Hge].
    + exists [], (f :: frames), data. rewrite (app_nil_r out). split; [done|]. split; [|done].
      destruct fuel as [|fuel]; [done|]. cbn [feed_loop].
      destruct (N.ltb_spec (lengthN data) kFrameHeaderSize) as [|Hh]; [done|].
      assert (Hpre : data ++ take (length (frame_bytes f) - length data) more = frame_bytes f).
      { apply (f_equal (take (length (frame_bytes f)))) in Hs. rewrite take_app_length, take_app_ge in Hs by lia. done. }
      rewrite (parse_frame_incomplete f data _ Hf Hpre); [done|].
      change kFrameHeaderSize with 28 in Hh. unfold lengthN in Hh. lia.
    + assert (Hdata : data = frame_bytes f ++ drop (length (frame_bytes f)) data).
      { rewrite <- (take_drop (length (frame_bytes f)) data) at 1. f_equal.
        apply (f_equal (take (length (frame_bytes f)))) in Hs. by rewrite take_app_length, take_app_le in Hs by lia. }
      set (data' := drop _ data) in *. clearbody data'. subst data.
      pose proof (frame_bytes_length f) as Hfl. rewrite length_app in Hfuel.
      destruct fuel as [|fuel]; [lia|]. cbn [feed_loop].
      rewrite (proj2 (N.ltb_ge _ _)); [|change kFrameHeaderSize with 28; unfold lengthN; rewrite length_app; lia].
      rewrite parse_frame_complete by done. rewrite <- app_assoc in Hs. apply app_inv_head in Hs.
      destruct (IH fuel data' more (out ++ [f]) Hfit Hs ltac:(lia)) as (received & pending & rest & -> & Hloop & Hr & Hlo).
      exists (f :: received), pending, rest. rewrite Hloop, <- app_assoc. done.
Qed.

Lemma feed_loop_suffix fuel : forall data out,
  exists consumed, consumed ++ (feed_loop fuel limits data out).2 = data.
Proof.
  induction fuel as [|fuel IH]; intros data out; cbn [feed_loop]; [by exists []|].
  destruct (N.ltb_spec (lengthN data) kFrameHeaderSize) as [|Hh]; [by exists []|].
  destruct (parse_frame limits data) as [status| |f rest] eqn:Hp; [by exists []..|].
  assert (Hrest : exists n, rest = drop n data).
  { unfold parse_frame in Hp. repeat (case_match; try discriminate).
    injection Hp as _ <-. rewrite skipn_skipn. eauto. }
  destruct Hrest as [n ->]. destruct (IH (drop n data) (out ++ [f])) as [consumed Hc].
  exists (take n data ++ consumed). by rewrite <- app_assoc, Hc, take_drop.
Qed.

(** The decoder never holds more than one maximal frame. *)
Lemma feed_bounded buffer data :
  lengthN buffer <= max_frame_bytes limits + kFrameHeaderSize ->
  lengthN (feed limits buffer data).2 <= max_frame_bytes limits + kFrameHeaderSize.
Proof.
  intros Hb. unfold feed. destruct (N.ltb_spec (max_frame_bytes limits + kFrameHeaderSize)
    (lengthN buffer + lengthN data)) as [|Hle]; [done|].
  pose proof (feed_loop_suffix (length (buffer ++ data)) (buffer ++ data) []) as [consumed Hc].
  destruct (feed_loop _ limits (buffer ++ data) []) as [[status frames] rest]. cbn [snd] in Hc.
  apply (f_equal lengthN) in Hc. rewrite !lengthN_app in Hc. destruct (status_ok status); cbn [snd]; [lia|].
  by rewrite lengthN_app.
Qed.

Lemma feed_loop_keeps fuel : forall data out, exists more, (feed_loop fuel limits data out).1.2 = out ++ more.
Proof.
  induction fuel as [|fuel IH]; intros data out; cbn [feed_loop]; [by exists []; rewrite app_nil_r|].
  destruct (_ <? _); [by exists []; rewrite app_nil_r|].
  destruct (parse_frame limits data); try (by exists []; rewrite app_nil_r).
  destruct (IH rest (out ++ [frame])) as [more E]. exists (frame :: more). by rewrite E, <- app_assoc.
Qed.

(** A chunk that completes no frame stays in the buffer, within the bound. *)
Lemma feed_incomplete buffer data status buffer' :
  feed limits buffer data = (status, [], buffer') -> status_ok status = true ->
  buffer' = buffer ++ data /\ lengthN buffer + lengthN data <= max_frame_bytes limits + kFrameHeaderSize.
Proof.
  unfold feed. destruct (N.ltb_spec (max_frame_bytes limits + kFrameHeaderSize) (lengthN buffer + lengthN data)) as [|Hle];
    [by intros [= <- _]|]. set (all := buffer ++ data).
  assert (Hquiet : (feed_loop (length all) limits all []).1.2 = [] -> (feed_loop (length all) limits all []).2 = all).
  { generalize (length all) as fuel. intros [|fuel]; cbn [feed_loop]; [done|]. destruct (_ <? _); [done|].
    destruct (parse_frame limits all); [done..|]. destruct (feed_loop_keeps fuel rest ([] ++ [frame])) as [more E].
    intros E'. rewrite E in E'. discriminate. }
  destruct (feed_loop _ _ _ _) as [[result frames] rest]. cbn [fst snd] in Hquiet.
  destruct (status_ok result) eqn:Hok; intros [= <- -> <-] Hs; [|congruence]. by rewrite Hquiet.
Qed.

Lemma feed_stream frames buffer data more :
  Forall (fun f => frame_fits limits f = true) frames ->
  buffer ++ data ++ more = stream frames ->
  lengthN buffer + lengthN data <= max_frame_bytes limits + kFrameHeaderSize ->
  exists received pending rest, frames = received ++ pending /\
    feed limits buffer data = (success, received, rest) /\ rest ++ more = stream pending /\ leftover rest pending.
Proof.
  intros Hfit Hs Hle. unfold feed. rewrite (proj2 (N.ltb_ge _ _)) by done. rewrite app_assoc in Hs.
  destruct (feed_loop_stream frames _ (buffer ++ data) more [] Hfit Hs (Nat.le_refl _))
    as (received & pending & rest & -> & Hloop & Hr & Hlo).
  exists received, pending, rest. rewrite Hloop. done.
Qed.

(** One frame that arrives in non-empty chunks is received. *)
Lemma receive_frame_chunks f chunks script :
  frame_fits limits f = true -> concat chunks = frame_bytes f -> Forall (fun chunk => chunk <> []) chunks ->
  receive_frame limits [] (map Data chunks ++ script) = (inr f, [], script).
Proof.
  intros Hfit Hchunks Hne.
  assert (Hbound : lengthN (frame_bytes f) <= max_frame_bytes limits + kFrameHeaderSize).
  { unfold frame_fits in Hfit. apply andb_true_iff in Hfit as [[_ Hl%N.leb_le]%andb_true_iff _].
    change kFrameHeaderSize with 28. unfold lengthN in *. rewrite frame_bytes_length. lia. }
  assert (Hone : Forall (fun f => frame_fits limits f = true) [f]) by by apply Forall_singleton.
  assert (Hs : stream [f] = frame_bytes f) by (unfold stream; cbn; by rewrite app_nil_r).
  assert (H : forall buffer, buffer ++ concat chunks = frame_bytes f -> (length buffer < length (frame_bytes f))%nat ->
    receive_frame limits buffer (map Data chunks ++ script) = (inr f, [], script));
    [|apply H; [done|rewrite frame_bytes_length; cbn; lia]].
  clear Hchunks. induction Hne as [|chunk chunks Hc Hne IH]; intros buffer Hb Hlt.
  { cbn [concat] in Hb. rewrite app_nil_r in Hb. subst buffer. lia. }
  assert (Hfeed : forall data more, buffer ++ data ++ more = frame_bytes f ->
    exists received rest, feed limits buffer data = (success, received, rest) /\
      (received = [] /\ rest ++ more = frame_bytes f /\ (length rest < length (frame_bytes f))%nat \/
       received = [f] /\ rest = [] /\ more = [])).
  { intros data more Hd. destruct (feed_stream [f] buffer data more Hone) as (received & pending & rest & Hsplit & Hf & Hr & Hlo).
    - by rewrite Hs.
    - apply (f_equal lengthN) in Hd. rewrite !lengthN_app in Hd. lia.
    - exists received, rest. split; [done|]. destruct received as [|g [|? ?]].
      + cbn [app] in Hsplit. subst pending. left. rewrite Hs in Hr. exact (conj eq_refl (conj Hr Hlo)).
      + apply (f_equal tail) in Hsplit as Ht. cbn in Ht. subst pending. injection Hsplit as ->.
        apply app_eq_nil in Hr as [-> ->]. right. repeat split.
      + by apply (f_equal length) in Hsplit. }
  cbn [map app]. destruct (Hfeed [] (concat (chunk :: chunks)) Hb) as (r0 & b0 & E0 & [(-> & Hb0 & Hl0)|(_ & _ & Hmore)]).
  2:{ apply app_eq_nil in Hmore as [-> _]. done. }
  assert (b0 = buffer) as -> by (by eapply app_inv_tail; rewrite Hb).
  destruct (Hfeed chunk (concat chunks) Hb) as (r1 & b1 & E1 & Hcase).
  cbn [receive_frame]. rewrite E0. cbn beta iota. change (negb (status_ok success)) with false. cbv iota. rewrite E1.
  destruct Hcase as [(-> & Hb1 & Hl1)|(-> & -> & Hmore)].
  - change (negb (status_ok success)) with false. cbv iota. by apply IH.
  - change (status_ok success) with true. cbv iota. destruct chunks as [|c chunks]; [done|]. exfalso.
    apply Forall_cons in Hne as [Hc' _]. by apply app_eq_nil in Hmore as [-> _].
Qed.
End Decoder.

(* ===================================================================== *)
(** ** Properties *)

(** Feeding the chunks of a stream one after the other, until a refusal. *)
Fixpoint feed_all (limits : RegistryLimits) (buffer : list byte) (chunks : list (list byte)) :
    Status * list Frame * list byte :=
  match chunks with
  | [] => (success, [], buffer)
  | chunk :: chunks =>
      let '(status, frames, buffer) := feed limits buffer chunk in
      if negb (status_ok status) then (status, frames, buffer)
      else let '(status, later, buffer) := feed_all limits buffer chunks in (status, frames ++ later, buffer)
  end.

(** Frames for the examples: two heartbeats without payload, and one that
    fills a bound of eight bytes. *)
Definition bare_frame (correlation : N) : Frame := mk_Frame MessageType.Heartbeat 0 correlation [].
Definition full_frame : Frame := mk_Frame MessageType.Publication 0 7 (list_ascii_of_string "payload!").
Definition narrow_limits : RegistryLimits :=
  mk_RegistryLimits 20000 8192 2048 8 262144 16384 16384 512 64 512 24 192 4 32 256 64 64 32 8192 8192 500000
    8 (N.shiftl 256 20) 64 1024 (N.shiftl 8 20) 4096.

(** C28: when the bytes of a sequence of frames are cut into chunks such that
    no chunk together with the largest payload exceeds [max_frame_bytes], the
    decoder delivers exactly those frames, in order, and keeps nothing,
    wherever the cuts fall. Without the proviso it refuses some streams of
    frames that fit ([pipelined_maximal_frame_refused]). *)
Theorem frames_survive_chunking limits frames chunks bound
    (Hmax : max_frame_bytes limits < 2 ^ 32)
    (Hfit : Forall (fun f => frame_fits limits f = true /\ lengthN (fr_payload f) <= bound) frames)
    (Hchunks : Forall (fun chunk => lengthN chunk + bound <= max_frame_bytes limits) chunks)
    (Hstream : concat chunks = stream frames) :
  feed_all limits [] chunks = (success, frames, []).
Proof.
  assert (H : forall buffer, buffer ++ concat chunks = stream frames -> leftover buffer frames ->
    feed_all limits buffer chunks = (success, frames, [])); [|apply H; [done|destruct frames; [done|]]].
  2:{ cbn. pose proof (frame_bytes_length f). lia. }
  clear Hstream. revert frames Hfit. induction Hchunks as [|chunk chunks Hc Hchunks IH]; intros frames Hfit buffer Hs Hlo.
  - cbn [concat] in Hs. rewrite app_nil_r in Hs. cbn [feed_all]. subst buffer. destruct frames as [|f frames]; [done|].
    exfalso. cbn in Hlo. rewrite length_app in Hlo. lia.
  - cbn [concat] in Hs.
    assert (Hle : lengthN buffer + lengthN chunk <= max_frame_bytes limits + kFrameHeaderSize).
    { change kFrameHeaderSize with 28. destruct frames as [|f frames]; cbn [leftover] in Hlo.
      - subst buffer. change (lengthN []) with 0. lia.
      - apply Forall_cons in Hfit as [[_ Hb] _]. rewrite frame_bytes_length in Hlo. unfold lengthN in *. lia. }
    destruct (feed_stream limits Hmax frames buffer chunk (concat chunks)) as
      (received & pending & rest & -> & Hfeed & Hr & Hlo'); [|done|done|].
    { eapply Forall_impl; [exact Hfit|]. by intros f [? _]. }
    apply Forall_app in Hfit as [_ Hfit]. cbn [feed_all]. rewrite Hfeed. cbn [status_ok].
    change (negb (status_ok success)) with false. cbv iota. by rewrite (IH pending Hfit rest Hr Hlo').
Qed.

Lemma frames_survive_chunking_witness :
  let bytes := stream [full_frame; bare_frame 1] in
  feed_all default_limits [] [take 30 bytes; drop 30 bytes] = (success, [full_frame; bare_frame 1], []).
Proof.
  apply (frames_survive_chunking default_limits _ _ 8);
    [vm_compute; reflexivity|repeat constructor; vm_compute; (reflexivity || discriminate)..|vm_compute; reflexivity].
Defined.

(** A frame whose payload was corrupted within four consecutive bytes is
    refused for its integrity; nothing is delivered. *)
Theorem corrupted_frame_refused limits f before corrupted original after rest
    (Hmax : max_frame_bytes limits < 2 ^ 32) (Hfit : frame_fits limits f = true)
    (Hpayload : fr_payload f = before ++ original ++ after)
    (Hlen : length corrupted = length original) (Hshort : (length original <= 4)%nat) (Hdiff : corrupted <> original)
    (Hroom : lengthN (frame_bytes f ++ rest) <= max_frame_bytes limits + kFrameHeaderSize) :
  let '(status, frames, _) := feed limits [] (w_bytes (frame_header f) ++ (before ++ corrupted ++ after) ++ rest) in
  status_code status = IntegrityFailure /\ frames = [].
Proof.
  set (payload := before ++ corrupted ++ after).
  assert (Hpl : length payload = length (fr_payload f)) by (subst payload; rewrite Hpayload, !length_app; lia).
  assert (Hd : drop 28 (w_bytes (frame_header f) ++ payload ++ rest) = payload ++ rest)
    by (rewrite <- (frame_header_length f); apply drop_app_length).
  assert (Hp : parse_frame limits (w_bytes (frame_header f) ++ payload ++ rest) =
    Refused (failure IntegrityFailure "frame checksum does not match its payload")).
  { rewrite (parse_frame_header limits Hmax f) by (done || rewrite <- (frame_header_length f); apply take_app_length).
    cbv zeta. rewrite Hd, <- Hpl, take_app_length, (proj2 (N.ltb_ge _ _)).
    - rewrite (proj2 (N.eqb_neq _ _)); [done|]. rewrite Hpayload. by apply crc32_detects_bursts.
    - unfold lengthN. rewrite !length_app, frame_header_length. lia. }
  unfold feed. cbn [app]. rewrite (proj2 (N.ltb_ge _ _)).
  - remember (w_bytes (frame_header f) ++ payload ++ rest) as data eqn:Hdata.
    assert (Hlong : (28 <= length data)%nat) by (subst data; rewrite !length_app, frame_header_length; lia).
    destruct (length data) as [|n] eqn:En; [lia|]. cbn [feed_loop].
    rewrite (proj2 (N.ltb_ge _ _)); [by rewrite Hp|]. change kFrameHeaderSize with 28. unfold lengthN. lia.
  - change (lengthN []) with 0. unfold frame_bytes in Hroom. unfold lengthN in *.
    rewrite !length_app in *. lia.
Qed.

Lemma corrupted_frame_refused_witness :
  let '(status, frames, _) := feed default_limits []
    (w_bytes (frame_header full_frame) ++ ([] ++ list_ascii_of_string "Payl" ++ list_ascii_of_string "oad!") ++ []) in
  status_code status = IntegrityFailure /\ frames = [].
Proof.
  apply (corrupted_frame_refused default_limits full_frame [] (list_ascii_of_string "Payl") (list_ascii_of_string "payl")
    (list_ascii_of_string "oad!") []); vm_compute; (reflexivity || discriminate || lia).
Defined.

(** A receiver loses frames that arrive together: when one read brings
    two frames, [receive_frame] returns the first and drops the second, of
    which neither the decoder nor the socket keeps anything. *)
Theorem pipelined_frame_lost limits f g script
    (Hmax : max_frame_bytes limits < 2 ^ 32)
    (Hf : frame_fits limits f = true) (Hg : frame_fits limits g = true)
    (Hroom : lengthN (frame_bytes f ++ frame_bytes g) <= max_frame_bytes limits + kFrameHeaderSize) :
  receive_frame limits [] (Data (frame_bytes f ++ frame_bytes g) :: script) = (inr f, [], script).
Proof.
  assert (H0 : feed limits [] [] = (success, [], [])).
  { unfold feed. by rewrite (proj2 (N.ltb_ge _ _)) by (change (lengthN []) with 0; lia). }
  destruct (feed_stream limits Hmax [f; g] [] (frame_bytes f ++ frame_bytes g) []) as
    (received & pending & rest & Hsplit & Hfeed & Hr & Hlo).
  - by repeat constructor.
  - unfold stream. cbn [map concat app]. by rewrite !app_nil_r.
  - change (lengthN []) with 0. lia.
  - rewrite app_nil_r in Hr.
    assert (pending = []) as ->.
    { destruct pending as [|h pending]; [done|]. exfalso. unfold leftover in Hlo.
      change (stream (h :: pending)) with (frame_bytes h ++ stream pending) in Hr. rewrite Hr, length_app in Hlo. lia. }
    cbn in Hlo. subst rest. rewrite app_nil_r in Hsplit. subst received.
    cbn [receive_frame]. rewrite H0. cbv beta iota. change (negb (status_ok success)) with false.
    cbv iota. by rewrite Hfeed.
Qed.

(** Whether a valid stream is accepted depends on how it is cut: the
    decoder refuses a frame of maximal size and the frame after it when one
    read brings both, although it accepts the same bytes one frame at a
    time. *)
Theorem pipelined_maximal_frame_refused :
  (encode_frame full_frame narrow_limits).1 = success /\ (encode_frame (bare_frame 1) narrow_limits).1 = success /\
  status_code (feed narrow_limits [] (frame_bytes full_frame ++ frame_bytes (bare_frame 1))).1.1 = LimitExceeded /\
  feed_all narrow_limits [] [frame_bytes full_frame; frame_bytes (bare_frame 1)] =
    (success, [full_frame; bare_frame 1], []).
Proof. split; [|split; [|split]]; vm_compute; reflexivity. Qed.

Lemma publication_decodes limits p data :
  limits_fit limits = true -> publication_fits limits p = true -> encode_publication p limits = (success, data) ->
  decode_publication data limits = inr p.
Proof.
  intros Hlimits Hfits Hencode.
  unfold encode_publication in Hencode. destruct (w_truncated (write_publication p limits)) eqn:Ht; [done|].
  destruct (max_frame_bytes limits <? _); [done|]. apply pair_equal_spec in Hencode as [_ <-].
  pose proof (carries_publication limits Hlimits p Hfits Ht []) as H. rewrite app_nil_r in H.
  unfold decode_publication, decode_all. by rewrite H.
Qed.

(** C27: a publication that the encoder accepts is decoded by the receiver as
    the publication that was sent, provided it fits the wire: its counters
    have 64 bits, its lists stay within the bounds of the format, its
    versions are parsed versions and its conditions and values are no deeper
    than the reader goes. *)
Theorem publication_round_trip limits p data
    (Hlimits : limits_fit limits = true) (Hfits : publication_fits limits p = true)
    (Hencode : encode_publication p limits = (success, data)) :
  decode_publication data limits = inr p.
Proof. exact (publication_decodes limits p data Hlimits Hfits Hencode). Qed.

Lemma publication_round_trip_witness :
  exists data, encode_publication (publication PublicationKind.PublishCapability 1) default_limits = (success, data) /\
    decode_publication data default_limits = inr (publication PublicationKind.PublishCapability 1).
Proof.
  eexists. split; [vm_compute; reflexivity|].
  eapply publication_round_trip; vm_compute; reflexivity.
Defined.

(** A condition of [n] nested negations, and a Boolean under [n] records. *)
Definition negations (n : nat) : ConditionNode :=
  Nat.iter n (fun c => Condition ConditionKind.Not "" "" [Some c]) (Condition ConditionKind.Always "" "" []).
Definition nested_records (n : nat) : CapabilityValue :=
  Nat.iter n (fun v => VRecord [("f"%string, Some v)]) (VBoolean true).

Definition claim_of (value : CapabilityValue) : Publication :=
  publication PublicationKind.PublishCapability 1 <| pb_capability ::= fun r => r <| cr_value := value |> |>.

(** Validation and the wire disagree on depth: a claim whose value is a
    predicate, or a nest of records, of the greatest depth that validation
    accepts is encoded, but no receiver can decode it. *)
Theorem deepest_values_not_decodable :
  Forall (fun value =>
    let p := claim_of value in
    validate_publication p default_limits = success /\ (encode_publication p default_limits).1 = success /\
    exists message, decode_publication (encode_publication p default_limits).2 default_limits =
      inl (failure LimitExceeded message))
    [VPredicate (Some (negations 5)); nested_records 4].
Proof.
  repeat apply Forall_cons_2; [..|apply Forall_nil_2];
    (split; [vm_compute; reflexivity|split; [vm_compute; reflexivity|eexists; vm_compute; reflexivity]]).
Qed.

(** A device registration whose platform has 25 native identifiers. *)
Definition many_natives : Publication :=
  publication PublicationKind.RegisterDevice 1
    <| pb_device ::= fun d => d <| dr_platform := no_platform <| pl_native_identifiers :=
         map (fun i => mk_NativeIdentifier (pretty (N.of_nat i)) "x") (seq 0 25) |> |> |>.

(** A list longer than its bound is shortened without notice: a valid
    registration whose platform has 25 native identifiers is encoded and
    decoded with success, and arrives with 24 of them. *)
Theorem long_list_shortened_silently :
  validate_publication many_natives default_limits = success /\
  (encode_publication many_natives default_limits).1 = success /\
  exists p, decode_publication (encode_publication many_natives default_limits).2 default_limits = inr p /\
    lengthN (pl_native_identifiers (dr_platform (pb_device many_natives))) = 25 /\
    lengthN (pl_native_identifiers (dr_platform (pb_device p))) = 24.
Proof.
  split; [vm_compute; reflexivity|]. split; [vm_compute; reflexivity|].
  eexists. split; [vm_compute; reflexivity|]. split; vm_compute; reflexivity.
Qed.
