(* ===== verification/Transport.v ===== *)
(** * Transport

    Models [transport.hpp]/[transport.cpp] as programs (file Programs) of
    system calls on sockets, for both platforms the code is written for, and
    [send_frame] and [receive_frame] of [protocol.cpp] over them. What answers
    the calls is a parameter; the class [Kernel] states what the operating
    systems promise about handles. A step that the language leaves undefined
    (a handle outside the fixed set of [select]) is [None]. *)

From S2P Require Import Prelude Programs Tokens Wire Checksum Frames.

(* ===================================================================== *)
(** ** System calls

    A socket is a [SocketHandle] ([int], or [SOCKET] on Windows) as an
    integer. Addresses are the loopback interface with a port, whose two
    bytes are in network order; a peer's address is its four bytes. *)

Inductive SocketOption := ReuseAddress | NoDelay.

Inductive SysCall :=
  | WSAStartup
  | WSAGetLastError
  | Socket
  | SetSockOpt (socket : Z) (option : SocketOption)
  | Bind (socket : Z) (port : list N)
  | Listen (socket : Z) (backlog : N)
  | Connect (socket : Z) (port : list N)
  | Accept (socket : Z)
  | Send (socket : Z) (data : list byte)
  | Recv (socket : Z) (capacity : N)
  | Fionread (socket : Z)
  | CloseSocket (socket : Z)
  | GetSockName (socket : Z)
  | GetPeerName (socket : Z)
  | InetNtop (address : list N)
  | Select (nfds : Z) (sockets : list Z).

Definition sys_answer (c : SysCall) : Type :=
  match c with
  | Recv _ _ => Z * list byte
  | Fionread _ => Z * Z
  | GetSockName _ => Z * list N
  | GetPeerName _ => Z * (list N * list N)
  | InetNtop _ => option string
  | Select _ _ => Z * list Z
  | _ => Z
  end.

Abbreviation Sys := (Program sys_answer).

Definition htons (port : N) : list N := [port / 256; port mod 256].
Definition ntohs (bytes : list N) : N := foldl (fun n byte => n * 256 + byte) 0 bytes mod 65536.

(** [1u << 20]: the most one call is asked to move. *)
Definition kChunk : N := N.shiftl 1 20.

(** [static_cast<int>]. *)
Definition int_cast (n : Z) : Z := ((n + 2 ^ 31) mod 2 ^ 32 - 2 ^ 31)%Z.

(** Whether the code is compiled for Windows. *)
Class Platform := windows : bool.

Definition on_windows : Platform := true.
Definition on_posix : Platform := false.

Section Handles.
Context `{Platform}.

(* ===================================================================== *)
(** ** Handles

    A connection or a listener is its [handle_], a [std::uintptr_t]. *)

Definition kInvalidSocket : Z := if windows then (2 ^ 64 - 1)%Z else (-1)%Z.
Definition kInvalidHandle : N := 2 ^ 64 - 1.

Definition to_handle (raw : N) : Z := if windows then Z.of_N raw else int_cast (Z.of_N raw).
Definition from_handle (handle : Z) : N := Z.to_N (handle mod 2 ^ 64).

Definition last_socket_error (what : string) : Sys Status :=
  if windows
  then code ← ask WSAGetLastError;
       mret (failure IoFailure (what +:+ " failed with socket error " +:+ pretty (code : Z))%string)
  else mret (failure IoFailure (what +:+ " failed")%string).

Definition close_handle (handle : Z) : Sys unit :=
  if (handle =? kInvalidSocket)%Z then mret tt else _ ← ask (CloseSocket handle); mret tt.

(** [transport_initialize], with what [std::call_once] has recorded. *)
Definition transport_initialize (wsa : option Z) : Sys (Status * option Z) :=
  if negb windows then mret (success, wsa)
  else
    result ← match wsa with Some result => mret result | None => ask WSAStartup end;
    mret (if (result =? 0)%Z then success
          else failure IoFailure ("Winsock initialization failed with code " +:+ pretty (result : Z))%string,
          Some (result : Z)).

Definition valid (this : N) : bool := negb (this =? kInvalidHandle).
End Handles.

(* ===================================================================== *)
(** ** [TcpConnection] *)

Module TcpConnection.
Section Methods.
Context `{Platform}.

Definition destroy (this : N) : Sys unit := close_handle (to_handle this).

(** The move constructor: the new object and what is left of the other. *)
Definition move_construct (other : N) : N * N := (other, kInvalidHandle).

(** [operator=], between different objects. *)
Definition move_assign (this other : N) : Sys (N * N) :=
  _ ← close_handle (to_handle this);
  mret (other, kInvalidHandle).

(** The loop of [send_all] over the bytes not yet sent; each round moves at
    least one, so that their number is enough fuel. *)
Fixpoint send_loop (fuel : nat) (socket : Z) (data : list byte) : Sys Status :=
  match fuel, data with
  | S fuel, _ :: _ =>
      written ← ask (Send socket (take (N.to_nat (N.min (lengthN data) kChunk)) data));
      if (written <=? 0)%Z then last_socket_error "send"
      else send_loop fuel socket (drop (Z.to_nat written) data)
  | _, _ => mret success
  end.

Definition send_all (this : N) (data : list byte) : Sys Status :=
  if negb (valid this) then mret (failure IoFailure "send on a closed connection")
  else send_loop (length data) (to_handle this) data.

(** The status and the bytes received, none at an orderly end. *)
Definition recv_some (this capacity : N) : Sys (Status * list byte) :=
  if negb (valid this) then mret (failure IoFailure "receive on a closed connection", [])
  else
    answer ← ask (Recv (to_handle this) (N.min capacity kChunk));
    let '(read, bytes) := answer : Z * list byte in
    if (read =? 0)%Z then mret (success, [])
    else if (read <? 0)%Z then status ← last_socket_error "recv"; mret (status, [])
    else mret (success, take (Z.to_nat read) bytes).

Definition available (this : N) : Sys (Status * N) :=
  if negb (valid this) then mret (failure IoFailure "query on a closed connection", 0)
  else
    answer ← ask (Fionread (to_handle this));
    let '(result, pending) := answer : Z * Z in
    if negb (result =? 0)%Z
    then status ← last_socket_error (if windows then "ioctlsocket" else "ioctl"); mret (status, 0)
    else mret (success, Z.to_N (pending mod 2 ^ 64)).

Definition close (this : N) : Sys (Status * N) :=
  _ ← close_handle (to_handle this);
  mret (success, kInvalidHandle).

Definition peer (this : N) : Sys string :=
  if negb (valid this) then mret "(closed)"%string
  else
    answer ← ask (GetPeerName (to_handle this));
    let '(result, (address, port)) := answer : Z * (list N * list N) in
    if negb (result =? 0)%Z then mret "(unknown)"%string
    else
      text ← ask (InetNtop address);
      mret match text : option string with
           | None => "(unknown)"%string
           | Some text => (text +:+ ":" +:+ pretty (ntohs port))%string
           end.
End Methods.
End TcpConnection.

(* ===================================================================== *)
(** ** [TcpListener] *)

Module TcpListener.
Section Methods.
Context `{Platform}.

Definition destroy (this : N) : Sys unit := close_handle (to_handle this).
Definition move_construct (other : N) : N * N := (other, kInvalidHandle).
Definition move_assign (this other : N) : Sys (N * N) :=
  _ ← close_handle (to_handle this);
  mret (other, kInvalidHandle).

(** A socket that could not be set up: the error is read before the socket
    is closed. *)
Definition give_up_socket (what : string) (socket : Z) : Sys Status :=
  status ← last_socket_error what;
  _ ← close_handle socket;
  mret status.

Definition open_loopback (wsa : option Z) (this port backlog : N) : Sys (Status * N * option Z) :=
  '(initialized, wsa) ← transport_initialize wsa;
  if negb (status_ok initialized) then mret (initialized, this, wsa)
  else
    _ ← close_handle (to_handle this);
    listener ← ask Socket;
    if (listener =? kInvalidSocket)%Z
    then status ← last_socket_error "socket"; mret (status, kInvalidHandle, wsa)
    else
      _ ← ask (SetSockOpt listener ReuseAddress);
      bound ← ask (Bind listener (htons port));
      if negb (bound =? 0)%Z
      then status ← give_up_socket "bind" listener; mret (status, kInvalidHandle, wsa)
      else
        listening ← ask (Listen listener (N.min backlog 1024));
        if negb (listening =? 0)%Z
        then status ← give_up_socket "listen" listener; mret (status, kInvalidHandle, wsa)
        else mret (success, from_handle listener, wsa).

Definition local_port (this : N) : Sys (Status * N) :=
  if negb (valid this) then mret (failure IoFailure "listener is not open", 0)
  else
    answer ← ask (GetSockName (to_handle this));
    let '(result, port) := answer : Z * list N in
    if negb (result =? 0)%Z then status ← last_socket_error "getsockname"; mret (status, 0)
    else mret (success, ntohs port).

(** [out = TcpConnection(from_handle(socket))]: the temporary is left
    invalid, so that nothing is closed when it is destroyed. *)
Definition adopt (socket : Z) (out : N) : Sys N :=
  _ ← ask (SetSockOpt socket NoDelay);
  '(out, temporary) ← TcpConnection.move_assign out (from_handle socket);
  _ ← TcpConnection.destroy temporary;
  mret out.

Definition accept (this out : N) : Sys (Status * N) :=
  if negb (valid this) then mret (failure IoFailure "listener is not open", out)
  else
    accepted ← ask (Accept (to_handle this));
    if (accepted =? kInvalidSocket)%Z then status ← last_socket_error "accept"; mret (status, out)
    else out ← adopt accepted out; mret (success, out).

Definition close (this : N) : Sys (Status * N) :=
  _ ← close_handle (to_handle this);
  mret (success, kInvalidHandle).
End Methods.
End TcpListener.

Section Waiting.
Context `{Platform}.

Definition connect_loopback (wsa : option Z) (port out : N) : Sys (Status * N * option Z) :=
  '(initialized, wsa) ← transport_initialize wsa;
  if negb (status_ok initialized) then mret (initialized, out, wsa)
  else
    connection ← ask Socket;
    if (connection =? kInvalidSocket)%Z
    then status ← last_socket_error "socket"; mret (status, out, wsa)
    else
      connected ← ask (Connect connection (htons port));
      if negb (connected =? 0)%Z
      then status ← TcpListener.give_up_socket "connect" connection; mret (status, out, wsa)
      else out ← TcpListener.adopt connection out; mret (success, out, wsa).

(* ===================================================================== *)
(** ** Waiting

    An [fd_set] holds [FD_SETSIZE] handles: on Windows those added first, on
    the other systems those below it, where adding another one writes outside
    of the set. *)

Definition FD_SETSIZE : N := if windows then 64 else 1024.

Definition FD_SET (handle : Z) (set : list Z) : option (list Z) :=
  if windows
  then Some (if contains set handle then set else if lengthN set <? FD_SETSIZE then set ++ [handle] else set)
  else if ((0 <=? handle) && (handle <? Z.of_N FD_SETSIZE))%Z
  then Some (if contains set handle then set else set ++ [handle])
  else None.

Definition FD_ISSET (handle : Z) (set : list Z) : bool := contains set handle.

(** The set of these handles and their maximum. *)
Fixpoint watch (handles : list N) (set : list Z) (maximum : Z) : option (list Z * Z) :=
  match handles with
  | [] => Some (set, maximum)
  | raw :: handles =>
      match FD_SET (to_handle raw) set with
      | Some set => watch handles set (Z.max (to_handle raw) maximum)
      | None => None
      end
  end.

(** [select] without a timeout: the ready handles, or the status to return. *)
Definition select (watched : list Z * Z) : Sys (Status + list Z) :=
  answer ← ask (Select (int_cast watched.2 + 1) watched.1);
  let '(ready, set) := answer : Z * list Z in
  if (ready <? 0)%Z then status ← last_socket_error "select"; mret (inl status)
  else mret (if (ready =? 0)%Z then inl success else inr set).

Definition valid_handles (connection : option N) : list N :=
  match connection with Some raw => if valid raw then [raw] else [] | None => [] end.

Definition wait_readable (first second : option N) : Sys (option (Status * bool * bool)) :=
  match watch (valid_handles first ++ valid_handles second) [] 0%Z with
  | None => mret None
  | Some watched =>
      selected ← select watched;
      mret (Some match selected with
                 | inl status => (status, false, false)
                 | inr set =>
                     let is_ready connection := existsb (fun raw => FD_ISSET (to_handle raw) set) (valid_handles connection) in
                     (success, is_ready first, is_ready second)
                 end)
  end.

(** The status, whether the listener is ready and which of the sockets are. *)
Definition wait_all_readable (listener : N) (sockets : list N) : Sys (option (Status * bool * list bool)) :=
  let idle := map (fun _ => false) sockets in
  let listening := negb (listener =? 0) in
  if (lengthN sockets =? 0) && negb listening
  then mret (Some (failure InvalidArgument "no sockets to wait on", false, idle))
  else match watch ((if listening then [listener] else []) ++ sockets) [] 0%Z with
  | None => mret None
  | Some watched =>
      selected ← select watched;
      mret (Some match selected with
                 | inl status => (status, false, idle)
                 | inr set =>
                     (success, listening && FD_ISSET (to_handle listener) set,
                      map (fun raw => FD_ISSET (to_handle raw) set) sockets)
                 end)
  end.

End Waiting.

(* ===================================================================== *)
(** ** Frames over sockets *)

Module Sockets.
Section Methods.
Context `{Platform}.

Definition send_frame (frame : Frame) (limits : RegistryLimits) (connection : N) : Sys Status :=
  let '(encoded, bytes) := encode_frame frame limits in
  if negb (status_ok encoded) then mret encoded
  else TcpConnection.send_all connection bytes.

(** [receive_frame] and its loop, with the buffer of the decoder. *)
Fixpoint receive_loop (fuel : nat) (limits : RegistryLimits) (connection : N) (buffer : list byte) :
    Sys (option (Status + Frame) * list byte) :=
  match fuel with
  | O => mret (None, buffer)
  | S fuel =>
      match feed limits buffer [] with
      | (fed, frame :: _, buffer) => mret (Some (if status_ok fed then inr frame else inl fed), buffer)
      | (fed, [], buffer) =>
          if negb (status_ok fed) then mret (Some (inl fed), buffer)
          else
            '(status, received) ← TcpConnection.recv_some connection 16384;
            if negb (status_ok status) then mret (Some (inl status), buffer)
            else if lengthN received =? 0
            then mret (Some (inl (if negb (status_ok (finish buffer)) then finish buffer
                                  else failure IoFailure "peer closed the connection")), buffer)
            else match feed limits buffer received with
            | (append, frame :: _, buffer) => mret (Some (if status_ok append then inr frame else inl append), buffer)
            | (append, [], buffer) =>
                if negb (status_ok append) then mret (Some (inl append), buffer)
                else receive_loop fuel limits connection buffer
            end
      end
  end.

(** Every round that does not end adds a byte to a buffer that never holds
    more than a maximal frame. *)
Definition receive_frame (limits : RegistryLimits) (connection : N) (buffer : list byte) :
    Sys (option (Status + Frame) * list byte) :=
  receive_loop (N.to_nat (max_frame_bytes limits + kFrameHeaderSize + 2)) limits connection buffer.
End Methods.
End Sockets.

(* ===================================================================== *)
(** ** Objects

    The connections and listeners a process has, by name, each with its
    handle, and the operations of the two classes on them. An operation that
    names an object the process does not have, or declares one that it has, is
    no C++ program and does nothing here. *)

Record Process := mk_Process {
  pr_winsock : option Z;
  pr_objects : gmap N N
}.

Definition new_process : Process := mk_Process None ∅.

Inductive SocketOperation :=
  | Construct (x : N)
  | MoveConstruct (x y : N)
  | MoveAssign (x y : N)
  | Destroy (x : N)
  | SendAll (x : N) (data : list byte)
  | RecvSome (x capacity : N)
  | Available (x : N)
  | Peer (x : N)
  | Close (x : N)
  | OpenLoopback (x port backlog : N)
  | LocalPort (x : N)
  | AcceptInto (x y : N)
  | ConnectLoopback (port x : N)
  | WaitReadable (x y : N).

Section Objects.
Context `{Platform}.

Definition with_object (x : N) (p : Process) (f : N -> Sys Process) : Sys Process :=
  match pr_objects p !! x with Some this => f this | None => mret p end.

Definition store (x this : N) (p : Process) : Process :=
  mk_Process (pr_winsock p) (<[x := this]> (pr_objects p)).

Definition operate_socket (op : SocketOperation) (p : Process) : Sys Process :=
  match op with
  | Construct x => mret match pr_objects p !! x with Some _ => p | None => store x kInvalidHandle p end
  | MoveConstruct x y =>
      with_object y p (fun other =>
        match pr_objects p !! x with
        | Some _ => mret p
        | None =>
            let '(this, other) := TcpConnection.move_construct other in mret (store x this (store y other p))
        end)
  | MoveAssign x y =>
      with_object x p (fun this => with_object y p (fun other =>
        if x =? y then mret p
        else '(this, other) ← TcpConnection.move_assign this other; mret (store x this (store y other p))))
  | Destroy x =>
      with_object x p (fun this =>
        _ ← TcpConnection.destroy this; mret (mk_Process (pr_winsock p) (delete x (pr_objects p))))
  | SendAll x data => with_object x p (fun this => _ ← TcpConnection.send_all this data; mret p)
  | RecvSome x capacity => with_object x p (fun this => _ ← TcpConnection.recv_some this capacity; mret p)
  | Available x => with_object x p (fun this => _ ← TcpConnection.available this; mret p)
  | Peer x => with_object x p (fun this => _ ← TcpConnection.peer this; mret p)
  | Close x => with_object x p (fun this => '(_, this) ← TcpConnection.close this; mret (store x this p))
  | OpenLoopback x port backlog =>
      with_object x p (fun this =>
        '(_, this, wsa) ← TcpListener.open_loopback (pr_winsock p) this port backlog;
        mret (store x this (mk_Process wsa (pr_objects p))))
  | LocalPort x => with_object x p (fun this => _ ← TcpListener.local_port this; mret p)
  | AcceptInto x y =>
      with_object x p (fun this => with_object y p (fun out =>
        '(_, out) ← TcpListener.accept this out; mret (store y out p)))
  | ConnectLoopback port x =>
      with_object x p (fun out =>
        '(_, out, wsa) ← connect_loopback (pr_winsock p) port out;
        mret (store x out (mk_Process wsa (pr_objects p))))
  | WaitReadable x y => _ ← wait_readable (pr_objects p !! x) (pr_objects p !! y); mret p
  end.

Fixpoint operate_sockets_all (ops : list SocketOperation) (p : Process) : Sys Process :=
  match ops with
  | [] => mret p
  | op :: ops => p ← operate_socket op p; operate_sockets_all ops p
  end.
End Objects.

(* ===================================================================== *)
(** ** What a kernel promises *)

Section Promises.
Context `{Platform}.

(** The sockets there can be. *)
Definition is_socket (socket : Z) : bool :=
  ((0 <=? socket) && (socket <? if windows then 2 ^ 64 - 1 else 2 ^ 31))%Z.

(** The sockets a call is about. *)
Definition touches (c : SysCall) : list Z :=
  match c with
  | SetSockOpt s _ | Bind s _ | Listen s _ | Connect s _ | Accept s | Send s _ | Recv s _ | Fionread s
  | CloseSocket s | GetSockName s | GetPeerName s => [s]
  | Select _ sockets => sockets
  | _ => []
  end.

(** What a call leaves open, of the sockets open before it. *)
Definition left_open (c : SysCall) : sys_answer c -> gset Z -> gset Z :=
  match c return sys_answer c -> gset Z -> gset Z with
  | Socket | Accept _ => fun socket opened => if (socket =? kInvalidSocket)%Z then opened else {[socket]} ∪ opened
  | CloseSocket socket => fun _ opened => opened ∖ {[socket]}
  | _ => fun _ opened => opened
  end.

(** A call that opens a socket gives one that is not open already. *)
Definition fresh_answer (c : SysCall) : sys_answer c -> gset Z -> Prop :=
  match c return sys_answer c -> gset Z -> Prop with
  | Socket | Accept _ => fun socket opened =>
      socket = kInvalidSocket \/ is_socket socket = true /\ socket ∉ opened
  | _ => fun _ _ => True
  end.

(** Calls move no more than they are asked to, fill what they report, and
    report no socket that was not asked about. *)
Definition is_bounded (c : SysCall) : sys_answer c -> Prop :=
  match c return sys_answer c -> Prop with
  | Send _ data => fun written => (written <= Z.of_nat (length data))%Z
  | Recv _ capacity => fun answer => (0 < answer.1)%Z -> answer.1 = Z.of_nat (length answer.2) /\ (answer.1 <= Z.of_N capacity)%Z
  | Select _ sockets => fun answer => Forall (fun s => s ∈ sockets) answer.2
  | _ => fun _ => True
  end.
End Promises.

Class Kernel (W : Type) `{Platform} := {
  sys : forall c, W -> sys_answer c * W;
  opened : W -> gset Z;
  sys_opened c w : opened (sys c w).2 = left_open c (sys c w).1 (opened w);
  sys_fresh c w : fresh_answer c (sys c w).1 (opened w);
  sys_bounded c w : is_bounded c (sys c w).1
}.

(** The sockets a run opened and did not close, if it never named another. *)
Fixpoint replay `{Platform} (mine : gset Z) (events : list {c & sys_answer c}) : option (gset Z) :=
  match events with
  | [] => Some mine
  | existT c answer :: events =>
      if forallb (fun s => bool_decide (s ∈ mine)) (touches c) then replay (left_open c answer mine) events else None
  end.

(** The sockets the objects of a process hold. *)
Definition held `{Platform} (p : Process) : gset Z :=
  list_to_set (map (fun entry => to_handle entry.2) (filter (fun entry => valid entry.2 = true) (map_to_list (pr_objects p)))).

(* ===================================================================== *)
(** ** Reasoning about programs of system calls

    [wp m Q mine]: with the sockets [mine] open, [m] names no other, and
    whatever fresh sockets it is given it ends with a result and sockets that
    satisfy [Q]. *)

Section Logic.
Context `{Platform}.

Fixpoint wp {A} (m : Sys A) (Q : A -> gset Z -> Prop) (mine : gset Z) : Prop :=
  match m with
  | Return a => Q a mine
  | Ask c k =>
      Forall (fun s => s ∈ mine) (touches c) /\
      forall answer, fresh_answer c answer mine -> wp (k answer) Q (left_open c answer mine)
  end.

Lemma wp_mono {A} (m : Sys A) (Q1 Q2 : A -> gset Z -> Prop) mine :
  (forall a mine, Q1 a mine -> Q2 a mine) -> wp m Q1 mine -> wp m Q2 mine.
Proof.
  intros HQ. revert mine. induction m as [a|c k IH]; intros mine; cbn; [apply HQ|].
  intros [Ht Hk]. split; [done|]. intros answer Hf. apply IH, Hk, Hf.
Qed.

Lemma wp_bind {A B} (m : Sys A) (f : A -> Sys B) (Q : B -> gset Z -> Prop) mine :
  wp m (fun a => wp (f a) Q) mine -> wp (m ≫= f) Q mine.
Proof.
  revert mine. induction m as [a|c k IH]; intros mine; [done|]. intros [Ht Hk]. cbn.
  split; [done|]. intros answer Hf. apply IH, Hk, Hf.
Qed.

(** A call that neither opens nor closes a socket. *)
Lemma wp_ask {B} c (f : sys_answer c -> Sys B) (Q : B -> gset Z -> Prop) mine :
  (forall answer, left_open c answer mine = mine) -> Forall (fun s => s ∈ mine) (touches c) ->
  (forall answer, wp (f answer) Q mine) -> wp (ask c ≫= f) Q mine.
Proof. intros Ho Ht Hf. cbn. split; [done|]. intros answer _. rewrite Ho. apply Hf. Qed.

Lemma wp_error {B} what (f : Status -> Sys B) (Q : B -> gset Z -> Prop) mine :
  (forall status, wp (f status) Q mine) -> wp (last_socket_error what ≫= f) Q mine.
Proof. intros Hf. unfold last_socket_error. destruct windows; [|apply Hf]. apply wp_bind, wp_ask; [done..|]. intros code. apply Hf. Qed.

Lemma wp_close_handle s (Q : unit -> gset Z -> Prop) mine :
  (s <> kInvalidSocket -> s ∈ mine) -> (s = kInvalidSocket -> s ∉ mine) ->
  Q tt (mine ∖ {[s]}) -> wp (close_handle s) Q mine.
Proof.
  intros Hs Hi Hf. unfold close_handle. destruct (Z.eqb_spec s kInvalidSocket) as [E|Hne]; cbn.
  - replace (mine ∖ {[s]}) with mine in Hf; [done|]. specialize (Hi E). set_solver.
  - split; [|done]. constructor; [auto|constructor].
Qed.

Lemma wp_close {B} s (f : unit -> Sys B) (Q : B -> gset Z -> Prop) mine :
  (s <> kInvalidSocket -> s ∈ mine) -> (s = kInvalidSocket -> s ∉ mine) ->
  wp (f tt) Q (mine ∖ {[s]}) -> wp (close_handle s ≫= f) Q mine.
Proof. intros. by apply wp_bind, wp_close_handle. Qed.

Lemma wp_opened {B} (f : Z -> Sys B) (Q : B -> gset Z -> Prop) mine s :
  s = kInvalidSocket \/ is_socket s = true /\ s ∉ mine ->
  wp (f kInvalidSocket) Q mine ->
  (forall s, s <> kInvalidSocket -> is_socket s = true -> s ∉ mine -> wp (f s) Q ({[s]} ∪ mine)) ->
  wp (f s) Q (if (s =? kInvalidSocket)%Z then mine else {[s]} ∪ mine).
Proof.
  intros Hs Hfail Hopen. destruct (Z.eqb_spec s kInvalidSocket) as [->|Hne]; [done|].
  destruct Hs as [|[]]; [done|]. by apply Hopen.
Qed.

Lemma wp_socket {B} (f : Z -> Sys B) (Q : B -> gset Z -> Prop) mine :
  wp (f kInvalidSocket) Q mine ->
  (forall s, s <> kInvalidSocket -> is_socket s = true -> s ∉ mine -> wp (f s) Q ({[s]} ∪ mine)) ->
  wp (ask Socket ≫= f) Q mine.
Proof. intros. cbn. split; [constructor|]. intros. by apply wp_opened. Qed.

Lemma wp_accept {B} l (f : Z -> Sys B) (Q : B -> gset Z -> Prop) mine :
  l ∈ mine -> wp (f kInvalidSocket) Q mine ->
  (forall s, s <> kInvalidSocket -> is_socket s = true -> s ∉ mine -> wp (f s) Q ({[s]} ∪ mine)) ->
  wp (ask (Accept l) ≫= f) Q mine.
Proof. intros. cbn. split; [repeat constructor; done|]. intros. by apply wp_opened. Qed.

Lemma opened_elsewhere (all mine : gset Z) s :
  s = kInvalidSocket \/ is_socket s = true /\ s ∉ all ->
  (if (s =? kInvalidSocket)%Z then all else {[s]} ∪ all) ∖ (if (s =? kInvalidSocket)%Z then mine else {[s]} ∪ mine) =
  all ∖ mine.
Proof. intros Hs. destruct (Z.eqb_spec s kInvalidSocket) as [_|Hne]; [done|]. destruct Hs as [|[_ Hs]]; [done|]. set_solver. Qed.

(** What [wp] means for a run on a kernel. *)
Lemma wp_run {W} `{!Kernel W} {A} (m : Sys A) (Q : A -> gset Z -> Prop) : forall (mine : gset Z) (w : W),
  wp m Q mine -> mine ⊆ opened w ->
  exists mine', replay mine (trace sys m w) = Some mine' /\ Q (perform sys m w).1 mine' /\
    mine' ⊆ opened (perform sys m w).2 /\ opened (perform sys m w).2 ∖ mine' = opened w ∖ mine.
Proof.
  induction m as [a|c k IH]; intros mine w Hwp Hin; [by exists mine|].
  destruct Hwp as [Ht Hk]. cbn [perform trace].
  pose proof (sys_opened c w) as Ho. pose proof (sys_fresh c w) as Hf.
  destruct (sys c w) as [answer w'] eqn:E. cbn [fst snd] in Ho, Hf. cbn [replay].
  assert (forallb (fun s => bool_decide (s ∈ mine)) (touches c) = true) as ->.
  { apply forallb_forall. intros s Hs%list_elem_of_In. rewrite Forall_forall in Ht. by apply bool_decide_eq_true, Ht. }
  assert (Hfm : fresh_answer c answer mine) by (destruct c; cbn in *; set_solver).
  destruct (IH answer (left_open c answer mine) w') as (mine' & Hr & HQ & Hin' & Hd).
  - by apply Hk.
  - rewrite Ho. destruct c; cbn; repeat case_match; set_solver.
  - exists mine'. split_and!; [done..|]. rewrite Hd, Ho. clear -Hf Ht Hin.
    destruct c; cbn in *; try done; [by apply opened_elsewhere..|].
    apply Forall_inv in Ht. apply set_eq. intros x. rewrite !elem_of_difference, elem_of_singleton.
    destruct (decide (x = socket)) as [->|]; tauto.
Qed.
End Logic.

(* ===================================================================== *)
(** ** Objects own their sockets *)

Section Ownership.
Context `{Platform}.

(** Every valid handle is an open socket, of one object only, and every
    socket is held by an object. *)
Record owns (objects : gmap N N) (mine : gset Z) : Prop := {
  owns_held s : s ∈ mine <-> exists x this, objects !! x = Some this /\ valid this = true /\ to_handle this = s;
  owns_sockets x this : objects !! x = Some this -> valid this = true ->
    exists s, is_socket s = true /\ this = from_handle s;
  owns_once x y this : objects !! x = Some this -> objects !! y = Some this -> valid this = true -> x = y
}.

Lemma socket_range s : is_socket s = true -> (0 <= s < 2 ^ 64 - 1)%Z /\ (windows = false -> s < 2 ^ 31)%Z.
Proof. unfold is_socket. intros Hs. destruct windows; lia. Qed.

Lemma from_handle_socket s : is_socket s = true -> from_handle s = Z.to_N s.
Proof. intros [Hs _]%socket_range. unfold from_handle. by rewrite Z.mod_small by lia. Qed.

Lemma to_from_handle s : is_socket s = true -> to_handle (from_handle s) = s.
Proof.
  intros Hs. rewrite from_handle_socket by done. apply socket_range in Hs as [Hs Hp]. unfold to_handle, int_cast.
  rewrite Z2N.id by lia. destruct windows; [done|]. specialize (Hp eq_refl). rewrite Z.mod_small by lia. lia.
Qed.

Lemma from_handle_valid s : is_socket s = true -> valid (from_handle s) = true.
Proof.
  intros Hs. rewrite from_handle_socket by done. apply socket_range in Hs as [Hs _].
  unfold valid, kInvalidHandle. apply negb_true_iff, N.eqb_neq. lia.
Qed.

Lemma invalid_no_socket : is_socket kInvalidSocket = false.
Proof. unfold is_socket, kInvalidSocket. destruct windows; lia. Qed.

Lemma to_handle_invalid : to_handle kInvalidHandle = kInvalidSocket.
Proof. unfold to_handle, kInvalidHandle, kInvalidSocket, int_cast. by destruct windows. Qed.

Lemma valid_cases this : valid this = true \/ this = kInvalidHandle.
Proof. unfold valid. destruct (N.eqb_spec this kInvalidHandle); auto. Qed.

Section State.
Context (objects : gmap N N) (mine : gset Z) (Howns : owns objects mine).

Lemma owned_sockets s : s ∈ mine -> is_socket s = true.
Proof.
  intros (x & this & Hx & Hv & <-)%(owns_held _ _ Howns). destruct (owns_sockets _ _ Howns x this Hx Hv) as (s & Hs & ->).
  by rewrite to_from_handle.
Qed.

Lemma invalid_not_owned : kInvalidSocket ∉ mine.
Proof. intros Hs%owned_sockets. by rewrite invalid_no_socket in Hs. Qed.

(** The handle of an object is its socket, or no socket. *)
Lemma handle_owned x this : objects !! x = Some this -> valid this = true -> to_handle this ∈ mine.
Proof. intros Hx Hv. apply (owns_held _ _ Howns). eauto. Qed.

Lemma handle_cases x this : objects !! x = Some this ->
  (to_handle this <> kInvalidSocket -> to_handle this ∈ mine) /\
  (to_handle this = kInvalidSocket -> to_handle this ∉ mine).
Proof.
  intros Hx. split.
  - intros Hne. destruct (valid_cases this) as [Hv| ->]; [by eapply handle_owned|]. by rewrite to_handle_invalid in Hne.
  - intros ->. apply invalid_not_owned.
Qed.

Lemma owns_release x this : objects !! x = Some this -> owns (<[x := kInvalidHandle]> objects) (mine ∖ {[to_handle this]}).
Proof.
  intros Hx. split.
  - intros s. rewrite elem_of_difference, elem_of_singleton, (owns_held _ _ Howns). split.
    + intros [(y & other & Hy & Hv & <-) Hne]. exists y, other. rewrite lookup_insert_ne; [done|].
      intros <-. rewrite Hx in Hy. by injection Hy as ->.
    + intros (y & other & Hy & Hv & <-). destruct (decide (x = y)) as [->|Hne].
      { rewrite lookup_insert_eq in Hy. by injection Hy as <-. }
      rewrite lookup_insert_ne in Hy by done. split; [eauto|]. intros E.
      destruct (owns_sockets _ _ Howns y other Hy Hv) as (s & Hs & ->).
      destruct (valid_cases this) as [Hv'| ->].
      * destruct (owns_sockets _ _ Howns x this Hx Hv') as (s' & Hs' & ->).
        rewrite !to_from_handle in E by done. subst s'. by apply Hne, (owns_once _ _ Howns x y (from_handle s)).
      * rewrite to_from_handle, to_handle_invalid in E by done. subst s. by rewrite invalid_no_socket in Hs.
  - intros y other Hy Hv. destruct (decide (x = y)) as [->|Hne].
    + rewrite lookup_insert_eq in Hy. by injection Hy as <-.
    + rewrite lookup_insert_ne in Hy by done. by apply (owns_sockets _ _ Howns y).
  - intros y z other Hy Hz Hv. destruct (decide (x = y)) as [->|Hy'].
    { rewrite lookup_insert_eq in Hy. by injection Hy as <-. }
    destruct (decide (x = z)) as [->|Hz'].
    { rewrite lookup_insert_eq in Hz. by injection Hz as <-. }
    rewrite lookup_insert_ne in Hy, Hz by done. by apply (owns_once _ _ Howns y z other).
Qed.

(** Objects without a socket can be declared, overwritten and destroyed. *)
Lemma owns_same objects' :
  (forall x this, valid this = true -> objects' !! x = Some this <-> objects !! x = Some this) -> owns objects' mine.
Proof.
  intros Hsame. destruct Howns as [Hheld Hsockets Honce]. split.
  - intros s. rewrite Hheld. split; intros (x & this & Hx & Hv & E); exists x, this; by rewrite Hsame in *.
  - intros x this Hx Hv. apply (Hsockets x this); [by apply Hsame|done].
  - intros x y this Hx Hy Hv. apply (Honce x y this); [by apply Hsame..|done].
Qed.

Lemma owns_clear x : (forall this, objects !! x = Some this -> valid this = false) -> owns (<[x := kInvalidHandle]> objects) mine.
Proof.
  intros Hx. apply owns_same. intros y this Hv. destruct (decide (x = y)) as [->|Hne]; [|by rewrite lookup_insert_ne].
  rewrite lookup_insert_eq. split; intros E; [by injection E as <-|]. apply Hx in E. congruence.
Qed.

Lemma owns_destroy x : (forall this, objects !! x = Some this -> valid this = false) -> owns (delete x objects) mine.
Proof.
  intros Hx. apply owns_same. intros y this Hv. destruct (decide (x = y)) as [->|Hne]; [|by rewrite lookup_delete_ne].
  rewrite lookup_delete_eq. split; intros E; [done|]. apply Hx in E. congruence.
Qed.

Lemma owns_acquire x s : (forall this, objects !! x = Some this -> valid this = false) ->
  is_socket s = true -> s ∉ mine -> owns (<[x := from_handle s]> objects) ({[s]} ∪ mine).
Proof.
  intros Hx Hs Hn. destruct Howns as [Hheld Hsockets Honce].
  assert (Hother : forall y this, <[x := from_handle s]> objects !! y = Some this -> valid this = true ->
    y = x /\ this = from_handle s \/ y <> x /\ objects !! y = Some this /\ to_handle this <> s).
  { intros y this Hy Hv. destruct (decide (y = x)) as [->|Hne].
    - rewrite lookup_insert_eq in Hy. injection Hy as <-. by left.
    - rewrite lookup_insert_ne in Hy by done. right. split_and!; [done..|]. intros <-. apply Hn, Hheld. eauto. }
  split.
  - intros s'. rewrite elem_of_union, elem_of_singleton, Hheld. split.
    + intros [->|(y & this & Hy & Hv & <-)].
      * exists x, (from_handle s). by rewrite lookup_insert_eq, from_handle_valid, to_from_handle.
      * exists y, this. rewrite lookup_insert_ne; [done|]. intros ->. apply Hx in Hy. congruence.
    + intros (y & this & Hy & Hv & <-). destruct (Hother y this Hy Hv) as [[_ ->]|(_ & Hy' & _)];
        [left; by apply to_from_handle|right; eauto].
  - intros y this Hy Hv. destruct (Hother y this Hy Hv) as [[_ ->]|(_ & Hy' & _)]; eauto.
  - intros y z this Hy Hz Hv.
    destruct (Hother y this Hy Hv) as [[-> E]|(_ & Hy' & E)], (Hother z this Hz Hv) as [[-> E']|(_ & Hz' & E')];
      [done|subst; by rewrite to_from_handle in E'|subst; by rewrite to_from_handle in E|by apply (Honce y z this)].
Qed.

End State.

Lemma owns_moved objects mine x y this : owns objects mine -> x <> y ->
  (forall old, objects !! x = Some old -> valid old = false) -> objects !! y = Some this ->
  owns (<[x := this]> (<[y := kInvalidHandle]> objects)) mine.
Proof.
  intros Howns Hne Hx Hy. destruct (valid_cases this) as [Hv| ->].
  - destruct (owns_sockets _ _ Howns y this Hy Hv) as (s & Hs & ->).
    pose proof (handle_owned _ _ Howns y _ Hy Hv) as Hin. pose proof (owns_release _ _ Howns y _ Hy) as Hr.
    rewrite to_from_handle in Hin, Hr by done. rewrite (union_difference_singleton_L s mine Hin).
    apply owns_acquire; [done| |done|set_solver]. intros old. rewrite lookup_insert_ne by done. apply Hx.
  - apply owns_clear; [apply owns_clear; [done|]|].
    + intros old Hy'. rewrite Hy in Hy'. by injection Hy' as <-.
    + intros old. rewrite lookup_insert_ne by done. apply Hx.
Qed.

(** *** What each method does to the sockets *)

Lemma wp_unchanged {A} (m : Sys A) (Q : A -> gset Z -> Prop) mine :
  wp m (fun _ mine' => mine' = mine) mine -> (forall a, Q a mine) -> wp m Q mine.
Proof. intros Hm HQ. eapply wp_mono; [|exact Hm]. by intros a ? ->. Qed.

Lemma wp_initialize wsa (Q : Status * option Z -> gset Z -> Prop) mine :
  (forall answer, Q answer mine) -> wp (transport_initialize wsa) Q mine.
Proof.
  intros HQ. unfold transport_initialize. destruct (negb windows); [apply HQ|].
  destruct wsa as [result|]; cbn; [|split; [constructor|]; intros]; by apply HQ.
Qed.

Lemma wp_send_loop s mine : s ∈ mine -> forall fuel data, wp (TcpConnection.send_loop fuel s data) (fun _ mine' => mine' = mine) mine.
Proof.
  intros Hs. induction fuel as [|fuel IH]; intros data; [done|]. destruct data as [|b data]; [done|].
  cbn [TcpConnection.send_loop]. apply wp_ask; [done|by constructor|]. intros written. destruct (written <=? 0)%Z; [|apply IH].
  unfold last_socket_error. destruct windows; [|done]. by apply wp_ask.
Qed.

(** Methods that use the socket of one object. *)
Ltac quiet :=
  repeat first
    [ progress cbv beta
    | done
    | apply wp_error; intros ?
    | apply wp_ask; [done|by constructor|intros ?]
    | case_match ].

Ltac quiet_on this :=
  let Hs := fresh in intros Hs; destruct (valid this); [specialize (Hs eq_refl); quiet|done].

Lemma wp_send_all this data mine : (valid this = true -> to_handle this ∈ mine) ->
  wp (TcpConnection.send_all this data) (fun _ mine' => mine' = mine) mine.
Proof. intros Hs. unfold TcpConnection.send_all. destruct (valid this); [|done]. by apply wp_send_loop, Hs. Qed.

Lemma wp_recv_some this capacity mine : (valid this = true -> to_handle this ∈ mine) ->
  wp (TcpConnection.recv_some this capacity) (fun _ mine' => mine' = mine) mine.
Proof. unfold TcpConnection.recv_some. quiet_on this. Qed.

Lemma wp_available this mine : (valid this = true -> to_handle this ∈ mine) ->
  wp (TcpConnection.available this) (fun _ mine' => mine' = mine) mine.
Proof. unfold TcpConnection.available. quiet_on this. Qed.

Lemma wp_peer this mine : (valid this = true -> to_handle this ∈ mine) ->
  wp (TcpConnection.peer this) (fun _ mine' => mine' = mine) mine.
Proof. unfold TcpConnection.peer. quiet_on this. Qed.

Lemma wp_local_port this mine : (valid this = true -> to_handle this ∈ mine) ->
  wp (TcpListener.local_port this) (fun _ mine' => mine' = mine) mine.
Proof. unfold TcpListener.local_port. quiet_on this. Qed.

(** Only sockets that are asked for are watched. *)
Lemma watch_sockets handles : forall set maximum set' maximum',
  watch handles set maximum = Some (set', maximum') -> forall s, s ∈ set' -> s ∈ set \/ s ∈ map to_handle handles.
Proof.
  induction handles as [|raw handles IH]; intros set maximum set' maximum' Hw s Hs; cbn in *; [injection Hw as <- <-; auto|].
  destruct (FD_SET (to_handle raw) set) as [added|] eqn:E; [|done]. destruct (IH _ _ _ _ Hw s Hs) as [Hin|Hin]; [|set_solver].
  unfold FD_SET in E. repeat case_match; try discriminate; injection E as <-; set_solver.
Qed.

Lemma wp_wait_readable first second mine :
  (forall this, first = Some this \/ second = Some this -> valid this = true -> to_handle this ∈ mine) ->
  wp (wait_readable first second) (fun _ mine' => mine' = mine) mine.
Proof.
  intros Hs. unfold wait_readable. destruct (watch _ [] 0) as [[set maximum]|] eqn:E; [|done].
  assert (Hset : Forall (fun s => s ∈ mine) set).
  { apply Forall_forall. intros s Hin. destruct (watch_sockets _ _ _ _ _ E s Hin) as [?|Hin']; [set_solver|].
    apply list_elem_of_fmap in Hin' as (raw & -> & Hraw). apply elem_of_app in Hraw. unfold valid_handles in Hraw.
    destruct first as [a|], second as [b|]; destruct Hraw as [Hraw|Hraw]; try (by apply elem_of_nil in Hraw); case_match;
      try (by apply elem_of_nil in Hraw); apply list_elem_of_singleton in Hraw as ->; eauto. }
  unfold select. apply wp_bind. cbn [snd fst]. apply wp_ask; [done..|]. intros answer. quiet.
Qed.

Lemma wp_give_up what s (Q : Status -> gset Z -> Prop) mine : is_socket s = true -> s ∉ mine ->
  (forall status, Q status mine) -> wp (TcpListener.give_up_socket what s) Q ({[s]} ∪ mine).
Proof.
  intros Hs Hn HQ. unfold TcpListener.give_up_socket. apply wp_error. intros status.
  apply wp_close; [set_solver|intros ->; by rewrite invalid_no_socket in Hs|].
  assert (({[s]} ∪ mine) ∖ {[s]} = mine) as -> by set_solver. apply HQ.
Qed.

(** A fresh socket becomes that of the object [x]. *)
Lemma wp_adopt objects mine x out s (Q : N -> gset Z -> Prop) :
  owns objects mine -> objects !! x = Some out -> is_socket s = true -> s ∉ mine ->
  (forall this mine', owns (<[x := this]> objects) mine' -> Q this mine') ->
  wp (TcpListener.adopt s out) Q ({[s]} ∪ mine).
Proof.
  intros Howns Hx Hs Hn HQ. destruct (handle_cases _ _ Howns x out Hx) as [Hin Hout].
  unfold TcpListener.adopt. apply wp_ask; [done|constructor; [set_solver|done]|]. intros _.
  unfold TcpConnection.move_assign. apply wp_bind, wp_close.
  { set_solver. }
  { intros E. specialize (Hout E). rewrite elem_of_union, elem_of_singleton. intros [E'|]; [|done].
    rewrite <- E', E in Hs. by rewrite invalid_no_socket in Hs. }
  cbn [wp mret Program_ret]. unfold TcpConnection.destroy. rewrite to_handle_invalid. unfold close_handle.
  rewrite Z.eqb_refl. cbn.
  assert (Hne : s <> to_handle out).
  { intros ->. destruct (decide (to_handle out = kInvalidSocket)) as [E|]; [|tauto]. by rewrite E, invalid_no_socket in Hs. }
  assert (({[s]} ∪ mine) ∖ {[to_handle out]} = {[s]} ∪ mine ∖ {[to_handle out]}) as -> by set_solver.
  apply HQ. rewrite <- (insert_insert_eq objects x (from_handle s) kInvalidHandle).
  apply owns_acquire; [by apply owns_release| |done|set_solver].
  intros old. rewrite lookup_insert_eq. by intros [= <-].
Qed.

(** The handle stored in [x] afterwards keeps the objects the owners. *)
Abbreviation storing objects x := (fun this mine' => owns (<[x := this]> objects) mine').

Lemma owns_unchanged objects mine x this : owns objects mine -> objects !! x = Some this -> owns (<[x := this]> objects) mine.
Proof. intros Howns Hx. by rewrite insert_id. Qed.

Lemma wp_accept_into objects mine x this y out :
  owns objects mine -> objects !! x = Some this -> objects !! y = Some out ->
  wp (TcpListener.accept this out) (fun result => storing objects y result.2) mine.
Proof.
  intros Howns Hx Hy. pose proof (owns_unchanged _ _ y out Howns Hy) as Hsame. unfold TcpListener.accept.
  destruct (valid this) eqn:Hv; [|done]. apply wp_accept; [by apply (handle_owned _ _ Howns x)| |].
  - rewrite Z.eqb_refl. by apply wp_error.
  - intros s Hne Hs Hn. rewrite (proj2 (Z.eqb_neq s _) Hne). apply wp_bind. apply (wp_adopt objects mine y out); [done..|by intros].
Qed.

Lemma wp_connect objects mine wsa port x out :
  owns objects mine -> objects !! x = Some out ->
  wp (connect_loopback wsa port out) (fun result => storing objects x result.1.2) mine.
Proof.
  intros Howns Hx. pose proof (owns_unchanged _ _ x out Howns Hx) as Hsame. unfold connect_loopback.
  apply wp_bind, wp_initialize. intros [initialized wsa']. destruct (negb (status_ok initialized)); [done|].
  apply wp_socket; [rewrite Z.eqb_refl; by apply wp_error|]. intros s Hne Hs Hn. rewrite (proj2 (Z.eqb_neq s _) Hne).
  apply wp_ask; [done|constructor; [set_solver|done]|]. intros connected. destruct (negb _); apply wp_bind.
  - by apply wp_give_up.
  - apply (wp_adopt objects mine x out); [done..|by intros].
Qed.

Lemma wp_open_loopback objects mine wsa port backlog x this :
  owns objects mine -> objects !! x = Some this ->
  wp (TcpListener.open_loopback wsa this port backlog) (fun result => storing objects x result.1.2) mine.
Proof.
  intros Howns Hx. pose proof (owns_unchanged _ _ x this Howns Hx) as Hsame. unfold TcpListener.open_loopback.
  apply wp_bind, wp_initialize. intros [initialized wsa']. destruct (negb (status_ok initialized)); [done|].
  destruct (handle_cases _ _ Howns x this Hx) as [Hin Hout]. apply wp_close; [done..|].
  pose proof (owns_release _ _ Howns x this Hx) as Hclosed. set (rest := mine ∖ {[to_handle this]}) in *. clearbody rest.
  apply wp_socket; [rewrite Z.eqb_refl; by apply wp_error|]. intros s Hne Hs Hn. rewrite (proj2 (Z.eqb_neq s _) Hne).
  assert (Hgave : forall what, wp (status ← TcpListener.give_up_socket what s; mret (status, kInvalidHandle, wsa'))
            (fun result : Status * N * option Z => storing objects x result.1.2) ({[s]} ∪ rest)).
  { intros what. apply wp_bind. by apply wp_give_up. }
  do 3 (apply wp_ask; [done|constructor; [set_solver|done]|]; intros ?; try (destruct (negb _); [apply Hgave|])).
  cbn. rewrite <- (insert_insert_eq objects x (from_handle s) kInvalidHandle).
  apply owns_acquire; [done| |done|done]. intros old. rewrite lookup_insert_eq. by intros [= <-].
Qed.

Lemma wp_operate op p mine : owns (pr_objects p) mine ->
  wp (operate_socket op p) (fun p' mine' => owns (pr_objects p') mine') mine.
Proof.
  intros Howns.
  assert (Hobject : forall x f, (forall this, pr_objects p !! x = Some this ->
            wp (f this) (fun p' mine' => owns (pr_objects p') mine') mine) ->
          wp (with_object x p f) (fun p' mine' => owns (pr_objects p') mine') mine).
  { intros x f Hf. unfold with_object. destruct (pr_objects p !! x) eqn:Hx; [by apply Hf|done]. }
  assert (Hvalid : forall x this, pr_objects p !! x = Some this -> valid this = true -> to_handle this ∈ mine)
    by (intros x this Hx Hv; by apply (handle_owned _ _ Howns x)).
  assert (Hfresh : forall x, pr_objects p !! x = None -> forall old, pr_objects p !! x = Some old -> valid old = false)
    by (intros x -> old; discriminate).
  destruct op; cbn [operate_socket]; try (apply Hobject; intros this Hx).
  - destruct (pr_objects p !! x) eqn:Hx; [done|]. by apply owns_clear, Hfresh.
  - destruct (pr_objects p !! x) eqn:Hx'; [done|]. apply owns_moved; [done| |by apply Hfresh|done].
    intros ->. congruence.
  - apply Hobject. intros other Hy. destruct (N.eqb_spec x y) as [|Hne]; [done|].
    destruct (handle_cases _ _ Howns x this Hx) as [Hin Hout]. apply wp_bind, wp_close; [done..|].
    cbn. rewrite <- (insert_insert_eq _ x other kInvalidHandle), (insert_insert_ne _ x y) by done.
    apply owns_moved; [by apply owns_release|done| |by rewrite lookup_insert_ne].
    intros old. rewrite lookup_insert_eq. by intros [= <-].
  - destruct (handle_cases _ _ Howns x this Hx) as [Hin Hout]. apply wp_bind. unfold TcpConnection.destroy.
    apply wp_close_handle; [done..|]. cbn. rewrite <- (delete_insert_eq _ x kInvalidHandle).
    apply owns_destroy; [by apply owns_release|]. intros old. rewrite lookup_insert_eq. by intros [= <-].
  - by apply wp_bind, wp_unchanged; [apply wp_send_all, (Hvalid x _ Hx)|].
  - by apply wp_bind, wp_unchanged; [apply wp_recv_some, (Hvalid x _ Hx)|].
  - by apply wp_bind, wp_unchanged; [apply wp_available, (Hvalid x _ Hx)|].
  - by apply wp_bind, wp_unchanged; [apply wp_peer, (Hvalid x _ Hx)|].
  - destruct (handle_cases _ _ Howns x this Hx) as [Hin Hout]. apply wp_bind. unfold TcpConnection.close.
    apply wp_close; [done..|]. by apply owns_release.
  - apply wp_bind. eapply wp_mono; [|by apply (wp_open_loopback (pr_objects p) mine _ _ _ x)].
    by intros [[status out] wsa].
  - by apply wp_bind, wp_unchanged; [apply wp_local_port, (Hvalid x _ Hx)|].
  - apply Hobject. intros out Hy. apply wp_bind. eapply wp_mono; [|by apply (wp_accept_into (pr_objects p) mine x _ y)].
    by intros [status out'].
  - apply wp_bind. eapply wp_mono; [|by apply (wp_connect (pr_objects p) mine _ _ x)]. by intros [[status out] wsa].
  - apply wp_bind, wp_unchanged; [|done]. apply wp_wait_readable. intros this [Hx|Hy]; eauto.
Qed.

Lemma wp_operate_all ops : forall p mine, owns (pr_objects p) mine ->
  wp (operate_sockets_all ops p) (fun p' mine' => owns (pr_objects p') mine') mine.
Proof.
  induction ops as [|op ops IH]; intros p mine Howns; [done|]. cbn [operate_sockets_all]. apply wp_bind.
  eapply wp_mono; [|by apply wp_operate]. intros p' mine'. apply IH.
Qed.

Lemma owns_nothing : owns ∅ ∅.
Proof. split; [|done..]. intros s. split; [set_solver|]. by intros (x & this & Hx & _). Qed.

Lemma held_owned p mine : owns (pr_objects p) mine -> held p = mine.
Proof.
  intros Howns. apply set_eq. intros s. unfold held. rewrite elem_of_list_to_set, (owns_held _ _ Howns), list_elem_of_fmap. split.
  - intros ([x this] & -> & Hin). apply list_elem_of_filter in Hin as [Hv Hx%elem_of_map_to_list]. eauto.
  - intros (x & this & Hx & Hv & <-). exists (x, this). split; [done|]. apply list_elem_of_filter. split; [done|].
    by apply elem_of_map_to_list.
Qed.
End Ownership.

(* ===================================================================== *)
(** ** Frames over sockets: what a run does *)

(** What the calls of [recv_some] in a run were told, in the terms of the
    decoder's script. *)
Definition recv_error `{Platform} (events : list {c & sys_answer c}) : Status :=
  if windows
  then match events with
       | existT WSAGetLastError code :: _ =>
           failure IoFailure ("recv failed with socket error " +:+ pretty (code : Z))%string
       | _ => success
       end
  else failure IoFailure "recv failed".

Fixpoint arrivals `{Platform} (events : list {c & sys_answer c}) : list Received :=
  match events with
  | [] => []
  | existT c answer :: events =>
      match c return sys_answer c -> list Received with
      | Recv _ _ => fun answer =>
          (if (answer.1 =? 0)%Z then Closed
           else if (answer.1 <? 0)%Z then Failed (recv_error events)
           else Data (take (Z.to_nat answer.1) answer.2)) :: arrivals events
      | _ => fun _ => arrivals events
      end answer
  end.

(** What the kernel accepted for sending. *)
Fixpoint accepted_bytes (events : list {c & sys_answer c}) : list byte :=
  match events with
  | [] => []
  | existT c answer :: events =>
      match c return sys_answer c -> list byte with
      | Send _ data => fun written => take (Z.to_nat written) data
      | _ => fun _ => []
      end answer ++ accepted_bytes events
  end.

Section FramesOverSockets.
Context `{Platform} {W : Type} `{!Kernel W}.

(** One call of [recv_some] is one answer of the script. *)
Lemma recv_run this capacity w : valid this = true ->
  exists answer status received,
    (perform sys (TcpConnection.recv_some this capacity) w).1 = (status, received) /\
    (forall later, arrivals (trace sys (TcpConnection.recv_some this capacity) w ++ later) = answer :: arrivals later) /\
    match answer with
    | Closed => status = success /\ received = []
    | Failed failed => status = failed /\ status_ok status = false
    | Data bytes => status = success /\ received = bytes /\ bytes <> []
    end.
Proof.
  intros Hv. unfold TcpConnection.recv_some. rewrite Hv. cbn [negb].
  pose proof (sys_bounded (Recv (to_handle this) (N.min capacity kChunk)) w) as Hb. cbn [is_bounded] in Hb.
  cbn [ask mbind Program_bind perform trace]. destruct (sys (Recv _ _) w) as [[read bytes] w'].
  cbn [fst snd] in Hb. destruct (Z.eqb_spec read 0) as [->|Hnz]; [by exists Closed, success, []|].
  destruct (Z.ltb_spec read 0) as [Hneg|Hpos].
  - unfold last_socket_error. destruct windows eqn:Hw.
    + cbn [ask mbind Program_bind perform trace]. destruct (sys WSAGetLastError w') as [code w''].
      eexists (Failed _), _, []. split; [reflexivity|]. split; [|done]. intros later. cbn [app arrivals fst snd].
      rewrite (proj2 (Z.eqb_neq read 0)), (proj2 (Z.ltb_lt read 0)) by lia. unfold recv_error. by rewrite Hw.
    + eexists (Failed _), _, []. split; [reflexivity|]. split; [|done]. intros later. cbn [app arrivals fst snd].
      rewrite (proj2 (Z.eqb_neq read 0)), (proj2 (Z.ltb_lt read 0)) by lia. unfold recv_error. by rewrite Hw.
  - destruct Hb as [Hlen _]; [lia|]. exists (Data (take (Z.to_nat read) bytes)), success, (take (Z.to_nat read) bytes).
    split; [done|]. split.
    + intros later. cbn [app arrivals fst snd trace]. by rewrite (proj2 (Z.eqb_neq read 0)), (proj2 (Z.ltb_ge read 0)) by lia.
    + split_and!; [done..|]. intros E. apply (f_equal length) in E. rewrite length_take in E. cbn in E. lia.
Qed.

Lemma receive_loop_run limits this : valid this = true -> forall fuel buffer w,
  lengthN buffer <= max_frame_bytes limits + kFrameHeaderSize ->
  max_frame_bytes limits + kFrameHeaderSize - lengthN buffer < N.of_nat fuel ->
  let run := Sockets.receive_loop fuel limits this buffer in
  exists result buffer', (perform sys run w).1 = (Some result, buffer') /\
    forall later, receive_frame limits buffer (arrivals (trace sys run w) ++ later) = (result, buffer', later).
Proof.
  intros Hv. induction fuel as [|fuel IH]; intros buffer w Hb Hfuel; [lia|]. cbv zeta.
  cbn [Sockets.receive_loop]. destruct (feed limits buffer []) as [[fed [|frame frames]] buffer0] eqn:Efed.
  2:{ eexists _, buffer0. split; [done|]. intros [|answer later]; cbn; rewrite Efed; by destruct (status_ok fed). }
  destruct (status_ok fed) eqn:Hfed; cbn [negb].
  2:{ eexists _, buffer0. split; [done|]. intros [|answer later]; cbn; by rewrite Efed, Hfed. }
  apply feed_incomplete in Efed as E0; [|done]. destruct E0 as [-> _]. rewrite app_nil_r in *.
  destruct (recv_run this 16384 w Hv) as (answer & status & received & Hrecv & Harr & Hanswer).
  rewrite perform_bind, trace_bind, Harr, Hrecv.
  set (w1 := (perform sys (TcpConnection.recv_some this 16384) w).2). clearbody w1. cbn [app receive_frame].
  rewrite Efed, Hfed. cbn [negb].
  destruct answer as [bytes| |failed]; [destruct Hanswer as (-> & -> & Hne)|destruct Hanswer as [-> ->]|destruct Hanswer as [-> Hs]].
  - change (negb (status_ok success)) with false. cbv iota.
    assert ((lengthN bytes =? 0) = false) as -> by (destruct bytes; [done|apply N.eqb_neq; unfold lengthN; cbn; lia]).
    destruct (feed limits buffer bytes) as [[append [|frame frames]] buffer1] eqn:Eappend.
    2:{ eexists _, buffer1. split; [done|]. intros later. by destruct (status_ok append). }
    destruct (status_ok append) eqn:Happend; cbn [negb]; [|by eexists _, buffer1].
    apply feed_incomplete in Eappend as [-> Hlen]; [|done]. apply IH; rewrite lengthN_app; [done|].
    destruct bytes; [done|]. unfold lengthN in *. cbn [length] in *. lia.
  - eexists _, buffer. by split.
  - rewrite Hs. eexists _, buffer. by split.
Qed.

(** A run of [send_all] on an open connection: the kernel accepted the bytes
    in order, from the first on, and all of them exactly on success. *)
Lemma send_loop_run socket : forall fuel data w, (length data <= fuel)%nat ->
  let run := TcpConnection.send_loop fuel socket data in
  exists rest, data = accepted_bytes (trace sys run w) ++ rest /\
    (status_ok (perform sys run w).1 = true <-> rest = []).
Proof.
  induction fuel as [|fuel IH]; intros data w Hfuel; cbv zeta.
  { destruct data; [|cbn in Hfuel; lia]. by exists []. }
  destruct data as [|b data]; [by exists []|]. set (all := b :: data) in *.
  change (TcpConnection.send_loop (S fuel) socket all) with
    (written ← ask (Send socket (take (N.to_nat (N.min (lengthN all) kChunk)) all));
     if (written <=? 0)%Z then last_socket_error "send"
     else TcpConnection.send_loop fuel socket (drop (Z.to_nat written) all)).
  pose proof (sys_bounded (Send socket (take (N.to_nat (N.min (lengthN all) kChunk)) all)) w) as Hb.
  cbn [is_bounded] in Hb. cbn [ask mbind Program_bind perform trace].
  destruct (sys (Send socket _) w) as [written w']. cbn [fst] in Hb. cbn [accepted_bytes].
  rewrite take_take. rewrite length_take in Hb. destruct (Z.leb_spec written 0) as [Hle|Hpos].
  - exists all. replace (Z.to_nat written) with 0%nat by lia. cbn [Nat.min take app].
    unfold last_socket_error. destruct windows; cbn; [destruct (sys WSAGetLastError w')|]; cbn; by split.
  - replace (_ `min` _)%nat with (Z.to_nat written) by lia.
    destruct (IH (drop (Z.to_nat written) all) w') as (rest & Hrest & Hok).
    { rewrite length_drop. unfold all in *. cbn [length] in *. lia. }
    exists rest. split; [|done]. by rewrite <- app_assoc, <- Hrest, take_drop.
Qed.

(** A connection as TCP promises it: [incoming] is what is still to arrive,
    and is delivered in order and in pieces. *)
Class Stream (this : N) := {
  incoming : W -> list byte;
  stream_recv capacity w : 0 < capacity -> incoming w <> [] ->
    let '((read, bytes), w') := sys (Recv (to_handle this) capacity) w in
    (0 < read)%Z /\ incoming w = bytes ++ incoming w'
}.

Lemma recv_stream this `{!Stream this} capacity w : valid this = true -> 0 < capacity -> incoming w <> [] ->
  exists bytes, (perform sys (TcpConnection.recv_some this capacity) w).1 = (success, bytes) /\
    bytes <> [] /\ incoming w = bytes ++ incoming (perform sys (TcpConnection.recv_some this capacity) w).2 /\
    forall later, arrivals (trace sys (TcpConnection.recv_some this capacity) w ++ later) = Data bytes :: arrivals later.
Proof.
  intros Hv Hc Hne. assert (0 < N.min capacity kChunk) as Hc' by (change kChunk with 1048576; lia).
  pose proof (stream_recv (N.min capacity kChunk) w Hc' Hne) as Hstream.
  pose proof (sys_bounded (Recv (to_handle this) (N.min capacity kChunk)) w) as Hb. cbn [is_bounded] in Hb.
  unfold TcpConnection.recv_some. rewrite Hv. cbn [negb ask mbind Program_bind perform trace].
  destruct (sys (Recv _ _) w) as [[read bytes] w1]. cbn [fst snd] in Hb. destruct Hstream as [Hpos Hin].
  destruct (Hb Hpos) as [Hlen _]. exists bytes.
  rewrite (proj2 (Z.eqb_neq read 0)), (proj2 (Z.ltb_ge read 0)) by lia.
  rewrite (take_ge bytes) by lia. split_and!; [done|by intros ->; cbn in Hlen; lia|done|].
  intros later. cbn [mret Program_ret trace app arrivals fst snd].
  by rewrite (proj2 (Z.eqb_neq read 0)), (proj2 (Z.ltb_ge read 0)), (take_ge bytes) by lia.
Qed.

Lemma receive_loop_stream limits this `{!Stream this} : valid this = true -> forall fuel buffer w,
  exists chunks tail rest,
    arrivals (trace sys (Sockets.receive_loop fuel limits this buffer) w) = map Data chunks ++ tail /\
    Forall (fun chunk => chunk <> []) chunks /\ concat chunks ++ rest = incoming w /\ (tail = [] \/ rest = []).
Proof.
  intros Hv. induction fuel as [|fuel IH]; intros buffer w; [by exists [], [], (incoming w); auto|].
  assert (Hnone : exists chunks tail rest, @nil Received = map Data chunks ++ tail /\
    Forall (fun chunk => chunk <> []) chunks /\ concat chunks ++ rest = incoming w /\ (tail = [] \/ rest = []))
    by (exists [], [], (incoming w); auto).
  cbn [Sockets.receive_loop]. destruct (feed limits buffer []) as [[fed [|frame frames]] buffer0]; [|done].
  destruct (negb (status_ok fed)); [done|]. clear Hnone.
  destruct (decide (incoming w = [])) as [E|Hne].
  { eexists [], _, []. rewrite E. split_and!; [done|done|done|by right]. }
  destruct (recv_stream this 16384 w Hv eq_refl Hne) as (bytes & Hrecv & Hbytes & Hin & Harr).
  rewrite trace_bind, Harr, Hrecv. set (w1 := (perform _ _ w).2) in *. clearbody w1.
  change (negb (status_ok success)) with false. cbv iota.
  assert ((lengthN bytes =? 0) = false) as -> by (destruct bytes; [done|apply N.eqb_neq; unfold lengthN; cbn; lia]).
  assert (Hlast : exists chunks tail rest, [Data bytes] = map Data chunks ++ tail /\
    Forall (fun chunk => chunk <> []) chunks /\ concat chunks ++ rest = incoming w /\ (tail = [] \/ rest = [])).
  { exists [bytes], [], (incoming w1). cbn [map concat app]. rewrite app_nil_r, Hin. split_and!; [done| |done|by left]. by constructor. }
  destruct (feed limits buffer0 bytes) as [[append [|frame frames]] buffer1]; [|exact Hlast].
  destruct (negb (status_ok append)); [exact Hlast|]. clear Hlast.
  destruct (IH buffer1 w1) as (chunks & tail & rest & -> & Hchunks & Hrest & Hend).
  exists (bytes :: chunks), tail, rest. cbn [map concat app]. rewrite <- app_assoc, Hrest, Hin.
  split_and!; [done|by constructor|done|done].
Qed.
End FramesOverSockets.

(* ===================================================================== *)
(** ** A kernel for the examples

    It has sockets to give as long as one of a hundred is unused, takes seven
    bytes at most, and delivers what is incoming in pieces of five. *)

Record Machine := mk_Machine { mc_open : gset Z; mc_incoming : list byte }.

Section Example.
Context `{Platform}.

Definition unused (m : Machine) : Z :=
  match filter (fun s => s ∉ mc_open m) (map Z.of_nat (seq 3 100)) with s :: _ => s | [] => kInvalidSocket end.

Definition give_socket (m : Machine) : Z * Machine :=
  let s := unused m in
  (s, if (s =? kInvalidSocket)%Z then m else mk_Machine ({[s]} ∪ mc_open m) (mc_incoming m)).

Definition machine_call (c : SysCall) (m : Machine) : sys_answer c * Machine :=
  match c return sys_answer c * Machine with
  | Socket | Accept _ => give_socket m
  | CloseSocket s => (0%Z, mk_Machine (mc_open m ∖ {[s]}) (mc_incoming m))
  | Send _ data => (Z.of_nat (length data `min` 7), m)
  | Recv _ capacity =>
      let piece := take (N.to_nat (N.min capacity 5)) (mc_incoming m) in
      ((Z.of_nat (length piece), piece), mk_Machine (mc_open m) (drop (N.to_nat (N.min capacity 5)) (mc_incoming m)))
  | Fionread _ => ((0%Z, 0%Z), m)
  | GetSockName _ => ((0%Z, htons 8080), m)
  | GetPeerName _ => ((0%Z, ([127; 0; 0; 1], htons 50000)), m)
  | InetNtop _ => (Some "127.0.0.1"%string, m)
  | Select _ sockets => ((Z.of_nat (length sockets), sockets), m)
  | _ => (0%Z, m)
  end.

Lemma unused_fresh m : unused m = kInvalidSocket \/ is_socket (unused m) = true /\ unused m ∉ mc_open m.
Proof.
  unfold unused. destruct (filter _ _) as [|s l] eqn:E; [by left|right].
  assert (Hs : s ∈ filter (fun s => s ∉ mc_open m) (map Z.of_nat (seq 3 100))) by (rewrite E; constructor).
  apply list_elem_of_filter in Hs as [Hn Hs]. split; [|done].
  apply list_elem_of_fmap in Hs as (n & -> & Hn'%elem_of_seq). unfold is_socket. destruct windows; lia.
Qed.

#[global] Instance machine_kernel : Kernel Machine.
Proof.
  refine {| sys := machine_call; opened := mc_open |}.
  - intros [] m; try done; cbn; unfold give_socket; by destruct (_ =? _)%Z.
  - intros [] m; try done; cbn; apply unused_fresh.
  - intros [] m; cbn; try done; [lia| |by apply Forall_forall].
    intros _. rewrite length_take. lia.
Defined.

#[global] Instance machine_stream this : Stream (W := Machine) this.
Proof.
  refine {| incoming := mc_incoming |}. intros capacity m Hc Hne. cbn. split.
  - destruct (mc_incoming m); [done|]. rewrite length_take. cbn [length]. lia.
  - symmetry. apply take_drop.
Defined.
End Example.

(* ===================================================================== *)
(** ** Properties *)

(** C21: the objects of the transport own the sockets of the process. Whatever
    the kernel answers, every system call of any sequence of operations names
    only sockets that were opened by these operations and not closed since,
    so that no socket is used after it was closed and none is closed twice;
    at any time the sockets opened and not closed are exactly those the
    objects hold, each held by one object, so that none is lost; and the
    sockets of the rest of the process are left alone. *)
Theorem sockets_owned `{Platform} {W} `{!Kernel W} ops (w : W) :
  let run := operate_sockets_all ops new_process in
  let p := (perform sys run w).1 in
  let w' := (perform sys run w).2 in
  replay ∅ (trace sys run w) = Some (held p) /\
  held p ⊆ opened w' /\ opened w' ∖ held p = opened w /\
  forall x y this, pr_objects p !! x = Some this -> pr_objects p !! y = Some this -> valid this = true -> x = y.
Proof.
  cbv zeta. pose proof (wp_operate_all ops new_process ∅ owns_nothing) as Hwp.
  destruct (wp_run _ _ _ w Hwp ltac:(set_solver)) as (mine & Hr & Howns & Hin & Hd).
  rewrite (held_owned _ _ Howns), Hd. split_and!; [done..|set_solver|]. apply (owns_once _ _ Howns).
Qed.

(** A listener, the connection it accepted and a client; the client's
    connection is moved, and all is closed but that. *)
Definition example_operations : list SocketOperation :=
  [Construct 1; OpenLoopback 1 8080 64; Construct 2; AcceptInto 1 2; Construct 3; ConnectLoopback 8080 3;
   SendAll 3 (list_ascii_of_string "a few bytes"); WaitReadable 2 3; MoveAssign 2 3; Destroy 3; Close 1].

Definition example_machine (bytes : list byte) : Machine := mk_Machine {[0; 1; 2; 3]}%Z bytes.

Lemma sockets_owned_witness :
  let run := @operate_sockets_all on_posix example_operations new_process in
  let w := example_machine [] in
  @replay on_posix ∅ (trace (@sys Machine on_posix _) run w) = Some {[6%Z]} /\
  mc_open (perform (@sys Machine on_posix _) run w).2 = {[0; 1; 2; 3; 6]}%Z.
Proof.
  cbv zeta. split; [|vm_compute; reflexivity].
  destruct (@sockets_owned on_posix Machine _ example_operations (example_machine [])) as [Hr _].
  rewrite Hr. vm_compute. reflexivity.
Defined.

(** C22: the script by which the rest of the library describes arrivals is what
    the sockets do. On an open connection [receive_frame] over system calls
    returns, however many calls it takes and whatever they answer, with the
    result and the buffer of the decoder run on what its [recv] calls were
    told, and it makes no call beyond the one that decided the result. *)
Theorem receive_frame_over_sockets `{Platform} {W} `{!Kernel W} limits this buffer (w : W)
    (Hopen : valid this = true) (Hbuffer : lengthN buffer <= max_frame_bytes limits + kFrameHeaderSize) :
  let run := Sockets.receive_frame limits this buffer in
  exists result buffer', (perform sys run w).1 = (Some result, buffer') /\
    forall later, receive_frame limits buffer (arrivals (trace sys run w) ++ later) = (result, buffer', later).
Proof. apply receive_loop_run; [done|done|]. lia. Qed.

Lemma receive_frame_over_sockets_witness :
  let m := example_machine (frame_bytes (bare_frame 1) ++ frame_bytes (bare_frame 2)) in
  let run := @Sockets.receive_frame on_windows narrow_limits 4 [] in
  exists result buffer', (perform (@sys Machine on_windows _) run m).1 = (Some result, buffer') /\
    (forall later, receive_frame narrow_limits [] (@arrivals on_windows (trace (@sys Machine on_windows _) run m) ++ later) =
                   (result, buffer', later)) /\
    result = inr (bare_frame 1).
Proof.
  cbv zeta.
  destruct (@receive_frame_over_sockets on_windows Machine _ narrow_limits 4 []
    (example_machine (frame_bytes (bare_frame 1) ++ frame_bytes (bare_frame 2))) eq_refl ltac:(vm_compute; discriminate))
    as (result & buffer' & Hrun & Hscript).
  exists result, buffer'. split_and!; [exact Hrun|exact Hscript|].
  apply (f_equal fst) in Hrun. vm_compute in Hrun. by injection Hrun as <-.
Defined.

(** C23: a frame crosses the sockets. When [send_frame] succeeds on one
    connection and the peer's connection is going to deliver, in pieces of any
    size, exactly the bytes the sender's kernel accepted, [receive_frame] there
    returns this frame and keeps nothing. *)
Theorem frame_crosses_sockets `{Platform} {W1 W2} `{!Kernel W1} `{!Kernel W2} limits f this peer `{!Stream (W := W2) peer}
    (w1 : W1) (w2 : W2)
    (Hlimits : max_frame_bytes limits < 2 ^ 32) (Hfits : frame_fits limits f = true)
    (Hopen : valid this = true) (Hpeer : valid peer = true)
    (Hsent : status_ok (perform sys (Sockets.send_frame f limits this) w1).1 = true)
    (Harrives : incoming w2 = accepted_bytes (trace sys (Sockets.send_frame f limits this) w1)) :
  (perform sys (Sockets.receive_frame limits peer []) w2).1 = (Some (inr f), []).
Proof.
  unfold Sockets.send_frame in *. rewrite encode_frame_accepts in * by done. cbn [negb] in *.
  change (negb (status_ok success)) with false in *. cbv iota in *.
  unfold TcpConnection.send_all in *. rewrite Hopen in *. cbn [negb] in *.
  destruct (send_loop_run (to_handle this) _ (frame_bytes f) w1 (Nat.le_refl _)) as (unsent & Hbytes & Hok).
  apply Hok in Hsent as ->. rewrite app_nil_r in Hbytes. rewrite <- Hbytes in Harrives.
  unfold Sockets.receive_frame. set (fuel := N.to_nat (max_frame_bytes limits + kFrameHeaderSize + 2)).
  destruct (receive_loop_run limits peer Hpeer fuel [] w2) as (result & buffer' & -> & Hscript); [unfold lengthN; cbn [length]; lia|unfold fuel, lengthN; cbn [length]; lia|].
  destruct (receive_loop_stream limits peer Hpeer fuel [] w2) as (chunks & tail & rest & Harr & Hchunks & Hrest & Hend).
  rewrite Harr in Hscript. rewrite Harrives in Hrest.
  assert (Hall : exists more later, map Data (chunks ++ more) ++ later = map Data chunks ++ tail ++ map Data more /\
    Forall (fun chunk => chunk <> []) (chunks ++ more) /\ concat (chunks ++ more) = frame_bytes f /\
    (more = [] \/ later = [])).
  { rewrite <- Hrest. destruct (decide (rest = [])) as [->|Hne].
    - exists [], tail. rewrite !app_nil_r. auto.
    - destruct Hend as [->|]; [|done]. exists [rest], []. rewrite map_app, concat_app. cbn. rewrite !app_nil_r.
      split_and!; [done|apply Forall_app; auto|done|by right]. }
  destruct Hall as (more & later & Hscripts & Hne & Hconcat & Hcase).
  pose proof (receive_frame_chunks limits Hlimits f (chunks ++ more) later Hfits Hconcat Hne) as Hdone.
  specialize (Hscript (map Data more)). rewrite <- app_assoc, <- Hscripts, Hdone in Hscript. congruence.
Qed.

Lemma frame_crosses_sockets_witness :
  let run := @Sockets.send_frame on_posix full_frame narrow_limits 4 in
  let sender := example_machine [] in
  let receiver := example_machine (accepted_bytes (trace (@sys Machine on_posix _) run sender)) in
  (perform (@sys Machine on_posix _) (@Sockets.receive_frame on_posix narrow_limits 5 []) receiver).1 =
    (Some (inr full_frame), []).
Proof.
  cbv zeta.
  apply (@frame_crosses_sockets on_posix Machine Machine _ _ narrow_limits full_frame 4 5 _ (example_machine []));
    [reflexivity|vm_compute; reflexivity|reflexivity|reflexivity|vm_compute; reflexivity|reflexivity].
Defined.

(* ===================================================================== *)
(** ** Waiting on every session *)

(** Within the size of an [fd_set] nothing is dropped: every handle is
    watched. *)
Theorem every_handle_watched `{Platform} handles
    (Hsmall : windows = true -> lengthN handles <= FD_SETSIZE)
    (Hlow : windows = false -> Forall (fun raw => (0 <= to_handle raw < Z.of_N FD_SETSIZE)%Z) handles) :
  exists set maximum, watch handles [] 0%Z = Some (set, maximum) /\
    Forall (fun raw => to_handle raw ∈ set /\ (to_handle raw <= maximum)%Z) handles.
Proof.
  cut (forall set maximum, (windows = true -> lengthN set + lengthN handles <= FD_SETSIZE) ->
    exists set' maximum', watch handles set maximum = Some (set', maximum') /\
      (maximum <= maximum')%Z /\ (forall s, s ∈ set -> s ∈ set') /\
      Forall (fun raw => to_handle raw ∈ set' /\ (to_handle raw <= maximum')%Z) handles).
  { intros Hcut. destruct (Hcut [] 0%Z) as (set & maximum & -> & _ & _ & Hall); [done|eauto]. }
  clear Hsmall. induction handles as [|raw handles IH]; intros set maximum Hsize; [by exists set, maximum|].
  assert (exists added, FD_SET (to_handle raw) set = Some added /\ to_handle raw ∈ added /\
    (forall s, s ∈ set -> s ∈ added) /\ lengthN added <= lengthN set + 1) as (added & Hadd & Hin & Hsub & Hlen).
  { assert (Hnew : exists added, Some (if contains set (to_handle raw) then set else set ++ [to_handle raw]) = Some added /\
      to_handle raw ∈ added /\ (forall s, s ∈ set -> s ∈ added) /\ lengthN added <= lengthN set + 1).
    { eexists. split; [done|]. destruct (contains set (to_handle raw)) eqn:E; [apply contains_spec in E; split_and!; [done|done|lia]|].
      split_and!; [set_solver|set_solver|]. rewrite lengthN_app. unfold lengthN. cbn. lia. }
    unfold FD_SET. destruct windows.
    - specialize (Hsize eq_refl). rewrite lengthN_cons in Hsize. by rewrite (proj2 (N.ltb_lt (lengthN set) FD_SETSIZE)) by lia.
    - specialize (Hlow eq_refl). apply Forall_cons in Hlow as [Hr _].
      by assert (((0 <=? to_handle raw) && (to_handle raw <? Z.of_N FD_SETSIZE))%Z = true) as -> by lia. }
  cbn [watch]. rewrite Hadd.
  destruct (IH ltac:(intros Hw; specialize (Hlow Hw); by apply Forall_cons in Hlow as [_ Hlow]) added (Z.max (to_handle raw) maximum))
    as (set' & maximum' & -> & Hmax & Hsub' & Hall).
  { intros Hw. specialize (Hsize Hw). rewrite lengthN_cons in Hsize. lia. }
  exists set', maximum'. split_and!; [done|lia|auto|]. constructor; [|done]. split; [auto|lia].
Qed.

Lemma select_run `{Platform} {W} `{!Kernel W} watched (w : W) set :
  (perform sys (select watched) w).1 = inr set -> Forall (fun s => s ∈ watched.1) set.
Proof.
  unfold select. rewrite perform_bind. cbn [ask perform].
  pose proof (sys_bounded (Select (int_cast watched.2 + 1) watched.1) w) as Hb. cbn [is_bounded] in Hb.
  destruct (sys (Select _ _) w) as [[ready answered] w']. cbn [fst snd] in *. destruct (ready <? 0)%Z.
  - by rewrite perform_bind.
  - destruct (ready =? 0)%Z; [done|]. by intros [= <-].
Qed.

(** On Windows the set of [select] holds 64 sockets, and the coordinator
    asks for the listener and as many sessions as the limits allow by default:
    the one with the greatest handle is never found ready, whatever arrives
    for it. *)
Theorem last_session_not_watched {W} (kernel : @Kernel W on_windows) (w : W) :
  let sessions := map N.of_nat (seq 101 64) in
  lengthN sessions = max_connections default_limits /\
  match (perform (@sys W on_windows kernel) (@wait_all_readable on_windows 100 sessions) w).1 with
  | Some (_, _, ready) => last ready = Some false
  | None => False
  end.
Proof.
  cbv zeta. split; [done|]. unfold wait_all_readable.
  assert (@watch on_windows ([100] ++ map N.of_nat (seq 101 64)) [] 0%Z = Some (map Z.of_nat (seq 100 64), 164%Z)) as Hw
    by (vm_compute; reflexivity).
  change (if negb (100 =? 0) then [100] else []) with [100]. rewrite Hw. clear Hw.
  change ((lengthN (map N.of_nat (seq 101 64)) =? 0) && negb (negb (100 =? 0))) with false. cbv iota.
  rewrite perform_bind. pose proof (@select_run on_windows W kernel (map Z.of_nat (seq 100 64), 164%Z) w) as Hset.
  destruct (perform _ (select _) w) as [[status|set] w']; cbn [fst snd perform mret Program_ret] in *; [by vm_compute|].
  specialize (Hset set eq_refl). rewrite last_lookup, !length_map, length_seq. cbn [Nat.pred].
  rewrite !list_lookup_fmap, lookup_seq_lt by lia. cbn [fmap option_map option_fmap]. f_equal.
  unfold FD_ISSET. apply not_true_iff_false. intros Hc%contains_spec. rewrite Forall_forall in Hset. apply Hset in Hc. revert Hc.
  apply (bool_decide_unpack _). vm_compute. done.
Qed.
