(* ===== verification/Queries.v ===== *)
(** * Queries, listings and comparison

    Models [query.hpp], the comparison types of [resolution.hpp], the
    [SubjectSnapshot] of [snapshot.hpp], and the methods of
    [CapabilityRegistry] that read the state: they hold the mutex from their
    first to their last access, and none of them changes anything. A method
    that returns a [Status] and fills [out] becomes a function into
    [Status + A]; on failure the code leaves [out] empty or untouched. *)

From S2P Require Import Prelude Tokens Versions Support Conditions Values Hardware Quirks Compat Publication.
From S2P Require Import RegistryState Fixtures Resolution Publishers Devices Knowledge Evidence Ingest Runs.

(* ===================================================================== *)
(** ** The query structs *)

Record CapabilityQuery := mk_CapabilityQuery {
  cq_device : DeviceId;
  cq_device_generation : DeviceGeneration;
  cq_capability : CapabilityId;
  cq_environment : EnvironmentContext;
  cq_include_evidence : bool
}.

Record DeviceCapabilityQuery := mk_DeviceCapabilityQuery {
  dq_device : DeviceId;
  dq_device_generation : DeviceGeneration;
  dq_environment : EnvironmentContext;
  dq_capability_prefix : string;
  dq_domain : option CapabilityDomain;
  dq_declared_filter : option SupportState;
  dq_effective_filter : option EffectiveSupport;
  dq_truth_filter : option TruthClass;
  dq_only_conditional : bool;
  dq_only_unknown : bool;
  dq_only_unsupported : bool;
  dq_only_stale : bool;
  dq_only_current : bool;
  dq_max_results : N
}.

#[global] Instance eta_DeviceCapabilityQuery : Eta DeviceCapabilityQuery := fun r =>
  mk_DeviceCapabilityQuery
    (dq_device r) (dq_device_generation r) (dq_environment r) (dq_capability_prefix r) (dq_domain r)
    (dq_declared_filter r) (dq_effective_filter r) (dq_truth_filter r) (dq_only_conditional r)
    (dq_only_unknown r) (dq_only_unsupported r) (dq_only_stale r) (dq_only_current r) (dq_max_results r).

Record FleetCapabilityQuery := mk_FleetCapabilityQuery {
  fq_capability : CapabilityId;
  fq_environment : EnvironmentContext;
  fq_effective_filter : option EffectiveSupport;
  fq_truth_filter : option TruthClass;
  fq_hardware_class : option HardwareClass;
  fq_only_current : bool;
  fq_max_results : N
}.

Record StaleCapabilityQuery := mk_StaleCapabilityQuery {
  sq_device : DeviceId;
  sq_device_generation : DeviceGeneration;
  sq_environment : EnvironmentContext;
  sq_max_results : N
}.

Record QuirkQuery := mk_QuirkQuery {
  qq_device : option DeviceId;
  qq_environment : EnvironmentContext;
  qq_capability : option CapabilityId;
  qq_only_applicable : bool;
  qq_max_results : N
}.

Record CompatibilityQuery := mk_CompatibilityQuery {
  fcq_reference : option HardwareReference;
  fcq_kind : option CompatibilitySubjectKind;
  fcq_include_withdrawn : bool;
  fcq_max_results : N
}.

Record ComparisonRequest := mk_ComparisonRequest {
  cmp_left : DeviceId;
  cmp_right : DeviceId;
  cmp_left_generation : DeviceGeneration;
  cmp_right_generation : DeviceGeneration;
  cmp_environment : EnvironmentContext
}.

Record PublisherQuery := mk_PublisherQuery {
  pq_state : option PublisherState;
  pq_max_results : N
}.

(** [DeviceCapabilityQuery{}] for a device. *)
Definition default_device_query (device : DeviceId) : DeviceCapabilityQuery :=
  mk_DeviceCapabilityQuery device Gen_none ∅ EmptyString None None None None false false false false true 0.

(* ===================================================================== *)
(** ** Subjects *)

Record SubjectSnapshot := mk_SubjectSnapshot {
  sj_identity : DeviceIdentity;
  sj_software : DeviceSoftwareState;
  sj_generation : DeviceGeneration;
  sj_boot : DeviceBootId;
  sj_platform_generation : PlatformGeneration;
  sj_classification : TruthClass;
  sj_capability_count : N;
  sj_current_count : N;
  sj_unknown_count : N;
  sj_unsupported_count : N;
  sj_stale_count : N;
  sj_applicable_quirk_count : N
}.

#[global] Instance eta_SubjectSnapshot : Eta SubjectSnapshot := fun r =>
  mk_SubjectSnapshot
    (sj_identity r) (sj_software r) (sj_generation r) (sj_boot r) (sj_platform_generation r)
    (sj_classification r) (sj_capability_count r) (sj_current_count r) (sj_unknown_count r)
    (sj_unsupported_count r) (sj_stale_count r) (sj_applicable_quirk_count r).

(** [resolved.current && !is_stale(resolved.staleness)]. *)
Definition is_fresh (r : ResolvedCapability) : bool := rc_current r && negb (is_stale (rc_staleness r)).

Definition counts_unknown (r : ResolvedCapability) : bool :=
  (rc_effective_support r ==? EffectiveSupport.Unknown) || (rc_declared_support r ==? SupportState.Unknown).
Definition counts_unsupported (r : ResolvedCapability) : bool :=
  (rc_effective_support r ==? EffectiveSupport.Unsupported) || (rc_declared_support r ==? SupportState.Unsupported).
Definition quirk_applies (a : QuirkApplication) : bool := qp_result a ==? QuirkApplicabilityResult.Applies.

(** [++counter] when the condition holds. *)
Definition count_if (condition : bool) (n : N) : N := if condition then u64_succ n else n.

(** The locals [real], [synthetic] and [unsupported] of
    [build_subject_locked], with the subject under construction. *)
Record Tally := mk_Tally { ty_subject : SubjectSnapshot; ty_real : N; ty_synthetic : N; ty_unsupported : N }.

Definition tally_capability (t : Tally) (r : ResolvedCapability) : Tally :=
  mk_Tally
    (ty_subject t
       <| sj_capability_count ::= u64_succ |>
       <| sj_current_count ::= count_if (is_fresh r) |>
       <| sj_stale_count ::= count_if (negb (is_fresh r)) |>
       <| sj_unknown_count ::= count_if (counts_unknown r) |>
       <| sj_unsupported_count ::= count_if (counts_unsupported r) |>
       <| sj_applicable_quirk_count ::= fun n => foldl (fun n a => count_if (quirk_applies a) n) n (rc_quirks r) |>)
    (count_if (rc_truth r ==? TruthClass.Real) (ty_real t))
    (count_if (rc_truth r ==? TruthClass.Synthetic) (ty_synthetic t))
    (count_if (rc_truth r ==? TruthClass.Unsupported) (ty_unsupported t)).

Definition classify_subject (t : Tally) : TruthClass :=
  if sj_capability_count (ty_subject t) =? 0 then TruthClass.Unknown
  else if negb (ty_real t =? 0) then TruthClass.Real
  else if negb (ty_synthetic t =? 0) then TruthClass.Synthetic
  else if negb (ty_unsupported t =? 0) then TruthClass.Unsupported
  else TruthClass.Unknown.

Definition subject_of (device : DeviceState) : SubjectSnapshot :=
  mk_SubjectSnapshot (ds_identity device) (ds_software device) (ds_generation device) (ds_boot device)
    (ds_platform_generation device) TruthClass.Unknown 0 0 0 0 0 0.

Definition build_subject_locked (st : Registry) (device : DeviceState) (environment : EnvironmentContext) :
    SubjectSnapshot :=
  match r_device_keys st !! di_id (ds_identity device) with
  | None => subject_of device
  | Some owned =>
      let t := foldl (fun t capability => tally_capability t (resolve_locked st device capability Gen_none environment))
                 (mk_Tally (subject_of device) 0 0 0) (set_entries owned) in
      ty_subject t <| sj_classification := classify_subject t |>
  end.

Definition not_registered (what token : string) : Status :=
  failure NotFound (what +:+ " " +:+ token +:+ " is not registered")%string.

Definition find_device (device : DeviceId) (st : Registry) : Status + SubjectSnapshot :=
  match find_device_locked st device with
  | None => inl (not_registered "device" (id_str device))
  | Some state => inr (build_subject_locked st state ∅)
  end.

Definition has_device (device : DeviceId) (st : Registry) : bool := bool_decide (is_Some (r_devices st !! device)).

Definition find_platform (platform : PlatformId) (st : Registry) : Status + PlatformIdentity :=
  match r_platforms st !! platform with
  | None => inl (not_registered "platform" (id_str platform))
  | Some identity => inr identity
  end.

Definition list_devices (st : Registry) : list SubjectSnapshot :=
  map (fun entry : DeviceId * DeviceState => build_subject_locked st entry.2 ∅) (map_entries (r_devices st)).

(* ===================================================================== *)
(** ** Capability queries *)

Definition query_capability (query : CapabilityQuery) (st : Registry) : Status + ResolvedCapability :=
  if negb (id_valid (cq_device query)) || negb (id_valid (cq_capability query))
  then inl (failure InvalidArgument "capability query requires a device and a capability")
  else match find_device_locked st (cq_device query) with
  | None => inl (not_registered "device" (id_str (cq_device query)))
  | Some device =>
      let resolved :=
        resolve_locked st device (cq_capability query) (cq_device_generation query) (cq_environment query) in
      inr (if negb (cq_include_evidence query) then resolved <| rc_evidence := [] |> else resolved)
  end.

Definition explain_capability (query : CapabilityQuery) (st : Registry) : Status + string :=
  match query_capability query st with
  | inl status => inl status
  | inr resolved => inr (rc_explanation resolved)
  end.

(** The filters of [query_capabilities] on a resolved answer. *)
Definition device_query_accepts (query : DeviceCapabilityQuery) (r : ResolvedCapability) : bool :=
  if dq_only_current query && negb (rc_current r) then false
  else if dq_only_stale query && negb (is_stale (rc_staleness r)) then false
  else if dq_only_conditional query && negb (bool_decide (is_Some (rc_conditions r))) then false
  else if dq_only_unknown query && (rc_effective_support r !=? EffectiveSupport.Unknown) &&
          (rc_declared_support r !=? SupportState.Unknown) then false
  else if dq_only_unsupported query && (rc_effective_support r !=? EffectiveSupport.Unsupported) &&
          (rc_declared_support r !=? SupportState.Unsupported) then false
  else passes (dq_declared_filter query) (rc_declared_support r) &&
       passes (dq_effective_filter query) (rc_effective_support r) &&
       passes (dq_truth_filter query) (rc_truth r).

(** The filters on the capability and its schema. *)
Definition device_query_selects (query : DeviceCapabilityQuery) (st : Registry) (capability : CapabilityId) : bool :=
  if negb (is_empty (dq_capability_prefix query)) && negb (String.prefix (dq_capability_prefix query) (id_str capability))
  then false
  else match r_keys st !! (dq_device query, capability) with
  | None => false
  | Some key =>
      match dq_domain query with
      | None => true
      | Some domain =>
          match find_schema_locked st (ks_schema key) with
          | None => false
          | Some schema => cs_domain schema ==? domain
          end
      end
  end.

(** One iteration of the loop over the capabilities of the device. *)
Definition device_query_step (query : DeviceCapabilityQuery) (st : Registry) (device : DeviceState)
    (capability : CapabilityId) : option ResolvedCapability :=
  if negb (device_query_selects query st capability) then None
  else
    let resolved := resolve_locked st device capability (dq_device_generation query) (dq_environment query) in
    if negb (device_query_accepts query resolved) then None else Some resolved.

Definition query_capabilities (query : DeviceCapabilityQuery) (st : Registry) : Status + list ResolvedCapability :=
  if negb (id_valid (dq_device query))
  then inl (failure InvalidArgument "device capability query requires a device")
  else match find_device_locked st (dq_device query) with
  | None => inl (not_registered "device" (id_str (dq_device query)))
  | Some device =>
      match r_device_keys st !! dq_device query with
      | None => inr []
      | Some owned =>
          inr (collect_until (result_limit (r_limits st) (dq_max_results query)) (device_query_step query st device)
                 (set_entries owned) [])
      end
  end.

Definition fleet_query_step (query : FleetCapabilityQuery) (st : Registry) (entry : DeviceId * DeviceState) :
    option ResolvedCapability :=
  if negb (passes (fq_hardware_class query) (hi_class (di_hardware (ds_identity entry.2)))) then None
  else match r_keys st !! (entry.1, fq_capability query) with
  | None => None
  | Some _ =>
      let resolved := resolve_locked st entry.2 (fq_capability query) Gen_none (fq_environment query) in
      if fq_only_current query && negb (rc_current resolved) then None
      else if negb (passes (fq_effective_filter query) (rc_effective_support resolved)) then None
      else if negb (passes (fq_truth_filter query) (rc_truth resolved)) then None
      else Some resolved
  end.

Definition query_fleet (query : FleetCapabilityQuery) (st : Registry) : Status + list ResolvedCapability :=
  if negb (id_valid (fq_capability query)) then inl (failure InvalidArgument "fleet query requires a capability")
  else inr (collect_until (result_limit (r_limits st) (fq_max_results query)) (fleet_query_step query st)
              (map_entries (r_devices st)) []).

Definition stale_query_step (query : StaleCapabilityQuery) (st : Registry) (device : DeviceState)
    (capability : CapabilityId) : option ResolvedCapability :=
  let resolved := resolve_locked st device capability (sq_device_generation query) (sq_environment query) in
  if is_fresh resolved then None else Some resolved.

Definition query_stale (query : StaleCapabilityQuery) (st : Registry) : Status + list ResolvedCapability :=
  if negb (id_valid (sq_device query)) then inl (failure InvalidArgument "stale query requires a device")
  else match find_device_locked st (sq_device query) with
  | None => inl (not_registered "device" (id_str (sq_device query)))
  | Some device =>
      match r_device_keys st !! sq_device query with
      | None => inr []
      | Some owned =>
          inr (collect_until (result_limit (r_limits st) (sq_max_results query)) (stale_query_step query st device)
                 (set_entries owned) [])
      end
  end.

(* ===================================================================== *)
(** ** Quirks and compatibility facts *)

(** The application reported when no device is supplied. *)
Definition unevaluated_quirk (quirk : QuirkRecord) : QuirkApplication :=
  mk_QuirkApplication (qr_id quirk) (qr_generation quirk) (qr_severity quirk) (qr_mitigation quirk)
    QuirkApplicabilityResult.Unknown "no device supplied for applicability evaluation" (qr_title quirk).

Definition quirk_query_step (query : QuirkQuery) (device : option DeviceState) (entry : QuirkId * QuirkRecord) :
    option QuirkApplication :=
  let quirk := entry.2 in
  if qr_withdrawn quirk then None
  else if match qq_capability query with
          | None => false
          | Some capability => negb (contains (qr_impacted_capabilities quirk) capability)
          end then None
  else match device with
  | None => if qq_only_applicable query then None else Some (unevaluated_quirk quirk)
  | Some device =>
      let application := evaluate_quirk quirk (ds_identity device) (ds_software device) (qq_environment query) in
      if qq_only_applicable query && (qp_result application !=? QuirkApplicabilityResult.Applies) then None
      else Some application
  end.

Definition query_quirks (query : QuirkQuery) (st : Registry) : Status + list QuirkApplication :=
  let collect device :=
    collect_until (result_limit (r_limits st) (qq_max_results query)) (quirk_query_step query device)
      (map_entries (r_quirks st)) [] in
  match qq_device query with
  | None => inr (collect None)
  | Some id =>
      match find_device_locked st id with
      | None => inl (not_registered "device" (id_str id))
      | Some device => inr (collect (Some device))
      end
  end.

Definition list_quirks (st : Registry) : list QuirkRecord := map snd (map_entries (r_quirks st)).

Definition names_reference (reference side : HardwareReference) : bool :=
  (ref_kind side ==? ref_kind reference) && (ref_token side ==? ref_token reference).

Definition compatibility_query_step (query : CompatibilityQuery) (entry : CompatibilityFactId * CompatibilityFact) :
    option CompatibilityFact :=
  let fact := entry.2 in
  if negb (fcq_include_withdrawn query) && cf_withdrawn fact then None
  else if negb (passes (fcq_kind query) (cf_kind fact)) then None
  else match fcq_reference query with
  | None => Some fact
  | Some reference =>
      if names_reference reference (cf_lhs fact) || names_reference reference (cf_rhs fact) then Some fact else None
  end.

Definition query_compatibility (query : CompatibilityQuery) (st : Registry) : list CompatibilityFact :=
  collect_until (result_limit (r_limits st) (fcq_max_results query)) (compatibility_query_step query)
    (map_entries (r_compatibility st)) [].

(* ===================================================================== *)
(** ** Comparison of two devices *)

Module CapabilityDifferenceKind.
Inductive CapabilityDifferenceKind :=
  | Equivalent | OnlyInLeft | OnlyInRight | SupportStateDiffers | EffectiveSupportDiffers | ValueDiffers
  | ConditionsDiffer | PrecisionDiffers | StalenessDiffers | TruthClassDiffers | ContradictionDiffers
  | DriverDependentDifference | FirmwareDependentDifference | RuntimeDependentDifference
  | ArchitectureMismatch | ShapeDiffers.

#[global] Instance CapabilityDifferenceKind_eq_dec : EqDecision CapabilityDifferenceKind.
Proof. solve_decision. Defined.

#[global] Program Instance CapabilityDifferenceKind_enum : CppEnum CapabilityDifferenceKind := {|
  enum_values := [Equivalent; OnlyInLeft; OnlyInRight; SupportStateDiffers; EffectiveSupportDiffers; ValueDiffers;
    ConditionsDiffer; PrecisionDiffers; StalenessDiffers; TruthClassDiffers; ContradictionDiffers;
    DriverDependentDifference; FirmwareDependentDifference; RuntimeDependentDifference;
    ArchitectureMismatch; ShapeDiffers]
|}.
Solve Obligations with solve_enum.
End CapabilityDifferenceKind.
Abbreviation CapabilityDifferenceKind := CapabilityDifferenceKind.CapabilityDifferenceKind.

Record CapabilityDifference := mk_CapabilityDifference {
  cd_capability : CapabilityId;
  cd_kind : CapabilityDifferenceKind;
  cd_left_effective : EffectiveSupport;
  cd_right_effective : EffectiveSupport;
  cd_detail : string
}.

Record DeviceComparison := mk_DeviceComparison {
  dc_left : DeviceId;
  dc_right : DeviceId;
  dc_left_generation : DeviceGeneration;
  dc_right_generation : DeviceGeneration;
  dc_left_software : string;
  dc_right_software : string;
  dc_differences : list CapabilityDifference;
  dc_equivalent : list CapabilityId;
  dc_explanation : string
}.

Definition view_gate_axis (view : ResolvedCapability) (axis : ConditionKind) : bool :=
  condition_tree_contains (rc_conditions view) axis.

Definition versus (left right : string) : string := (left +:+ " vs " +:+ right)%string.

(** The chain of comparisons of two answers: kind and detail. *)
Definition difference_of (l r : ResolvedCapability) : CapabilityDifferenceKind * string :=
  if rc_effective_support l !=? rc_effective_support r then
    (CapabilityDifferenceKind.EffectiveSupportDiffers,
     versus (effective_support_to_string (rc_effective_support l)) (effective_support_to_string (rc_effective_support r)))
  else if rc_declared_support l !=? rc_declared_support r then
    (CapabilityDifferenceKind.SupportStateDiffers,
     versus (support_state_to_string (rc_declared_support l)) (support_state_to_string (rc_declared_support r)))
  else if negb (value_eqb (rc_value l) (rc_value r)) then
    (CapabilityDifferenceKind.ValueDiffers, versus (value_describe (rc_value l)) (value_describe (rc_value r)))
  else if describe_condition (rc_conditions l) !=? describe_condition (rc_conditions r) then
    (CapabilityDifferenceKind.ConditionsDiffer,
     versus (describe_condition (rc_conditions l)) (describe_condition (rc_conditions r)))
  else if rc_truth l !=? rc_truth r then
    (CapabilityDifferenceKind.TruthClassDiffers,
     versus (truth_class_to_string (rc_truth l)) (truth_class_to_string (rc_truth r)))
  else if rc_contradiction l !=? rc_contradiction r then
    (CapabilityDifferenceKind.ContradictionDiffers,
     versus (contradiction_state_to_string (rc_contradiction l)) (contradiction_state_to_string (rc_contradiction r)))
  else if rc_precision l !=? rc_precision r then
    (CapabilityDifferenceKind.PrecisionDiffers,
     versus (precision_class_to_string (rc_precision l)) (precision_class_to_string (rc_precision r)))
  else if is_stale (rc_staleness l) || is_stale (rc_staleness r) then
    (CapabilityDifferenceKind.StalenessDiffers,
     versus (describe_staleness (rc_staleness l)) (describe_staleness (rc_staleness r)))
  else (CapabilityDifferenceKind.Equivalent, "equivalent under the queried environment").

(** A difference in declared support is attributed to the software axis
    either side's conditions mention. *)
Definition qualify_difference (l r : ResolvedCapability) (d : CapabilityDifferenceKind * string) :
    CapabilityDifferenceKind * string :=
  let on axis := view_gate_axis l axis || view_gate_axis r axis in
  if (d.1 !=? CapabilityDifferenceKind.Equivalent) && (rc_declared_support l !=? rc_declared_support r) then
    if on ConditionKind.MinDriverVersion
    then (CapabilityDifferenceKind.DriverDependentDifference, d.2 +:+ " (driver-qualified)")%string
    else if on ConditionKind.MinFirmwareVersion
    then (CapabilityDifferenceKind.FirmwareDependentDifference, d.2 +:+ " (firmware-qualified)")%string
    else if on ConditionKind.MinRuntimeVersion
    then (CapabilityDifferenceKind.RuntimeDependentDifference, d.2 +:+ " (runtime-qualified)")%string
    else d
  else d.

(** One iteration of the loop of [compare_devices]. *)
Definition compare_capability (request : ComparisonRequest) (st : Registry) (lhs rhs : DeviceState)
    (capability : CapabilityId) : CapabilityDifference :=
  let has device := bool_decide (is_Some (r_keys st !! (device, capability))) in
  let only kind side := mk_CapabilityDifference capability kind EffectiveSupport.Unknown EffectiveSupport.Unknown
    ("capability knowledge recorded only for " +:+ id_str side)%string in
  if has (cmp_left request) && negb (has (cmp_right request))
  then only CapabilityDifferenceKind.OnlyInLeft (cmp_left request)
  else if negb (has (cmp_left request)) && has (cmp_right request)
  then only CapabilityDifferenceKind.OnlyInRight (cmp_right request)
  else
    let l := resolve_locked st lhs capability (cmp_left_generation request) (cmp_environment request) in
    let r := resolve_locked st rhs capability (cmp_right_generation request) (cmp_environment request) in
    let '(kind, detail) := qualify_difference l r (difference_of l r) in
    mk_CapabilityDifference capability kind (rc_effective_support l) (rc_effective_support r) detail.

Definition owned_capabilities (st : Registry) (device : DeviceId) : gset CapabilityId :=
  default ∅ (r_device_keys st !! device).

Definition difference_ltb (a b : CapabilityDifference) : bool :=
  if cd_capability a !=? cd_capability b then key_ltb (cd_capability a) (cd_capability b)
  else enum_index (cd_kind a) <? enum_index (cd_kind b).

(** A capability is pushed onto [equivalent] exactly when its difference
    gets the kind [Equivalent], which later code does not change. *)
Definition equivalent_capabilities (differences : list CapabilityDifference) : list CapabilityId :=
  map cd_capability (List.filter (fun d => cd_kind d ==? CapabilityDifferenceKind.Equivalent) differences).

Definition software_label (device : DeviceState) : string :=
  (id_str (dv_id (sw_driver (ds_software device))) +:+ "@" +:+ dv_version (sw_driver (ds_software device)))%string.

Definition compare_devices (request : ComparisonRequest) (st : Registry) : Status + DeviceComparison :=
  if negb (id_valid (cmp_left request)) || negb (id_valid (cmp_right request))
  then inl (failure InvalidArgument "comparison requires two device identities")
  else match find_device_locked st (cmp_left request) with
  | None => inl (not_registered "device" (id_str (cmp_left request)))
  | Some lhs =>
      match find_device_locked st (cmp_right request) with
      | None => inl (not_registered "device" (id_str (cmp_right request)))
      | Some rhs =>
          let capabilities := owned_capabilities st (cmp_left request) ∪ owned_capabilities st (cmp_right request) in
          let differences := collect_until (max_comparison_entries (r_limits st))
            (fun capability => Some (compare_capability request st lhs rhs capability))
            (set_entries capabilities) [] in
          inr (mk_DeviceComparison (cmp_left request) (cmp_right request) (ds_generation lhs) (ds_generation rhs)
            (software_label lhs) (software_label rhs)
            (std_sort difference_ltb differences)
            (std_sort key_ltb (equivalent_capabilities differences))
            "comparison is factual: the registry reports differences, never an ordering")
      end
  end.

(* ===================================================================== *)
(** ** Usage *)

Definition resource_usage (st : Registry) : ResourceUsage :=
  r_usage st
    <| ru_devices := sizeN (r_devices st) |>
    <| ru_platforms := sizeN (r_platforms st) |>
    <| ru_capability_keys := sizeN (r_keys st) |>
    <| ru_evidence_records := r_evidence_count st |>
    <| ru_quirks := sizeN (r_quirks st) |>
    <| ru_compatibility_facts := sizeN (r_compatibility st) |>
    <| ru_publishers := sizeN (r_publishers st) |>
    <| ru_schemas := sizeN (r_schemas st) |>.

(* ===================================================================== *)
(** ** Lemmas *)

Lemma resolve_identity st device capability pinned environment :
  let r := resolve_locked st device capability pinned environment in
  rc_device r = di_id (ds_identity device) /\ rc_capability r = capability.
Proof.
  cbn zeta. unfold resolve_locked. destruct (r_keys st !! _) as [key|]; [|done].
  destruct (current_candidates _) as [|first rest]; [|done].
  unfold resolve_stale. by destruct (newest_claim _).
Qed.

(** A filtered listing keeps the order of the entries it goes through. *)
Lemma omap_strictly_sorted {A B} (lt : A -> A -> bool) (f : A -> option B) (g : B -> A) (l : list A) :
  (forall x y, f x = Some y -> g y = x) -> strictly_sorted_by lt l -> strictly_sorted_by lt (map g (omap f l)).
Proof.
  intros Hg. induction 1 as [|x l Hl IH Hx]; cbn; [constructor|].
  destruct (f x) as [y|] eqn:E; [|done]. cbn. constructor; [done|].
  rewrite (Hg _ _ E). apply Forall_forall. intros z Hz. apply list_elem_of_In, in_map_iff in Hz as (w & <- & Hw).
  apply list_elem_of_In, list_elem_of_omap in Hw as (v & Hv & Hf). rewrite (Hg _ _ Hf).
  rewrite Forall_forall in Hx. by apply Hx.
Qed.

Lemma query_step_answer query st device capability r :
  device_query_step query st device capability = Some r <->
  device_query_selects query st capability = true /\ device_query_accepts query r = true /\
  r = resolve_locked st device capability (dq_device_generation query) (dq_environment query).
Proof.
  unfold device_query_step. destruct (device_query_selects query st capability); cbn [negb]; [|naive_solver].
  destruct (device_query_accepts _ _) eqn:E; cbn [negb]; split; [by intros [= <-]|by intros (_ & _ & ->)|done|].
  intros (_ & H & ->). congruence.
Qed.

Lemma selects_key query st capability :
  device_query_selects query st capability = true -> is_Some (r_keys st !! (dq_device query, capability)).
Proof. unfold device_query_selects. repeat case_match; done. Qed.

(* ===================================================================== *)
(** ** Lemmas: comparison *)

(** The kind a difference has when the sides are exchanged. *)
Definition mirror_kind (kind : CapabilityDifferenceKind) : CapabilityDifferenceKind :=
  match kind with
  | CapabilityDifferenceKind.OnlyInLeft => CapabilityDifferenceKind.OnlyInRight
  | CapabilityDifferenceKind.OnlyInRight => CapabilityDifferenceKind.OnlyInLeft
  | _ => kind
  end.

(** A difference without its text, as seen from either side. *)
Definition difference_facts (d : CapabilityDifference) :=
  (cd_capability d, cd_kind d, cd_left_effective d, cd_right_effective d).
Definition mirrored_facts (d : CapabilityDifference) :=
  (cd_capability d, mirror_kind (cd_kind d), cd_right_effective d, cd_left_effective d).

Lemma difference_kind_sym l r : (difference_of r l).1 = (difference_of l r).1.
Proof.
  unfold difference_of.
  rewrite (eqb_sym (rc_effective_support r)), (eqb_sym (rc_declared_support r)), (value_eqb_sym (rc_value r)),
    (eqb_sym (describe_condition (rc_conditions r))), (eqb_sym (rc_truth r)), (eqb_sym (rc_contradiction r)),
    (eqb_sym (rc_precision r)), (orb_comm (is_stale (rc_staleness r))).
  by repeat case_match.
Qed.

Lemma difference_kind_two_sided l r : mirror_kind (difference_of l r).1 = (difference_of l r).1.
Proof. unfold difference_of. by repeat case_match. Qed.

Lemma qualify_kind l r d d' :
  d'.1 = d.1 -> mirror_kind d.1 = d.1 -> (qualify_difference r l d').1 = mirror_kind (qualify_difference l r d).1.
Proof.
  intros Hd Hm. unfold qualify_difference. rewrite Hd, (eqb_sym (rc_declared_support r)).
  rewrite (orb_comm (view_gate_axis r ConditionKind.MinDriverVersion)),
    (orb_comm (view_gate_axis r ConditionKind.MinFirmwareVersion)),
    (orb_comm (view_gate_axis r ConditionKind.MinRuntimeVersion)).
  repeat match goal with |- context [if ?b then _ else _] => destruct b end; cbn [fst mirror_kind]; congruence.
Qed.

(** The request with its sides exchanged. *)
Definition mirror_request (q : ComparisonRequest) : ComparisonRequest :=
  mk_ComparisonRequest (cmp_right q) (cmp_left q) (cmp_right_generation q) (cmp_left_generation q) (cmp_environment q).

Lemma compare_capability_mirrored q st lhs rhs capability :
  difference_facts (compare_capability (mirror_request q) st rhs lhs capability) =
  mirrored_facts (compare_capability q st lhs rhs capability).
Proof.
  unfold compare_capability, mirror_request.
  cbn [cmp_left cmp_right cmp_left_generation cmp_right_generation cmp_environment].
  set (a := bool_decide _). set (b := bool_decide _).
  set (l := resolve_locked st lhs _ _ _). set (r := resolve_locked st rhs _ _ _).
  pose proof (qualify_kind l r (difference_of l r) (difference_of r l)
    (difference_kind_sym l r) (difference_kind_two_sided l r)) as H.
  destruct (qualify_difference l r _) as [k d], (qualify_difference r l _) as [k' d'].
  cbn [fst] in H. subst k'. by destruct a, b.
Qed.

Lemma cd_capability_compare q st lhs rhs capability :
  cd_capability (compare_capability q st lhs rhs capability) = capability.
Proof. unfold compare_capability. repeat case_match; done. Qed.

(** The collected differences are those of the first capabilities, and come
    already sorted. *)
Definition collected (st : Registry) (q : ComparisonRequest) (lhs rhs : DeviceState) : list CapabilityDifference :=
  map (compare_capability q st lhs rhs)
    (take (N.to_nat (N.max 1 (max_comparison_entries (r_limits st))))
       (set_entries (owned_capabilities st (cmp_left q) ∪ owned_capabilities st (cmp_right q)))).

Lemma omap_some {A B} (f : A -> B) l : omap (fun x => Some (f x)) l = map f l.
Proof. induction l as [|x l IH]; cbn; [done|]. by rewrite IH. Qed.

Lemma take_strictly_sorted {A} (lt : A -> A -> bool) n l : strictly_sorted_by lt l -> strictly_sorted_by lt (take n l).
Proof.
  intros H. revert n. induction H as [|x l Hl IH Hx]; intros [|n]; cbn; constructor; [apply IH|].
  apply Forall_take, Hx.
Qed.

Lemma collected_sorted st q lhs rhs : sorted_by difference_ltb (collected st q lhs rhs).
Proof.
  unfold collected. set (l := take _ _).
  assert (H : strictly_sorted_by key_ltb l) by apply take_strictly_sorted, set_entries_sorted.
  clearbody l. induction H as [|x l Hl IH Hx]; cbn; constructor; [done|].
  rewrite Forall_forall in Hx. apply Forall_forall. intros d Hd. apply list_elem_of_In, in_map_iff in Hd as (y & <- & Hy).
  apply list_elem_of_In, Hx in Hy. unfold difference_ltb. rewrite !cd_capability_compare.
  destruct (y ==? x) eqn:E; cbn [negb].
  - apply eqb_eq in E as ->. by rewrite st_irrefl in Hy.
  - destruct (key_ltb y x) eqn:Ey; [|done]. pose proof (st_trans _ _ _ Hy Ey) as H. by rewrite st_irrefl in H.
Qed.

Lemma compare_devices_ok q st c :
  compare_devices q st = inr c <->
  id_valid (cmp_left q) = true /\ id_valid (cmp_right q) = true /\
  exists lhs rhs, find_device_locked st (cmp_left q) = Some lhs /\ find_device_locked st (cmp_right q) = Some rhs /\
    c = mk_DeviceComparison (cmp_left q) (cmp_right q) (ds_generation lhs) (ds_generation rhs)
          (software_label lhs) (software_label rhs) (collected st q lhs rhs)
          (std_sort key_ltb (equivalent_capabilities (collected st q lhs rhs)))
          "comparison is factual: the registry reports differences, never an ordering".
Proof.
  unfold compare_devices. destruct (id_valid (cmp_left q)), (id_valid (cmp_right q)); cbn [negb orb]; try naive_solver.
  destruct (find_device_locked st (cmp_left q)) as [lhs|]; [|naive_solver].
  destruct (find_device_locked st (cmp_right q)) as [rhs|]; [|naive_solver].
  rewrite collect_until_nil, omap_some, firstn_map. fold (collected st q lhs rhs).
  rewrite (std_sort_id difference_ltb (collected st q lhs rhs)) by apply collected_sorted. naive_solver.
Qed.

Lemma equivalent_mirrored l l' :
  map difference_facts l' = map mirrored_facts l -> equivalent_capabilities l' = equivalent_capabilities l.
Proof.
  unfold equivalent_capabilities. revert l'. induction l as [|d l IH]; intros [|d' l'] H; try discriminate; [done|].
  cbn [map List.filter] in *. injection H as Hc Hk _ _ H. rewrite Hk.
  assert ((mirror_kind (cd_kind d) ==? CapabilityDifferenceKind.Equivalent) =
    (cd_kind d ==? CapabilityDifferenceKind.Equivalent)) as -> by by destruct (cd_kind d).
  destruct (cd_kind d ==? _); cbn [map]; rewrite (IH l') by done; congruence.
Qed.

Lemma difference_of_self r :
  (difference_of r r).1 = if is_stale (rc_staleness r) then CapabilityDifferenceKind.StalenessDiffers
                          else CapabilityDifferenceKind.Equivalent.
Proof.
  unfold difference_of. rewrite !eqb_refl, value_eqb_refl. cbn [negb]. by destruct (is_stale (rc_staleness r)).
Qed.

(* ===================================================================== *)
(** ** Lemmas: subjects *)

Lemma foldl_projection {A B S} (step : S -> A -> S) (g : S -> B) (h : A -> B -> B) (l : list A) (s : S) :
  (forall s x, g (step s x) = h x (g s)) -> g (foldl step s l) = foldl (fun b x => h x b) (g s) l.
Proof. intros H. revert s. induction l as [|x l IH]; intros s; cbn; [done|]. by rewrite IH, H. Qed.

Lemma foldl_const {A B} (l : list A) (b : B) : foldl (fun b _ => b) b l = b.
Proof. by induction l. Qed.

Lemma count_if_total {A} (f : A -> bool) l m :
  foldl (fun n x => count_if (f x) n) (wrap64 m) l = wrap64 (m + lengthN (List.filter f l)).
Proof.
  revert m. induction l as [|x l IH]; intros m; cbn [foldl List.filter].
  - unfold lengthN. cbn. by rewrite N.add_0_r.
  - unfold count_if at 2. destruct (f x); [|apply IH].
    assert (u64_succ (wrap64 m) = wrap64 (m + 1)) as -> by (unfold u64_succ, wrap64; by rewrite N.Div0.add_mod_idemp_l).
    rewrite IH. f_equal. unfold lengthN. cbn [length]. lia.
Qed.

Lemma count_if_from_zero {A} (f : A -> bool) l :
  foldl (fun n x => count_if (f x) n) 0 l = wrap64 (lengthN (List.filter f l)).
Proof. exact (count_if_total f l 0). Qed.

(** The answers a subject is summarised from. *)
Definition subject_answers (st : Registry) (device : DeviceState) (environment : EnvironmentContext) :
    list ResolvedCapability :=
  map (fun capability => resolve_locked st device capability Gen_none environment)
    (set_entries (owned_capabilities st (di_id (ds_identity device)))).

Definition tally_all (device : DeviceState) (answers : list ResolvedCapability) : Tally :=
  foldl tally_capability (mk_Tally (subject_of device) 0 0 0) answers.

Lemma foldl_map {A B C} (f : C -> B -> C) (g : A -> B) l c : foldl (fun c a => f c (g a)) c l = foldl f c (map g l).
Proof. revert c. induction l as [|x l IH]; intros c; cbn; [done|]. apply IH. Qed.

Lemma build_subject_tally st device environment :
  let t := tally_all device (subject_answers st device environment) in
  build_subject_locked st device environment = ty_subject t <| sj_classification := classify_subject t |>.
Proof.
  cbn zeta. unfold build_subject_locked, subject_answers, owned_capabilities, tally_all.
  destruct (r_device_keys st !! _) as [owned|]; cbn [default]; [by rewrite foldl_map|].
  assert (set_entries (∅ : gset CapabilityId) = []) as -> by done. done.
Qed.

(** [n] is how many answers satisfy [f], as a 64-bit counter holds it. *)
Definition counts (answers : list ResolvedCapability) (f : ResolvedCapability -> bool) (n : N) : Prop :=
  n = wrap64 (lengthN (List.filter f answers)).

Lemma tally_counts device answers :
  let t := tally_all device answers in
  let s := ty_subject t in
  sj_capability_count s = wrap64 (lengthN answers) /\
  counts answers is_fresh (sj_current_count s) /\
  counts answers (fun r => negb (is_fresh r)) (sj_stale_count s) /\
  counts answers counts_unknown (sj_unknown_count s) /\
  counts answers counts_unsupported (sj_unsupported_count s) /\
  counts answers (fun r => rc_truth r ==? TruthClass.Real) (ty_real t) /\
  counts answers (fun r => rc_truth r ==? TruthClass.Synthetic) (ty_synthetic t) /\
  counts answers (fun r => rc_truth r ==? TruthClass.Unsupported) (ty_unsupported t).
Proof.
  cbn zeta. unfold counts, tally_all. repeat apply conj.
  - rewrite (foldl_projection _ (fun t => sj_capability_count (ty_subject t)) (fun _ => count_if true)) by done.
    rewrite (count_if_from_zero (fun _ => true)). f_equal. f_equal. by apply List.forallb_filter_id, forallb_forall.
  - rewrite (foldl_projection _ (fun t => sj_current_count (ty_subject t)) (fun r => count_if (is_fresh r))) by done.
    apply count_if_from_zero.
  - rewrite (foldl_projection _ (fun t => sj_stale_count (ty_subject t)) (fun r => count_if (negb (is_fresh r)))) by done.
    apply (count_if_from_zero (fun r => negb (is_fresh r))).
  - rewrite (foldl_projection _ (fun t => sj_unknown_count (ty_subject t)) (fun r => count_if (counts_unknown r))) by done.
    apply count_if_from_zero.
  - rewrite (foldl_projection _ (fun t => sj_unsupported_count (ty_subject t)) (fun r => count_if (counts_unsupported r))) by done.
    apply count_if_from_zero.
  - rewrite (foldl_projection _ ty_real (fun r => count_if (rc_truth r ==? TruthClass.Real))) by done.
    apply (count_if_from_zero (fun r => rc_truth r ==? TruthClass.Real)).
  - rewrite (foldl_projection _ ty_synthetic (fun r => count_if (rc_truth r ==? TruthClass.Synthetic))) by done.
    apply (count_if_from_zero (fun r => rc_truth r ==? TruthClass.Synthetic)).
  - rewrite (foldl_projection _ ty_unsupported (fun r => count_if (rc_truth r ==? TruthClass.Unsupported))) by done.
    apply (count_if_from_zero (fun r => rc_truth r ==? TruthClass.Unsupported)).
Qed.

(** The summary keeps what the device is. *)
Definition describes (s : SubjectSnapshot) (device : DeviceState) : Prop :=
  sj_identity s = ds_identity device /\ sj_software s = ds_software device /\ sj_generation s = ds_generation device /\
  sj_boot s = ds_boot device /\ sj_platform_generation s = ds_platform_generation device.

Lemma tally_describes device answers : describes (ty_subject (tally_all device answers)) device.
Proof.
  unfold tally_all. assert (H : forall t, describes (ty_subject t) device ->
    describes (ty_subject (foldl tally_capability t answers)) device); [|by apply H].
  induction answers as [|r answers IH]; intros t Ht; [done|]. by apply (IH (tally_capability t r)).
Qed.

Lemma build_subject_describes st device environment : describes (build_subject_locked st device environment) device.
Proof. rewrite build_subject_tally. apply tally_describes. Qed.

Lemma counts_zero answers f n : lengthN answers < u64_modulus -> counts answers f n -> n = 0 <-> forall r, r ∈ answers -> f r = false.
Proof.
  intros Hl ->. pose proof (List.filter_length_le f answers) as Hf. unfold wrap64. rewrite N.mod_small by (unfold lengthN in *; lia).
  split.
  - intros Hz r Hr. destruct (f r) eqn:E; [|done]. exfalso.
    assert (Hin : In r (List.filter f answers)) by (apply List.filter_In; split; [by apply list_elem_of_In|done]).
    destruct (List.filter f answers); [done|]. unfold lengthN in Hz. cbn in Hz. lia.
  - intros H. destruct (List.filter f answers) as [|r l] eqn:E; [done|]. exfalso.
    assert (Hin : In r (List.filter f answers)) by (rewrite E; by left). apply List.filter_In in Hin as [Hin Hr].
    apply list_elem_of_In in Hin. by rewrite H in Hr.
Qed.

(** How the truth classes of the answers make that of the subject: real
    evidence wins over synthetic, synthetic over unsupported. *)
Definition strongest_truth (answers : list ResolvedCapability) : TruthClass :=
  let has truth := existsb (fun r => rc_truth r ==? truth) answers in
  if has TruthClass.Real then TruthClass.Real
  else if has TruthClass.Synthetic then TruthClass.Synthetic
  else if has TruthClass.Unsupported then TruthClass.Unsupported
  else TruthClass.Unknown.

Lemma counts_existsb answers f n :
  lengthN answers < u64_modulus -> counts answers f n -> negb (n =? 0) = existsb f answers.
Proof.
  intros Hl Hc. pose proof (counts_zero _ _ _ Hl Hc) as Hz. destruct (existsb f answers) eqn:E.
  - apply existsb_exists in E as (r & Hr & Hf). apply list_elem_of_In in Hr.
    destruct (N.eqb_spec n 0) as [->|]; [|done]. by rewrite (proj1 Hz eq_refl r Hr) in Hf.
  - rewrite (proj2 Hz); [done|]. intros r Hr. destruct (f r) eqn:Ef; [|done].
    assert (existsb f answers = true) as Ht; [|by rewrite Ht in E]. apply existsb_exists. exists r. split; [by apply list_elem_of_In|done].
Qed.

Lemma classify_strongest device answers :
  lengthN answers < u64_modulus -> classify_subject (tally_all device answers) = strongest_truth answers.
Proof.
  intros Hl. destruct (tally_counts device answers) as (Hc & _ & _ & _ & _ & Hr & Hs & Hu).
  unfold classify_subject, strongest_truth. rewrite Hc, (counts_existsb _ _ _ Hl Hr), (counts_existsb _ _ _ Hl Hs),
    (counts_existsb _ _ _ Hl Hu).
  unfold wrap64. rewrite N.mod_small by done. destruct (N.eqb_spec (lengthN answers) 0) as [Hz|]; [|done].
  by destruct answers.
Qed.

(* ===================================================================== *)
(** ** Properties *)

(** [query_capabilities] answers with the capabilities known about the
    device that pass the filters, each resolved under the query's generation
    and environment, once and in the order of their identities; only the
    result limit cuts the list, at its end. *)
Theorem query_capabilities_exact st query answers :
  index_ok st -> query_capabilities query st = inr answers ->
  exists device all, find_device_locked st (dq_device query) = Some device /\
    (forall r, r ∈ all <-> exists capability,
       device_query_selects query st capability = true /\ device_query_accepts query r = true /\
       r = resolve_locked st device capability (dq_device_generation query) (dq_environment query)) /\
    strictly_sorted_by key_ltb (map rc_capability all) /\
    answers = take (N.to_nat (N.max 1 (result_limit (r_limits st) (dq_max_results query)))) all.
Proof.
  intros Hindex. unfold query_capabilities. destruct (id_valid _); cbn [negb]; [|done].
  destruct (find_device_locked st _) as [device|] eqn:Hd; [|done].
  intros Hq. exists device.
  exists (omap (device_query_step query st device) (set_entries (default ∅ (r_device_keys st !! dq_device query)))).
  split; [done|]. split; [|split].
  - intros r. rewrite list_elem_of_omap. setoid_rewrite query_step_answer. split; [by intros (c & _ & H); exists c|].
    intros (c & Hs & H). exists c. split; [|done]. rewrite elem_of_set_entries.
    apply selects_key, Hindex in Hs as (s & -> & Hc). done.
  - apply omap_strictly_sorted; [|apply set_entries_sorted].
    intros c r (_ & _ & ->)%query_step_answer. apply resolve_identity.
  - destruct (r_device_keys st !! _) as [owned|]; injection Hq as <-.
    + by rewrite collect_until_nil.
    + cbn [default]. assert (set_entries (∅ : gset CapabilityId) = []) as -> by done. cbn. by rewrite take_nil.
Qed.

(** Comparing two devices in the other order reports the same
    capabilities with the same kinds of difference, exchanging only what is
    known of one side alone, and finds the same capabilities equivalent. *)
Theorem comparison_mirrors q st c :
  compare_devices q st = inr c ->
  exists c', compare_devices (mirror_request q) st = inr c' /\
    dc_left_generation c' = dc_right_generation c /\ dc_right_generation c' = dc_left_generation c /\
    dc_left_software c' = dc_right_software c /\ dc_right_software c' = dc_left_software c /\
    map difference_facts (dc_differences c') = map mirrored_facts (dc_differences c) /\
    dc_equivalent c' = dc_equivalent c.
Proof.
  intros (Hl & Hr & lhs & rhs & Hlhs & Hrhs & ->)%compare_devices_ok.
  assert (Hm : map difference_facts (collected st (mirror_request q) rhs lhs) =
    map mirrored_facts (collected st q lhs rhs)).
  { unfold collected. cbn [mirror_request cmp_left cmp_right].
    rewrite (union_comm_L (owned_capabilities st (cmp_right q))), !map_map.
    apply map_ext. intros capability. apply compare_capability_mirrored. }
  eexists. split; [apply compare_devices_ok; split; [exact Hr|]; split; [exact Hl|]; exists rhs, lhs; done|].
  cbn [dc_left_generation dc_right_generation dc_left_software dc_right_software dc_differences dc_equivalent].
  do 4 (split; [done|]). split; [done|]. by rewrite (equivalent_mirrored _ _ Hm).
Qed.

(** A device compared with itself under one generation differs only in
    staleness, but it does differ: every capability whose answer is stale is
    reported as [StalenessDiffers], although both sides are the same answer. *)
Theorem self_comparison_reports_staleness device generation environment st c d :
  compare_devices (mk_ComparisonRequest device device generation generation environment) st = inr c ->
  d ∈ dc_differences c ->
  exists state, find_device_locked st device = Some state /\
    cd_kind d =
      if is_stale (rc_staleness (resolve_locked st state (cd_capability d) generation environment))
      then CapabilityDifferenceKind.StalenessDiffers else CapabilityDifferenceKind.Equivalent.
Proof.
  intros (_ & _ & lhs & rhs & Hl & Hr & ->)%compare_devices_ok Hd. cbn in Hl, Hr, Hd. rewrite Hl in Hr.
  injection Hr as <-. exists lhs. split; [done|]. apply list_elem_of_In, in_map_iff in Hd as (capability & <- & _).
  rewrite cd_capability_compare. unfold compare_capability.
  cbn [cmp_left cmp_right cmp_left_generation cmp_right_generation cmp_environment]. rewrite andb_negb_r, andb_negb_l.
  set (r := resolve_locked _ _ _ _ _). unfold qualify_difference. rewrite eqb_refl, andb_false_r.
  rewrite <- difference_of_self. by destruct (difference_of r r).
Qed.

(** The summary of a subject counts its capabilities, splits them into
    current and stale ones, and classifies the subject by the strongest truth
    among the answers to its capabilities. *)
Theorem subject_summary_exact st device environment :
  let s := build_subject_locked st device environment in
  let answers := subject_answers st device environment in
  describes s device /\
  sj_capability_count s = wrap64 (lengthN answers) /\
  sj_capability_count s = wrap64 (sj_current_count s + sj_stale_count s) /\
  counts answers is_fresh (sj_current_count s) /\
  counts answers counts_unknown (sj_unknown_count s) /\
  counts answers counts_unsupported (sj_unsupported_count s) /\
  (lengthN answers < u64_modulus -> sj_classification s = strongest_truth answers).
Proof.
  cbn zeta. split; [apply build_subject_describes|]. rewrite build_subject_tally. set (answers := subject_answers _ _ _).
  destruct (tally_counts device answers) as (Hc & Hf & Hs & Hk & Hu & _).
  set (t := tally_all device answers) in *.
  cbn [set sj_identity sj_generation sj_boot sj_capability_count sj_current_count sj_stale_count sj_unknown_count
    sj_unsupported_count sj_classification].
  repeat apply conj; try done.
  - change (sj_capability_count (ty_subject t) = wrap64 (sj_current_count (ty_subject t) + sj_stale_count (ty_subject t))).
    rewrite Hc, Hf, Hs. unfold wrap64. rewrite <- N.Div0.add_mod. f_equal.
    pose proof (List.filter_length is_fresh answers). unfold lengthN. lia.
  - apply classify_strongest.
Qed.

(* ===================================================================== *)
(** ** Witnesses *)

Definition sample_fleet : Registry :=
  fleet (fp8_record nvml_source SupportState.SupportedNative (VBoolean true)).

Lemma index_ok_singleton st d c key :
  r_keys st = {[(d, c) := key]} -> r_device_keys st = {[d := {[c]}]} -> index_ok st.
Proof.
  intros Hk Hd d' c'. rewrite Hk, Hd, lookup_singleton_is_Some. setoid_rewrite lookup_singleton_Some. split.
  - intros [= <- <-]. exists {[c]}. split; [done|]. by apply elem_of_singleton.
  - intros (s & [<- <-] & Hc%elem_of_singleton). by subst.
Qed.

Lemma sample_fleet_index : index_ok sample_fleet.
Proof. eapply index_ok_singleton; reflexivity. Qed.

Lemma query_capabilities_exact_witness :
  exists answers device all, query_capabilities (default_device_query gpu) sample_fleet = inr answers /\
    find_device_locked sample_fleet gpu = Some device /\
    answers = take (N.to_nat (N.max 1 (result_limit (r_limits sample_fleet) 0))) all.
Proof.
  destruct (query_capabilities (default_device_query gpu) sample_fleet) as [status|answers] eqn:E;
    [exfalso; vm_compute in E; discriminate|].
  destruct (query_capabilities_exact sample_fleet (default_device_query gpu) answers sample_fleet_index E)
    as (device & all & Hd & _ & _ & Ha).
  exists answers, device, all. split; [reflexivity|]. split; [exact Hd|exact Ha].
Defined.

Lemma comparison_mirrors_witness :
  let q := mk_ComparisonRequest gpu gpu Gen_none Gen_first ∅ in
  exists c c', compare_devices q sample_fleet = inr c /\ compare_devices (mirror_request q) sample_fleet = inr c' /\
    dc_equivalent c' = dc_equivalent c.
Proof.
  cbn zeta. set (q := mk_ComparisonRequest _ _ _ _ _).
  destruct (compare_devices q sample_fleet) as [status|c] eqn:E; [exfalso; vm_compute in E; discriminate|].
  destruct (comparison_mirrors q sample_fleet c E) as (c' & Hc & _ & _ & _ & _ & _ & He).
  exists c, c'. split; [reflexivity|]. split; [exact Hc|exact He].
Defined.
