(* ===== verification/Render.v ===== *)
(** * Rendering

    Models the text of [render.cpp]: the renderings of answers, subjects,
    quirks, facts, publishers, comparisons and usage, and [explain_device] of
    [registry.cpp], which is made of them. *)

From S2P Require Import Prelude Tokens Versions Support Conditions Values Hardware Quirks Compat Publication.
From S2P Require Import RegistryState Fixtures Resolution Publishers Devices Knowledge Evidence Ingest Runs Queries.

Local Open Scope string_scope.

(** [number] and [std::to_string]. *)
Definition number (n : N) : string := pretty n.

(** [x.valid() ? x.str() : "-"], and the same on texts. *)
Definition id_or_dash {tag} (id : Id tag) : string := if id_valid id then id_str id else "-".
Definition gen_or_dash {tag} (g : Gen tag) : string := if gen_valid g then gen_str g else "-".
Definition text_or (fallback text : string) : string := if is_empty text then fallback else text.
Definition text_or_dash : string -> string := text_or "-".

Definition render_truth_class (value : TruthClass) : string := truth_class_to_string value.

Definition render_applied_quirk (a : QuirkApplication) : string :=
  if qp_result a !=? QuirkApplicabilityResult.Applies then ""
  else ", quirk " +:+ id_str (qp_id a) +:+ " (" +:+ quirk_severity_to_string (qp_severity a) +:+ ")".

Definition render_capability_brief (r : ResolvedCapability) : string :=
  id_str (rc_capability r) +:+ " = " +:+ effective_support_to_string (rc_effective_support r) +:+
  " [declared " +:+ support_state_to_string (rc_declared_support r) +:+
  ", truth " +:+ truth_class_to_string (rc_truth r) +:+
  ", precision " +:+ precision_class_to_string (rc_precision r) +:+
  ", generation " +:+ gen_or_dash (rc_capability_generation r) +:+
  (if is_stale (rc_staleness r) then ", stale " +:+ describe_staleness (rc_staleness r) else "") +:+
  (if rc_contradiction r !=? ContradictionState.Consistent
   then ", contradiction " +:+ contradiction_state_to_string (rc_contradiction r) else "") +:+
  (if negb (value_empty (rc_value r)) then ", value " +:+ value_describe (rc_value r) else "") +:+
  match rc_conditions r with
  | None => ""
  | Some _ => ", conditions " +:+ describe_condition (rc_conditions r) +:+ " (" +:+
              condition_outcome_to_string (outcome (rc_condition_evaluation r)) +:+ ")"
  end +:+
  String.concat "" (map render_applied_quirk (rc_quirks r)) +:+ "]".

Definition render_capability (r : ResolvedCapability) : string := rc_explanation r.

Definition render_subject_brief (s : SubjectSnapshot) : string :=
  let hardware := di_hardware (sj_identity s) in
  id_str (di_id (sj_identity s)) +:+
  " | class=" +:+ hardware_class_to_string (hi_class hardware) +:+
  " | vendor=" +:+ id_or_dash (hi_vendor hardware) +:+
  " | model=" +:+ id_or_dash (hi_model hardware) +:+
  " | generation=" +:+ gen_str (sj_generation s) +:+
  " | boot=" +:+ gen_str (sj_boot s) +:+
  " | driver=" +:+ id_or_dash (dv_id (sw_driver (sj_software s))) +:+
  "@" +:+ text_or_dash (dv_version (sw_driver (sj_software s))) +:+
  " | firmware=" +:+ text_or_dash (fw_version (sw_firmware (sj_software s))) +:+
  " | classification=" +:+ truth_class_to_string (sj_classification s).

Definition render_native (n : NativeIdentifier) : string := newline +:+ "  native " +:+ ni_key n +:+ "=" +:+ ni_value n.

Definition render_subject (s : SubjectSnapshot) : string :=
  let identity := sj_identity s in
  let hardware := di_hardware identity in
  render_subject_brief s +:+
  newline +:+ "  display: " +:+ text_or "(none)" (di_display_name identity) +:+
  newline +:+ "  family=" +:+ id_or_dash (hi_family hardware) +:+
  " revision=" +:+ id_or_dash (hi_revision hardware) +:+
  " architecture=" +:+ id_or_dash (hi_architecture hardware) +:+
  newline +:+ "  incarnation=" +:+ id_str (di_incarnation identity) +:+
  " platform=" +:+ id_or_dash (di_platform identity) +:+
  " platform-generation=" +:+ gen_str (sj_platform_generation s) +:+
  newline +:+ "  serial=" +:+ default "(absent)" (di_serial_number identity) +:+
  " instance-locator=" +:+ default "(absent)" (di_instance_locator identity) +:+
  newline +:+ "  runtime=" +:+ id_or_dash (rt_id (sw_runtime (sj_software s))) +:+
  "@" +:+ text_or_dash (rt_version (sw_runtime (sj_software s))) +:+
  newline +:+ "  capabilities=" +:+ number (sj_capability_count s) +:+
  " current=" +:+ number (sj_current_count s) +:+
  " stale=" +:+ number (sj_stale_count s) +:+
  " unknown=" +:+ number (sj_unknown_count s) +:+
  " unsupported=" +:+ number (sj_unsupported_count s) +:+
  " applicable-quirks=" +:+ number (sj_applicable_quirk_count s) +:+
  String.concat "" (map render_native (hi_native_identifiers hardware)).

Definition render_quirk (q : QuirkRecord) : string :=
  let a := qr_applicability q in
  id_str (qr_id q) +:+ " generation=" +:+ gen_str (qr_generation q) +:+
  " severity=" +:+ quirk_severity_to_string (qr_severity q) +:+
  " category=" +:+ quirk_category_to_string (qr_category q) +:+
  " mitigation=" +:+ mitigation_kind_to_string (qr_mitigation q) +:+
  (if qr_withdrawn q then " [withdrawn]" else "") +:+
  newline +:+ "  title: " +:+ qr_title q +:+
  (if negb (is_empty (qr_description q)) then newline +:+ "  description: " +:+ qr_description q else "") +:+
  newline +:+ "  impacts:" +:+
  String.concat "" (map (fun c => " " +:+ id_str c) (qr_impacted_capabilities q)) +:+
  newline +:+ "  applies-to: devices=" +:+ number (lengthN (qa_devices a)) +:+
  " families=" +:+ number (lengthN (qa_families a)) +:+
  " models=" +:+ number (lengthN (qa_models a)) +:+
  " revisions=" +:+ number (lengthN (qa_revisions a) + lengthN (qa_revision_ranges a)) +:+
  " driver-ranges=" +:+ number (lengthN (qa_driver_ranges a)) +:+
  " firmware-ranges=" +:+ number (lengthN (qa_firmware_ranges a)) +:+
  " runtime-ranges=" +:+ number (lengthN (qa_runtime_ranges a)) +:+
  match qa_platform_conditions a with
  | None => ""
  | Some _ => " platform-condition=" +:+ describe_condition (qa_platform_conditions a)
  end +:+
  newline +:+ "  provenance: " +:+ provenance_class_to_string (provenance (qr_source q)) +:+
  " source=" +:+ source_class_to_string (source_class (qr_source q)) +:+
  " adapter=" +:+ adapter (qr_source q) +:+
  (if negb (is_empty (native_reference (qr_source q))) then " reference=" +:+ native_reference (qr_source q) else "").

Definition render_quirk_application (a : QuirkApplication) : string :=
  id_str (qp_id a) +:+ " [" +:+ quirk_applicability_result_to_string (qp_result a) +:+
  ", severity " +:+ quirk_severity_to_string (qp_severity a) +:+
  ", mitigation " +:+ mitigation_kind_to_string (qp_mitigation a) +:+ "] " +:+ qp_title a +:+ " :: " +:+ qp_reason a.

Definition render_reference (r : HardwareReference) : string :=
  hardware_reference_kind_to_string (ref_kind r) +:+ ":" +:+ ref_token r +:+
  (if version_valid (ref_version r) then "@" +:+ raw (ref_version r) else "").

Definition render_compatibility (f : CompatibilityFact) : string :=
  id_str (cf_id f) +:+ " generation=" +:+ gen_str (cf_generation f) +:+
  " kind=" +:+ compatibility_subject_kind_to_string (cf_kind f) +:+
  " outcome=" +:+ compatibility_outcome_to_string (cf_outcome f) +:+
  (if cf_withdrawn f then " [withdrawn]" else "") +:+
  newline +:+ "  " +:+ render_reference (cf_lhs f) +:+ " <-> " +:+ render_reference (cf_rhs f) +:+
  (if negb (is_empty (cf_reason f)) then newline +:+ "  reason: " +:+ cf_reason f else "") +:+
  match cf_conditions f with
  | None => ""
  | Some _ => newline +:+ "  conditions: " +:+ describe_condition (cf_conditions f)
  end +:+
  newline +:+ "  provenance: " +:+ provenance_class_to_string (provenance (cf_source f)) +:+
  " source=" +:+ source_class_to_string (source_class (cf_source f)) +:+
  " adapter=" +:+ adapter (cf_source f).

Definition double_quote : string := String (ascii_of_N 34) EmptyString.

Definition render_publisher (p : PublisherRecord) : string :=
  id_str (pi_id (pr_identity p)) +:+ " boot=" +:+ gen_or_dash (pi_boot (pr_identity p)) +:+
  " epoch=" +:+ gen_or_dash (pi_epoch (pr_identity p)) +:+
  " state=" +:+ publisher_state_to_string (pr_state p) +:+
  " adapter=" +:+ pr_adapter p +:+
  " last-sequence=" +:+ number (pr_last_sequence p) +:+
  " evidence-generation=" +:+ gen_or_dash (pr_max_evidence_generation p) +:+
  " accepted=" +:+ number (pr_accepted p) +:+ " rejected=" +:+ number (pr_rejected p) +:+
  " boots=" +:+ number (pr_boot_history p) +:+
  (if negb (is_empty (pr_reason p)) then " reason=" +:+ double_quote +:+ pr_reason p +:+ double_quote else "").

Definition capability_difference_kind_to_string (value : CapabilityDifferenceKind) : string :=
  match value with
  | CapabilityDifferenceKind.Equivalent => "equivalent"
  | CapabilityDifferenceKind.OnlyInLeft => "only-in-left"
  | CapabilityDifferenceKind.OnlyInRight => "only-in-right"
  | CapabilityDifferenceKind.SupportStateDiffers => "support-state-differs"
  | CapabilityDifferenceKind.EffectiveSupportDiffers => "effective-support-differs"
  | CapabilityDifferenceKind.ValueDiffers => "value-differs"
  | CapabilityDifferenceKind.ConditionsDiffer => "conditions-differ"
  | CapabilityDifferenceKind.PrecisionDiffers => "precision-differs"
  | CapabilityDifferenceKind.StalenessDiffers => "staleness-differs"
  | CapabilityDifferenceKind.TruthClassDiffers => "truth-class-differs"
  | CapabilityDifferenceKind.ContradictionDiffers => "contradiction-differs"
  | CapabilityDifferenceKind.DriverDependentDifference => "driver-dependent-difference"
  | CapabilityDifferenceKind.FirmwareDependentDifference => "firmware-dependent-difference"
  | CapabilityDifferenceKind.RuntimeDependentDifference => "runtime-dependent-difference"
  | CapabilityDifferenceKind.ArchitectureMismatch => "architecture-mismatch"
  | CapabilityDifferenceKind.ShapeDiffers => "shape-differs"
  end.

Definition render_difference (d : CapabilityDifference) : string :=
  newline +:+ "  " +:+ id_str (cd_capability d) +:+ ": " +:+ capability_difference_kind_to_string (cd_kind d) +:+
  (if negb (is_empty (cd_detail d)) then " (" +:+ cd_detail d +:+ ")" else "").

Definition render_comparison (c : DeviceComparison) : string :=
  "compare " +:+ id_str (dc_left c) +:+ " (generation " +:+ gen_str (dc_left_generation c) +:+
  ", driver " +:+ dc_left_software c +:+ ") vs " +:+ id_str (dc_right c) +:+
  " (generation " +:+ gen_str (dc_right_generation c) +:+ ", driver " +:+ dc_right_software c +:+ ")" +:+
  String.concat "" (map render_difference (dc_differences c)) +:+
  newline +:+ "  equivalent=" +:+ number (lengthN (dc_equivalent c)) +:+ newline +:+ "  " +:+ dc_explanation c.

Definition render_resource_usage (u : ResourceUsage) : string :=
  "devices=" +:+ number (ru_devices u) +:+ " platforms=" +:+ number (ru_platforms u) +:+
  " capability-keys=" +:+ number (ru_capability_keys u) +:+
  " evidence-records=" +:+ number (ru_evidence_records u) +:+
  " quirks=" +:+ number (ru_quirks u) +:+
  " compatibility=" +:+ number (ru_compatibility_facts u) +:+
  " publishers=" +:+ number (ru_publishers u) +:+
  " schemas=" +:+ number (ru_schemas u) +:+
  " accepted=" +:+ number (ru_accepted_publications u) +:+
  " idempotent=" +:+ number (ru_idempotent_publications u) +:+
  " rejected=" +:+ number (ru_rejected_publications u) +:+
  " snapshots=" +:+ number (ru_snapshots_taken u).

(** [explain_device] on the states at its two calls: the device is looked up
    and its capabilities are listed under separate acquisitions of the mutex,
    so that an operation of another thread may come between them. *)
Definition explain_device (device : DeviceId) (st later : Registry) : Status + string :=
  match find_device device st with
  | inl status => inl status
  | inr subject =>
      match query_capabilities (default_device_query device <| dq_only_current := false |>) later with
      | inl status => inl status
      | inr capabilities =>
          inr (render_subject subject +:+
               String.concat "" (map (fun r => newline +:+ render_capability_brief r) capabilities))
      end
  end.
