(* ===== verification/Snapshots.v ===== *)
(** * Snapshots

    Models [snapshot.hpp], [CapabilityRegistry::snapshot] of [registry.cpp],
    and the snapshot digest, staleness and summary of [render.cpp]. *)

From S2P Require Import Prelude Tokens Versions Support Conditions Values Hardware Quirks Compat Publication.
From S2P Require Import RegistryState Fixtures Resolution Publishers Devices Knowledge Evidence Ingest Runs Queries Render.

Record RegistrySnapshot := mk_RegistrySnapshot {
  rs_generation : SnapshotGeneration;
  rs_epoch : CoordinatorEpoch;
  rs_state_revision : N;
  rs_created_at_utc : string;
  rs_subjects : list SubjectSnapshot;
  rs_capabilities : list ResolvedCapability;
  rs_quirks : list QuirkRecord;
  rs_compatibility : list CompatibilityFact;
  rs_publishers : list PublisherRecord;
  rs_real_statements : N;
  rs_synthetic_statements : N;
  rs_unsupported_statements : N;
  rs_unknown_statements : N;
  rs_stale_evidence_records : N;
  rs_canonical_digest : N
}.

#[global] Instance eta_RegistrySnapshot : Eta RegistrySnapshot := fun r =>
  mk_RegistrySnapshot
    (rs_generation r) (rs_epoch r) (rs_state_revision r) (rs_created_at_utc r) (rs_subjects r)
    (rs_capabilities r) (rs_quirks r) (rs_compatibility r) (rs_publishers r) (rs_real_statements r)
    (rs_synthetic_statements r) (rs_unsupported_statements r) (rs_unknown_statements r)
    (rs_stale_evidence_records r) (rs_canonical_digest r).

(* ===================================================================== *)
(** ** The digest *)

(** The digests are a sequence of mixed texts and 64-bit values. *)
Inductive DigestItem := MixText (text : string) | MixValue (value : N).

Definition mix_item (hash : N) (item : DigestItem) : N :=
  match item with MixText text => fnv1a64_mix_text hash text | MixValue value => fnv1a64_mix_value hash value end.

Definition mix_id {tag} (id : Id tag) : DigestItem := MixText (id_str id).
Definition mix_gen {tag} (g : Gen tag) : DigestItem := MixValue (gen_value g).
Definition mix_enum {A} `{CppEnum A} (value : A) : DigestItem := MixValue (enum_index value).
Definition mix_bool (b : bool) : DigestItem := MixValue (if b then 1 else 0).

Definition digest (items : list DigestItem) : N := foldl mix_item kFnvOffsetBasis items.

Definition snapshot_subject_items (s : SubjectSnapshot) : list DigestItem :=
  [mix_id (di_id (sj_identity s)); mix_id (di_incarnation (sj_identity s));
   MixText (canonical_key (di_hardware (sj_identity s))); mix_gen (sj_generation s); mix_gen (sj_boot s);
   mix_gen (sj_platform_generation s); mix_enum (sj_classification s)].

Definition view_items (v : EvidenceView) : list DigestItem :=
  [mix_id (pi_id (publisher (ev_source v))); mix_gen (pi_boot (publisher (ev_source v)));
   mix_gen (evidence_generation (ev_source v)); mix_enum (source_class (ev_source v)); mix_bool (ev_winner v)].

Definition capability_items (r : ResolvedCapability) : list DigestItem :=
  [mix_id (rc_device r); mix_id (rc_capability r); mix_id (rc_schema r); mix_gen (rc_capability_generation r);
   mix_enum (rc_declared_support r); mix_enum (rc_effective_support r); mix_enum (rc_truth r);
   mix_enum (rc_contradiction r); MixValue (rc_staleness r); MixText (value_describe (rc_value r));
   MixText (describe_condition (rc_conditions r))] ++
  concat (map view_items (rc_evidence r)).

Definition snapshot_quirk_items (q : QuirkRecord) : list DigestItem :=
  [mix_id (qr_id q); mix_gen (qr_generation q); mix_enum (qr_severity q)].
Definition snapshot_fact_items (f : CompatibilityFact) : list DigestItem :=
  [mix_id (cf_id f); mix_gen (cf_generation f); mix_enum (cf_outcome f)].
Definition snapshot_publisher_items (p : PublisherRecord) : list DigestItem :=
  [mix_id (pi_id (pr_identity p)); mix_gen (pi_boot (pr_identity p)); mix_enum (pr_state p)].

Definition snapshot_items (s : RegistrySnapshot) : list DigestItem :=
  [MixText "hcr.snapshot.v1"; mix_gen (rs_epoch s); MixValue (rs_state_revision s)] ++
  concat (map snapshot_subject_items (rs_subjects s)) ++
  concat (map capability_items (rs_capabilities s)) ++
  concat (map snapshot_quirk_items (rs_quirks s)) ++
  concat (map snapshot_fact_items (rs_compatibility s)) ++
  concat (map snapshot_publisher_items (rs_publishers s)).

Definition canonical_snapshot_digest (s : RegistrySnapshot) : N := digest (snapshot_items s).

(* ===================================================================== *)
(** ** [snapshot] *)

(** The counters of a snapshot. *)
Record Statements := mk_Statements {
  st_real : N;
  st_synthetic : N;
  st_unsupported : N;
  st_unknown : N;
  st_stale : N
}.

#[global] Instance eta_Statements : Eta Statements := fun r =>
  mk_Statements (st_real r) (st_synthetic r) (st_unsupported r) (st_unknown r) (st_stale r).

(** The iteration over the views of an answer. *)
Definition count_view (s : Statements) (view : EvidenceView) : Statements :=
  let s := s <| st_stale ::= count_if (is_stale (ev_staleness view)) |> in
  if negb (ev_winner view) then s
  else if ev_support view ==? SupportState.Unsupported then s <| st_unsupported ::= u64_succ |>
  else match provenance (ev_source view) with
  | ProvenanceClass.Synthetic => s <| st_synthetic ::= u64_succ |>
  | ProvenanceClass.UnknownSource => s <| st_unknown ::= u64_succ |>
  | _ => s <| st_real ::= u64_succ |>
  end.

(** One iteration of the loop over the keys. *)
Definition snapshot_key (st : Registry) (entry : KeyId * KeyState) : option ResolvedCapability :=
  match find_device_locked st entry.1.1 with
  | None => None
  | Some device => Some (resolve_locked st device entry.1.2 Gen_none ∅)
  end.

(** The snapshot of a registry whose generation was already advanced. The
    loop counts the views of an answer just before it appends the answer. *)
Definition build_snapshot (now : string) (st : Registry) : RegistrySnapshot :=
  let capabilities := collect_until (max_snapshot_records (r_limits st)) (snapshot_key st) (map_entries (r_keys st)) [] in
  let c := foldl count_view (mk_Statements 0 0 0 0 0) (concat (map rc_evidence capabilities)) in
  let s := mk_RegistrySnapshot (r_snapshot_generation st) (r_epoch st) (r_state_revision st) now
    (list_devices st) capabilities
    (map snd (map_entries (r_quirks st))) (map snd (map_entries (r_compatibility st)))
    (map (fun entry : PublisherId * PublisherStateInternal => ps_record entry.2) (map_entries (r_publishers st)))
    (st_real c) (st_synthetic c) (st_unsupported c) (st_unknown c) (st_stale c) 0 in
  s <| rs_canonical_digest := canonical_snapshot_digest s |>.

Definition snapshot (now : string) (st : Registry) : Registry * (Status + RegistrySnapshot) :=
  if max_snapshot_records (r_limits st) <? sizeN (r_devices st)
  then (st, inl (failure LimitExceeded "snapshot would exceed the configured record bound"))
  else
    let st := st <| r_snapshot_generation ::= gen_next |> in
    let s := build_snapshot now st in
    (st <| r_usage ::= fun u => u <| ru_snapshots_taken ::= u64_succ |> |>, inr s).

Definition detect_snapshot_staleness (s current : RegistrySnapshot) : StalenessFlag :=
  let flags := raise_if (rs_epoch s !=? rs_epoch current) EpochSuperseded flag_None in
  let flags := raise_if (negb (rs_state_revision s =? rs_state_revision current)) SupersededByNewerEvidence flags in
  raise_if (rs_generation s !=? rs_generation current) SupersededByNewerEvidence flags.

Definition snapshot_is_current (s current : RegistrySnapshot) : bool :=
  detect_snapshot_staleness s current =? flag_None.

Definition render_snapshot_summary (s : RegistrySnapshot) : string :=
  ("snapshot generation=" +:+ gen_or_dash (rs_generation s) +:+ " epoch=" +:+ gen_or_dash (rs_epoch s) +:+
   " revision=" +:+ number (rs_state_revision s) +:+ " created=" +:+ rs_created_at_utc s +:+
   " digest=" +:+ hex64 (rs_canonical_digest s) +:+
   newline +:+ "  subjects=" +:+ number (lengthN (rs_subjects s)) +:+
   " capabilities=" +:+ number (lengthN (rs_capabilities s)) +:+
   " quirks=" +:+ number (lengthN (rs_quirks s)) +:+
   " compatibility=" +:+ number (lengthN (rs_compatibility s)) +:+
   " publishers=" +:+ number (lengthN (rs_publishers s)) +:+
   newline +:+ "  statements: REAL=" +:+ number (rs_real_statements s) +:+
   " SYNTHETIC=" +:+ number (rs_synthetic_statements s) +:+
   " UNSUPPORTED=" +:+ number (rs_unsupported_statements s) +:+
   " UNKNOWN=" +:+ number (rs_unknown_statements s) +:+
   " stale-evidence=" +:+ number (rs_stale_evidence_records s))%string.

(* ===================================================================== *)
(** ** Lemmas *)

(** What taking a snapshot changes in the registry. *)
Definition relabelled (generation : SnapshotGeneration) (usage : ResourceUsage) (st : Registry) : Registry :=
  st <| r_snapshot_generation := generation |> <| r_usage := usage |>.

(** A snapshot without what labels it. *)
Definition unlabelled (s : RegistrySnapshot) : RegistrySnapshot :=
  s <| rs_generation := Gen_none |> <| rs_created_at_utc := EmptyString |>.

Lemma build_snapshot_relabelled now now' generation usage st :
  unlabelled (build_snapshot now' (relabelled generation usage st)) = unlabelled (build_snapshot now st).
Proof. by destruct st. Qed.

Lemma snapshot_unfold now st st' s :
  snapshot now st = (st', inr s) <->
  (max_snapshot_records (r_limits st) <? sizeN (r_devices st)) = false /\
  s = build_snapshot now (st <| r_snapshot_generation ::= gen_next |>) /\
  st' = relabelled (gen_next (r_snapshot_generation st)) (r_usage st <| ru_snapshots_taken ::= u64_succ |>) st.
Proof. unfold snapshot. destruct (_ <? _); [naive_solver|]. cbv zeta. split; [intros [= <- <-]|intros (_ & -> & ->)]; by destruct st. Qed.

Lemma gen_next_differs {tag} (g : Gen tag) : (g ==? gen_next g) = false.
Proof.
  apply eqb_false. intros H. apply (f_equal gen_value) in H. unfold gen_next in H. cbn in H.
  pose proof (wrap64_lt (gen_value g + 1)) as Hl. unfold u64_succ, wrap64 in *.
  assert (gen_value g < u64_modulus) by lia.
  destruct (N.eq_dec (gen_value g + 1) u64_modulus) as [E|]; [rewrite E, N.Div0.mod_same in H; by rewrite H in E|].
  rewrite N.mod_small in H by lia. lia.
Qed.

(** The statement a view makes in a snapshot, when its answer selected it. *)
Definition view_statement (view : EvidenceView) : option TruthClass :=
  if negb (ev_winner view) then None
  else if ev_support view ==? SupportState.Unsupported then Some TruthClass.Unsupported
  else match provenance (ev_source view) with
  | ProvenanceClass.Synthetic => Some TruthClass.Synthetic
  | ProvenanceClass.UnknownSource => Some TruthClass.Unknown
  | _ => Some TruthClass.Real
  end.

Definition states (truth : TruthClass) (view : EvidenceView) : bool := view_statement view ==? Some truth.

Definition tallied (views : list EvidenceView) (f : EvidenceView -> bool) : N := wrap64 (lengthN (List.filter f views)).

Lemma count_view_cases c v :
  st_real (count_view c v) = count_if (states TruthClass.Real v) (st_real c) /\
  st_synthetic (count_view c v) = count_if (states TruthClass.Synthetic v) (st_synthetic c) /\
  st_unsupported (count_view c v) = count_if (states TruthClass.Unsupported v) (st_unsupported c) /\
  st_unknown (count_view c v) = count_if (states TruthClass.Unknown v) (st_unknown c) /\
  st_stale (count_view c v) = count_if (is_stale (ev_staleness v)) (st_stale c).
Proof.
  unfold count_view, states, view_statement. destruct (ev_winner v); cbn [negb]; [|done].
  destruct (ev_support v ==? _); [done|]. by destruct (provenance (ev_source v)).
Qed.

Lemma count_views views :
  let c := foldl count_view (mk_Statements 0 0 0 0 0) views in
  st_real c = tallied views (states TruthClass.Real) /\
  st_synthetic c = tallied views (states TruthClass.Synthetic) /\
  st_unsupported c = tallied views (states TruthClass.Unsupported) /\
  st_unknown c = tallied views (states TruthClass.Unknown) /\
  st_stale c = tallied views (fun v => is_stale (ev_staleness v)).
Proof.
  cbn zeta. unfold tallied. repeat apply conj.
  - rewrite (foldl_projection _ st_real (fun v => count_if (states TruthClass.Real v))) by apply count_view_cases.
    apply count_if_from_zero.
  - rewrite (foldl_projection _ st_synthetic (fun v => count_if (states TruthClass.Synthetic v))) by apply count_view_cases.
    apply count_if_from_zero.
  - rewrite (foldl_projection _ st_unsupported (fun v => count_if (states TruthClass.Unsupported v))) by apply count_view_cases.
    apply count_if_from_zero.
  - rewrite (foldl_projection _ st_unknown (fun v => count_if (states TruthClass.Unknown v))) by apply count_view_cases.
    apply count_if_from_zero.
  - rewrite (foldl_projection _ st_stale (fun v => count_if (is_stale (ev_staleness v)))) by apply count_view_cases.
    apply (count_if_from_zero (fun v => is_stale (ev_staleness v))).
Qed.

Lemma omap_total_length {A B} (f : A -> option B) l : (forall x, x ∈ l -> is_Some (f x)) -> length (omap f l) = length l.
Proof.
  induction l as [|x l IH]; intros H; cbn; [done|]. destruct (H x ltac:(left)) as [y ->]. cbn. f_equal. apply IH.
  intros z Hz. apply H. by right.
Qed.

(* ===================================================================== *)
(** ** Properties *)

(** A second snapshot of a registry that did not change in between has
    the same content and the same digest as the first; yet the first is then
    reported as no longer current, because the generations differ. *)
Theorem snapshot_reproducible now now' st st1 s1 :
  snapshot now st = (st1, inr s1) ->
  exists st2 s2, snapshot now' st1 = (st2, inr s2) /\
    unlabelled s2 = unlabelled s1 /\ rs_canonical_digest s2 = rs_canonical_digest s1 /\
    rs_generation s2 = gen_next (rs_generation s1) /\ snapshot_is_current s1 s2 = false.
Proof.
  intros (Hb & -> & ->)%snapshot_unfold. set (st0 := st <| r_snapshot_generation ::= gen_next |>).
  eexists _, _. split; [apply snapshot_unfold; split; [by destruct st|]; split; reflexivity|].
  assert (Hu : unlabelled (build_snapshot now' (relabelled (gen_next (r_snapshot_generation st))
      (r_usage st <| ru_snapshots_taken ::= u64_succ |>) st <| r_snapshot_generation ::= gen_next |>)) =
    unlabelled (build_snapshot now st0)).
  { rewrite <- (build_snapshot_relabelled now now' (gen_next (gen_next (r_snapshot_generation st)))
      (r_usage st <| ru_snapshots_taken ::= u64_succ |>) st0). by destruct st. }
  split; [exact Hu|]. split; [by apply (f_equal rs_canonical_digest) in Hu|]. split; [by destruct st|].
  unfold snapshot_is_current, detect_snapshot_staleness.
  change (rs_generation (build_snapshot now st0)) with (gen_next (r_snapshot_generation st)).
  change (rs_generation (build_snapshot _ _)) with (gen_next (gen_next (r_snapshot_generation st))).
  rewrite (gen_next_differs (gen_next _)). unfold raise_if at 1. apply N.eqb_neq. intros H.
  apply N.lor_eq_0_iff in H as [_ H]. done.
Qed.

(** A snapshot holds a subject per device, the answer to every known
    capability as a point query gives it (up to the record bound), all
    quirks, facts and publishers, and counts each selected view once under
    the truth it states; taking it changes only the snapshot generation and
    the usage counters. *)
Theorem snapshot_complete now st st' s :
  (forall k, is_Some (r_keys st !! k) -> is_Some (r_devices st !! k.1)) ->
  snapshot now st = (st', inr s) ->
  (exists generation usage, st' = relabelled generation usage st) /\
  rs_subjects s = list_devices st /\ rs_quirks s = list_quirks st /\
  (exists all, rs_capabilities s = take (N.to_nat (N.max 1 (max_snapshot_records (r_limits st)))) all /\
    lengthN all = sizeN (r_keys st) /\
    forall d c, is_Some (r_keys st !! (d, c)) -> exists device, find_device_locked st d = Some device /\
      resolve_locked st device c Gen_none ∅ ∈ all) /\
  let views := concat (map rc_evidence (rs_capabilities s)) in
  rs_real_statements s = tallied views (states TruthClass.Real) /\
  rs_synthetic_statements s = tallied views (states TruthClass.Synthetic) /\
  rs_unsupported_statements s = tallied views (states TruthClass.Unsupported) /\
  rs_unknown_statements s = tallied views (states TruthClass.Unknown) /\
  rs_stale_evidence_records s = tallied views (fun v => is_stale (ev_staleness v)).
Proof.
  intros Hkeys (_ & -> & ->)%snapshot_unfold. split; [by eexists _, _|]. split; [by destruct st|]. split; [by destruct st|].
  split; [|apply count_views]. exists (omap (snapshot_key st) (map_entries (r_keys st))). split; [|split].
  - change (rs_capabilities _) with (collect_until (max_snapshot_records (r_limits st))
      (snapshot_key (st <| r_snapshot_generation ::= gen_next |>)) (map_entries (r_keys st)) []).
    rewrite collect_until_nil. by destruct st.
  - rewrite <- length_map_entries. unfold lengthN. rewrite omap_total_length; [done|].
    intros [[d c] key] Hin%elem_of_map_entries. unfold snapshot_key, find_device_locked. cbn.
    destruct (Hkeys (d, c) ltac:(eauto)) as [device Hd]. cbn in Hd. rewrite Hd. eauto.
  - intros d c Hk. destruct (Hkeys _ Hk) as [device Hd], Hk as [key Hk]. exists device. split; [exact Hd|].
    apply list_elem_of_omap. exists ((d, c), key). split; [by apply elem_of_map_entries|].
    unfold snapshot_key, find_device_locked. cbn in Hd |- *. by rewrite Hd.
Qed.

(* ===================================================================== *)
(** ** Witnesses *)

Lemma snapshot_reproducible_witness :
  exists st1 s1 st2 s2, snapshot "t1" sample_fleet = (st1, inr s1) /\ snapshot "t2" st1 = (st2, inr s2) /\
    rs_canonical_digest s2 = rs_canonical_digest s1.
Proof.
  destruct (snapshot "t1" sample_fleet) as [st1 r] eqn:E.
  destruct r as [status|s1]; [exfalso; apply (f_equal snd) in E; vm_compute in E; discriminate|].
  destruct (snapshot_reproducible "t1" "t2" sample_fleet st1 s1 E) as (st2 & s2 & Hs & _ & Hd & _).
  exists st1, s1, st2, s2. split; [reflexivity|]. split; [exact Hs|exact Hd].
Defined.

Lemma snapshot_complete_witness :
  exists st s, snapshot "t" sample_fleet = (st, inr s) /\ rs_subjects s = list_devices sample_fleet.
Proof.
  destruct (snapshot "t" sample_fleet) as [st r] eqn:E.
  destruct r as [status|s]; [exfalso; apply (f_equal snd) in E; vm_compute in E; discriminate|].
  assert (Hk : forall k, is_Some (r_keys sample_fleet !! k) -> is_Some (r_devices sample_fleet !! k.1)).
  { intros k Hk. change (r_keys sample_fleet) with ({[(gpu, fp8) := mk_KeyState fp8_schema Gen_first true
      [stored_record (fp8_record nvml_source SupportState.SupportedNative (VBoolean true)) 1]]} : gmap KeyId KeyState) in Hk.
    apply lookup_singleton_is_Some in Hk. subst k. exists gpu_state. reflexivity. }
  destruct (snapshot_complete "t" sample_fleet st s Hk E) as (_ & Hs & _). exists st, s. split; [reflexivity|exact Hs].
Defined.
