(* ===== verification/Durable.v ===== *)
(** * Durable state

    Models [durable_state.hpp], [export_durable_state] and
    [import_durable_state] of [registry.cpp], and the durable digest and
    import report of [render.cpp]. An import stages everything it reads and
    commits at the end; the counter of serials is the one part of the
    registry it advances while it stages. *)

From S2P Require Import Prelude Tokens Versions Support Conditions Values Hardware Quirks Compat Publication.
From S2P Require Import RegistryState Fixtures Resolution Publishers Devices Knowledge Evidence Ingest Runs Catalog System.
From S2P Require Import Queries Render Snapshots.

Record DurableStateHeader := mk_DurableStateHeader {
  dh_format_version : N;
  dh_epoch : CoordinatorEpoch;
  dh_snapshot_generation : SnapshotGeneration;
  dh_state_revision : N;
  dh_created_at_utc : string;
  dh_producer : string
}.

#[global] Instance eta_DurableStateHeader : Eta DurableStateHeader := fun r =>
  mk_DurableStateHeader
    (dh_format_version r) (dh_epoch r) (dh_snapshot_generation r) (dh_state_revision r) (dh_created_at_utc r)
    (dh_producer r).

Record DurableState := mk_DurableState {
  du_header : DurableStateHeader;
  du_platforms : list PlatformIdentity;
  du_subjects : list SubjectSnapshot;
  du_schemas : list CapabilitySchema;
  du_capability_history : list CapabilityRecord;
  du_quirks : list QuirkRecord;
  du_compatibility : list CompatibilityFact;
  du_publisher_watermarks : list PublisherWatermark;
  du_fenced_boots : list PublisherWatermark;
  du_canonical_digest : N
}.

#[global] Instance eta_DurableState : Eta DurableState := fun r =>
  mk_DurableState
    (du_header r) (du_platforms r) (du_subjects r) (du_schemas r) (du_capability_history r) (du_quirks r)
    (du_compatibility r) (du_publisher_watermarks r) (du_fenced_boots r) (du_canonical_digest r).

Record ImportReport := mk_ImportReport {
  ir_applied : bool;
  ir_subjects : N;
  ir_schemas : N;
  ir_capability_records : N;
  ir_revalidated_records : N;
  ir_quirks : N;
  ir_compatibility_facts : N;
  ir_publishers : N;
  ir_fenced_boots : N;
  ir_detail : string
}.

Definition state_format_version : N := 1.
Definition version_string : string := "1.0.0".

(* ===================================================================== *)
(** ** The digest *)

Definition durable_platform_items (p : PlatformIdentity) : list DigestItem :=
  [mix_id (pl_id p); MixText (pl_display_name p); mix_id (pl_architecture p)].

Definition durable_subject_items (s : SubjectSnapshot) : list DigestItem :=
  let software := sj_software s in
  [mix_id (di_id (sj_identity s)); mix_id (di_incarnation (sj_identity s));
   MixText (canonical_key (di_hardware (sj_identity s))); mix_id (di_platform (sj_identity s));
   MixText (di_display_name (sj_identity s));
   mix_gen (sj_generation s); mix_gen (sj_boot s); mix_gen (sj_platform_generation s);
   mix_id (dv_id (sw_driver software)); MixText (dv_version (sw_driver software));
   mix_id (fw_id (sw_firmware software)); MixText (fw_version (sw_firmware software));
   mix_id (rt_id (sw_runtime software)); MixText (rt_version (sw_runtime software))].

Definition durable_schema_items (s : CapabilitySchema) : list DigestItem :=
  [mix_id (cs_id s); mix_id (cs_capability s); mix_enum (cs_value_kind s)].

Definition durable_record_items (r : CapabilityRecord) : list DigestItem :=
  let source := cr_source r in
  [mix_id (cr_device r); mix_id (cr_capability r); mix_id (cr_schema r); mix_gen (cr_device_generation r);
   mix_gen (cr_device_boot r); mix_gen (cr_capability_generation r); mix_enum (cr_support r); mix_enum (cr_precision r);
   MixText (value_describe (cr_value r)); MixText (describe_condition (cr_conditions r));
   mix_id (pi_id (publisher source)); mix_gen (pi_boot (publisher source)); mix_gen (pi_epoch (publisher source));
   mix_gen (evidence_generation source); mix_enum (source_class source); mix_enum (provenance source);
   MixText (adapter source); MixText (native_reference source); MixValue (observation_sequence source);
   mix_id (cr_driver_id r); mix_id (cr_firmware_id r); mix_id (cr_runtime_id r);
   mix_gen (cr_driver_generation r); mix_gen (cr_firmware_generation r); mix_gen (cr_runtime_generation r);
   mix_bool (cr_withdrawn r)].

Definition durable_quirk_items (q : QuirkRecord) : list DigestItem :=
  [mix_id (qr_id q); mix_gen (qr_generation q); MixText (qr_title q); mix_enum (qr_severity q);
   mix_enum (qr_category q)] ++
  map mix_id (qr_impacted_capabilities q).

Definition durable_fact_items (f : CompatibilityFact) : list DigestItem :=
  [mix_id (cf_id f); mix_gen (cf_generation f); mix_enum (cf_kind f); mix_enum (cf_outcome f);
   MixText (ref_token (cf_lhs f)); MixText (ref_token (cf_rhs f)); MixText (cf_reason f)].

Definition watermark_items (w : PublisherWatermark) : list DigestItem :=
  [mix_id (wm_publisher w); mix_gen (wm_boot w); MixValue (wm_max_sequence w); mix_gen (wm_max_evidence_generation w);
   mix_enum (wm_state w)].

Definition fenced_items (w : PublisherWatermark) : list DigestItem := [mix_id (wm_publisher w); mix_gen (wm_boot w)].

Definition durable_items (s : DurableState) : list DigestItem :=
  let header := du_header s in
  [MixText "hcr.durable.v1"; MixValue (dh_format_version header); mix_gen (dh_epoch header);
   mix_gen (dh_snapshot_generation header); MixValue (dh_state_revision header); MixText (dh_created_at_utc header);
   MixText (dh_producer header)] ++
  concat (map durable_platform_items (du_platforms s)) ++
  concat (map durable_subject_items (du_subjects s)) ++
  concat (map durable_schema_items (du_schemas s)) ++
  concat (map durable_record_items (du_capability_history s)) ++
  concat (map durable_quirk_items (du_quirks s)) ++
  concat (map durable_fact_items (du_compatibility s)) ++
  concat (map watermark_items (du_publisher_watermarks s)) ++
  concat (map fenced_items (du_fenced_boots s)).

Definition canonical_durable_digest (s : DurableState) : N := digest (durable_items s).

(* ===================================================================== *)
(** ** [export_durable_state] *)

Definition fenced_watermark (publisher : PublisherId) (boot : PublisherBootId) (reason : string) : PublisherWatermark :=
  default_watermark <| wm_publisher := publisher |> <| wm_boot := boot |> <| wm_state := PublisherState.Fenced |>
    <| wm_reason := reason |>.

(** The fenced boots of one publisher: those other than its registered boot,
    and that boot when the publisher itself is fenced. *)
Definition exported_fences (entry : PublisherId * PublisherStateInternal) : list PublisherWatermark :=
  let publisher := entry.2 in
  let boot := pi_boot (pr_identity (ps_record publisher)) in
  map (fun b => fenced_watermark entry.1 b "boot superseded or fenced")
    (List.filter (fun b => b !=? boot) (set_entries (ps_fenced_boots publisher))) ++
  (if ps_publisher_fenced publisher && gen_valid boot
   then [fenced_watermark entry.1 boot (pr_reason (ps_record publisher))] else []).

Definition history_ltb (a b : CapabilityRecord) : bool :=
  if cr_device a !=? cr_device b then key_ltb (cr_device a) (cr_device b)
  else if cr_capability a !=? cr_capability b then key_ltb (cr_capability a) (cr_capability b)
  else if cr_capability_generation a !=? cr_capability_generation b
  then gen_ltb (cr_capability_generation a) (cr_capability_generation b)
  else if pi_id (publisher (cr_source a)) !=? pi_id (publisher (cr_source b))
  then key_ltb (pi_id (publisher (cr_source a))) (pi_id (publisher (cr_source b)))
  else observation_sequence (cr_source a) <? observation_sequence (cr_source b).

Definition watermark_ltb (a b : PublisherWatermark) : bool :=
  if wm_publisher a !=? wm_publisher b then key_ltb (wm_publisher a) (wm_publisher b)
  else gen_ltb (wm_boot a) (wm_boot b).

(** Orders by an identity. *)
Definition by_id {A tag} (id : A -> Id tag) (a b : A) : bool := key_ltb (id a) (id b).

Definition export_durable_state (now : string) (st : Registry) : DurableState :=
  let s := {|
    du_header := mk_DurableStateHeader state_format_version (r_epoch st) (r_snapshot_generation st)
      (r_state_revision st) now ("HardwareCapabilityRegistry " +:+ version_string)%string;
    du_platforms := std_sort (by_id pl_id) (map snd (map_entries (r_platforms st)));
    du_subjects := std_sort (by_id (fun s => di_id (sj_identity s))) (list_devices st);
    du_schemas := map snd (map_entries (r_schemas st));
    du_capability_history := std_sort history_ltb
      (concat (map (fun entry : KeyId * KeyState => map sr_record (ks_records entry.2)) (map_entries (r_keys st))));
    du_quirks := std_sort (by_id qr_id) (map snd (map_entries (r_quirks st)));
    du_compatibility := std_sort (by_id cf_id) (map snd (map_entries (r_compatibility st)));
    du_publisher_watermarks := std_sort watermark_ltb
      (map (fun entry : PublisherId * PublisherStateInternal => watermark_for entry.1 entry.2)
         (map_entries (r_publishers st)));
    du_fenced_boots := std_sort watermark_ltb (concat (map exported_fences (map_entries (r_publishers st))));
    du_canonical_digest := 0 |} in
  s <| du_canonical_digest := canonical_durable_digest s |>.

(* ===================================================================== *)
(** ** [import_durable_state]: staging *)

(** A validation loop that threads what it staged. *)
Fixpoint try_fold {A S : Type} (f : A -> S -> Status + S) (l : list A) (s : S) : Status + S :=
  match l with
  | [] => inr s
  | x :: rest => match f x s with inl status => inl status | inr s => try_fold f rest s end
  end.

Record StagedSubjects := mk_StagedSubjects {
  sg_devices : gmap DeviceId DeviceState;
  sg_families : gset HardwareFamilyId;
  sg_models : gset HardwareModelId;
  sg_architectures : gset ArchitectureId
}.

Definition insert_if {tag} (id : Id tag) (s : gset (Id tag)) : gset (Id tag) :=
  if id_valid id then {[id]} ∪ s else s.

Definition staged_device (subject : SubjectSnapshot) : DeviceState :=
  mk_DeviceState (sj_identity subject) (sj_software subject) (sj_generation subject) (sj_boot subject)
    (if gen_valid (sj_platform_generation subject) then sj_platform_generation subject else Gen_first).

Definition stage_subject (limits : RegistryLimits) (subject : SubjectSnapshot) (s : StagedSubjects) :
    Status + StagedSubjects :=
  let identity := sj_identity subject in
  let hardware := di_hardware identity in
  if negb (id_valid (di_id identity)) || negb (id_valid (di_incarnation identity))
  then inl (failure InvalidIdentity "durable state contains an invalid device identity")
  else if negb (gen_valid (sj_generation subject)) || negb (gen_valid (sj_boot subject))
  then inl (failure InvalidIdentity "durable state contains an invalid device generation or boot")
  else if negb (status_ok (validate_device_identity identity limits))
  then inl (validate_device_identity identity limits)
  else if bool_decide (is_Some (sg_devices s !! di_id identity))
  then inl (failure InvalidIdentity "durable state declares the same device identity twice")
  else if id_valid (hi_family hardware) && (max_families limits <=? set_sizeN (sg_families s)) &&
          negb (bool_decide (hi_family hardware ∈ sg_families s))
  then inl (failure LimitExceeded "durable state exceeds the hardware family bound")
  else inr (mk_StagedSubjects
    (emplace (di_id identity) (staged_device subject) (sg_devices s))
    (insert_if (hi_family hardware) (sg_families s))
    (insert_if (hi_model hardware) (sg_models s))
    (insert_if (hi_architecture hardware) (sg_architectures s))).

Definition stage_platform (platform : PlatformIdentity) (s : gmap PlatformId PlatformIdentity) :
    Status + gmap PlatformId PlatformIdentity :=
  if negb (id_valid (pl_id platform))
  then inl (failure InvalidIdentity "durable state contains an invalid platform identity")
  else inr (emplace (pl_id platform) platform s).

Record StagedSchemas := mk_StagedSchemas {
  sg_schemas : gmap CapabilitySchemaId CapabilitySchema;
  sg_capability_schemas : gmap CapabilityId CapabilitySchemaId
}.

Definition stage_schema (limits : RegistryLimits) (schema : CapabilitySchema) (s : StagedSchemas) :
    Status + StagedSchemas :=
  if negb (status_ok (validate_capability_schema schema limits)) then inl (validate_capability_schema schema limits)
  else match sg_schemas s !! cs_id schema with
  | Some existing =>
      if negb (same_schema existing schema)
      then inl (failure DuplicateConflict
                  ("durable state redefines schema " +:+ id_str (cs_id schema) +:+ " with different content")%string)
      else inr s
  | None =>
      match sg_capability_schemas s !! cs_capability schema with
      | Some _ => inl (failure DuplicateConflict
                         ("durable state binds capability " +:+ id_str (cs_capability schema) +:+ " twice")%string)
      | None => inr (mk_StagedSchemas (emplace (cs_id schema) schema (sg_schemas s))
                       (emplace (cs_capability schema) (cs_id schema) (sg_capability_schemas s)))
      end
  end.

(** The keys, the registry's serial counter and the two counts of the loop
    over the history. *)
Record StagedRecords := mk_StagedRecords {
  sg_keys : gmap KeyId KeyState;
  sg_next_serial : N;
  sg_records : N;
  sg_revalidated : N
}.

(** [KeyState{}]. *)
Definition default_key_state : KeyState := mk_KeyState Id_none Gen_none false [].

Definition import_slot (record : CapabilityRecord) : string :=
  let source := cr_source record in
  (id_str (pi_id (publisher source)) +:+ "#" +:+ gen_str (pi_boot (publisher source)) +:+ "#" +:+
   source_class_to_string (source_class source) +:+ "#" +:+ native_reference source +:+ "#" +:+
   precision_class_to_string (cr_precision record))%string.

(** What the loop checks before it touches the key. *)
Definition check_record (limits : RegistryLimits) (devices : gmap DeviceId DeviceState)
    (schemas : gmap CapabilitySchemaId CapabilitySchema) (record : CapabilityRecord) : Status :=
  try! validate_capability_record record limits;
  match devices !! cr_device record with
  | None => failure InvalidReference
              ("durable state references unregistered device " +:+ id_str (cr_device record))%string
  | Some device =>
      match schemas !! cr_schema record with
      | None => failure InvalidCapability
                  ("durable state references unknown schema " +:+ id_str (cr_schema record))%string
      | Some schema =>
          return_if cs_capability schema !=? cr_capability record failing InvalidCapability
            ("durable state binds capability " +:+ id_str (cr_capability record) +:+
             " to a schema that describes another capability")%string;
          return_if gen_ltb (ds_generation device) (cr_device_generation record)
            failing StaleDeviceGeneration "durable state contains evidence for a future device generation";
          if negb (value_empty (cr_value record)) then validate_value (cr_value record) limits else success
      end
  end.

(** The key of a record with its schema and generation brought up to date. *)
Definition stage_key (record : CapabilityRecord) (key : KeyState) : Status + KeyState :=
  let key := if negb (id_valid (ks_schema key)) then key <| ks_schema := cr_schema record |> else key in
  if ks_schema key !=? cr_schema record
  then inl (failure InvalidCapability "durable state binds one capability to several schemas")
  else if gen_valid (cr_capability_generation record) then
    if gen_valid (ks_generation key) && gen_ltb (cr_capability_generation record) (ks_generation key)
    then inl (failure GenerationRegression "durable state regresses a capability generation")
    else inr (key <| ks_generation := cr_capability_generation record |> <| ks_has_evidence := true |>)
  else inr (key <| ks_has_evidence := true |>).

Definition stage_record (limits : RegistryLimits) (devices : gmap DeviceId DeviceState)
    (schemas : gmap CapabilitySchemaId CapabilitySchema) (record : CapabilityRecord) (s : StagedRecords) :
    Status + StagedRecords :=
  let status := check_record limits devices schemas record in
  if negb (status_ok status) then inl status
  else
    let key_id := (cr_device record, cr_capability record) in
    match stage_key record (default default_key_state (sg_keys s !! key_id)) with
    | inl status => inl status
    | inr key =>
        let serial := u64_succ (sg_next_serial s) in
        let stored := mk_StoredRecord record flag_None (import_slot record) serial in
        inr (mk_StagedRecords
          (<[key_id := key <| ks_records ::= fun l => map (supersede_slot (import_slot record)) l ++ [stored] |>]> (sg_keys s))
          serial (u64_succ (sg_records s))
          (count_if (negb (provenance_is_durable (provenance (cr_source record)))) (sg_revalidated s)))
    end.

(** The loop over the history: on a failure, the status with what was staged
    until then, of which the registry keeps the serial counter. *)
Fixpoint stage_records (limits : RegistryLimits) (devices : gmap DeviceId DeviceState)
    (schemas : gmap CapabilitySchemaId CapabilitySchema) (records : list CapabilityRecord) (s : StagedRecords) :
    Status * StagedRecords :=
  match records with
  | [] => (success, s)
  | record :: rest =>
      match stage_record limits devices schemas record s with
      | inl status => (status, s)
      | inr s => stage_records limits devices schemas rest s
      end
  end.

Definition stage_quirk (limits : RegistryLimits) (capabilities : gmap CapabilityId CapabilitySchemaId)
    (quirk : QuirkRecord) (s : gmap QuirkId QuirkRecord) : Status + gmap QuirkId QuirkRecord :=
  if negb (status_ok (validate_quirk_record quirk limits)) then inl (validate_quirk_record quirk limits)
  else match List.find (fun c => negb (bool_decide (is_Some (capabilities !! c)))) (qr_impacted_capabilities quirk) with
  | Some capability =>
      inl (failure InvalidReference ("durable state quirk impacts unknown capability " +:+ id_str capability)%string)
  | None =>
      if bool_decide (is_Some (s !! qr_id quirk))
      then inl (failure DuplicateConflict "durable state declares a quirk twice")
      else inr (emplace (qr_id quirk) quirk s)
  end.

Definition staged_reference_resolves (s : StagedSubjects) (platforms : gmap PlatformId PlatformIdentity)
    (reference : HardwareReference) : bool :=
  let token := ref_token reference in
  match ref_kind reference with
  | ReferenceKind.Device => bool_decide (is_Some (sg_devices s !! Id_parse token))
  | ReferenceKind.Platform => bool_decide (is_Some (platforms !! Id_parse token))
  | ReferenceKind.HardwareFamily => bool_decide (Id_parse token ∈ sg_families s)
  | ReferenceKind.HardwareModel => bool_decide (Id_parse token ∈ sg_models s)
  | ReferenceKind.Architecture => bool_decide (Id_parse token ∈ sg_architectures s)
  | _ => true
  end.

Definition stage_fact (limits : RegistryLimits) (subjects : StagedSubjects)
    (platforms : gmap PlatformId PlatformIdentity) (fact : CompatibilityFact)
    (s : gmap CompatibilityFactId CompatibilityFact) : Status + gmap CompatibilityFactId CompatibilityFact :=
  if negb (status_ok (validate_compatibility_fact fact limits)) then inl (validate_compatibility_fact fact limits)
  else if negb (staged_reference_resolves subjects platforms (cf_lhs fact)) ||
          negb (staged_reference_resolves subjects platforms (cf_rhs fact))
  then inl (failure InvalidReference
              ("durable state compatibility fact " +:+ id_str (cf_id fact) +:+ " has a dangling reference")%string)
  else if bool_decide (is_Some (s !! cf_id fact))
  then inl (failure DuplicateConflict "durable state declares a compatibility fact twice")
  else inr (emplace (cf_id fact) fact s).

Definition stage_watermark (watermark : PublisherWatermark) (s : gmap PublisherId PublisherStateInternal) :
    Status + gmap PublisherId PublisherStateInternal :=
  if negb (id_valid (wm_publisher watermark))
  then inl (failure InvalidIdentity "durable state contains an invalid publisher id")
  else
    let publisher := default default_publisher_state (s !! wm_publisher watermark) in
    let publisher :=
      if negb (id_valid (pi_id (pr_identity (ps_record publisher)))) then
        publisher <| ps_record ::= fun record => record
          <| pr_identity ::= fun i => i <| pi_id := wm_publisher watermark |> <| pi_boot := wm_boot watermark |> |>
          <| pr_adapter := wm_adapter watermark |>
          <| pr_registered_at_utc := wm_registered_at_utc watermark |>
          <| pr_accepted := wm_accepted watermark |>
          <| pr_rejected := wm_rejected watermark |>
          <| pr_max_evidence_generation := wm_max_evidence_generation watermark |> |>
      else publisher in
    if bool_decide (is_Some (ps_watermarks publisher !! wm_boot watermark))
    then inl (failure DuplicateConflict "durable state declares a publisher boot watermark twice")
    else inr (<[wm_publisher watermark := publisher
      <| ps_watermarks ::= emplace (wm_boot watermark) watermark |>
      <| ps_boot_history ::= u64_succ |>]> s).

Definition stage_fence (fenced : PublisherWatermark) (s : gmap PublisherId PublisherStateInternal) :
    Status + gmap PublisherId PublisherStateInternal :=
  if negb (id_valid (wm_publisher fenced)) || negb (gen_valid (wm_boot fenced))
  then inl (failure InvalidIdentity "durable state contains an invalid fenced boot identity")
  else
    let publisher := default default_publisher_state (s !! wm_publisher fenced) in
    let publisher :=
      if negb (id_valid (pi_id (pr_identity (ps_record publisher)))) then
        publisher <| ps_record ::= fun record => record
          <| pr_identity ::= fun i => i <| pi_id := wm_publisher fenced |> |> |>
      else publisher in
    inr (<[wm_publisher fenced := publisher <| ps_fenced_boots ::= fun boots => {[wm_boot fenced]} ∪ boots |>]> s).

(* ===================================================================== *)
(** ** [import_durable_state]: checks and commit *)

(** The bounds checked before anything is staged. *)
Definition check_image (state : DurableState) (limits : RegistryLimits) : Status :=
  return_if negb (dh_format_version (du_header state) =? state_format_version) failing UnsupportedVersion
    ("state format version " +:+ pretty (dh_format_version (du_header state)) +:+ " is not supported by this build")%string;
  return_if negb (du_canonical_digest state =? 0) && negb (canonical_durable_digest state =? du_canonical_digest state)
    failing IntegrityFailure "durable state digest does not match its contents";
  return_if max_devices limits <? lengthN (du_subjects state)
    failing LimitExceeded "durable state exceeds the device bound";
  return_if max_evidence_history limits <? lengthN (du_capability_history state)
    failing LimitExceeded "durable state exceeds the evidence bound";
  return_if max_quirks limits <? lengthN (du_quirks state)
    failing LimitExceeded "durable state exceeds the quirk bound";
  return_if max_compatibility_facts limits <? lengthN (du_compatibility state)
    failing LimitExceeded "durable state exceeds the compatibility bound";
  return_if wrap64 (max_publishers limits * 64) <? lengthN (du_publisher_watermarks state)
    failing LimitExceeded "durable state exceeds the publisher bound";
  success.

(** Everything an import stages. *)
Record Staged := mk_Staged {
  sd_subjects : StagedSubjects;
  sd_platforms : gmap PlatformId PlatformIdentity;
  sd_schemas : StagedSchemas;
  sd_records : StagedRecords;
  sd_quirks : gmap QuirkId QuirkRecord;
  sd_compatibility : gmap CompatibilityFactId CompatibilityFact;
  sd_publishers : gmap PublisherId PublisherStateInternal
}.

(** What is staged after the history. *)
Definition stage_rest (state : DurableState) (limits : RegistryLimits) (subjects : StagedSubjects)
    (platforms : gmap PlatformId PlatformIdentity) (schemas : StagedSchemas) (records : StagedRecords) : Status + Staged :=
  match try_fold (stage_quirk limits (sg_capability_schemas schemas)) (du_quirks state) ∅ with
  | inl status => inl status
  | inr quirks =>
  match try_fold (stage_fact limits subjects platforms) (du_compatibility state) ∅ with
  | inl status => inl status
  | inr compatibility =>
  match try_fold stage_watermark (du_publisher_watermarks state) ∅ with
  | inl status => inl status
  | inr publishers =>
  match try_fold stage_fence (du_fenced_boots state) publishers with
  | inl status => inl status
  | inr publishers =>
      if max_publishers limits <? sizeN publishers
      then inl (failure LimitExceeded "durable state exceeds the publisher bound")
      else inr (mk_Staged subjects platforms schemas records quirks compatibility publishers)
  end end end end.

(** Process liveness is never restored. *)
Definition retire_imported (publisher : PublisherStateInternal) : PublisherStateInternal :=
  let boot := pi_boot (pr_identity (ps_record publisher)) in
  publisher
    <| ps_fenced_boots ::= fun boots => if gen_valid boot then {[boot]} ∪ boots else boots |>
    <| ps_record ::= fun record => record
         <| pr_state := PublisherState.Dead |>
         <| pr_reason ::= fun reason =>
              if is_empty reason then "coordinator restarted; publisher liveness is not restored"%string else reason |> |>.

(** The per-device index rebuilt from the keys. *)
Definition index_of_keys (keys : gmap KeyId KeyState) : gmap DeviceId (gset CapabilityId) :=
  foldl (fun index (entry : KeyId * KeyState) =>
    <[entry.1.1 := {[entry.1.2]} ∪ default ∅ (index !! entry.1.1)]> index) ∅ (map_entries keys).

Definition order_of_keys (keys : gmap KeyId KeyState) : list GlobalEntry :=
  concat (map (fun entry : KeyId * KeyState => map (fun r => mk_GlobalEntry entry.1 (sr_serial r)) (ks_records entry.2))
            (map_entries keys)).

(** [if (imported.valid() && imported > current) current = imported;] *)
Definition raise_gen {tag} (imported current : Gen tag) : Gen tag :=
  if gen_valid imported && gen_ltb current imported then imported else current.

Definition commit_import (state : DurableState) (s : Staged) (st : Registry) : Registry :=
  let keys := sg_keys (sd_records s) in
  touch_locked (st
    <| r_devices := sg_devices (sd_subjects s) |>
    <| r_platforms := sd_platforms s |>
    <| r_families := sg_families (sd_subjects s) |>
    <| r_models := sg_models (sd_subjects s) |>
    <| r_architectures := sg_architectures (sd_subjects s) |>
    <| r_schemas := sg_schemas (sd_schemas s) |>
    <| r_capability_schemas := sg_capability_schemas (sd_schemas s) |>
    <| r_keys := keys |>
    <| r_device_keys := index_of_keys keys |>
    <| r_quirks := sd_quirks s |>
    <| r_compatibility := sd_compatibility s |>
    <| r_publishers := retire_imported <$> sd_publishers s |>
    <| r_evidence_count := sg_records (sd_records s) |>
    <| r_global_order := order_of_keys keys |>
    <| r_epoch ::= raise_gen (dh_epoch (du_header state)) |>
    <| r_snapshot_generation ::= raise_gen (dh_snapshot_generation (du_header state)) |>
    <| r_state_revision := dh_state_revision (du_header state) |>).

Definition import_report (state : DurableState) (s : Staged) : ImportReport :=
  let revalidated := sg_revalidated (sd_records s) in
  mk_ImportReport true (sizeN (sg_devices (sd_subjects s))) (lengthN (du_schemas state)) (sg_records (sd_records s))
    revalidated (sizeN (sd_quirks s)) (sizeN (sd_compatibility s)) (sizeN (sd_publishers s))
    (lengthN (du_fenced_boots state))
    ("durable state applied; " +:+ pretty revalidated +:+ " process-bound evidence records require revalidation")%string.

Definition import_durable_state (state : DurableState) (st : Registry) : Registry * (Status + ImportReport) :=
  let limits := r_limits st in
  let status := check_image state limits in
  if negb (status_ok status) then (st, inl status)
  else match try_fold (stage_subject limits) (du_subjects state) (mk_StagedSubjects ∅ ∅ ∅ ∅) with
  | inl status => (st, inl status)
  | inr subjects =>
  match try_fold stage_platform (du_platforms state) ∅ with
  | inl status => (st, inl status)
  | inr platforms =>
  match try_fold (stage_schema limits) (du_schemas state) (mk_StagedSchemas (r_schemas st) (r_capability_schemas st)) with
  | inl status => (st, inl status)
  | inr schemas =>
      let '(status, records) := stage_records limits (sg_devices subjects) (sg_schemas schemas)
        (du_capability_history state) (mk_StagedRecords ∅ (r_next_serial st) 0 0) in
      let st := st <| r_next_serial := sg_next_serial records |> in
      if negb (status_ok status) then (st, inl status)
      else match stage_rest state limits subjects platforms schemas records with
      | inl status => (st, inl status)
      | inr s => (commit_import state s st, inr (import_report state s))
      end
  end end end.

Definition render_import_report (report : ImportReport) : string :=
  ((if ir_applied report then "import applied" else "import not applied") +:+
   " subjects=" +:+ number (ir_subjects report) +:+ " schemas=" +:+ number (ir_schemas report) +:+
   " capability-records=" +:+ number (ir_capability_records report) +:+
   " revalidated=" +:+ number (ir_revalidated_records report) +:+
   " quirks=" +:+ number (ir_quirks report) +:+ " compatibility=" +:+ number (ir_compatibility_facts report) +:+
   " publishers=" +:+ number (ir_publishers report) +:+ " fenced-boots=" +:+ number (ir_fenced_boots report) +:+
   (if negb (is_empty (ir_detail report)) then " :: " +:+ ir_detail report else ""))%string.

(* ===================================================================== *)
(** ** Lemmas: staging a map *)

Section Staging.
Context {A S K V : Type} `{Countable K}.
Context (f : A -> S -> Status + S) (g : S -> gmap K V) (key : A -> K) (value : A -> V).
Context (Hf : forall x s s', f x s = inr s' -> g s' = emplace (key x) (value x) (g s)).

Lemma lookup_emplace (k k' : K) (v : V) (m : gmap K V) :
  emplace k v m !! k' = match m !! k' with Some w => Some w | None => if decide (k = k') then Some v else None end.
Proof.
  unfold emplace. destruct (m !! k) as [w|] eqn:E.
  - destruct (m !! k') eqn:E'; [done|]. rewrite decide_False; [done|]. congruence.
  - destruct (decide (k = k')) as [<-|].
    + by rewrite lookup_insert_eq, E.
    + rewrite lookup_insert_ne by done. by destruct (m !! k').
Qed.

(** The first entry of each key is staged. *)
Lemma try_fold_emplace l : forall s s' k v,
  NoDup (map key l) -> try_fold f l s = inr s' ->
  g s' !! k = Some v <-> g s !! k = Some v \/ (g s !! k = None /\ exists x, x ∈ l /\ key x = k /\ value x = v).
Proof.
  induction l as [|x l IH]; intros s s' k v Hn Hl; cbn in Hl.
  - injection Hl as <-. set_solver.
  - destruct (f x s) as [status|s1] eqn:E; [done|]. cbn [map] in Hn. apply NoDup_cons in Hn as [Hx Hn].
    rewrite (IH _ _ _ _ Hn Hl), (Hf _ _ _ E), lookup_emplace.
    assert (Hkx : forall y, y ∈ l -> key y <> key x)
      by (intros y Hy Heq; apply Hx; rewrite <- Heq; by apply (list_elem_of_fmap_2 key)).
    destruct (g s !! k) as [w|] eqn:Ek; [naive_solver|]. destruct (decide (key x = k)) as [<-|Hne].
    + split; [intros [[= <-]|[? _]]; [|done]; right; split; [done|]; exists x; split; [by left|done]|].
      intros [?|(_ & y & Hy & Hky & <-)]; [done|]. apply elem_of_cons in Hy as [->|Hy]; [by left|]. by destruct (Hkx y Hy).
    + setoid_rewrite elem_of_cons. naive_solver.
Qed.
End Staging.

(** The values of a table filed under their identities, in the order of any
    sort, are staged as the table. *)
Section ExportedTable.
Context {A S V R : Type} {tag : IdTag}.
Context (f : A -> S -> Status + S) (g : S -> gmap (Id tag) V) (key : A -> Id tag) (value : A -> V).
Context (Hf : forall x s s', f x s = inr s' -> g s' = emplace (key x) (value x) (g s)).
Context (export : R -> A) (restore : R -> V) (lt : A -> A -> bool) (m : gmap (Id tag) R).
Context (Hkeyed : forall id r, m !! id = Some r -> key (export r) = id /\ value (export r) = restore r).

Let exported : list A := std_sort lt (map (fun entry : Id tag * R => export entry.2) (map_entries m)).

Lemma elem_of_exported x : x ∈ exported <-> exists id r, m !! id = Some r /\ x = export r.
Proof.
  unfold exported. rewrite elem_of_std_sort. split.
  - intros ([id r] & -> & Hin%elem_of_map_entries)%list_elem_of_fmap. eauto.
  - intros (id & r & Hr & ->). apply (list_elem_of_fmap_2 (fun entry : Id tag * R => export entry.2) _ (id, r)).
    by apply elem_of_map_entries.
Qed.

Lemma exported_keys_NoDup : NoDup (map key exported).
Proof.
  unfold exported. assert (Hp : map key (std_sort lt (map (fun entry : Id tag * R => export entry.2) (map_entries m))) ≡ₚ
    (map_entries m).*1).
  { rewrite (std_sort_perm lt), map_map. apply Permutation_refl', list_fmap_ext. intros i [id r] Hi. cbn.
    apply list_elem_of_lookup_2, elem_of_map_entries in Hi. by apply Hkeyed. }
  rewrite Hp. apply NoDup_map_entries.
Qed.

Lemma staged_table s s' : g s = ∅ -> try_fold f exported s = inr s' -> g s' = restore <$> m.
Proof.
  intros Hs Hl. apply map_eq. intros id. rewrite lookup_fmap. apply option_eq. intros v.
  rewrite (try_fold_emplace f g key value Hf _ _ _ _ _ exported_keys_NoDup Hl), Hs, lookup_empty.
  split.
  - intros [?|(_ & x & Hx & Hk & <-)]; [done|]. apply elem_of_exported in Hx as (id' & r & Hr & ->).
    destruct (Hkeyed _ _ Hr) as [<- Hv]. rewrite Hk in Hr. rewrite Hr. cbn. by rewrite Hv.
  - intros Hm. destruct (m !! id) as [r|] eqn:Hr; [|done]. injection Hm as <-. right. split; [done|].
    exists (export r). destruct (Hkeyed _ _ Hr). split; [apply elem_of_exported; eauto|done].
Qed.
End ExportedTable.

(* ===================================================================== *)
(** ** Lemmas: what the staging steps do *)

Lemma stage_subject_emplace limits x s s' :
  stage_subject limits x s = inr s' ->
  sg_devices s' = emplace (di_id (sj_identity x)) (staged_device x) (sg_devices s).
Proof. unfold stage_subject. repeat (destruct (_ : bool); [discriminate|]). by intros [= <-]. Qed.

Lemma stage_platform_emplace x s s' : stage_platform x s = inr s' -> s' = emplace (pl_id x) x s.
Proof. unfold stage_platform. destruct (negb _); [discriminate|]. by intros [= <-]. Qed.

Lemma stage_quirk_emplace limits capabilities x s s' :
  stage_quirk limits capabilities x s = inr s' -> s' = emplace (qr_id x) x s.
Proof. unfold stage_quirk. repeat case_match; try discriminate. by intros [= <-]. Qed.

Lemma stage_fact_emplace limits subjects platforms x s s' :
  stage_fact limits subjects platforms x s = inr s' -> s' = emplace (cf_id x) x s.
Proof. unfold stage_fact. repeat case_match; try discriminate. by intros [= <-]. Qed.

Definition record_key (r : CapabilityRecord) : KeyId := (cr_device r, cr_capability r).

(** The records a table of keys holds of one key. *)
Definition records_at (keys : gmap KeyId KeyState) (k : KeyId) : list CapabilityRecord :=
  map sr_record (from_option ks_records [] (keys !! k)).

Lemma supersede_slot_records slot l : map sr_record (map (supersede_slot slot) l) = map sr_record l.
Proof. rewrite map_map. apply map_ext. intros r. unfold supersede_slot. by destruct (_ ==? _). Qed.

Lemma stage_key_records record key key' : stage_key record key = inr key' -> ks_records key' = ks_records key.
Proof.
  unfold stage_key. destruct (negb (id_valid (ks_schema key)));
    repeat case_match; try discriminate; by intros [= <-].
Qed.

(** The record is appended to its key, checked against its device and schema. *)
Lemma stage_record_appends limits devices schemas record s s' :
  stage_record limits devices schemas record s = inr s' ->
  status_ok (check_record limits devices schemas record) = true /\
  (forall k, records_at (sg_keys s') k =
     records_at (sg_keys s) k ++ if decide (record_key record = k) then [record] else []) /\
  sg_records s' = u64_succ (sg_records s).
Proof.
  unfold stage_record. destruct (status_ok (check_record limits devices schemas record)) eqn:Ec; cbn [negb]; [|done].
  destruct (stage_key record _) as [status|key] eqn:Ek; [done|]. intros [= <-]. apply stage_key_records in Ek.
  split; [done|]. split; [|done]. intros k. unfold records_at, record_key. cbn [sg_keys].
  destruct (decide ((cr_device record, cr_capability record) = k)) as [<-|Hne].
  - rewrite lookup_insert_eq. cbn [from_option]. change (ks_records (key <| ks_records ::= _ |>)) with
      (map (supersede_slot (import_slot record)) (ks_records key) ++
       [mk_StoredRecord record flag_None (import_slot record) (u64_succ (sg_next_serial s))]).
    rewrite map_app, supersede_slot_records, Ek. by destruct (sg_keys s !! _).
  - rewrite lookup_insert_ne, app_nil_r by done. done.
Qed.

Lemma stage_record_fails limits devices schemas record s status :
  stage_record limits devices schemas record s = inl status -> status_ok status = false.
Proof.
  unfold stage_record. destruct (status_ok (check_record limits devices schemas record)) eqn:Ec; cbn [negb].
  - destruct (stage_key record _) as [status'|key] eqn:Ek; [|done]. intros [= <-]. revert Ek. unfold stage_key.
    repeat case_match; try discriminate; by intros [= <-].
  - by intros [= <-].
Qed.

Lemma stage_records_appends limits devices schemas records s status s' :
  stage_records limits devices schemas records s = (status, s') -> status_ok status = true ->
  Forall (fun r => status_ok (check_record limits devices schemas r) = true) records /\
  (forall k, records_at (sg_keys s') k =
     records_at (sg_keys s) k ++ List.filter (fun r => record_key r ==? k) records).
Proof.
  revert s. induction records as [|r records IH]; intros s; cbn [stage_records].
  - intros [= <- <-] _. split; [constructor|]. intros k. cbn. by rewrite app_nil_r.
  - destruct (stage_record limits devices schemas r s) as [status1|s1] eqn:E.
    + intros [= <- <-] Hok. apply stage_record_fails in E. congruence.
    + intros Hs Hok. destruct (stage_record_appends _ _ _ _ _ _ E) as (Hc & Hr & _).
      destruct (IH _ Hs Hok) as [Hall Hk]. split; [by constructor|]. intros k. rewrite Hk, Hr, <- app_assoc. f_equal.
      cbn [List.filter]. unfold eqb. by destruct (decide (record_key r = k)) as [->|Hne];
        [rewrite bool_decide_true|rewrite bool_decide_false].
Qed.

(** The stages of a successful import. *)
Record imported (state : DurableState) (st : Registry) (s : Staged) : Prop := {
  im_image : status_ok (check_image state (r_limits st)) = true;
  im_subjects : try_fold (stage_subject (r_limits st)) (du_subjects state) (mk_StagedSubjects ∅ ∅ ∅ ∅) = inr (sd_subjects s);
  im_platforms : try_fold stage_platform (du_platforms state) ∅ = inr (sd_platforms s);
  im_schemas : try_fold (stage_schema (r_limits st)) (du_schemas state)
    (mk_StagedSchemas (r_schemas st) (r_capability_schemas st)) = inr (sd_schemas s);
  im_records : exists status, stage_records (r_limits st) (sg_devices (sd_subjects s)) (sg_schemas (sd_schemas s))
    (du_capability_history state) (mk_StagedRecords ∅ (r_next_serial st) 0 0) = (status, sd_records s) /\
    status_ok status = true;
  im_quirks : try_fold (stage_quirk (r_limits st) (sg_capability_schemas (sd_schemas s))) (du_quirks state) ∅ =
    inr (sd_quirks s);
  im_compatibility : try_fold (stage_fact (r_limits st) (sd_subjects s) (sd_platforms s)) (du_compatibility state) ∅ =
    inr (sd_compatibility s);
  im_publishers : exists watermarks, try_fold stage_watermark (du_publisher_watermarks state) ∅ = inr watermarks /\
    try_fold stage_fence (du_fenced_boots state) watermarks = inr (sd_publishers s)
}.

Lemma import_success state st st' report :
  import_durable_state state st = (st', inr report) ->
  exists s, imported state st s /\ report = import_report state s /\
    st' = commit_import state s (st <| r_next_serial := sg_next_serial (sd_records s) |>).
Proof.
  unfold import_durable_state.
  destruct (status_ok (check_image state (r_limits st))) eqn:Hi; cbn [negb]; [|done].
  destruct (try_fold (stage_subject _) _ _) as [?|subjects] eqn:Hs; [done|].
  destruct (try_fold stage_platform _ _) as [?|platforms] eqn:Hp; [done|].
  destruct (try_fold (stage_schema _) _ _) as [?|schemas] eqn:Hc; [done|].
  destruct (stage_records _ _ _ _ _) as [status records] eqn:Hr.
  destruct (status_ok status) eqn:Hok; cbn [negb]; [|done]. unfold stage_rest.
  destruct (try_fold (stage_quirk _ _) _ _) as [?|quirks] eqn:Hq; [done|].
  destruct (try_fold (stage_fact _ _ _) _ _) as [?|facts] eqn:Hf; [done|].
  destruct (try_fold stage_watermark _ _) as [?|publishers] eqn:Hw; [done|].
  destruct (try_fold stage_fence _ _) as [?|fenced] eqn:Hfe; [done|].
  destruct (_ <? _); [done|]. intros [= <- <-]. eexists. split; [|split; reflexivity]. split; try done; [by exists status|by exists publishers].
Qed.

Lemma import_failure state st st' status :
  import_durable_state state st = (st', inl status) -> exists serial, st' = st <| r_next_serial := serial |>.
Proof.
  assert (Hst : st = st <| r_next_serial := r_next_serial st |>) by by destruct st.
  unfold import_durable_state. repeat (case_match; try (intros [= <- <-]; by eexists)).
Qed.

(** The status of a failed import is a failure. *)
Definition fails {A S} (f : A -> S -> Status + S) : Prop :=
  forall x s status, f x s = inl status -> status_ok status = false.

Lemma try_fold_fails {A S} (f : A -> S -> Status + S) l s status :
  fails f -> try_fold f l s = inl status -> status_ok status = false.
Proof.
  intros Hf. revert s. induction l as [|x l IH]; intros s; cbn; [done|].
  destruct (f x s) eqn:E; [intros [= <-]; by eapply Hf|apply IH].
Qed.

Ltac stage_fails :=
  intros ? ? ?; cbv zeta; repeat case_match; try discriminate; intros [= <-];
  first [reflexivity | apply negb_true_iff; assumption].

Lemma stage_subject_fails limits : fails (stage_subject limits).
Proof. unfold stage_subject. stage_fails. Qed.
Lemma stage_platform_fails : fails stage_platform.
Proof. unfold stage_platform. stage_fails. Qed.
Lemma stage_schema_fails limits : fails (stage_schema limits).
Proof. unfold stage_schema. stage_fails. Qed.
Lemma stage_quirk_fails limits capabilities : fails (stage_quirk limits capabilities).
Proof. unfold stage_quirk. stage_fails. Qed.
Lemma stage_fact_fails limits subjects platforms : fails (stage_fact limits subjects platforms).
Proof. unfold stage_fact. stage_fails. Qed.
Lemma stage_watermark_fails : fails stage_watermark.
Proof. unfold stage_watermark. stage_fails. Qed.
Lemma stage_fence_fails : fails stage_fence.
Proof. unfold stage_fence. stage_fails. Qed.

Lemma import_fails state st st' status :
  import_durable_state state st = (st', inl status) -> status_ok status = false.
Proof.
  unfold import_durable_state, stage_rest.
  destruct (status_ok (check_image _ _)) eqn:Hi; cbn [negb]; [|by intros [= _ <-]].
  repeat (match goal with
    | |- context [match try_fold ?f ?l ?s with _ => _ end] =>
        let E := fresh in destruct (try_fold f l s) eqn:E; [intros [= _ <-]; revert E; apply try_fold_fails|]
    | |- context [let '(_, _) := ?x in _] => destruct x
    | |- context [if negb (status_ok ?s) then _ else _] =>
        let E := fresh in destruct (status_ok s) eqn:E; cbn [negb]; [|by intros [= _ <-]]
    | |- context [if ?b then _ else _] => destruct b; [by intros [= _ <-]|]
    end); auto using stage_subject_fails, stage_platform_fails, stage_schema_fails, stage_quirk_fails, stage_fact_fails,
      stage_watermark_fails, stage_fence_fails. done.
Qed.

(** The entries of one key in a table flattened to a list. *)
Section FlattenedTable.
Context {K A : Type} `{EqDecision K} (key : A -> K) (k : K).

Lemma filter_own xs : Forall (fun x => key x = k) xs -> List.filter (fun x => key x ==? k) xs = xs.
Proof. induction 1 as [|x xs <- _ IH]; cbn [List.filter]; [done|]. by rewrite eqb_refl, IH. Qed.

Lemma filter_other k' xs : k' <> k -> Forall (fun x => key x = k') xs -> List.filter (fun x => key x ==? k) xs = [].
Proof.
  intros Hne. induction 1 as [|x xs Hx _ IH]; cbn [List.filter]; [done|].
  rewrite IH. by rewrite (proj2 (eqb_false _ _)) by congruence.
Qed.

Context (keyed : K -> list A -> Prop) (Hkeyed : forall k' xs, keyed k' xs -> Forall (fun x => key x = k') xs).

Lemma filter_absent (l : list (K * list A)) :
  (forall k' xs, (k', xs) ∈ l -> keyed k' xs) -> k ∉ l.*1 ->
  List.filter (fun x => key x ==? k) (concat (map snd l)) = [].
Proof.
  induction l as [|[k' xs] l IH]; intros Hl Hk; [done|]. cbn [map concat snd]. rewrite List.filter_app.
  rewrite (filter_other k') by (set_solver || (apply Hkeyed, Hl; by left)). apply IH; [|set_solver].
  intros. apply Hl. by right.
Qed.

Lemma filter_present (l : list (K * list A)) xs :
  (forall k' xs, (k', xs) ∈ l -> keyed k' xs) -> NoDup l.*1 -> (k, xs) ∈ l ->
  List.filter (fun x => key x ==? k) (concat (map snd l)) = xs.
Proof.
  induction l as [|[k' ys] l IH]; intros Hl Hn Hin; [by apply elem_of_nil in Hin|].
  cbn [fmap list_fmap] in Hn. apply NoDup_cons in Hn as [Hk Hn]. cbn [map concat snd]. rewrite List.filter_app.
  apply elem_of_cons in Hin as [[= <- <-]|Hin].
  - rewrite filter_own by (apply Hkeyed, Hl; by left). rewrite filter_absent; [apply app_nil_r| |done].
    intros. apply Hl. by right.
  - rewrite (filter_other k').
    + apply IH; [|done..]. intros. apply Hl. by right.
    + intros ->. apply Hk. by apply (list_elem_of_fmap_2 fst _ (k, xs)).
    + apply Hkeyed, Hl. by left.
Qed.
End FlattenedTable.

Lemma filter_perm {A} (f : A -> bool) l l' : l ≡ₚ l' -> List.filter f l ≡ₚ List.filter f l'.
Proof.
  induction 1 as [|x l l' _ IH|x y l|l1 l2 l3 _ IH1 _ IH2]; cbn; [done| | |by rewrite IH1].
  - destruct (f x); by rewrite IH.
  - destruct (f x), (f y); try done. apply Permutation_swap.
Qed.

(** The exported history holds every key's records. *)
Lemma exported_records now st k :
  (forall k key, r_keys st !! k = Some key -> Forall (fun r => record_key (sr_record r) = k) (ks_records key)) ->
  List.filter (fun r => record_key r ==? k) (du_capability_history (export_durable_state now st)) ≡ₚ
  records_at (r_keys st) k.
Proof.
  intros Hr. change (du_capability_history _) with (std_sort history_ltb
    (concat (map (fun entry : KeyId * KeyState => map sr_record (ks_records entry.2)) (map_entries (r_keys st))))).
  etrans; [apply filter_perm, (std_sort_perm history_ltb)|].
  set (table := map (fun entry : KeyId * KeyState => (entry.1, map sr_record (ks_records entry.2))) (map_entries (r_keys st))).
  assert (Hconcat : map (fun entry : KeyId * KeyState => map sr_record (ks_records entry.2)) (map_entries (r_keys st)) =
    map snd table) by (unfold table; by rewrite map_map).
  assert (Hin : forall k' xs, (k', xs) ∈ table <-> exists key, r_keys st !! k' = Some key /\ xs = map sr_record (ks_records key)).
  { intros k' xs. unfold table. split.
    - intros ([k'' key] & [= -> ->] & Hin%elem_of_map_entries)%list_elem_of_fmap. eauto.
    - intros (key & Hk & ->). apply list_elem_of_fmap. exists (k', key). split; [done|]. by apply elem_of_map_entries. }
  assert (Hkeyed : forall k' xs, (k', xs) ∈ table -> Forall (fun r => record_key r = k') xs).
  { intros k' xs (key & Hk & ->)%Hin. apply Forall_map. exact (Hr _ _ Hk). }
  assert (Hn : NoDup table.*1).
  { assert (table.*1 = (map_entries (r_keys st)).*1) as ->; [|apply NoDup_map_entries].
    unfold table. clear. induction (map_entries (r_keys st)) as [|[] l IH]; cbn; congruence. }
  rewrite Hconcat. unfold records_at. destruct (r_keys st !! k) as [key|] eqn:Ek; cbn [from_option].
  - rewrite (filter_present record_key k (fun k' xs => Forall (fun r => record_key r = k') xs) ltac:(auto) table
      (map sr_record (ks_records key))); [done|exact Hkeyed|exact Hn|apply Hin; eauto].
  - rewrite (filter_absent record_key k (fun k' xs => Forall (fun r => record_key r = k') xs) ltac:(auto) table Hkeyed); [done|].
    intros ([k' xs] & -> & (key & Hk & _)%Hin)%list_elem_of_fmap. cbn in Ek. congruence.
Qed.

(** What a check of a record says of it. *)
Lemma check_record_ok limits devices schemas record :
  status_ok (check_record limits devices schemas record) = true ->
  exists device schema, devices !! cr_device record = Some device /\ schemas !! cr_schema record = Some schema /\
    cs_capability schema = cr_capability record /\ gen_ltb (ds_generation device) (cr_device_generation record) = false.
Proof.
  unfold check_record. rewrite and_then_ok. intros [_ H].
  destruct (devices !! cr_device record) as [device|]; [|done]. destruct (schemas !! cr_schema record) as [schema|]; [|done].
  destruct (cs_capability schema ==? cr_capability record) eqn:Ec; cbn [negb] in H; [|done].
  destruct (gen_ltb _ _) eqn:Eg; [done|]. exists device, schema. apply eqb_eq in Ec. done.
Qed.

Lemma try_fold_invariant {A S} (P : S -> Prop) (f : A -> S -> Status + S) l s s' :
  (forall x s s', f x s = inr s' -> P s -> P s') -> try_fold f l s = inr s' -> P s -> P s'.
Proof.
  intros Hf. revert s. induction l as [|x l IH]; intros s; cbn; [by intros [= <-]|].
  destruct (f x s) as [|s1] eqn:E; [done|]. intros Hl Hs. eapply IH; [exact Hl|]. by eapply Hf.
Qed.

Lemma staged_devices_keyed limits subjects s :
  try_fold (stage_subject limits) subjects (mk_StagedSubjects ∅ ∅ ∅ ∅) = inr s ->
  map_Forall (fun id d => di_id (ds_identity d) = id) (sg_devices s).
Proof.
  intros H. refine (try_fold_invariant (fun s => map_Forall (fun id d => di_id (ds_identity d) = id) (sg_devices s))
    _ _ _ _ _ H _); [|apply map_Forall_empty].
  intros x s1 s2 E Hs. rewrite (stage_subject_emplace _ _ _ _ E). intros id d. rewrite lookup_emplace.
  destruct (sg_devices s1 !! id) eqn:Ed; [intros [= <-]; by apply Hs|]. destruct (decide _) as [<-|]; [|done]. by intros [= <-].
Qed.

Lemma stage_records_count limits devices schemas records s status s' m :
  sg_records s = wrap64 m ->
  stage_records limits devices schemas records s = (status, s') -> status_ok status = true ->
  sg_records s' = wrap64 (m + lengthN records).
Proof.
  revert s m. induction records as [|r records IH]; intros s m Hm; cbn [stage_records].
  - intros [= _ <-] _. by rewrite Hm, N.add_0_r.
  - destruct (stage_record limits devices schemas r s) as [status1|s1] eqn:E.
    + intros [= <- _] Hok. apply stage_record_fails in E. congruence.
    + destruct (stage_record_appends _ _ _ _ _ _ E) as (_ & _ & Hc). intros Hs Hok.
      rewrite (IH s1 (m + 1)); [|by rewrite Hc, Hm; unfold u64_succ, wrap64; rewrite N.Div0.add_mod_idemp_l|exact Hs|exact Hok].
      f_equal. unfold lengthN. cbn [length]. lia.
Qed.

(** [commit_import] keeps what staging built. *)
Lemma commit_fields state s st :
  let st' := commit_import state s st in
  r_limits st' = r_limits st /\ r_devices st' = sg_devices (sd_subjects s) /\ r_platforms st' = sd_platforms s /\
  r_schemas st' = sg_schemas (sd_schemas s) /\ r_keys st' = sg_keys (sd_records s) /\
  r_device_keys st' = index_of_keys (sg_keys (sd_records s)) /\ r_quirks st' = sd_quirks s /\
  r_compatibility st' = sd_compatibility s /\ r_publishers st' = retire_imported <$> sd_publishers s /\
  r_evidence_count st' = sg_records (sd_records s) /\ r_next_serial st' = r_next_serial st.
Proof. done. Qed.

Lemma imported_not_authoritative state s st record : publisher_is_authoritative (commit_import state s st) record = false.
Proof.
  unfold publisher_is_authoritative. change (r_publishers _) with (retire_imported <$> sd_publishers s).
  rewrite lookup_fmap. destruct (sd_publishers s !! _) as [p|]; cbn [fmap option_fmap option_map]; [|done].
  by destruct (ps_publisher_fenced (retire_imported p)).
Qed.

(** The keys of a table are what its index lists. *)
Lemma index_of_keys_ok keys d c :
  is_Some (keys !! (d, c)) <-> exists s, index_of_keys keys !! d = Some s /\ c ∈ s.
Proof.
  unfold index_of_keys.
  assert (Hgen : forall l (index : gmap DeviceId (gset CapabilityId)),
    (exists s, foldl (fun index (entry : KeyId * KeyState) =>
       <[entry.1.1 := {[entry.1.2]} ∪ default ∅ (index !! entry.1.1)]> index) index l !! d = Some s /\ c ∈ s) <->
    (exists s, index !! d = Some s /\ c ∈ s) \/ (d, c) ∈ l.*1).
  { induction l as [|[[d' c'] key] l IH]; intros index; cbn [foldl].
    - set_solver.
    - rewrite IH. cbn [fst snd fmap list_fmap]. rewrite elem_of_cons.
      destruct (decide (d' = d)) as [->|Hne].
      + rewrite lookup_insert_eq. split.
        * intros [(s & [= <-] & Hc)|]; [|by right; right]. apply elem_of_union in Hc as [->%elem_of_singleton|Hc]; [by right; left|].
          left. destruct (index !! d) as [s|]; [by exists s|]. by apply elem_of_empty in Hc.
        * intros [(s & Hs & Hc)|[[= <-]|]]; [left; eexists; split; [done|]; rewrite Hs; set_solver|left; eexists; split; [done|]; set_solver|by right].
      + rewrite lookup_insert_ne by done. split; [intros [?|?]; [by left|by right; right]|].
        intros [?|[[= -> ->]|?]]; [by left|done|by right]. }
  rewrite Hgen. split.
  - intros [key Hk]. right. apply (list_elem_of_fmap_2 fst _ ((d, c), key)). by apply elem_of_map_entries.
  - intros [(s & Hs & _)|Hin]; [by rewrite lookup_empty in Hs|].
    apply list_elem_of_fmap in Hin as ([k key] & -> & Hin%elem_of_map_entries). eauto.
Qed.

(* ===================================================================== *)
(** ** Properties *)

(** C7: an import never restores liveness: every publisher comes back dead
    with its boot revoked, no process-bound record is current for any target,
    and an answer is current only on the strength of durable evidence. *)
Theorem import_restores_no_liveness state st st' report :
  import_durable_state state st = (st', inr report) ->
  (forall id p, r_publishers st' !! id = Some p -> pr_state (ps_record p) = PublisherState.Dead /\
     (gen_valid (pi_boot (pr_identity (ps_record p))) = true -> boot_revoked p (pi_boot (pr_identity (ps_record p))))) /\
  (forall stored device target cur,
     provenance_is_durable (provenance (cr_source (sr_record stored))) = false ->
     compute_staleness_locked st' stored device target cur <> flag_None) /\
  (forall device capability pinned environment,
     rc_current (resolve_locked st' device capability pinned environment) = true ->
     exists key stored, r_keys st' !! (di_id (ds_identity device), capability) = Some key /\
       stored ∈ ks_records key /\ provenance_is_durable (provenance (cr_source (sr_record stored))) = true).
Proof.
  intros (s & _ & _ & ->)%import_success.
  set (st' := st <| r_next_serial := sg_next_serial (sd_records s) |>).
  assert (Hstale : forall stored device target cur,
    provenance_is_durable (provenance (cr_source (sr_record stored))) = false ->
    compute_staleness_locked (commit_import state s st') stored device target cur <> flag_None).
  { intros stored device target cur Hp Hf. apply staleness_none_current in Hf.
    pose proof (ce_publisher _ _ _ _ _ Hf Hp) as Ha. by rewrite imported_not_authoritative in Ha. }
  split; [|split; [exact Hstale|]].
  - intros id p. change (r_publishers _) with (retire_imported <$> sd_publishers s). rewrite lookup_fmap.
    destruct (sd_publishers s !! id) as [q|]; [|done]. intros [= <-]. split; [done|]. intros Hv. right.
    change (pi_boot (pr_identity (ps_record (retire_imported q)))) with (pi_boot (pr_identity (ps_record q))) in *.
    change (ps_fenced_boots (retire_imported q)) with
      (if gen_valid (pi_boot (pr_identity (ps_record q)))
       then {[pi_boot (pr_identity (ps_record q))]} ∪ ps_fenced_boots q else ps_fenced_boots q).
    rewrite Hv. set_solver.
  - intros device capability pinned environment Hc. apply resolve_current_evidence in Hc as (key & stored & Hk & Hin & Hf).
    exists key, stored. split; [done|]. split; [done|].
    destruct (provenance_is_durable _) eqn:Hp; [done|]. by destruct (Hstale _ _ _ _ Hp Hf).
Qed.

(** A failed import applies nothing, except that it may have consumed
    serial numbers. *)
Theorem failed_import_applies_nothing state st st' status :
  import_durable_state state st = (st', inl status) -> exists serial, st' = st <| r_next_serial := serial |>.
Proof. apply import_failure. Qed.

(** What makes a registry its own faithful image: its tables are filed under
    the identities of their entries. *)
Record exportable (st : Registry) : Prop := {
  xp_devices : forall id d, r_devices st !! id = Some d ->
    di_id (ds_identity d) = id /\ gen_valid (ds_platform_generation d) = true;
  xp_platforms : forall id p, r_platforms st !! id = Some p -> pl_id p = id;
  xp_quirks : forall id q, r_quirks st !! id = Some q -> qr_id q = id;
  xp_facts : forall id f, r_compatibility st !! id = Some f -> cf_id f = id;
  xp_records : forall k key, r_keys st !! k = Some key -> Forall (fun r => record_key (sr_record r) = k) (ks_records key)
}.

Lemma restored_tables now st st0 st1 report :
  exportable st ->
  import_durable_state (export_durable_state now st) st0 = (st1, inr report) ->
  r_devices st1 = r_devices st /\ r_platforms st1 = r_platforms st /\ r_quirks st1 = r_quirks st /\
  r_compatibility st1 = r_compatibility st /\
  forall k, records_at (r_keys st1) k ≡ₚ records_at (r_keys st) k.
Proof.
  intros [Hd Hp Hq Hf Hr] (s & [_ Hs Hpl _ (status & Hrec & Hok) Hqu Hfa _] & _ & ->)%import_success.
  set (st' := st0 <| r_next_serial := sg_next_serial (sd_records s) |>).
  destruct (commit_fields (export_durable_state now st) s st') as (_ & -> & -> & _ & -> & _ & -> & -> & _).
  rewrite <- (map_fmap_id (r_devices st)), <- (map_fmap_id (r_platforms st)), <- (map_fmap_id (r_quirks st)),
    <- (map_fmap_id (r_compatibility st)).
  split; [|split; [|split; [|split]]].
  - eapply (staged_table (stage_subject (r_limits st0)) sg_devices (fun x => di_id (sj_identity x)) staged_device
      (stage_subject_emplace _) (fun d => build_subject_locked st d ∅) id
      (by_id (fun s => di_id (sj_identity s))) (r_devices st)); [| |exact Hs]; [|reflexivity].
    intros id d Hid. destruct (build_subject_describes st d ∅) as (Hi & Hsw & Hg & Hb & Hpg).
    destruct (Hd _ _ Hid) as [Hidd Hv]. split; [by rewrite Hi|]. unfold staged_device.
    rewrite Hi, Hsw, Hg, Hb, Hpg, Hv. by destruct d.
  - eapply (staged_table stage_platform id pl_id id stage_platform_emplace id id (by_id pl_id) (r_platforms st));
      [| |exact Hpl]; [auto|reflexivity].
  - eapply (staged_table _ id qr_id id (stage_quirk_emplace _ _) id id (by_id qr_id) (r_quirks st));
      [| |exact Hqu]; [auto|reflexivity].
  - eapply (staged_table _ id cf_id id (stage_fact_emplace _ _ _) id id (by_id cf_id) (r_compatibility st));
      [| |exact Hfa]; [auto|reflexivity].
  - intros k. destruct (stage_records_appends _ _ _ _ _ _ _ Hrec Hok) as [_ ->]. by apply exported_records.
Qed.

(** C8: what a registry exports is what an import restores: if the import of
    an exported registry succeeds, the devices with their generations and
    boots, the platforms, the quirks and the compatibility facts are those
    that were exported, and every key has the records it had. *)
Theorem import_restores_export now st st0 st1 report :
  exportable st ->
  import_durable_state (export_durable_state now st) st0 = (st1, inr report) ->
  r_devices st1 = r_devices st /\ r_platforms st1 = r_platforms st /\ r_quirks st1 = r_quirks st /\
  r_compatibility st1 = r_compatibility st /\
  forall k, records_at (r_keys st1) k ≡ₚ records_at (r_keys st) k.
Proof. apply restored_tables. Qed.

(** C9: an imported registry is consistent whatever the image says: devices
    are filed under their identity, the device index lists exactly the keys,
    and every record lies under its own key, on a registered device it is not
    ahead of and a schema that describes its capability; the evidence count
    is the number of records read. *)
Theorem import_is_consistent state st st' report :
  import_durable_state state st = (st', inr report) ->
  index_ok st' /\
  (forall id d, r_devices st' !! id = Some d -> di_id (ds_identity d) = id) /\
  (forall k key stored, r_keys st' !! k = Some key -> stored ∈ ks_records key ->
     record_key (sr_record stored) = k /\
     exists device schema, r_devices st' !! k.1 = Some device /\
       gen_ltb (ds_generation device) (cr_device_generation (sr_record stored)) = false /\
       r_schemas st' !! cr_schema (sr_record stored) = Some schema /\ cs_capability schema = k.2) /\
  r_evidence_count st' = wrap64 (lengthN (du_capability_history state)).
Proof.
  intros (s & [_ Hs _ _ (status & Hrec & Hok) _ _] & _ & ->)%import_success.
  set (st' := st <| r_next_serial := sg_next_serial (sd_records s) |>).
  destruct (commit_fields state s st') as (_ & Hd & _ & Hsc & Hk & Hdk & _ & _ & _ & Hc & _).
  split; [|split; [|split]].
  - intros d c. rewrite Hk, Hdk. apply index_of_keys_ok.
  - rewrite Hd. exact (staged_devices_keyed _ _ _ Hs).
  - rewrite Hk, Hd, Hsc. intros k key stored Hkey Hin.
    destruct (stage_records_appends _ _ _ _ _ _ _ Hrec Hok) as [Hall Hat].
    assert (Hr : sr_record stored ∈ records_at (sg_keys (sd_records s)) k)
      by (unfold records_at; rewrite Hkey; by apply (list_elem_of_fmap_2 sr_record)).
    rewrite Hat in Hr. apply list_elem_of_In in Hr. cbn [app] in Hr. apply filter_In in Hr as [Hr Hrk%eqb_eq]. subst k.
    rewrite Forall_forall in Hall. apply list_elem_of_In, Hall, check_record_ok in Hr as (device & schema & ? & ? & ? & ?).
    split; [done|]. by exists device, schema.
  - rewrite Hc. exact (stage_records_count _ _ _ _ (mk_StagedRecords ∅ (r_next_serial st) 0 0) _ _ 0 eq_refl Hrec Hok).
Qed.

(* ===================================================================== *)
(** ** What concrete images show *)

Definition fresh_registry : Registry := construct_registry [schema_entry] default_limits.

(** A run, and the registry a coordinator has after restarting from its
    export. *)
Definition ran (ops : list Operation) : Registry := run strlen ops fresh_registry.
Definition restarted (st : Registry) : Registry * (Status + ImportReport) :=
  import_durable_state (export_durable_state "t" st) fresh_registry.

(** A fact about the family of the GPU, and the GPU registered again under
    another family. *)
Definition family_fact : Publication :=
  publication PublicationKind.PublishCompatibility 2 <| pb_compatibility := no_fact
    <| cf_id := Id_parse "fact-1" |> <| cf_generation := Gen_first |>
    <| cf_lhs := mk_HardwareReference ReferenceKind.HardwareFamily "hopper" no_version |>
    <| cf_rhs := mk_HardwareReference ReferenceKind.Vendor "nvidia" no_version |>
    <| cf_outcome := CompatibilityOutcome.Compatible |> <| cf_source := nvml_source |> |>.

Definition rebadged_gpu : Publication :=
  publication PublicationKind.RegisterDevice 3 <| pb_device ::= fun d => d <| dr_identity ::= fun i => i
    <| di_hardware ::= fun h => h <| hi_family := Id_parse "blackwell" |> |> |> |>.

(** A registry can refuse its own export: the families a registry knows only
    grow while it runs, but an import knows only the families of the devices
    as they are, so that a fact about a family that a device has left makes
    the whole image unreadable. *)
Theorem own_export_refused :
  let st := ran (introduction ++ [OpApply "t" family_fact; OpApply "t" rebadged_gpu]) in
  ar_code (apply_locked strlen "t" family_fact (ran introduction)).2 = ApplyCode.Accepted /\
  exists message, (restarted st).2 = inl (failure InvalidReference message).
Proof. split; [vm_compute; reflexivity|]. eexists. vm_compute. reflexivity. Qed.

(** An import does not compare the kind of a value with the schema of its
    record, which ingestion does: an image with a number of bytes for a
    Boolean capability is imported. *)
Theorem import_ignores_value_kind :
  let record := fp8_record nvml_source SupportState.SupportedNative (VBytes 3) in
  (exists detail, screen_capability (fleet record) record =
     inl (rejected_result ApplyCode.RejectedValidation detail)) /\
  (exists report, (restarted (fleet record)).2 = inr report) /\
  map cr_value (records_at (r_keys (restarted (fleet record)).1) (gpu, fp8)) = [VBytes 3].
Proof. split; [eexists|split; [eexists|]]; vm_compute; reflexivity. Qed.

(** An import numbers the records it reads with the incremented counter,
    ingestion with the counter before it is incremented: the first record
    stored after a restart has the serial of the last record imported. *)
Theorem import_serial_collides :
  let st := (restarted (ran (introduction ++ [OpApply "t" (claim 2 "cap.compute.fp8" true)]))).1 in
  let boot := agent_boot <| pi_boot := mk_Gen 2 |> in
  let reclaim := claim 1 "cap.compute.fp8" false
    <| pb_publisher := boot |> <| pb_capability ::= fun c => c <| cr_source ::= fun s => s <| publisher := boot |> |> |> in
  let st := run strlen [OpRegisterPublisher "t" (mk_PublisherIdentity agent Gen_none Gen_none) "nvml"; OpApply "t" reclaim] st in
  map (fun entry : KeyId * KeyState => map sr_serial (ks_records entry.2)) (map_entries (r_keys st)) = [[2; 2]].
Proof. vm_compute. reflexivity. Qed.

(** A publisher fenced for good regains authority when the coordinator
    restarts from its durable state: only the fence of its boot is exported,
    not the fence of the publisher. *)
Theorem publisher_fence_lost_on_restart :
  let fenced := ran (introduction ++ [OpFencePublisher agent "compromised"]) in
  let boot := mk_PublisherIdentity agent Gen_none Gen_none in
  ar_code (register_publisher "t" boot "nvml" fenced).2 = ApplyCode.RejectedFencedPublisher /\
  (exists report, (restarted fenced).2 = inr report) /\
  ar_code (register_publisher "t" boot "nvml" (restarted fenced).1).2 = ApplyCode.Accepted.
Proof. split; [vm_compute; reflexivity|]. split; [eexists|]; vm_compute; reflexivity. Qed.

(** The durable digest does not cover everything: images that differ in the
    conditions of a quirk, the unit of a schema or the serial number of a
    device have one digest. *)
Theorem durable_digest_ignores_content state conditions unit serial :
  canonical_durable_digest state =
  canonical_durable_digest (state
    <| du_quirks ::= map (fun q => q <| qr_applicability ::= fun a => a <| qa_platform_conditions := conditions |> |>) |>
    <| du_schemas ::= map (fun s => s <| cs_unit := unit |>) |>
    <| du_subjects ::= map (fun s => s <| sj_identity ::= fun i => i <| di_serial_number := serial |> |>) |>).
Proof.
  unfold canonical_durable_digest, durable_items. destruct state as [header ? subjects schemas ? quirks ? ? ? ?].
  cbn -[map concat]. change (map ?f (map ?g ?l)) with (map f (map g l)).
  repeat match goal with |- context [map ?f (map ?g ?l)] => rewrite (map_map g f l) end. reflexivity.
Qed.

(* ===================================================================== *)
(** ** Witnesses *)

Lemma import_witness : exists st' report, restarted sample_fleet = (st', inr report).
Proof.
  assert (H : match (restarted sample_fleet).2 with inl _ => false | inr _ => true end = true) by (vm_compute; reflexivity).
  revert H. generalize (restarted sample_fleet). intros [st' [status|report]] H; [discriminate H|].
  exists st', report. reflexivity.
Qed.

Lemma import_restores_no_liveness_witness :
  exists st' report, restarted sample_fleet = (st', inr report) /\
    forall id p, r_publishers st' !! id = Some p -> pr_state (ps_record p) = PublisherState.Dead.
Proof.
  destruct import_witness as (st' & report & E). exists st', report. split; [exact E|].
  intros id p Hp. exact (proj1 (proj1 (import_restores_no_liveness _ _ st' report E) id p Hp)).
Defined.

Lemma import_is_consistent_witness :
  exists st' report, restarted sample_fleet = (st', inr report) /\ index_ok st'.
Proof.
  destruct import_witness as (st' & report & E). exists st', report. split; [exact E|].
  exact (proj1 (import_is_consistent _ _ st' report E)).
Defined.

Lemma sample_fleet_exportable : exportable sample_fleet.
Proof.
  split.
  - intros id d. change (r_devices sample_fleet) with ({[gpu := gpu_state]} : gmap DeviceId DeviceState).
    intros [<- <-]%lookup_singleton_Some. split; reflexivity.
  - intros id p. change (r_platforms sample_fleet) with (∅ : gmap PlatformId PlatformIdentity). by rewrite lookup_empty.
  - intros id q. change (r_quirks sample_fleet) with (∅ : gmap QuirkId QuirkRecord). by rewrite lookup_empty.
  - intros id f. change (r_compatibility sample_fleet) with (∅ : gmap CompatibilityFactId CompatibilityFact).
    by rewrite lookup_empty.
  - intros k key. change (r_keys sample_fleet) with
      ({[(gpu, fp8) := mk_KeyState fp8_schema Gen_first true
          [stored_record (fp8_record nvml_source SupportState.SupportedNative (VBoolean true)) 1]]} : gmap KeyId KeyState).
    intros [<- <-]%lookup_singleton_Some. apply Forall_singleton. reflexivity.
Qed.

Lemma import_restores_export_witness :
  exists st' report, restarted sample_fleet = (st', inr report) /\ r_devices st' = r_devices sample_fleet.
Proof.
  destruct import_witness as (st' & report & E). exists st', report. split; [exact E|].
  exact (proj1 (import_restores_export "t" sample_fleet fresh_registry st' report sample_fleet_exportable E)).
Defined.

Lemma failed_import_applies_nothing_witness :
  let state := export_durable_state "t" sample_fleet <| du_header ::= fun h => h <| dh_format_version := 2 |> |> in
  exists st' status serial, import_durable_state state fresh_registry = (st', inl status) /\
    st' = fresh_registry <| r_next_serial := serial |>.
Proof.
  cbv zeta. set (state := _ <| du_header ::= _ |>).
  destruct (import_durable_state state fresh_registry) as [st' [status|report]] eqn:E.
  - destruct (failed_import_applies_nothing state fresh_registry st' status E) as [serial Hs].
    exists st', status, serial. split; [reflexivity|exact Hs].
  - exfalso. apply (f_equal snd) in E. vm_compute in E. discriminate.
Defined.
