(* ===== verification/Image.v ===== *)
(** * The durable image

    Models [persistence.cpp]: the binary image of a durable state with its
    prefix, checksum and digest, and the file store that replaces it through
    a temporary file. The file system is a map from paths to contents and
    [FileStateStore::save] a step relation on it, one step per call of the C
    library, so that a crash may come between any two steps. *)

From S2P Require Import Prelude Tokens Versions Support Conditions Values Hardware Quirks Compat Publication.
From S2P Require Import RegistryState Fixtures Wire Checksum Codec Frames Queries Snapshots Durable.

(* ===================================================================== *)
(** ** Codecs of subjects and watermarks *)

Definition write_subject_snapshot (subject : SubjectSnapshot) (limits : RegistryLimits) : Writer :=
  write_device_identity (sj_identity subject) limits +++
  write_software_state (sj_software subject) limits +++
  write_gen (sj_generation subject) +++
  write_gen (sj_boot subject) +++
  write_gen (sj_platform_generation subject) +++
  w_enum (sj_classification subject) +++
  w_u64 (sj_capability_count subject) +++
  w_u64 (sj_current_count subject) +++
  w_u64 (sj_unknown_count subject) +++
  w_u64 (sj_unsupported_count subject) +++
  w_u64 (sj_stale_count subject) +++
  w_u64 (sj_applicable_quirk_count subject).

Definition read_subject_snapshot (limits : RegistryLimits) : Reading SubjectSnapshot :=
  identity ← read_device_identity limits;
  software ← read_software_state limits;
  generation ← read_gen;
  boot ← read_gen;
  platform_generation ← read_gen;
  classification ← read_enum TruthClass.Unknown CorruptData "unknown truth classification on the wire";
  capability_count ← read_u64;
  current_count ← read_u64;
  unknown_count ← read_u64;
  unsupported_count ← read_u64;
  stale_count ← read_u64;
  applicable_quirk_count ← read_u64;
  mret (mk_SubjectSnapshot identity software generation boot platform_generation classification capability_count
    current_count unknown_count unsupported_count stale_count applicable_quirk_count).

(** The epoch of the identity is written as zero. *)
Definition write_publisher_watermark (watermark : PublisherWatermark) (limits : RegistryLimits) : Writer :=
  write_publisher_identity (mk_PublisherIdentity (wm_publisher watermark) (wm_boot watermark) Gen_none) +++
  w_u64 (wm_max_sequence watermark) +++
  w_u64 (gen_value (wm_max_evidence_generation watermark)) +++
  w_enum (wm_state watermark) +++
  w_str (wm_adapter watermark) (max_metadata_bytes limits) +++
  w_str (wm_reason watermark) (max_metadata_bytes limits) +++
  w_u64 (wm_accepted watermark) +++
  w_u64 (wm_rejected watermark) +++
  w_str (wm_registered_at_utc watermark) (max_metadata_bytes limits).

Definition read_publisher_watermark (limits : RegistryLimits) : Reading PublisherWatermark :=
  identity ← read_publisher_identity;
  max_sequence ← read_u64;
  max_evidence_generation ← read_gen;
  state ← read_enum PublisherState.Dead CorruptData "unknown publisher state in durable state";
  adapter ← read_str (max_metadata_bytes limits);
  reason ← read_str (max_metadata_bytes limits);
  accepted ← read_u64;
  rejected ← read_u64;
  registered_at_utc ← read_str (max_metadata_bytes limits);
  mret (mk_PublisherWatermark (pi_id identity) (pi_boot identity) max_sequence max_evidence_generation state adapter
    reason accepted rejected registered_at_utc).

(* ===================================================================== *)
(** ** [encode_durable_state] and [decode_durable_state] *)

Definition kStateMagic : N := 1397900104. (* 0x53524348 *)
Definition kStatePrefixSize : N := 24.

Record PersistOptions := mk_PersistOptions { po_limits : RegistryLimits; po_max_bytes : N }.

Definition schema_bound (limits : RegistryLimits) : N := wrap64 (max_families limits * 16).
Definition watermark_bound (limits : RegistryLimits) : N := wrap64 (max_publishers limits * 64).

Definition write_header (header : DurableStateHeader) (limits : RegistryLimits) : Writer :=
  w_u32 (dh_format_version header) +++
  write_gen (dh_epoch header) +++
  write_gen (dh_snapshot_generation header) +++
  w_u64 (dh_state_revision header) +++
  w_str (dh_created_at_utc header) (max_metadata_bytes limits) +++
  w_str (dh_producer header) (max_metadata_bytes limits).

Definition write_payload (state : DurableState) (limits : RegistryLimits) : Writer :=
  write_header (du_header state) limits +++
  w_list (max_devices limits) (fun p => write_platform_identity p limits) (du_platforms state) +++
  w_list (max_devices limits) (fun s => write_subject_snapshot s limits) (du_subjects state) +++
  w_list (schema_bound limits) (fun s => write_capability_schema s limits) (du_schemas state) +++
  w_list (max_evidence_history limits) (fun r => write_capability_record r limits) (du_capability_history state) +++
  w_list (max_quirks limits) (fun q => write_quirk_record q limits) (du_quirks state) +++
  w_list (max_compatibility_facts limits) (fun f => write_compatibility_fact f limits) (du_compatibility state) +++
  w_list (watermark_bound limits) (fun w => write_publisher_watermark w limits) (du_publisher_watermarks state) +++
  w_list (watermark_bound limits) (fun w => write_publisher_watermark w limits) (du_fenced_boots state) +++
  w_u64 (du_canonical_digest state).

Definition max_image_bytes (options : PersistOptions) : N :=
  if po_max_bytes options =? 0 then max_persistence_bytes (po_limits options) else po_max_bytes options.

Definition image_prefix (payload : list byte) (digest : N) : Writer :=
  w_u32 kStateMagic +++
  w_u16 state_format_version +++
  w_u16 0 +++
  w_u32 (lengthN payload) +++
  w_u32 (crc32 payload) +++
  w_u64 digest.

Definition encode_durable_state (state : DurableState) (options : PersistOptions) : Status + list byte :=
  let payload := write_payload state (po_limits options) in
  if w_truncated payload
  then inl (failure LimitExceeded "durable state carries a field longer than the configured bound")
  else if max_image_bytes options <? lengthN (w_bytes payload) + kStatePrefixSize
  then inl (failure LimitExceeded "encoded durable state exceeds the configured byte bound")
  else inr (w_bytes (image_prefix (w_bytes payload) (du_canonical_digest state)) ++ w_bytes payload).

Definition read_header (limits : RegistryLimits) : Reading DurableStateHeader :=
  format_version ← read_u32;
  epoch ← read_gen;
  snapshot_generation ← read_gen;
  state_revision ← read_u64;
  created_at_utc ← read_str (max_metadata_bytes limits);
  producer ← read_str (max_metadata_bytes limits);
  mret (mk_DurableStateHeader format_version epoch snapshot_generation state_revision created_at_utc producer).

Definition read_section {A} (bound : N) (what : string) (read : Reading A) : Reading (list A) :=
  read_list bound LimitExceeded ("durable state " +:+ what +:+ " count exceeds the bound")%string read.

Definition read_payload (limits : RegistryLimits) : Reading DurableState :=
  header ← read_header limits;
  platforms ← read_section (max_devices limits) "platform" (read_platform_identity limits);
  subjects ← read_section (max_devices limits) "subject" (read_subject_snapshot limits);
  schemas ← read_section (schema_bound limits) "schema" (read_capability_schema limits);
  records ← read_section (max_evidence_history limits) "evidence record" (read_capability_record limits);
  quirks ← read_section (max_quirks limits) "quirk" (read_quirk_record limits);
  compatibility ← read_section (max_compatibility_facts limits) "compatibility fact" (read_compatibility_fact limits);
  watermarks ← read_section (watermark_bound limits) "publisher watermark" (read_publisher_watermark limits);
  fenced ← read_section (watermark_bound limits) "fenced boot" (read_publisher_watermark limits);
  digest ← read_u64;
  mret (mk_DurableState header platforms subjects schemas records quirks compatibility watermarks fenced digest).

Definition decode_durable_state (bytes : list byte) (options : PersistOptions) : Status + DurableState :=
  if lengthN bytes <? kStatePrefixSize
  then inl (failure CorruptData "durable state image is shorter than its prefix")
  else
    let header := rd_open (take (N.to_nat kStatePrefixSize) bytes) in
    let payload := drop (N.to_nat kStatePrefixSize) bytes in
    let '(magic, header) := rd_u32 header in
    let '(version, header) := rd_u16 header in
    let '(flags, header) := rd_u16 header in
    let '(payload_length, header) := rd_u32 header in
    let '(checksum, header) := rd_u32 header in
    let '(digest, header) := rd_u64 header in
    if negb (magic =? kStateMagic) then inl (failure CorruptData "durable state magic does not match")
    else if negb (version =? state_format_version)
    then inl (failure UnsupportedVersion
                ("durable state format version " +:+ pretty version +:+ " is not supported")%string)
    else if negb (flags =? 0) then inl (failure CorruptData "durable state declares unknown flags")
    else if negb (payload_length =? lengthN payload)
    then inl (failure CorruptData "durable state payload length does not match the image")
    else if negb (crc32 payload =? checksum)
    then inl (failure IntegrityFailure "durable state checksum does not match")
    else if max_image_bytes options <? lengthN bytes
    then inl (failure LimitExceeded "durable state exceeds the configured byte bound")
    else match decode_all (read_payload (po_limits options))
                 (failure CorruptData "durable state image carries trailing bytes") payload with
    | inl status => inl status
    | inr state =>
        if negb (dh_format_version (du_header state) =? state_format_version)
        then inl (failure UnsupportedVersion "durable state header format version mismatch")
        else if negb (digest =? 0) && negb (du_canonical_digest state =? digest)
        then inl (failure CorruptData "durable state digest header does not match its payload")
        else inr state
    end.

(* ===================================================================== *)
(** ** What fits an image *)

Definition subject_fits (limits : RegistryLimits) (s : SubjectSnapshot) : bool :=
  device_fits limits (sj_identity s) && software_fits (sj_software s) && gen_fits (sj_generation s) &&
  gen_fits (sj_boot s) && gen_fits (sj_platform_generation s) && u64_fits (sj_capability_count s) &&
  u64_fits (sj_current_count s) && u64_fits (sj_unknown_count s) && u64_fits (sj_unsupported_count s) &&
  u64_fits (sj_stale_count s) && u64_fits (sj_applicable_quirk_count s).

Definition watermark_fits (w : PublisherWatermark) : bool :=
  gen_fits (wm_boot w) && u64_fits (wm_max_sequence w) && gen_fits (wm_max_evidence_generation w) &&
  u64_fits (wm_accepted w) && u64_fits (wm_rejected w).

Definition header_fits (h : DurableStateHeader) : bool :=
  (dh_format_version h <? 2 ^ 32) && gen_fits (dh_epoch h) && gen_fits (dh_snapshot_generation h) &&
  u64_fits (dh_state_revision h).

Definition section_fits {A} (bound : N) (fits : A -> bool) (l : list A) : bool := within bound l && forallb fits l.

Definition state_fits (limits : RegistryLimits) (s : DurableState) : bool :=
  header_fits (du_header s) &&
  section_fits (max_devices limits) (platform_fits limits) (du_platforms s) &&
  section_fits (max_devices limits) (subject_fits limits) (du_subjects s) &&
  section_fits (schema_bound limits) (fun _ => true) (du_schemas s) &&
  section_fits (max_evidence_history limits) (record_fits limits) (du_capability_history s) &&
  section_fits (max_quirks limits) (quirk_fits limits) (du_quirks s) &&
  section_fits (max_compatibility_facts limits) (fact_fits limits) (du_compatibility s) &&
  section_fits (watermark_bound limits) watermark_fits (du_publisher_watermarks s) &&
  section_fits (watermark_bound limits) watermark_fits (du_fenced_boots s) &&
  u64_fits (du_canonical_digest s).

(** The counts of the sections have 32 bits. *)
Definition image_limits_fit (limits : RegistryLimits) : bool :=
  limits_fit limits && (max_devices limits <? 2 ^ 32) && (schema_bound limits <? 2 ^ 32) &&
  (max_evidence_history limits <? 2 ^ 32) && (max_quirks limits <? 2 ^ 32) &&
  (max_compatibility_facts limits <? 2 ^ 32) && (watermark_bound limits <? 2 ^ 32).

(* ===================================================================== *)
(** ** Round trips of the sections

    A section is carried by any codec that keeps the promise of [WireCodec];
    the instances below are the codecs of the sections. *)

Lemma carries_coded_list {A} (fits : A -> bool) write read `{!WireCodec fits write read} bound code message l :
  (bound <? 2 ^ 32) = true -> section_fits bound fits l = true ->
  carries (w_list bound write l) (read_list bound code message read) l.
Proof.
  intros Hb%N.ltb_lt [Hl Hf]%andb_true_iff. apply carries_list; [done|done| |apply wire_nonempty].
  intros a Ha. apply wire_carries. rewrite forallb_forall in Hf. by apply Hf, list_elem_of_In.
Qed.

Lemma carries_section {A} (fits : A -> bool) write read `{!WireCodec fits write read} bound what l :
  (bound <? 2 ^ 32) = true -> section_fits bound fits l = true ->
  carries (w_list bound write l) (read_section bound what read) l.
Proof. by apply carries_coded_list. Qed.

Section Sections.
Context (limits : RegistryLimits) (Hlimits : limits_fit limits = true).

Lemma carries_subject_snapshot s :
  subject_fits limits s = true -> carries (write_subject_snapshot s limits) (read_subject_snapshot limits) s.
Proof.
  pose proof (carries_device_identity limits Hlimits) as Hd. pose proof (carries_software_state limits Hlimits) as Hs.
  unfold subject_fits, write_subject_snapshot, read_subject_snapshot. intros. split_fits.
  eapply carries_bind; [by apply Hd|cbv beta]. eapply carries_bind; [by apply Hs|cbv beta]. wire_struct s.
Qed.

Lemma carries_publisher_watermark w :
  watermark_fits w = true -> carries (write_publisher_watermark w limits) (read_publisher_watermark limits) w.
Proof.
  pose proof (limits_metadata limits Hlimits).
  unfold watermark_fits, write_publisher_watermark, read_publisher_watermark. intros. split_fits.
  eapply carries_bind; [apply (carries_publisher_identity (mk_PublisherIdentity (wm_publisher w) (wm_boot w) Gen_none))|].
  { unfold identity_fits. cbn. by rewrite andb_true_r. }
  cbv beta. eapply carries_bind; [by apply carries_u64_fits|cbv beta].
  eapply carries_bind; [by apply (carries_gen (wm_max_evidence_generation w))|cbv beta]. cbn [pi_id pi_boot]. wire_struct w.
Qed.

#[local] Ltac solve_codec lemma :=
  split; [intros; by apply lemma|intros; repeat first [apply w_str_nonempty | apply w_then_nonempty | done]].

#[global] Instance platform_codec :
  WireCodec (platform_fits limits) (fun p => write_platform_identity p limits) (read_platform_identity limits).
Proof. solve_codec carries_platform_identity. Qed.

#[global] Instance subject_codec :
  WireCodec (subject_fits limits) (fun s => write_subject_snapshot s limits) (read_subject_snapshot limits).
Proof. solve_codec carries_subject_snapshot. Qed.

#[global] Instance schema_codec :
  WireCodec (fun _ => true) (fun s => write_capability_schema s limits) (read_capability_schema limits).
Proof. solve_codec carries_capability_schema. Qed.

#[global] Instance record_codec :
  WireCodec (record_fits limits) (fun r => write_capability_record r limits) (read_capability_record limits).
Proof. solve_codec carries_capability_record. Qed.

#[global] Instance quirk_codec :
  WireCodec (quirk_fits limits) (fun q => write_quirk_record q limits) (read_quirk_record limits).
Proof. solve_codec carries_quirk_record. Qed.

#[global] Instance fact_codec :
  WireCodec (fact_fits limits) (fun f => write_compatibility_fact f limits) (read_compatibility_fact limits).
Proof. solve_codec carries_compatibility_fact. Qed.

#[global] Instance watermark_codec :
  WireCodec watermark_fits (fun w => write_publisher_watermark w limits) (read_publisher_watermark limits).
Proof. solve_codec carries_publisher_watermark. Qed.

Lemma carries_header h : header_fits h = true -> carries (write_header h limits) (read_header limits) h.
Proof.
  pose proof (limits_metadata limits Hlimits). unfold header_fits, write_header, read_header. intros. split_fits.
  eapply carries_bind; [by apply carries_u32, N.ltb_lt|cbv beta]. wire_struct h.
Qed.
End Sections.

Lemma carries_payload limits s :
  image_limits_fit limits = true -> state_fits limits s = true ->
  carries (write_payload s limits) (read_payload limits) s.
Proof.
  unfold image_limits_fit, state_fits, write_payload, read_payload. intros. split_fits.
  eapply carries_bind; [by apply carries_header|cbv beta].
  repeat (eapply carries_bind; [by (eapply carries_section; [eauto with typeclass_instances|..])|cbv beta]).
  wire_struct s.
Qed.

(* ===================================================================== *)
(** ** The prefix *)

(** The prefix without the digest. *)
Definition image_head (payload : list byte) : list byte :=
  w_bytes (w_u32 kStateMagic +++ w_u16 state_format_version +++ w_u16 0 +++ w_u32 (lengthN payload) +++
           w_u32 (crc32 payload)).

Lemma image_head_length payload : length (image_head payload) = 16%nat.
Proof. unfold image_head. cbn [w_then w_bytes w_u16 w_u32]. by rewrite !length_app, !uint_bytes_length. Qed.

Lemma image_prefix_head payload digest :
  w_bytes (image_prefix payload digest) = image_head payload ++ uint_bytes 8 0 digest.
Proof. unfold image_prefix, image_head. cbn [w_then w_bytes w_u16 w_u32 w_u64]. by rewrite <- !app_assoc. Qed.

(** Decoding bytes that start with the prefix of [payload], with any digest:
    what remains is to compare the length, the checksum and the digest. *)
Lemma decode_prefix payload field body options :
  lengthN payload < 2 ^ 32 -> length field = 8%nat ->
  decode_durable_state (image_head payload ++ field ++ body) options =
  let digest := (rd_u64 (rd_open field)).1 in
  if negb (lengthN payload =? lengthN body)
  then inl (failure CorruptData "durable state payload length does not match the image")
  else if negb (crc32 body =? crc32 payload)
  then inl (failure IntegrityFailure "durable state checksum does not match")
  else if max_image_bytes options <? kStatePrefixSize + lengthN body
  then inl (failure LimitExceeded "durable state exceeds the configured byte bound")
  else match decode_all (read_payload (po_limits options))
               (failure CorruptData "durable state image carries trailing bytes") body with
  | inl status => inl status
  | inr state =>
      if negb (dh_format_version (du_header state) =? state_format_version)
      then inl (failure UnsupportedVersion "durable state header format version mismatch")
      else if negb (digest =? 0) && negb (du_canonical_digest state =? digest)
      then inl (failure CorruptData "durable state digest header does not match its payload")
      else inr state
  end.
Proof.
  intros Hlen Hd. pose proof (crc32_small payload) as Hcrc.
  assert (Hp : length (image_head payload ++ field) = 24%nat) by (by rewrite length_app, image_head_length, Hd).
  rewrite app_assoc. unfold decode_durable_state. change (N.to_nat kStatePrefixSize) with 24%nat. cbv zeta.
  rewrite <- Hp, take_app_length, drop_app_length, lengthN_app.
  assert (HpN : lengthN (image_head payload ++ field) = kStatePrefixSize) by (unfold lengthN; by rewrite Hp).
  rewrite HpN, (proj2 (N.ltb_ge _ _)) by lia. unfold image_head. cbn [w_then w_bytes w_u16 w_u32]. rewrite <- !app_assoc.
  rewrite rd_u32_value by done. rewrite rd_u16_value by done. rewrite rd_u16_value by done.
  rewrite rd_u32_value by done. rewrite rd_u32_value by done. by destruct (rd_u64 (rd_open field)).
Qed.

(** A state that is accepted is read from the payload alone. *)
Lemma decode_accepted bytes options state :
  decode_durable_state bytes options = inr state ->
  (24 <= length bytes)%nat /\ exists trailing, decode_all (read_payload (po_limits options)) trailing (drop 24 bytes) = inr state.
Proof.
  unfold decode_durable_state. destruct (N.ltb_spec (lengthN bytes) kStatePrefixSize) as [|Hl]; [done|]. cbv zeta.
  change (N.to_nat kStatePrefixSize) with 24%nat. intros H. split; [change kStatePrefixSize with 24 in Hl; unfold lengthN in Hl; lia|].
  exists (failure CorruptData "durable state image carries trailing bytes"). repeat case_match; congruence.
Qed.

(** What an accepted state looks like in bytes. *)
Lemma encode_durable_state_inr state options bytes :
  encode_durable_state state options = inr bytes ->
  exists payload, payload = w_bytes (write_payload state (po_limits options)) /\
    w_truncated (write_payload state (po_limits options)) = false /\
    lengthN payload + kStatePrefixSize <= max_image_bytes options /\
    bytes = image_head payload ++ uint_bytes 8 0 (du_canonical_digest state) ++ payload.
Proof.
  unfold encode_durable_state. destruct (w_truncated _) eqn:Ht; [done|].
  destruct (N.ltb_spec (max_image_bytes options)
    (lengthN (w_bytes (write_payload state (po_limits options))) + kStatePrefixSize)) as [|Hle]; [done|].
  intros H. apply (inj inr) in H. exists (w_bytes (write_payload state (po_limits options))).
  by rewrite <- H, image_prefix_head, <- app_assoc.
Qed.

(** A state that fits, with the options that read it back. *)
Definition storable (options : PersistOptions) (state : DurableState) : bool :=
  image_limits_fit (po_limits options) && (max_image_bytes options <? 2 ^ 32) &&
  state_fits (po_limits options) state && (dh_format_version (du_header state) =? state_format_version).

Lemma storable_bounds options state :
  storable options state = true -> max_image_bytes options < 2 ^ 32 /\ du_canonical_digest state < 2 ^ 64.
Proof. unfold storable, state_fits, u64_fits. intros. split_fits. by rewrite <- !N.ltb_lt. Qed.

Section Image.
Context (options : PersistOptions) (state : DurableState) (image : list byte).
Context (Hstorable : storable options state = true) (Hencode : encode_durable_state state options = inr image).

Lemma image_parts :
  exists payload, image = image_head payload ++ uint_bytes 8 0 (du_canonical_digest state) ++ payload /\
    lengthN payload < 2 ^ 32.
Proof.
  apply encode_durable_state_inr in Hencode as (payload & -> & _ & Hle & ->). eexists. split; [reflexivity|].
  apply storable_bounds in Hstorable as [? ?]. lia.
Qed.

Lemma decode_image : decode_durable_state image options = inr state.
Proof.
  pose proof Hencode as He. apply encode_durable_state_inr in He as (payload & -> & Ht & Hle & ->).
  destruct (storable_bounds _ _ Hstorable) as [Hmax Hdigest]. unfold storable in Hstorable. split_fits.
  set (payload := w_bytes (write_payload _ _)) in *. rewrite decode_prefix by (lia || apply uint_bytes_length).
  rewrite !N.eqb_refl, (proj2 (N.ltb_ge _ _)) by lia. cbn [negb]. unfold decode_all, payload.
  rewrite <- (app_nil_r (w_bytes (write_payload _ _))), <- (app_nil_r (uint_bytes 8 0 _)).
  rewrite carries_payload, rd_u64_value by done. cbn [rd_exhausted rd_open rd_input negb fst].
  by rewrite H0, N.eqb_refl, andb_false_r.
Qed.

(** Bytes that agree with the image up to the digest, but hold another
    payload of the same length with another checksum. *)
Lemma decode_other_payload bytes :
  length bytes = length image -> take 16 bytes = take 16 image -> crc32 (drop 24 bytes) <> crc32 (drop 24 image) ->
  decode_durable_state bytes options = inl (failure IntegrityFailure "durable state checksum does not match").
Proof.
  destruct image_parts as (payload & -> & Hlen). intros Hl Ht Hcrc.
  rewrite !length_app, image_head_length, uint_bytes_length in Hl.
  assert (Hhead : take 16 bytes = image_head payload)
    by (rewrite Ht, <- (image_head_length payload); apply take_app_length).
  assert (Hbody : drop 24 (image_head payload ++ uint_bytes 8 0 (du_canonical_digest state) ++ payload) = payload).
  { rewrite app_assoc. apply drop_app_length'. by rewrite length_app, image_head_length, uint_bytes_length. }
  rewrite Hbody in Hcrc. rewrite <- (take_drop 16 bytes), Hhead, <- (take_drop 8 (drop 16 bytes)), drop_drop.
  change (16 + 8)%nat with 24%nat. rewrite decode_prefix; [|done|rewrite length_take, length_drop; lia]. cbv zeta.
  assert (Hn : lengthN payload = lengthN (drop 24 bytes)) by (unfold lengthN; rewrite length_drop; lia).
  rewrite Hn, N.eqb_refl. by apply N.eqb_neq in Hcrc as ->.
Qed.

(** Bytes with the prefix of the image and another length. *)
Lemma decode_other_length bytes :
  length bytes <> length image -> take 16 bytes = take 16 image ->
  exists message, decode_durable_state bytes options = inl (failure CorruptData message).
Proof.
  destruct image_parts as (payload & -> & Hlen). intros Hl Ht.
  rewrite !length_app, image_head_length, uint_bytes_length in Hl.
  destruct (Nat.lt_ge_cases (length bytes) 24) as [Hs|Hs].
  { eexists. unfold decode_durable_state. rewrite (proj2 (N.ltb_lt _ _)); [done|].
    change kStatePrefixSize with 24. unfold lengthN. lia. }
  assert (Hhead : take 16 bytes = image_head payload)
    by (rewrite Ht, <- (image_head_length payload); apply take_app_length).
  rewrite <- (take_drop 16 bytes), Hhead, <- (take_drop 8 (drop 16 bytes)), drop_drop.
  change (16 + 8)%nat with 24%nat. rewrite decode_prefix; [|done|rewrite length_take, length_drop; lia]. cbv zeta.
  assert (Hn : (lengthN payload =? lengthN (drop 24 bytes)) = false)
    by (apply N.eqb_neq; unfold lengthN; rewrite length_drop; lia).
  rewrite Hn. eauto.
Qed.

Lemma decode_same_payload bytes decoded :
  drop 24 bytes = drop 24 image -> decode_durable_state bytes options = inr decoded -> decoded = state.
Proof.
  intros Hd [_ [t1 H1]]%decode_accepted. pose proof decode_image as [_ [t2 H2]]%decode_accepted. rewrite Hd in H1.
  unfold decode_all in *. repeat case_match; congruence.
Qed.
End Image.

(** A burst that reaches the payload changes its checksum, unless it only
    changes bytes before it. *)
Lemma burst_reaches_payload before corrupted original after :
  length corrupted = length original -> (length original <= 4)%nat -> corrupted <> original ->
  crc32 (drop 24 (before ++ corrupted ++ after)) <> crc32 (drop 24 (before ++ original ++ after)) \/
  drop 24 (before ++ corrupted ++ after) = drop 24 (before ++ original ++ after) /\ (length before < 24)%nat.
Proof.
  intros Hl Hb Hne. destruct (Nat.le_gt_cases 24 (length before)) as [Hlt|Hgt].
  - left. rewrite !(drop_app_le before) by done. by apply crc32_detects_bursts.
  - rewrite !(drop_app_ge before) by lia. set (n := (24 - length before)%nat).
    destruct (Nat.le_gt_cases n (length original)).
    + rewrite !drop_app_le by lia. destruct (decide (drop n corrupted = drop n original)) as [->|Hd]; [by right|].
      left. apply (crc32_detects_bursts []); [by rewrite !length_drop, Hl|rewrite length_drop; lia|done].
    + right. split; [|done]. by rewrite !drop_app_ge, Hl by lia.
Qed.

(* ===================================================================== *)
(** ** [FileStateStore]

    The file system maps a path to the bytes of the file. [save] is a
    sequence of calls of the C library, each of which may fail; between two
    of them the process may stop, so that every state reachable by
    [save_steps] is one that a later [load] may find. What the library
    promises: the bytes of a file being written are the beginning of those
    given to [fwrite] until [fflush] and [fclose] have both succeeded, when
    they are all of them, and [rename] replaces its target in one step. *)

Abbreviation FileSystem := (gmap string (list byte)).

Definition temporary (path : string) : string := (path +:+ ".tmp")%string.

Inductive SavePhase :=
  | Opening
  | Writing
  | Closing (written : N)
  | Renaming
  | Removing (status : Status)
  | Finished (status : Status).

Definition open_failure (path : string) : Status :=
  failure IoFailure ("cannot open temporary state file " +:+ temporary path)%string.
Definition write_failure : Status := failure IoFailure "failed to write temporary state file".
Definition rename_failure (path : string) : Status :=
  failure IoFailure ("atomic replacement of " +:+ path +:+ " failed")%string.

(** The calls of [save] after the state was encoded as [bytes]. *)
Inductive save_step (path : string) (bytes : list byte) : FileSystem * SavePhase -> FileSystem * SavePhase -> Prop :=
  | step_open fs :
      save_step path bytes (fs, Opening) (<[temporary path := []]> fs, Writing)
  | step_open_fails fs :
      save_step path bytes (fs, Opening) (fs, Finished (open_failure path))
  | step_write fs written stored :
      written <= lengthN bytes -> stored <= written ->
      save_step path bytes (fs, Writing) (<[temporary path := take (N.to_nat stored) bytes]> fs, Closing written)
  | step_close fs written :
      save_step path bytes (fs, Closing written)
        (<[temporary path := take (N.to_nat written) bytes]> fs,
         if written =? lengthN bytes then Renaming else Removing write_failure)
  | step_close_fails fs written stored :
      stored <= written ->
      save_step path bytes (fs, Closing written)
        (<[temporary path := take (N.to_nat stored) bytes]> fs, Removing write_failure)
  | step_rename fs content :
      fs !! temporary path = Some content ->
      save_step path bytes (fs, Renaming) (<[path := content]> (delete (temporary path) fs), Finished success)
  | step_rename_fails fs :
      save_step path bytes (fs, Renaming) (fs, Removing (rename_failure path))
  | step_remove fs status :
      save_step path bytes (fs, Removing status) (delete (temporary path) fs, Finished status)
  | step_remove_fails fs status :
      save_step path bytes (fs, Removing status) (fs, Finished status).

Definition save_steps (path : string) (bytes : list byte) : relation (FileSystem * SavePhase) :=
  rtc (save_step path bytes).

(** [save]: the states it can reach from [fs]. *)
Definition saving (path : string) (options : PersistOptions) (state : DurableState) (fs : FileSystem) :
    FileSystem * SavePhase -> Prop :=
  match encode_durable_state state options with
  | inl status => eq (fs, Finished status)
  | inr bytes => save_steps path bytes (fs, Opening)
  end.

(** The loop of [load] over the chunks that [fread] returns. *)
Fixpoint read_chunks (max_bytes : N) (chunks : list (list byte)) (bytes : list byte) : option (list byte) :=
  match chunks with
  | [] => Some bytes
  | chunk :: chunks =>
      match chunk with
      | [] => Some bytes
      | _ => if max_bytes <? lengthN bytes + lengthN chunk then None
             else read_chunks max_bytes chunks (bytes ++ chunk)
      end
  end.

(** [load], on the chunks that are read from the file, if it can be opened,
    and [ferror]. *)
Definition load (path : string) (options : PersistOptions) (file : option (list (list byte))) (error : bool) :
    Status + DurableState :=
  match file with
  | None => inl (failure IoFailure ("cannot open state file " +:+ path)%string)
  | Some chunks =>
      match read_chunks (max_image_bytes options) chunks [] with
      | None => inl (failure LimitExceeded "state file exceeds the configured byte bound")
      | Some bytes =>
          if error then inl (failure IoFailure ("failed while reading state file " +:+ path)%string)
          else decode_durable_state bytes options
      end
  end.

(** A read of a whole file without an error: chunks that are not empty and
    concatenate to its bytes. *)
Definition chunks_of (bytes : list byte) (chunks : list (list byte)) : Prop :=
  concat chunks = bytes /\ Forall (fun chunk => chunk <> []) chunks.

Definition reads (fs : FileSystem) (path : string) (file : option (list (list byte))) : Prop :=
  match fs !! path, file with
  | None, None => True
  | Some bytes, Some chunks => chunks_of bytes chunks
  | _, _ => False
  end.

(* ===================================================================== *)
(** ** Lemmas: the store *)

Lemma append_length (a b : string) : String.length (a +:+ b)%string = (String.length a + String.length b)%nat.
Proof. induction a as [|c a IH]; [done|]. exact (f_equal S IH). Qed.

Lemma temporary_differs path : temporary path <> path.
Proof. intros H. apply (f_equal String.length) in H. unfold temporary in H. rewrite append_length in H. cbn in H. lia. Qed.

(** What holds of the file system in each phase. *)
Definition save_invariant (path : string) (bytes : list byte) (fs0 : FileSystem) (c : FileSystem * SavePhase) : Prop :=
  let '(fs, phase) := c in
  (forall other, other <> path -> other <> temporary path -> fs !! other = fs0 !! other) /\
  match phase with
  | Renaming => fs !! path = fs0 !! path /\ fs !! temporary path = Some bytes
  | Finished status =>
      if status_ok status then fs !! path = Some bytes /\ fs !! temporary path = None
      else fs !! path = fs0 !! path
  | Removing status => status_ok status = false /\ fs !! path = fs0 !! path
  | _ => fs !! path = fs0 !! path
  end.

Lemma save_invariant_step path bytes fs0 c c' :
  save_step path bytes c c' -> save_invariant path bytes fs0 c -> save_invariant path bytes fs0 c'.
Proof.
  pose proof (temporary_differs path) as Hne.
  assert (Hkeep : forall fs content other, other <> temporary path ->
    (<[temporary path := content]> fs : FileSystem) !! other = fs !! other)
    by (intros; by apply lookup_insert_ne).
  intros []; cbn [save_invariant]; intros [Hother Hphase].
  - split; intros; rewrite Hkeep; auto.
  - done.
  - split; intros; rewrite Hkeep; auto.
  - split; [intros; rewrite Hkeep; auto|]. destruct (N.eqb_spec written (lengthN bytes)) as [->|].
    + rewrite Hkeep by done. by rewrite lookup_insert_eq, take_lengthN.
    + split; [done|]. by rewrite Hkeep.
  - split; [intros; rewrite Hkeep; auto|]. split; [done|]. by rewrite Hkeep.
  - destruct Hphase as [Hp Ht]. assert (content = bytes) as -> by congruence. split.
    + intros other Ho Hot. rewrite lookup_insert_ne, lookup_delete_ne by done. by apply Hother.
    + cbn [status_ok success status_code]. change (status_ok success) with true.
      rewrite lookup_insert_eq, lookup_insert_ne, lookup_delete_eq by done. done.
  - destruct Hphase as [Hp _]. done.
  - destruct Hphase as [Hs Hp]. rewrite Hs. split; [intros other Ho Hot|]; rewrite lookup_delete_ne by done; auto.
  - destruct Hphase as [Hs Hp]. rewrite Hs. done.
Qed.

Lemma save_invariant_steps path bytes fs0 c :
  save_steps path bytes (fs0, Opening) c -> save_invariant path bytes fs0 c.
Proof.
  intros H. assert (H0 : save_invariant path bytes fs0 (fs0, Opening)) by done. revert H0.
  induction H as [|c1 c2 c3 Hstep _ IH]; [done|]. intros H0. by eapply IH, save_invariant_step.
Qed.

Lemma read_chunks_whole max_bytes chunks : forall bytes,
  Forall (fun chunk => chunk <> []) chunks -> lengthN bytes + lengthN (concat chunks) <= max_bytes ->
  read_chunks max_bytes chunks bytes = Some (bytes ++ concat chunks).
Proof.
  induction chunks as [|chunk chunks IH]; intros bytes Hne Hle; cbn [read_chunks concat]; [by rewrite app_nil_r|].
  apply Forall_cons in Hne as [Hc Hne]. cbn [concat] in Hle. rewrite lengthN_app in Hle.
  destruct chunk as [|b chunk]; [done|]. rewrite (proj2 (N.ltb_ge _ _)) by lia.
  rewrite IH by (done || (rewrite lengthN_app; lia)). by rewrite <- app_assoc.
Qed.

Lemma load_whole path options bytes chunks :
  chunks_of bytes chunks -> lengthN bytes <= max_image_bytes options ->
  load path options (Some chunks) false = decode_durable_state bytes options.
Proof. intros [<- Hne] Hle. unfold load. by rewrite read_chunks_whole. Qed.

(** Whether [save] has reported success. *)
Definition phase_succeeded (phase : SavePhase) : bool :=
  match phase with Finished status => status_ok status | _ => false end.

Lemma save_outcome path options state fs0 fs phase :
  saving path options state fs0 (fs, phase) ->
  (forall other, other <> path -> other <> temporary path -> fs !! other = fs0 !! other) /\
  if phase_succeeded phase
  then exists image, encode_durable_state state options = inr image /\ fs !! path = Some image /\
         fs !! temporary path = None
  else fs !! path = fs0 !! path.
Proof.
  unfold saving. destruct (encode_durable_state state options) as [status|image] eqn:E; intros Hsaving.
  - apply pair_equal_spec in Hsaving as [<- <-]. split; [done|]. cbn [phase_succeeded].
    destruct (status_ok status) eqn:Hs; [|done]. exfalso. unfold encode_durable_state in E.
    repeat case_match; try discriminate; apply (inj inl) in E; by subst status.
  - apply save_invariant_steps in Hsaving as [Hother Hphase]. split; [done|].
    destruct phase as [| | | |status|status]; cbn [phase_succeeded]; try done; try (by destruct Hphase).
    destruct (status_ok status); [|done]. destruct Hphase. eauto.
Qed.

Lemma image_bounded options state image :
  encode_durable_state state options = inr image -> lengthN image <= max_image_bytes options.
Proof.
  intros (payload & _ & _ & Hle & ->)%encode_durable_state_inr. rewrite !lengthN_app. unfold lengthN at 1 2.
  rewrite image_head_length, uint_bytes_length. change kStatePrefixSize with 24 in Hle. lia.
Qed.

(** What [load] finds while a save is under way, and after it. *)
Lemma load_saved path options state fs0 fs phase file :
  storable options state = true -> saving path options state fs0 (fs, phase) -> reads fs path file ->
  if phase_succeeded phase then load path options file false = inr state else reads fs0 path file.
Proof.
  intros Hstorable Hsaving Hread.
  pose proof (save_outcome _ _ _ _ _ _ Hsaving) as [_ Hfile]. destruct (phase_succeeded phase).
  - destruct Hfile as (image & E & Hp & _). unfold reads in Hread. rewrite Hp in Hread.
    destruct file as [chunks|]; [|done]. rewrite (load_whole path options image) by (done || by eapply image_bounded).
    by eapply decode_image.
  - unfold reads. by rewrite <- Hfile.
Qed.

(** The calls a phase has left. *)
Definition calls_left (phase : SavePhase) : nat :=
  match phase with Opening => 5 | Writing => 4 | Closing _ => 3 | Renaming => 2 | Removing _ => 1 | Finished _ => 0 end.

Lemma save_step_left path bytes c c' : save_step path bytes c c' -> (calls_left c'.2 < calls_left c.2)%nat.
Proof. intros []; cbn [snd]; try (case_match); cbn; lia. Qed.

Lemma save_steps_bounded path bytes n c c' :
  nsteps (save_step path bytes) n c c' -> (n + calls_left c'.2 <= calls_left c.2)%nat.
Proof. induction 1 as [|n c1 c2 c3 Hstep _ IH]; [done|]. apply save_step_left in Hstep. lia. Qed.

Lemma not_finished_steps path bytes fs phase :
  nf (save_step path bytes) (fs, phase) -> exists status, phase = Finished status.
Proof.
  intros Hnf. destruct phase as [| |written| |status|status]; [..|eauto]; exfalso; apply Hnf; eexists.
  - apply step_open.
  - by apply (step_write _ _ _ 0 0); lia.
  - apply step_close.
  - apply step_rename_fails.
  - apply step_remove.
Qed.

(** A run in which every call succeeds. *)
Lemma save_can_succeed path bytes fs :
  save_steps path bytes (fs, Opening)
    (<[path := bytes]> (delete (temporary path) (<[temporary path := bytes]> fs)), Finished success).
Proof.
  unfold save_steps.
  eapply rtc_l; [apply step_open|]. eapply rtc_l; [apply (step_write _ _ _ (lengthN bytes) (lengthN bytes)); reflexivity|].
  eapply rtc_l; [apply step_close|]. rewrite N.eqb_refl, !insert_insert_eq, take_lengthN.
  eapply rtc_l; [apply step_rename, lookup_insert_eq|]. apply rtc_refl.
Qed.

(* ===================================================================== *)
(** ** Properties *)

(** C10: an image that [encode_durable_state] produces is decoded as the state
    that was encoded, under the same options, provided the state fits: its
    counters have 64 bits, its sections and lists stay within the bounds of
    the format, and its header has the current format version. *)
Theorem durable_image_round_trip options state image
    (Hstorable : storable options state = true) (Hencode : encode_durable_state state options = inr image) :
  decode_durable_state image options = inr state.
Proof. exact (decode_image options state image Hstorable Hencode). Qed.

(** C11: a corruption of at most four consecutive bytes of the image of a
    state that fits ([storable]) is either refused or harmless: what is decoded, if anything, is the state that was
    encoded. A corruption of the payload is always refused, by the
    checksum. *)
Theorem corrupted_image_refused options state before corrupted original after
    (Hstorable : storable options state = true)
    (Hencode : encode_durable_state state options = inr (before ++ original ++ after))
    (Hlength : length corrupted = length original) (Hburst : (length original <= 4)%nat)
    (Hcorrupted : corrupted <> original) :
  match decode_durable_state (before ++ corrupted ++ after) options with
  | inr decoded => decoded = state /\ (length before < 24)%nat
  | inl status => (24 <= length before)%nat ->
      status = failure IntegrityFailure "durable state checksum does not match"
  end.
Proof.
  set (image := before ++ original ++ after) in *. set (bytes := before ++ corrupted ++ after).
  assert (Hlen : length bytes = length image) by (unfold bytes, image; rewrite !length_app; lia).
  destruct (Nat.le_gt_cases 24 (length before + length original)) as [Hend|Hend].
  - assert (Hcrc : crc32 (drop 24 bytes) <> crc32 (drop 24 image)
      \/ drop 24 bytes = drop 24 image /\ (length before < 24)%nat) by (by apply burst_reaches_payload).
    destruct Hcrc as [Hcrc|[Hsame Hb]].
    + erewrite decode_other_payload; [done|exact Hstorable|exact Hencode|done| |done].
      unfold bytes, image. rewrite !take_app_le by lia. done.
    + destruct (decode_durable_state bytes options) as [|decoded] eqn:E; [lia|]. split; [|done].
      by eapply decode_same_payload.
  - destruct (decode_durable_state bytes options) as [|decoded] eqn:E; [lia|]. split; [|lia].
    eapply decode_same_payload; [exact Hstorable|exact Hencode| |exact E].
    unfold bytes, image. rewrite !app_assoc, !drop_app_ge by (rewrite length_app; lia). by rewrite !length_app, Hlength.
Qed.

(** Every strict prefix of an image, and every extension of one, is
    refused as corrupt: a torn write is never taken for a state. *)
Theorem resized_image_refused options state image
    (Hstorable : storable options state = true) (Hencode : encode_durable_state state options = inr image) :
  (forall n, (n < length image)%nat ->
     exists message, decode_durable_state (take n image) options = inl (failure CorruptData message)) /\
  (forall extra, extra <> [] ->
     exists message, decode_durable_state (image ++ extra) options = inl (failure CorruptData message)).
Proof.
  assert (Hlen : (24 <= length image)%nat) by (by destruct (decode_accepted _ _ _ (decode_image _ _ _ Hstorable Hencode))).
  split.
  - intros n Hn. destruct (Nat.lt_ge_cases n 24) as [Hs|Hs].
    + eexists. unfold decode_durable_state. rewrite (proj2 (N.ltb_lt _ _)); [done|].
      change kStatePrefixSize with 24. unfold lengthN. rewrite length_take. lia.
    + apply (decode_other_length options state image Hstorable Hencode); [rewrite length_take; lia|].
      rewrite take_take. by rewrite Nat.min_l by lia.
  - intros extra Hne. apply (decode_other_length options state image Hstorable Hencode).
    + rewrite length_app. destruct extra; [done|]. cbn. lia.
    + by rewrite take_app_le by lia.
Qed.

(** C26: saving is atomic. Whatever calls fail and wherever the process stops,
    the state file holds either what it held before or the whole new image,
    no other file but the temporary one is touched, and the new image is in
    place exactly when [save] reports success. *)
Theorem save_is_atomic path options state fs0 fs phase
    (Hsaving : saving path options state fs0 (fs, phase)) :
  (forall other, other <> path -> other <> temporary path -> fs !! other = fs0 !! other) /\
  if phase_succeeded phase
  then exists image, encode_durable_state state options = inr image /\ fs !! path = Some image /\
         fs !! temporary path = None
  else fs !! path = fs0 !! path.
Proof. exact (save_outcome path options state fs0 fs phase Hsaving). Qed.

(** What a [load] after [save] finds, also after a crash: as long as
    [save] has not reported success, a whole read of the state file is one
    that was possible before; afterwards it yields the state that was
    saved. *)
Theorem load_after_save path options state fs0 fs phase file
    (Hstorable : storable options state = true) (Hsaving : saving path options state fs0 (fs, phase))
    (Hread : reads fs path file) :
  if phase_succeeded phase then load path options file false = inr state else reads fs0 path file.
Proof. exact (load_saved path options state fs0 fs phase file Hstorable Hsaving Hread). Qed.

(** [save] always finishes. A run of it makes at most five calls, one that
    cannot go on has returned a status, and for a state that is encoded one
    of the runs returns success. *)
Theorem save_terminates path bytes fs :
  (forall n c, nsteps (save_step path bytes) n (fs, Opening) c -> (n <= 5)%nat /\
     (nf (save_step path bytes) c -> exists status, c.2 = Finished status)) /\
  exists fs', save_steps path bytes (fs, Opening) (fs', Finished success).
Proof.
  split.
  - intros n [fs' phase] Hn. split.
    + apply save_steps_bounded in Hn. cbn [snd calls_left] in Hn. lia.
    + intros Hnf. by eapply not_finished_steps.
  - eexists. apply save_can_succeed.
Qed.

(* ===================================================================== *)
(** ** Witnesses *)

Definition sample_options : PersistOptions := mk_PersistOptions default_limits 0.
Definition sample_state : DurableState := export_durable_state "t" sample_fleet.

Lemma sample_storable : storable sample_options sample_state = true.
Proof. vm_compute. reflexivity. Qed.

Lemma sample_encodes : exists image, encode_durable_state sample_state sample_options = inr image.
Proof.
  assert (H : match encode_durable_state sample_state sample_options with inl _ => false | inr _ => true end = true)
    by (vm_compute; reflexivity).
  revert H. generalize (encode_durable_state sample_state sample_options). intros [status|image] H; [discriminate H|].
  by exists image.
Qed.

Lemma durable_image_round_trip_witness :
  exists image, encode_durable_state sample_state sample_options = inr image /\
    decode_durable_state image sample_options = inr sample_state.
Proof.
  destruct sample_encodes as [image E]. exists image. split; [exact E|].
  exact (durable_image_round_trip sample_options sample_state image sample_storable E).
Defined.

(** Two bytes overwritten, in the middle of an image. *)
Lemma sample_burst :
  exists before a b after, encode_durable_state sample_state sample_options = inr (before ++ [a; b] ++ after) /\
    (24 <= length before)%nat.
Proof.
  destruct sample_encodes as [image E].
  destruct (decode_accepted _ _ _ (decode_image _ _ _ sample_storable E)) as [Hl _].
  assert (Hlen : (40 <= length image)%nat).
  { apply encode_durable_state_inr in E as (payload & Hp & _ & _ & ->). rewrite !length_app, image_head_length, uint_bytes_length.
    assert (length payload >= 16)%nat by (subst payload; unfold write_payload, write_header; cbn [w_then w_bytes w_u32 write_gen w_u64];
      rewrite !length_app, !uint_bytes_length; lia). lia. }
  exists (take 30 image). rewrite <- (take_drop 30 image) in E.
  assert (Hd : (10 <= length (drop 30 image))%nat) by (rewrite length_drop; lia).
  destruct (drop 30 image) as [|a [|b after]]; [cbn in Hd; lia..|].
  exists a, b, after. split; [exact E|]. rewrite length_take. lia.
Qed.

Definition flip_bit (b : byte) : byte :=
  let '(Ascii b0 b1 b2 b3 b4 b5 b6 b7) := b in Ascii (negb b0) b1 b2 b3 b4 b5 b6 b7.

Lemma flip_bit_differs b : flip_bit b <> b.
Proof. by destruct b as [[]]. Qed.

Lemma corrupted_image_refused_witness :
  exists before a b after, encode_durable_state sample_state sample_options = inr (before ++ [a; b] ++ after) /\
    match decode_durable_state (before ++ [flip_bit a; b] ++ after) sample_options with
    | inr decoded => decoded = sample_state /\ (length before < 24)%nat
    | inl status => (24 <= length before)%nat ->
        status = failure IntegrityFailure "durable state checksum does not match"
    end.
Proof.
  destruct sample_burst as (before & a & b & after & E & _). exists before, a, b, after. split; [exact E|].
  assert (Hshort : (length [a; b] <= 4)%nat) by (cbn; lia).
  assert (Hne : [flip_bit a; b] <> [a; b]) by (intros H; exact (flip_bit_differs a (f_equal (hd a) H))).
  exact (corrupted_image_refused sample_options sample_state before [flip_bit a; b] [a; b] after sample_storable E
    eq_refl Hshort Hne).
Defined.

Lemma resized_image_refused_witness :
  exists image, encode_durable_state sample_state sample_options = inr image /\
    forall extra, extra <> [] ->
      exists message, decode_durable_state (image ++ extra) sample_options = inl (failure CorruptData message).
Proof.
  destruct sample_encodes as [image E]. exists image. split; [exact E|].
  exact (proj2 (resized_image_refused sample_options sample_state image sample_storable E)).
Defined.

Lemma sample_saving : exists fs, saving "hcr.state" sample_options sample_state ∅ (fs, Finished success).
Proof.
  destruct sample_encodes as [image E]. eexists. unfold saving. rewrite E. apply save_can_succeed.
Qed.

Lemma save_is_atomic_witness :
  exists fs image, saving "hcr.state" sample_options sample_state ∅ (fs, Finished success) /\
    fs !! "hcr.state"%string = Some image.
Proof.
  destruct sample_saving as [fs Hs]. pose proof (proj2 (save_is_atomic _ _ _ _ _ _ Hs)) as (image & _ & Hp & _).
  exists fs, image. exact (conj Hs Hp).
Defined.

Lemma load_after_save_witness :
  exists fs file, saving "hcr.state" sample_options sample_state ∅ (fs, Finished success) /\
    load "hcr.state" sample_options file false = inr sample_state.
Proof.
  destruct sample_saving as [fs Hs]. pose proof (proj2 (save_outcome _ _ _ _ _ _ Hs)) as (image & E & Hp & _).
  exists fs, (Some [image]). split; [exact Hs|].
  apply (load_after_save "hcr.state" sample_options sample_state ∅ fs (Finished success) (Some [image]) sample_storable Hs).
  unfold reads. rewrite Hp. split; [apply app_nil_r|]. apply Forall_singleton.
  apply encode_durable_state_inr in E as (payload & _ & _ & _ & ->). discriminate.
Defined.
