(* ===== verification/QueryCodec.v ===== *)
(** * The codec of answers and queries

    Models the rest of [codec.cpp]: environments, answers, comparisons,
    snapshots and the query structs, each with the lemma that its read
    function reads back what its write function wrote. *)

From S2P Require Import Prelude Tokens Versions Support Conditions Values Hardware Quirks Compat Publication.
From S2P Require Import RegistryState Fixtures Resolution Wire Checksum Codec Frames Queries Snapshots Durable Image.

(* ===================================================================== *)
(** ** Environments *)

Definition write_fact (limits : RegistryLimits) (fact : string * string) : Writer :=
  w_str fact.1 (max_name_length limits) +++ w_str fact.2 (max_metadata_bytes limits).

(** The facts are a [std::map]: they are written in key order. *)
Definition write_environment (environment : EnvironmentContext) (limits : RegistryLimits) : Writer :=
  w_list (max_query_results limits) (write_fact limits) (map_entries environment).

Definition read_fact (limits : RegistryLimits) : Reading (string * string) :=
  key ← read_str (max_name_length limits);
  value ← read_str (max_metadata_bytes limits);
  mret (key, value).

Definition set_fact (environment : EnvironmentContext) (fact : string * string) : EnvironmentContext :=
  env_set environment fact.1 fact.2.

Definition read_environment (limits : RegistryLimits) : Reading EnvironmentContext :=
  facts ← read_list (max_query_results limits) LimitExceeded "environment fact count exceeds the bound" (read_fact limits);
  mret (foldl set_fact ∅ facts).

(* ===================================================================== *)
(** ** Answers *)

Definition write_evidence_view (view : EvidenceView) (limits : RegistryLimits) : Writer :=
  write_gen (ev_capability_generation view) +++
  w_enum (ev_support view) +++
  write_value limits (ev_value view) +++
  w_enum (ev_precision view) +++
  write_evidence_source (ev_source view) limits +++
  w_u32 (ev_staleness view) +++
  w_boolean (ev_winner view) +++
  w_boolean (ev_withdrawn view).

Definition read_evidence_view (limits : RegistryLimits) : Reading EvidenceView :=
  capability_generation ← read_gen;
  support ← read_enum SupportState.RevalidationRequired InvalidSupportState "unknown support state on the wire";
  value ← read_value limits 1;
  precision ← read_enum PrecisionClass.Unknown InvalidProvenance "unknown precision class on the wire";
  source ← read_evidence_source limits;
  staleness ← read_u32;
  winner ← read_boolean;
  withdrawn ← read_boolean;
  mret (mk_EvidenceView capability_generation support value precision source staleness winner withdrawn).

Definition write_quirk_application (application : QuirkApplication) (limits : RegistryLimits) : Writer :=
  write_id (qp_id application) +++
  write_gen (qp_generation application) +++
  w_enum (qp_severity application) +++
  w_enum (qp_mitigation application) +++
  w_enum (qp_result application) +++
  w_str (qp_reason application) (max_metadata_bytes limits) +++
  w_str (qp_title application) (max_name_length limits).

Definition read_quirk_application (limits : RegistryLimits) : Reading QuirkApplication :=
  id ← read_id;
  quirk_generation ← read_gen;
  severity ← read_u16;
  mitigation ← read_u16;
  result ← read_u16;
  _ ← refuse_if ((enum_index QuirkSeverity.Fatal <? severity) || (enum_index MitigationKind.ContactVendor <? mitigation) ||
                 (enum_index QuirkApplicabilityResult.Unknown <? result))
        CorruptData "unknown quirk application enumeration on the wire";
  severity ← cast_enum severity;
  mitigation ← cast_enum mitigation;
  result ← cast_enum result;
  reason ← read_str (max_metadata_bytes limits);
  title ← read_str (max_name_length limits);
  mret (mk_QuirkApplication id quirk_generation severity mitigation result reason title).

Definition write_condition_evidence (limits : RegistryLimits) (evidence : ConditionEvidence) : Writer :=
  w_str (ce_expression evidence) (max_metadata_bytes limits) +++
  w_enum (ce_outcome evidence) +++
  w_str (ce_detail evidence) (max_metadata_bytes limits).

Definition write_condition_evaluation (evaluation : ConditionEvaluation) (limits : RegistryLimits) : Writer :=
  w_enum (outcome evaluation) +++
  w_list (max_condition_nodes limits) (write_condition_evidence limits) (evidence evaluation).

Definition read_condition_evidence (limits : RegistryLimits) : Reading ConditionEvidence :=
  expression ← read_str (max_metadata_bytes limits);
  outcome ← read_enum ConditionOutcome.NotApplicable InvalidCondition "unknown leaf condition outcome on the wire";
  detail ← read_str (max_metadata_bytes limits);
  mret (mk_ConditionEvidence expression outcome detail).

Definition read_condition_evaluation (limits : RegistryLimits) : Reading ConditionEvaluation :=
  outcome ← read_enum ConditionOutcome.NotApplicable InvalidCondition "unknown condition outcome on the wire";
  evidence ← read_list (max_condition_nodes limits) LimitExceeded "condition evidence count exceeds the bound"
               (read_condition_evidence limits);
  mret (mk_ConditionEvaluation outcome evidence).

Definition write_resolved_capability (value : ResolvedCapability) (limits : RegistryLimits) : Writer :=
  write_id (rc_device value) +++
  write_gen (rc_device_generation value) +++
  write_gen (rc_device_boot value) +++
  write_id (rc_capability value) +++
  write_id (rc_schema value) +++
  write_gen (rc_capability_generation value) +++
  w_enum (rc_declared_support value) +++
  w_enum (rc_effective_support value) +++
  write_value limits (rc_value value) +++
  w_enum (rc_precision value) +++
  w_enum (rc_truth value) +++
  w_enum (rc_contradiction value) +++
  w_u32 (rc_staleness value) +++
  write_condition (rc_conditions value) limits +++
  write_condition_evaluation (rc_condition_evaluation value) limits +++
  w_list (max_query_results limits) (fun a => write_quirk_application a limits) (rc_quirks value) +++
  w_list (max_query_results limits) (fun v => write_evidence_view v limits) (rc_evidence value) +++
  write_gen (rc_firmware_generation value) +++
  write_gen (rc_driver_generation value) +++
  write_gen (rc_runtime_generation value) +++
  w_boolean (rc_current value) +++
  w_boolean (rc_known value) +++
  w_str (rc_explanation value) (max_string_bytes limits).

Definition read_resolved_capability (limits : RegistryLimits) : Reading ResolvedCapability :=
  device ← read_id;
  device_generation ← read_gen;
  device_boot ← read_gen;
  capability ← read_id;
  schema ← read_id;
  capability_generation ← read_gen;
  support ← read_u16;
  effective ← read_u16;
  _ ← refuse_if ((enum_index SupportState.RevalidationRequired <? support) ||
                 (enum_index EffectiveSupport.RevalidationRequired <? effective))
        InvalidSupportState "unknown support state on the wire";
  declared_support ← cast_enum support;
  effective_support ← cast_enum effective;
  value ← read_value limits 1;
  precision ← read_u16;
  truth ← read_u16;
  contradiction ← read_u16;
  _ ← refuse_if ((enum_index PrecisionClass.Unknown <? precision) || (enum_index TruthClass.Unknown <? truth) ||
                 (enum_index ContradictionState.RevalidationRequired <? contradiction))
        CorruptData "unknown classification on the wire";
  precision ← cast_enum precision;
  truth ← cast_enum truth;
  contradiction ← cast_enum contradiction;
  staleness ← read_u32;
  conditions ← read_condition limits 1;
  condition_evaluation ← read_condition_evaluation limits;
  quirks ← read_list (max_query_results limits) LimitExceeded "quirk application count exceeds the bound"
             (read_quirk_application limits);
  evidence ← read_list (max_query_results limits) LimitExceeded "evidence view count exceeds the bound"
               (read_evidence_view limits);
  firmware_generation ← read_gen;
  driver_generation ← read_gen;
  runtime_generation ← read_gen;
  current ← read_boolean;
  known ← read_boolean;
  explanation ← read_str (max_string_bytes limits);
  mret (mk_ResolvedCapability device device_generation device_boot capability schema capability_generation
    declared_support effective_support value precision truth contradiction staleness conditions condition_evaluation
    quirks evidence firmware_generation driver_generation runtime_generation current known explanation).

Definition write_difference (limits : RegistryLimits) (difference : CapabilityDifference) : Writer :=
  write_id (cd_capability difference) +++
  w_enum (cd_kind difference) +++
  w_enum (cd_left_effective difference) +++
  w_enum (cd_right_effective difference) +++
  w_str (cd_detail difference) (max_metadata_bytes limits).

Definition write_device_comparison (value : DeviceComparison) (limits : RegistryLimits) : Writer :=
  write_id (dc_left value) +++
  write_id (dc_right value) +++
  write_gen (dc_left_generation value) +++
  write_gen (dc_right_generation value) +++
  w_str (dc_left_software value) (max_name_length limits) +++
  w_str (dc_right_software value) (max_name_length limits) +++
  w_list (max_comparison_entries limits) (write_difference limits) (dc_differences value) +++
  w_list (max_comparison_entries limits) write_id (dc_equivalent value) +++
  w_str (dc_explanation value) (max_string_bytes limits).

Definition read_difference (limits : RegistryLimits) : Reading CapabilityDifference :=
  capability ← read_id;
  kind ← read_u16;
  left ← read_u16;
  right ← read_u16;
  _ ← refuse_if ((enum_index CapabilityDifferenceKind.ShapeDiffers <? kind) ||
                 (enum_index EffectiveSupport.RevalidationRequired <? left) ||
                 (enum_index EffectiveSupport.RevalidationRequired <? right))
        CorruptData "unknown difference enumeration on the wire";
  kind ← cast_enum kind;
  left ← cast_enum left;
  right ← cast_enum right;
  detail ← read_str (max_metadata_bytes limits);
  mret (mk_CapabilityDifference capability kind left right detail).

Definition read_device_comparison (limits : RegistryLimits) : Reading DeviceComparison :=
  left ← read_id;
  right ← read_id;
  left_generation ← read_gen;
  right_generation ← read_gen;
  left_software ← read_str (max_name_length limits);
  right_software ← read_str (max_name_length limits);
  differences ← read_list (max_comparison_entries limits) LimitExceeded "comparison entry count exceeds the bound"
                  (read_difference limits);
  equivalent ← read_list (max_comparison_entries limits) LimitExceeded "equivalent capability count exceeds the bound"
                 read_id;
  explanation ← read_str (max_string_bytes limits);
  mret (mk_DeviceComparison left right left_generation right_generation left_software right_software differences
    equivalent explanation).

Definition write_registry_snapshot (value : RegistrySnapshot) (limits : RegistryLimits) : Writer :=
  write_gen (rs_generation value) +++
  write_gen (rs_epoch value) +++
  w_u64 (rs_state_revision value) +++
  w_str (rs_created_at_utc value) (max_metadata_bytes limits) +++
  w_list (max_snapshot_records limits) (fun s => write_subject_snapshot s limits) (rs_subjects value) +++
  w_list (max_snapshot_records limits) (fun c => write_resolved_capability c limits) (rs_capabilities value) +++
  w_list (max_quirks limits) (fun q => write_quirk_record q limits) (rs_quirks value) +++
  w_list (max_compatibility_facts limits) (fun f => write_compatibility_fact f limits) (rs_compatibility value) +++
  w_list (max_publishers limits) (fun p => write_publisher_record p limits) (rs_publishers value) +++
  w_u64 (rs_real_statements value) +++
  w_u64 (rs_synthetic_statements value) +++
  w_u64 (rs_unsupported_statements value) +++
  w_u64 (rs_unknown_statements value) +++
  w_u64 (rs_stale_evidence_records value) +++
  w_u64 (rs_canonical_digest value).

(** The lambda [read_count] with the loop that follows each of its calls. *)
Definition read_counted {A} (bound : N) (what : string) (read : Reading A) : Reading (list A) :=
  read_list bound LimitExceeded (what +:+ " count exceeds the bound")%string read.

Definition read_registry_snapshot (limits : RegistryLimits) : Reading RegistrySnapshot :=
  generation ← read_gen;
  epoch ← read_gen;
  state_revision ← read_u64;
  created_at_utc ← read_str (max_metadata_bytes limits);
  subjects ← read_counted (max_snapshot_records limits) "snapshot subject" (read_subject_snapshot limits);
  capabilities ← read_counted (max_snapshot_records limits) "snapshot capability" (read_resolved_capability limits);
  quirks ← read_counted (max_quirks limits) "snapshot quirk" (read_quirk_record limits);
  compatibility ← read_counted (max_compatibility_facts limits) "snapshot compatibility" (read_compatibility_fact limits);
  publishers ← read_counted (max_publishers limits) "snapshot publisher" (read_publisher_record limits);
  real_statements ← read_u64;
  synthetic_statements ← read_u64;
  unsupported_statements ← read_u64;
  unknown_statements ← read_u64;
  stale_evidence_records ← read_u64;
  canonical_digest ← read_u64;
  mret (mk_RegistrySnapshot generation epoch state_revision created_at_utc subjects capabilities quirks compatibility
    publishers real_statements synthetic_statements unsupported_statements unknown_statements stale_evidence_records
    canonical_digest).

(* ===================================================================== *)
(** ** Queries *)

Definition write_capability_query (query : CapabilityQuery) (limits : RegistryLimits) : Writer :=
  write_id (cq_device query) +++
  write_gen (cq_device_generation query) +++
  write_id (cq_capability query) +++
  write_environment (cq_environment query) limits +++
  w_boolean (cq_include_evidence query).

Definition read_capability_query (limits : RegistryLimits) : Reading CapabilityQuery :=
  device ← read_id;
  device_generation ← read_gen;
  capability ← read_id;
  environment ← read_environment limits;
  include_evidence ← read_boolean;
  mret (mk_CapabilityQuery device device_generation capability environment include_evidence).

Definition write_device_capability_query (query : DeviceCapabilityQuery) (limits : RegistryLimits) : Writer :=
  write_id (dq_device query) +++
  write_gen (dq_device_generation query) +++
  write_environment (dq_environment query) limits +++
  w_str (dq_capability_prefix query) (max_name_length limits) +++
  w_option w_enum (dq_domain query) +++
  w_option w_enum (dq_declared_filter query) +++
  w_option w_enum (dq_effective_filter query) +++
  w_option w_enum (dq_truth_filter query) +++
  w_boolean (dq_only_conditional query) +++
  w_boolean (dq_only_unknown query) +++
  w_boolean (dq_only_unsupported query) +++
  w_boolean (dq_only_stale query) +++
  w_boolean (dq_only_current query) +++
  w_u64 (dq_max_results query).

Definition read_device_capability_query (limits : RegistryLimits) : Reading DeviceCapabilityQuery :=
  device ← read_id;
  device_generation ← read_gen;
  environment ← read_environment limits;
  capability_prefix ← read_str (max_name_length limits);
  domain ← read_option (read_enum CapabilityDomain.Platform InvalidCapability "unknown capability domain on the wire");
  declared_filter ← read_option (read_enum SupportState.RevalidationRequired InvalidSupportState
                                   "unknown support state on the wire");
  effective_filter ← read_option (read_enum EffectiveSupport.RevalidationRequired InvalidSupportState
                                    "unknown effective support on the wire");
  truth_filter ← read_option (read_enum TruthClass.Unknown CorruptData "unknown truth class on the wire");
  only_conditional ← read_boolean;
  only_unknown ← read_boolean;
  only_unsupported ← read_boolean;
  only_stale ← read_boolean;
  only_current ← read_boolean;
  max_results ← read_u64;
  mret (mk_DeviceCapabilityQuery device device_generation environment capability_prefix domain declared_filter
    effective_filter truth_filter only_conditional only_unknown only_unsupported only_stale only_current max_results).

Definition write_fleet_query (query : FleetCapabilityQuery) (limits : RegistryLimits) : Writer :=
  write_id (fq_capability query) +++
  write_environment (fq_environment query) limits +++
  w_option w_enum (fq_effective_filter query) +++
  w_option w_enum (fq_truth_filter query) +++
  w_option w_enum (fq_hardware_class query) +++
  w_boolean (fq_only_current query) +++
  w_u64 (fq_max_results query).

Definition read_fleet_query (limits : RegistryLimits) : Reading FleetCapabilityQuery :=
  capability ← read_id;
  environment ← read_environment limits;
  effective_filter ← read_option (read_enum EffectiveSupport.RevalidationRequired InvalidSupportState
                                    "unknown effective support on the wire");
  truth_filter ← read_option (read_enum TruthClass.Unknown CorruptData "unknown truth class on the wire");
  hardware_class ← read_option (read_enum HardwareClass.Other InvalidIdentity "unknown hardware class on the wire");
  only_current ← read_boolean;
  max_results ← read_u64;
  mret (mk_FleetCapabilityQuery capability environment effective_filter truth_filter hardware_class only_current
    max_results).

Definition write_stale_query (query : StaleCapabilityQuery) (limits : RegistryLimits) : Writer :=
  write_id (sq_device query) +++
  write_gen (sq_device_generation query) +++
  write_environment (sq_environment query) limits +++
  w_u64 (sq_max_results query).

Definition read_stale_query (limits : RegistryLimits) : Reading StaleCapabilityQuery :=
  device ← read_id;
  device_generation ← read_gen;
  environment ← read_environment limits;
  max_results ← read_u64;
  mret (mk_StaleCapabilityQuery device device_generation environment max_results).

Definition write_quirk_query (query : QuirkQuery) (limits : RegistryLimits) : Writer :=
  w_option write_id (qq_device query) +++
  write_environment (qq_environment query) limits +++
  w_option write_id (qq_capability query) +++
  w_boolean (qq_only_applicable query) +++
  w_u64 (qq_max_results query).

Definition read_quirk_query (limits : RegistryLimits) : Reading QuirkQuery :=
  device ← read_option read_id;
  environment ← read_environment limits;
  capability ← read_option read_id;
  only_applicable ← read_boolean;
  max_results ← read_u64;
  mret (mk_QuirkQuery device environment capability only_applicable max_results).

Definition write_compatibility_query (query : CompatibilityQuery) (limits : RegistryLimits) : Writer :=
  w_option (fun r => write_hardware_reference r limits) (fcq_reference query) +++
  w_option w_enum (fcq_kind query) +++
  w_boolean (fcq_include_withdrawn query) +++
  w_u64 (fcq_max_results query).

Definition read_compatibility_query (limits : RegistryLimits) : Reading CompatibilityQuery :=
  reference ← read_option (read_hardware_reference limits);
  kind ← read_option (read_enum CompatibilitySubjectKind.Other CorruptData
                        "unknown compatibility subject kind on the wire");
  include_withdrawn ← read_boolean;
  max_results ← read_u64;
  mret (mk_CompatibilityQuery reference kind include_withdrawn max_results).

Definition write_comparison_request (request : ComparisonRequest) (limits : RegistryLimits) : Writer :=
  write_id (cmp_left request) +++
  write_id (cmp_right request) +++
  write_gen (cmp_left_generation request) +++
  write_gen (cmp_right_generation request) +++
  write_environment (cmp_environment request) limits.

Definition read_comparison_request (limits : RegistryLimits) : Reading ComparisonRequest :=
  left ← read_id;
  right ← read_id;
  left_generation ← read_gen;
  right_generation ← read_gen;
  environment ← read_environment limits;
  mret (mk_ComparisonRequest left right left_generation right_generation environment).

Definition write_publisher_query (query : PublisherQuery) (limits : RegistryLimits) : Writer :=
  w_option w_enum (pq_state query) +++
  w_u64 (pq_max_results query).

Definition read_publisher_query (limits : RegistryLimits) : Reading PublisherQuery :=
  state ← read_option (read_enum PublisherState.Dead CorruptData "unknown publisher state on the wire");
  max_results ← read_u64;
  mret (mk_PublisherQuery state max_results).

(* ===================================================================== *)
(** ** What fits

    As in the file Codec. The facts of an environment are lower case, as
    [EnvironmentContext::set] makes them. *)

Definition fact_canonical (fact : string * string) : bool :=
  (ascii_lower fact.1 ==? fact.1) && (ascii_lower fact.2 ==? fact.2).

Definition environment_fits (limits : RegistryLimits) (environment : EnvironmentContext) : bool :=
  section_fits (max_query_results limits) fact_canonical (map_entries environment).

Definition u32_fits (n : N) : bool := n <? 2 ^ 32.

Definition view_fits (limits : RegistryLimits) (v : EvidenceView) : bool :=
  gen_fits (ev_capability_generation v) && value_fits limits 1 (ev_value v) && source_fits (ev_source v) &&
  u32_fits (ev_staleness v).

Definition application_fits (a : QuirkApplication) : bool := gen_fits (qp_generation a).

Definition answer_fits (limits : RegistryLimits) (r : ResolvedCapability) : bool :=
  gen_fits (rc_device_generation r) && gen_fits (rc_device_boot r) && gen_fits (rc_capability_generation r) &&
  value_fits limits 1 (rc_value r) && u32_fits (rc_staleness r) && condition_fits limits 1 (rc_conditions r) &&
  within (max_condition_nodes limits) (evidence (rc_condition_evaluation r)) &&
  section_fits (max_query_results limits) application_fits (rc_quirks r) &&
  section_fits (max_query_results limits) (view_fits limits) (rc_evidence r) &&
  gen_fits (rc_firmware_generation r) && gen_fits (rc_driver_generation r) && gen_fits (rc_runtime_generation r).

Definition comparison_fits (limits : RegistryLimits) (c : DeviceComparison) : bool :=
  gen_fits (dc_left_generation c) && gen_fits (dc_right_generation c) &&
  within (max_comparison_entries limits) (dc_differences c) && within (max_comparison_entries limits) (dc_equivalent c).

Definition snapshot_fits (limits : RegistryLimits) (s : RegistrySnapshot) : bool :=
  gen_fits (rs_generation s) && gen_fits (rs_epoch s) && u64_fits (rs_state_revision s) &&
  section_fits (max_snapshot_records limits) (subject_fits limits) (rs_subjects s) &&
  section_fits (max_snapshot_records limits) (answer_fits limits) (rs_capabilities s) &&
  section_fits (max_quirks limits) (quirk_fits limits) (rs_quirks s) &&
  section_fits (max_compatibility_facts limits) (fact_fits limits) (rs_compatibility s) &&
  section_fits (max_publishers limits) publisher_fits (rs_publishers s) &&
  u64_fits (rs_real_statements s) && u64_fits (rs_synthetic_statements s) && u64_fits (rs_unsupported_statements s) &&
  u64_fits (rs_unknown_statements s) && u64_fits (rs_stale_evidence_records s) && u64_fits (rs_canonical_digest s).

Definition capability_query_fits (limits : RegistryLimits) (q : CapabilityQuery) : bool :=
  gen_fits (cq_device_generation q) && environment_fits limits (cq_environment q).
Definition device_query_fits (limits : RegistryLimits) (q : DeviceCapabilityQuery) : bool :=
  gen_fits (dq_device_generation q) && environment_fits limits (dq_environment q) && u64_fits (dq_max_results q).
Definition fleet_query_fits (limits : RegistryLimits) (q : FleetCapabilityQuery) : bool :=
  environment_fits limits (fq_environment q) && u64_fits (fq_max_results q).
Definition stale_query_fits (limits : RegistryLimits) (q : StaleCapabilityQuery) : bool :=
  gen_fits (sq_device_generation q) && environment_fits limits (sq_environment q) && u64_fits (sq_max_results q).
Definition quirk_query_fits (limits : RegistryLimits) (q : QuirkQuery) : bool :=
  environment_fits limits (qq_environment q) && u64_fits (qq_max_results q).
Definition compatibility_query_fits (q : CompatibilityQuery) : bool :=
  match fcq_reference q with None => true | Some r => version_fits (ref_version r) end && u64_fits (fcq_max_results q).
Definition comparison_request_fits (limits : RegistryLimits) (q : ComparisonRequest) : bool :=
  gen_fits (cmp_left_generation q) && gen_fits (cmp_right_generation q) && environment_fits limits (cmp_environment q).
Definition publisher_query_fits (q : PublisherQuery) : bool := u64_fits (pq_max_results q).

(** The counts of answers and queries have 32 bits. *)
Definition query_limits_fit (limits : RegistryLimits) : bool :=
  limits_fit limits && (max_query_results limits <? 2 ^ 32) && (max_condition_nodes limits <? 2 ^ 32) &&
  (max_comparison_entries limits <? 2 ^ 32) && (max_snapshot_records limits <? 2 ^ 32) &&
  (max_quirks limits <? 2 ^ 32) && (max_compatibility_facts limits <? 2 ^ 32) && (max_publishers limits <? 2 ^ 32) &&
  (max_devices limits <? 2 ^ 32) && (max_string_bytes limits <? 2 ^ 32).

(* ===================================================================== *)
(** ** Lemmas: environments *)

Lemma set_facts_canonical facts : forall environment : EnvironmentContext,
  forallb fact_canonical facts = true -> foldl set_fact environment facts = foldl (fun m p => <[p.1 := p.2]> m) environment facts.
Proof.
  induction facts as [|[key value] facts IH]; intros environment; [done|]. cbn [forallb foldl fst snd].
  intros [[Hk%eqb_eq Hv%eqb_eq]%andb_true_iff Hf]%andb_true_iff. cbn [fst snd] in Hk, Hv.
  rewrite IH by done. unfold set_fact, env_set. cbn [fst snd]. by rewrite Hk, Hv.
Qed.

Lemma foldl_insert_lookup {V} (l : list (string * V)) : forall m k,
  NoDup l.*1 -> foldl (fun (m : gmap string V) p => <[p.1 := p.2]> m) m l !! k =
    match (list_to_map l : gmap string V) !! k with Some v => Some v | None => m !! k end.
Proof.
  induction l as [|[k' v] l IH]; intros m k Hn; [by cbn; rewrite lookup_empty|].
  apply NoDup_cons in Hn as [Hk Hn]. cbn [foldl list_to_map fst snd] in *. rewrite IH by done.
  change (list_to_map ((k', v) :: l)) with (<[k' := v]> (list_to_map l) : gmap string V).
  destruct (decide (k' = k)) as [->|Hne].
  - by rewrite !lookup_insert_eq, not_elem_of_list_to_map_1 by done.
  - by rewrite !lookup_insert_ne by done.
Qed.

(** Setting the facts of a canonical environment, in key order, gives the
    environment. *)
Lemma set_facts_entries (environment : EnvironmentContext) :
  forallb fact_canonical (map_entries environment) = true -> foldl set_fact ∅ (map_entries environment) = environment.
Proof.
  intros Hf. rewrite set_facts_canonical by done. apply map_eq. intros k.
  rewrite foldl_insert_lookup by apply NoDup_map_entries.
  rewrite (list_to_map_proper _ (map_to_list environment)); [|apply NoDup_map_entries|apply map_entries_perm].
  rewrite list_to_map_to_list. rewrite lookup_empty. by destruct (environment !! k).
Qed.

(* ===================================================================== *)
(** ** Round trips *)

Section RoundTrips.
Context (limits : RegistryLimits) (Hquery : query_limits_fit limits = true).

Lemma base_limits : limits_fit limits = true.
Proof. unfold query_limits_fit in Hquery. by split_fits. Qed.
Lemma limits_results : (max_query_results limits <? 2 ^ 32) = true.
Proof. unfold query_limits_fit in Hquery. by split_fits. Qed.
Lemma limits_nodes : max_condition_nodes limits < 2 ^ 32.
Proof. unfold query_limits_fit in Hquery. split_fits. by apply N.ltb_lt. Qed.
Lemma limits_comparison : max_comparison_entries limits < 2 ^ 32.
Proof. unfold query_limits_fit in Hquery. split_fits. by apply N.ltb_lt. Qed.
Lemma limits_snapshot : (max_snapshot_records limits <? 2 ^ 32) = true.
Proof. unfold query_limits_fit in Hquery. by split_fits. Qed.
Lemma limits_quirks : (max_quirks limits <? 2 ^ 32) = true.
Proof. unfold query_limits_fit in Hquery. by split_fits. Qed.
Lemma limits_facts : (max_compatibility_facts limits <? 2 ^ 32) = true.
Proof. unfold query_limits_fit in Hquery. by split_fits. Qed.
Lemma limits_publishers : (max_publishers limits <? 2 ^ 32) = true.
Proof. unfold query_limits_fit in Hquery. by split_fits. Qed.
Lemma limits_devices : (max_devices limits <? 2 ^ 32) = true.
Proof. unfold query_limits_fit in Hquery. by split_fits. Qed.
Lemma limits_text : max_string_bytes limits < 2 ^ 32.
Proof. unfold query_limits_fit in Hquery. split_fits. by apply N.ltb_lt. Qed.

Hint Resolve base_limits limits_results limits_nodes limits_comparison limits_snapshot limits_quirks limits_facts
  limits_publishers limits_devices limits_text limits_name limits_metadata : wire.
Hint Resolve carries_value carries_condition carries_evidence_source carries_hardware_reference one_le_one : wire.

Lemma carries_u32_fits n : u32_fits n = true -> carries (w_u32 n) read_u32 n.
Proof. intros H%N.ltb_lt. by apply carries_u32. Qed.
Hint Resolve carries_u32_fits : wire.

(** Splits the test and goes through both functions. *)
Ltac codec x write read fits :=
  unfold fits, write, read; intros; split_fits; wire_struct x.

Lemma carries_fact fact : carries (write_fact limits fact) (read_fact limits) fact.
Proof. unfold write_fact, read_fact. wire_struct fact. Qed.

#[global] Instance environment_codec :
  WireCodec fact_canonical (write_fact limits) (read_fact limits).
Proof. split; [intros; apply carries_fact|intros; apply w_then_nonempty, w_str_nonempty]. Qed.

Lemma carries_environment e :
  environment_fits limits e = true -> carries (write_environment e limits) (read_environment limits) e.
Proof.
  intros He. eapply carries_last; [eapply carries_coded_list; [apply environment_codec|apply limits_results|exact He]|].
  apply andb_true_iff in He as [_ Hf]. by rewrite set_facts_entries.
Qed.
Hint Resolve carries_environment : wire.

Lemma carries_evidence_view v :
  view_fits limits v = true -> carries (write_evidence_view v limits) (read_evidence_view limits) v.
Proof. codec v write_evidence_view read_evidence_view view_fits. Qed.

Lemma carries_quirk_application a :
  application_fits a = true -> carries (write_quirk_application a limits) (read_quirk_application limits) a.
Proof. codec a write_quirk_application read_quirk_application application_fits. Qed.

Lemma carries_condition_evidence e : carries (write_condition_evidence limits e) (read_condition_evidence limits) e.
Proof. unfold write_condition_evidence, read_condition_evidence. wire_struct e. Qed.

Lemma carries_condition_evaluation e :
  within (max_condition_nodes limits) (evidence e) = true ->
  carries (write_condition_evaluation e limits) (read_condition_evaluation limits) e.
Proof.
  intros He. unfold write_condition_evaluation, read_condition_evaluation. wire_step.
  eapply carries_last; [apply carries_list|by destruct e];
    [apply limits_nodes|exact He|intros; apply carries_condition_evidence|done].
Qed.
Hint Resolve carries_condition_evaluation : wire.

#[global] Instance view_codec :
  WireCodec (view_fits limits) (fun v => write_evidence_view v limits) (read_evidence_view limits).
Proof. split; [exact carries_evidence_view|done]. Qed.

#[global] Instance application_codec :
  WireCodec application_fits (fun a => write_quirk_application a limits) (read_quirk_application limits).
Proof. split; [exact carries_quirk_application|done]. Qed.

Hint Extern 1 (carries (w_list _ _ _) (read_list _ _ _ _) _) =>
  eapply carries_coded_list;
    [solve [eauto with typeclass_instances wire]|solve [eauto with wire]|assumption] : wire.
Hint Extern 1 (carries (w_list _ _ _) (read_counted _ _ _) _) =>
  eapply carries_coded_list;
    [solve [eauto with typeclass_instances wire]|solve [eauto with wire]|assumption] : wire.
Hint Extern 1 (carries (w_option w_enum _) (read_option _) _) =>
  apply carries_option; intros; apply carries_enum; reflexivity : wire.
Hint Extern 1 (carries (w_option write_id _) (read_option read_id) _) =>
  apply carries_option; intros; apply carries_id : wire.

Lemma carries_resolved_capability r :
  answer_fits limits r = true -> carries (write_resolved_capability r limits) (read_resolved_capability limits) r.
Proof. codec r write_resolved_capability read_resolved_capability answer_fits. Qed.

Lemma carries_difference d : carries (write_difference limits d) (read_difference limits) d.
Proof. unfold write_difference, read_difference. wire_struct d. Qed.

Lemma carries_differences code message l :
  within (max_comparison_entries limits) l = true ->
  carries (w_list (max_comparison_entries limits) (write_difference limits) l)
    (read_list (max_comparison_entries limits) code message (read_difference limits)) l.
Proof. intros Hl. apply carries_list; [apply limits_comparison|exact Hl|intros; apply carries_difference|done]. Qed.
Hint Resolve carries_differences carries_id_list : wire.

Lemma carries_device_comparison c :
  comparison_fits limits c = true -> carries (write_device_comparison c limits) (read_device_comparison limits) c.
Proof. codec c write_device_comparison read_device_comparison comparison_fits. Qed.

#[global] Instance answer_codec :
  WireCodec (answer_fits limits) (fun r => write_resolved_capability r limits) (read_resolved_capability limits).
Proof. split; [exact carries_resolved_capability|done]. Qed.

#[global] Instance publisher_codec :
  WireCodec publisher_fits (fun p => write_publisher_record p limits) (read_publisher_record limits).
Proof. split; [exact (carries_publisher_record limits base_limits)|done]. Qed.

Lemma carries_registry_snapshot s :
  snapshot_fits limits s = true -> carries (write_registry_snapshot s limits) (read_registry_snapshot limits) s.
Proof. codec s write_registry_snapshot read_registry_snapshot snapshot_fits. Qed.

Lemma carries_capability_query q :
  capability_query_fits limits q = true -> carries (write_capability_query q limits) (read_capability_query limits) q.
Proof. codec q write_capability_query read_capability_query capability_query_fits. Qed.

Lemma carries_device_capability_query q :
  device_query_fits limits q = true ->
  carries (write_device_capability_query q limits) (read_device_capability_query limits) q.
Proof. codec q write_device_capability_query read_device_capability_query device_query_fits. Qed.

Lemma carries_fleet_query q :
  fleet_query_fits limits q = true -> carries (write_fleet_query q limits) (read_fleet_query limits) q.
Proof. codec q write_fleet_query read_fleet_query fleet_query_fits. Qed.

Lemma carries_stale_query q :
  stale_query_fits limits q = true -> carries (write_stale_query q limits) (read_stale_query limits) q.
Proof. codec q write_stale_query read_stale_query stale_query_fits. Qed.

Lemma carries_quirk_query q :
  quirk_query_fits limits q = true -> carries (write_quirk_query q limits) (read_quirk_query limits) q.
Proof. codec q write_quirk_query read_quirk_query quirk_query_fits. Qed.

Lemma carries_compatibility_query q :
  compatibility_query_fits q = true -> carries (write_compatibility_query q limits) (read_compatibility_query limits) q.
Proof.
  unfold compatibility_query_fits, write_compatibility_query, read_compatibility_query.
  intros [Hr Hm]%andb_true_iff. eapply carries_bind.
  - apply carries_option. intros r Eq. rewrite Eq in Hr. by apply carries_hardware_reference; [apply base_limits|].
  - cbv beta. wire_struct q.
Qed.

Lemma carries_comparison_request q :
  comparison_request_fits limits q = true ->
  carries (write_comparison_request q limits) (read_comparison_request limits) q.
Proof. codec q write_comparison_request read_comparison_request comparison_request_fits. Qed.

Lemma carries_publisher_query q :
  publisher_query_fits q = true -> carries (write_publisher_query q limits) (read_publisher_query limits) q.
Proof. codec q write_publisher_query read_publisher_query publisher_query_fits. Qed.
End RoundTrips.
