(* ===== verification/Messages.v ===== *)
(** * Messages

    Models the message half of [protocol.cpp]: the payloads of the frames
    other than publications, and the queries and answers of a client. The
    encoders other than [encode_query_response] and [encode_publication]
    always succeed: what they shorten is [long_adapter_shortened]. *)

From S2P Require Import Prelude Tokens Versions Support Conditions Values Hardware Quirks Compat Publication.
From S2P Require Import RegistryState Fixtures Resolution Wire Checksum Codec Frames Queries Snapshots Durable Image QueryCodec.

#[global] Program Instance ErrorCode_enum : CppEnum ErrorCode := {|
  enum_values := [Ok; InvalidArgument; InvalidIdentity; InvalidCapability; InvalidValue;
    InvalidSupportState; InvalidProvenance; InvalidCondition; InvalidRange; InvalidReference;
    LimitExceeded; NotFound; AlreadyExists; StaleEpoch; StaleBoot; StaleDeviceGeneration;
    StaleCapabilityGeneration; StaleSequence; GenerationRegression; DuplicateConflict;
    FencedPublisher; UnknownPublisher; UnsupportedVersion; CorruptData; IntegrityFailure;
    IoFailure; InvariantViolation; QueueFull; ShuttingDown; ProtocolError; Internal]
|}.
Solve Obligations with solve_enum.

Module QueryKind.
Inductive QueryKind :=
  | Capability | DeviceCapabilities | Fleet | StaleCapabilities | Quirks | QuirkRecords
  | Compatibility | Compare | Devices | Publishers | Snapshot | Explain.

#[global] Instance QueryKind_eq_dec : EqDecision QueryKind.
Proof. solve_decision. Defined.

#[global] Program Instance QueryKind_enum : CppEnum QueryKind := {|
  enum_values := [Capability; DeviceCapabilities; Fleet; StaleCapabilities; Quirks; QuirkRecords;
    Compatibility; Compare; Devices; Publishers; Snapshot; Explain]
|}.
Solve Obligations with solve_enum.
End QueryKind.
Abbreviation QueryKind := QueryKind.QueryKind.

Definition query_kind_to_string (kind : QueryKind) : string :=
  match kind with
  | QueryKind.Capability => "capability"
  | QueryKind.DeviceCapabilities => "device-capabilities"
  | QueryKind.Fleet => "fleet"
  | QueryKind.StaleCapabilities => "stale-capabilities"
  | QueryKind.Quirks => "quirks"
  | QueryKind.QuirkRecords => "quirk-records"
  | QueryKind.Compatibility => "compatibility"
  | QueryKind.Compare => "compare"
  | QueryKind.Devices => "devices"
  | QueryKind.Publishers => "publishers"
  | QueryKind.Snapshot => "snapshot"
  | QueryKind.Explain => "explain"
  end.

Definition query_kind_from_string (text : string) : option QueryKind :=
  scan_values query_kind_to_string text (enum_upto QueryKind.Explain).

(** The enumerators are numbered from 1. *)
Definition query_kind_raw (kind : QueryKind) : N := enum_index kind + 1.
Definition query_kind_known (raw : N) : bool := (1 <=? raw) && (raw <=? query_kind_raw QueryKind.Explain).
Definition cast_query_kind (raw : N) : Reading QueryKind := cast_enum (raw - 1).

(* ===================================================================== *)
(** ** Control messages *)

Record HelloMessage := mk_HelloMessage { he_protocol_version : N; he_agent : string; he_role : string; he_nonce : N }.

Record WelcomeMessage := mk_WelcomeMessage {
  we_protocol_version : N;
  we_epoch : CoordinatorEpoch;
  we_coordinator_name : string
}.

Record RegisterPublisherMessage := mk_RegisterPublisherMessage {
  rp_identity : PublisherIdentity;
  rp_adapter : string;
  rp_agent : string
}.

Record PublisherAcceptedMessage := mk_PublisherAcceptedMessage {
  pa_code : ApplyCode;
  pa_epoch : CoordinatorEpoch;
  pa_identity : PublisherIdentity;
  pa_detail : string
}.

Record PublicationAcceptedMessage := mk_PublicationAcceptedMessage {
  ba_code : ApplyCode;
  ba_detail : string;
  ba_device_generation : DeviceGeneration;
  ba_device_boot : DeviceBootId
}.

Record FencePublisherMessage := mk_FencePublisherMessage { fp_publisher : PublisherId; fp_reason : string }.
Record FenceAcceptedMessage := mk_FenceAcceptedMessage { fa_code : ApplyCode; fa_detail : string }.
Record ShutdownMessage := mk_ShutdownMessage { sd_reason : string }.
Record ErrorMessage := mk_ErrorMessage { er_code : ErrorCode; er_message : string }.
Record HeartbeatMessage := mk_HeartbeatMessage { hb_sequence : N; hb_identity : PublisherIdentity }.

(** The end of every decoder: [ok()], then [exhausted()]. *)
Definition decode_from {A} (read : Reading A) (trailing : Status) (reader : Reader) : Status + A :=
  match read reader with
  | (Some a, reader) => if negb (rd_exhausted reader) then inl trailing else inr a
  | (None, reader) => inl (rd_status reader)
  end.

(** A decoder that checks its first field before [ok()]: the field may have
    been cut off, in which case its missing bytes are zeros. *)
Definition decode_coded {A} (known : N -> bool) (refusal : Status) (read : N -> Reading A) (trailing : Status)
    (data : list byte) : Status + A :=
  let '(raw, reader) := rd_u16 (rd_open data) in
  if negb (known raw) then inl refusal else decode_from (read raw) trailing reader.

Definition trailing_bytes (what : string) : Status := failure ProtocolError (what +:+ " carries trailing bytes")%string.
Definition apply_code_known (raw : N) : bool := raw <=? enum_index ApplyCode.RejectedInvariant.

Definition write_hello (message : HelloMessage) (limits : RegistryLimits) : Writer :=
  w_u32 (he_protocol_version message) +++
  w_str (he_agent message) (max_metadata_bytes limits) +++
  w_str (he_role message) (max_metadata_bytes limits) +++
  w_u64 (he_nonce message).

(** The encoders that never fail. *)
Definition encode_unchecked (writer : Writer) : Status * list byte := (success, w_bytes writer).

Definition encode_hello (message : HelloMessage) (limits : RegistryLimits) : Status * list byte :=
  encode_unchecked (write_hello message limits).

Definition decode_hello (data : list byte) (limits : RegistryLimits) : Status + HelloMessage :=
  decode_all (version ← read_u32;
              agent ← read_str (max_metadata_bytes limits);
              role ← read_str (max_metadata_bytes limits);
              nonce ← read_u64;
              mret (mk_HelloMessage version agent role nonce))
    (trailing_bytes "hello") data.

Definition write_welcome (message : WelcomeMessage) (limits : RegistryLimits) : Writer :=
  w_u32 (we_protocol_version message) +++
  write_gen (we_epoch message) +++
  w_str (we_coordinator_name message) (max_metadata_bytes limits).

Definition encode_welcome (message : WelcomeMessage) (limits : RegistryLimits) : Status * list byte :=
  encode_unchecked (write_welcome message limits).

Definition decode_welcome (data : list byte) (limits : RegistryLimits) : Status + WelcomeMessage :=
  decode_all (version ← read_u32;
              epoch ← read_gen;
              coordinator_name ← read_str (max_metadata_bytes limits);
              mret (mk_WelcomeMessage version epoch coordinator_name))
    (trailing_bytes "welcome") data.

Definition write_register_publisher (message : RegisterPublisherMessage) (limits : RegistryLimits) : Writer :=
  write_publisher_identity (rp_identity message) +++
  w_str (rp_adapter message) (max_metadata_bytes limits) +++
  w_str (rp_agent message) (max_metadata_bytes limits).

Definition encode_register_publisher (message : RegisterPublisherMessage) (limits : RegistryLimits) : Status * list byte :=
  encode_unchecked (write_register_publisher message limits).

Definition decode_register_publisher (data : list byte) (limits : RegistryLimits) : Status + RegisterPublisherMessage :=
  decode_all (identity ← read_publisher_identity;
              adapter ← read_str (max_metadata_bytes limits);
              agent ← read_str (max_metadata_bytes limits);
              mret (mk_RegisterPublisherMessage identity adapter agent))
    (trailing_bytes "register publisher") data.

Definition write_publisher_accepted (message : PublisherAcceptedMessage) (limits : RegistryLimits) : Writer :=
  w_enum (pa_code message) +++
  write_gen (pa_epoch message) +++
  write_publisher_identity (pa_identity message) +++
  w_str (pa_detail message) (max_metadata_bytes limits).

Definition encode_publisher_accepted (message : PublisherAcceptedMessage) (limits : RegistryLimits) : Status * list byte :=
  encode_unchecked (write_publisher_accepted message limits).

Definition decode_publisher_accepted (data : list byte) (limits : RegistryLimits) : Status + PublisherAcceptedMessage :=
  decode_coded apply_code_known (failure ProtocolError "unknown apply code in publisher acceptance")
    (fun raw =>
      code ← cast_enum raw;
      epoch ← read_gen;
      identity ← read_publisher_identity;
      detail ← read_str (max_metadata_bytes limits);
      mret (mk_PublisherAcceptedMessage code epoch identity detail))
    (trailing_bytes "publisher acceptance") data.

Definition write_publication_accepted (message : PublicationAcceptedMessage) (limits : RegistryLimits) : Writer :=
  w_enum (ba_code message) +++
  w_str (ba_detail message) (max_metadata_bytes limits) +++
  write_gen (ba_device_generation message) +++
  write_gen (ba_device_boot message).

Definition encode_publication_accepted (message : PublicationAcceptedMessage) (limits : RegistryLimits) :
    Status * list byte := encode_unchecked (write_publication_accepted message limits).

Definition decode_publication_accepted (data : list byte) (limits : RegistryLimits) : Status + PublicationAcceptedMessage :=
  decode_coded apply_code_known (failure ProtocolError "unknown apply code in publication acceptance")
    (fun raw =>
      code ← cast_enum raw;
      detail ← read_str (max_metadata_bytes limits);
      device_generation ← read_gen;
      device_boot ← read_gen;
      mret (mk_PublicationAcceptedMessage code detail device_generation device_boot))
    (trailing_bytes "publication acceptance") data.

Definition write_fence_publisher (message : FencePublisherMessage) (limits : RegistryLimits) : Writer :=
  write_id (fp_publisher message) +++ w_str (fp_reason message) (max_metadata_bytes limits).

Definition encode_fence_publisher (message : FencePublisherMessage) (limits : RegistryLimits) : Status * list byte :=
  encode_unchecked (write_fence_publisher message limits).

Definition decode_fence_publisher (data : list byte) (limits : RegistryLimits) : Status + FencePublisherMessage :=
  decode_all (publisher ← read_id;
              reason ← read_str (max_metadata_bytes limits);
              mret (mk_FencePublisherMessage publisher reason))
    (trailing_bytes "fence") data.

Definition write_fence_accepted (message : FenceAcceptedMessage) (limits : RegistryLimits) : Writer :=
  w_enum (fa_code message) +++ w_str (fa_detail message) (max_metadata_bytes limits).

Definition encode_fence_accepted (message : FenceAcceptedMessage) (limits : RegistryLimits) : Status * list byte :=
  encode_unchecked (write_fence_accepted message limits).

Definition decode_fence_accepted (data : list byte) (limits : RegistryLimits) : Status + FenceAcceptedMessage :=
  decode_coded apply_code_known (failure ProtocolError "unknown apply code in fence acceptance")
    (fun raw =>
      code ← cast_enum raw;
      detail ← read_str (max_metadata_bytes limits);
      mret (mk_FenceAcceptedMessage code detail))
    (trailing_bytes "fence acceptance") data.

Definition write_shutdown (message : ShutdownMessage) (limits : RegistryLimits) : Writer :=
  w_str (sd_reason message) (max_metadata_bytes limits).

Definition encode_shutdown (message : ShutdownMessage) (limits : RegistryLimits) : Status * list byte :=
  encode_unchecked (write_shutdown message limits).

Definition decode_shutdown (data : list byte) (limits : RegistryLimits) : Status + ShutdownMessage :=
  decode_all (reason ← read_str (max_metadata_bytes limits); mret (mk_ShutdownMessage reason))
    (trailing_bytes "shutdown") data.

Definition write_error_message (message : ErrorMessage) (limits : RegistryLimits) : Writer :=
  w_enum (er_code message) +++ w_str (er_message message) (max_string_bytes limits).

Definition encode_error_message (message : ErrorMessage) (limits : RegistryLimits) : Status * list byte :=
  encode_unchecked (write_error_message message limits).

Definition error_code_known (raw : N) : bool := raw <=? enum_index Internal.

Definition decode_error_message (data : list byte) (limits : RegistryLimits) : Status + ErrorMessage :=
  decode_coded error_code_known (failure ProtocolError "unknown error code on the wire")
    (fun raw =>
      code ← cast_enum raw;
      message ← read_str (max_string_bytes limits);
      mret (mk_ErrorMessage code message))
    (trailing_bytes "error") data.

Definition write_heartbeat (message : HeartbeatMessage) : Writer :=
  w_u64 (hb_sequence message) +++ write_publisher_identity (hb_identity message).

Definition encode_heartbeat (message : HeartbeatMessage) (limits : RegistryLimits) : Status * list byte :=
  encode_unchecked (write_heartbeat message).

Definition decode_heartbeat (data : list byte) (limits : RegistryLimits) : Status + HeartbeatMessage :=
  decode_all (sequence ← read_u64; identity ← read_publisher_identity; mret (mk_HeartbeatMessage sequence identity))
    (trailing_bytes "heartbeat") data.

(* ===================================================================== *)
(** ** Query requests *)

Record QueryRequest := mk_QueryRequest {
  qm_kind : QueryKind;
  qm_capability : CapabilityQuery;
  qm_device_capabilities : DeviceCapabilityQuery;
  qm_fleet : FleetCapabilityQuery;
  qm_stale : StaleCapabilityQuery;
  qm_quirks : QuirkQuery;
  qm_comparison : ComparisonRequest;
  qm_compatibility : CompatibilityQuery;
  qm_publishers : PublisherQuery;
  qm_device : DeviceId;
  qm_fleet_capability : CapabilityId
}.

#[global] Instance eta_QueryRequest : Eta QueryRequest := fun r =>
  mk_QueryRequest
    (qm_kind r) (qm_capability r) (qm_device_capabilities r) (qm_fleet r) (qm_stale r) (qm_quirks r)
    (qm_comparison r) (qm_compatibility r) (qm_publishers r) (qm_device r) (qm_fleet_capability r).

(** [QueryRequest{}]. *)
Definition default_request : QueryRequest :=
  mk_QueryRequest QueryKind.Capability (mk_CapabilityQuery Id_none Gen_none Id_none ∅ true)
    (default_device_query Id_none) (mk_FleetCapabilityQuery Id_none ∅ None None None true 0)
    (mk_StaleCapabilityQuery Id_none Gen_none ∅ 0) (mk_QuirkQuery None ∅ None false 0)
    (mk_ComparisonRequest Id_none Id_none Gen_none Gen_none ∅) (mk_CompatibilityQuery None None false 0)
    (mk_PublisherQuery None 0) Id_none Id_none.

Definition write_query_request (message : QueryRequest) (limits : RegistryLimits) : Writer :=
  w_u16 (query_kind_raw (qm_kind message)) +++
  match qm_kind message with
  | QueryKind.Capability | QueryKind.Explain => write_capability_query (qm_capability message) limits
  | QueryKind.DeviceCapabilities => write_device_capability_query (qm_device_capabilities message) limits
  | QueryKind.Fleet => write_fleet_query (qm_fleet message) limits
  | QueryKind.StaleCapabilities => write_stale_query (qm_stale message) limits
  | QueryKind.Quirks => write_quirk_query (qm_quirks message) limits
  | QueryKind.Compatibility => write_compatibility_query (qm_compatibility message) limits
  | QueryKind.Compare => write_comparison_request (qm_comparison message) limits
  | QueryKind.Devices => write_id (qm_device message)
  | QueryKind.Publishers => write_publisher_query (qm_publishers message) limits
  | QueryKind.QuirkRecords | QueryKind.Snapshot => w_u64 0
  end.

Definition encode_query_request (message : QueryRequest) (limits : RegistryLimits) : Status * list byte :=
  encode_unchecked (write_query_request message limits).

Definition read_request_body (limits : RegistryLimits) (kind : QueryKind) : Reading QueryRequest :=
  let out := default_request <| qm_kind := kind |> in
  match kind with
  | QueryKind.Capability | QueryKind.Explain => q ← read_capability_query limits; mret (out <| qm_capability := q |>)
  | QueryKind.DeviceCapabilities =>
      q ← read_device_capability_query limits; mret (out <| qm_device_capabilities := q |>)
  | QueryKind.Fleet => q ← read_fleet_query limits; mret (out <| qm_fleet := q |>)
  | QueryKind.StaleCapabilities => q ← read_stale_query limits; mret (out <| qm_stale := q |>)
  | QueryKind.Quirks => q ← read_quirk_query limits; mret (out <| qm_quirks := q |>)
  | QueryKind.Compatibility => q ← read_compatibility_query limits; mret (out <| qm_compatibility := q |>)
  | QueryKind.Compare => q ← read_comparison_request limits; mret (out <| qm_comparison := q |>)
  | QueryKind.Devices => device ← read_id; mret (out <| qm_device := device |>)
  | QueryKind.Publishers => q ← read_publisher_query limits; mret (out <| qm_publishers := q |>)
  | QueryKind.QuirkRecords | QueryKind.Snapshot => _ ← read_u64; mret out
  end.

Definition decode_query_request (data : list byte) (limits : RegistryLimits) : Status + QueryRequest :=
  decode_coded query_kind_known (failure ProtocolError "unknown query kind on the wire")
    (fun raw => kind ← cast_query_kind raw; read_request_body limits kind)
    (trailing_bytes "query request") data.

(* ===================================================================== *)
(** ** Query responses *)

Record QueryResponse := mk_QueryResponse {
  qs_code : ErrorCode;
  qs_message : string;
  qs_kind : QueryKind;
  qs_capability : ResolvedCapability;
  qs_capabilities : list ResolvedCapability;
  qs_comparison : DeviceComparison;
  qs_quirks : list QuirkApplication;
  qs_quirk_records : list QuirkRecord;
  qs_compatibility : list CompatibilityFact;
  qs_subjects : list SubjectSnapshot;
  qs_publishers : list PublisherRecord;
  qs_snapshot : RegistrySnapshot;
  qs_text : string
}.

#[global] Instance eta_QueryResponse : Eta QueryResponse := fun r =>
  mk_QueryResponse
    (qs_code r) (qs_message r) (qs_kind r) (qs_capability r) (qs_capabilities r) (qs_comparison r) (qs_quirks r)
    (qs_quirk_records r) (qs_compatibility r) (qs_subjects r) (qs_publishers r) (qs_snapshot r) (qs_text r).

(** Default-constructed answers. *)
Definition default_resolved : ResolvedCapability :=
  mk_ResolvedCapability Id_none Gen_none Gen_none Id_none Id_none Gen_none SupportState.Unknown EffectiveSupport.Unknown
    VNone PrecisionClass.Unknown TruthClass.Unknown ContradictionState.Consistent flag_None None
    (mk_ConditionEvaluation ConditionOutcome.NotApplicable []) [] [] Gen_none Gen_none Gen_none false false EmptyString.
Definition default_comparison : DeviceComparison :=
  mk_DeviceComparison Id_none Id_none Gen_none Gen_none EmptyString EmptyString [] [] EmptyString.
Definition default_snapshot : RegistrySnapshot :=
  mk_RegistrySnapshot Gen_none Gen_none 0 EmptyString [] [] [] [] [] 0 0 0 0 0 0.

(** [QueryResponse{}]. *)
Definition default_response : QueryResponse :=
  mk_QueryResponse Ok EmptyString QueryKind.Capability default_resolved [] default_comparison [] [] [] [] []
    default_snapshot EmptyString.

Definition write_response_body (message : QueryResponse) (limits : RegistryLimits) : Writer :=
  match qs_kind message with
  | QueryKind.Capability | QueryKind.Explain => write_resolved_capability (qs_capability message) limits
  | QueryKind.DeviceCapabilities | QueryKind.Fleet | QueryKind.StaleCapabilities =>
      w_list (max_query_results limits) (fun c => write_resolved_capability c limits) (qs_capabilities message)
  | QueryKind.Quirks =>
      w_list (max_query_results limits) (fun a => write_quirk_application a limits) (qs_quirks message)
  | QueryKind.QuirkRecords => w_list (max_quirks limits) (fun q => write_quirk_record q limits) (qs_quirk_records message)
  | QueryKind.Compatibility =>
      w_list (max_compatibility_facts limits) (fun f => write_compatibility_fact f limits) (qs_compatibility message)
  | QueryKind.Compare => write_device_comparison (qs_comparison message) limits
  | QueryKind.Devices => w_list (max_devices limits) (fun s => write_subject_snapshot s limits) (qs_subjects message)
  | QueryKind.Publishers =>
      w_list (max_publishers limits) (fun p => write_publisher_record p limits) (qs_publishers message)
  | QueryKind.Snapshot => write_registry_snapshot (qs_snapshot message) limits
  end.

Definition write_query_response (message : QueryResponse) (limits : RegistryLimits) : Writer :=
  w_enum (qs_code message) +++
  w_str (qs_message message) (max_string_bytes limits) +++
  w_u16 (query_kind_raw (qs_kind message)) +++
  write_response_body message limits +++
  w_str (qs_text message) (max_string_bytes limits).

Definition encode_query_response (message : QueryResponse) (limits : RegistryLimits) : Status * list byte :=
  let writer := write_query_response message limits in
  if w_truncated writer
  then (failure LimitExceeded "query response carries a field longer than the configured bound", w_bytes writer)
  else if max_frame_bytes limits <? lengthN (w_bytes writer)
  then (failure LimitExceeded "query response exceeds the frame bound", w_bytes writer)
  else (success, w_bytes writer).

Definition read_response_body (limits : RegistryLimits) (out : QueryResponse) : Reading QueryResponse :=
  match qs_kind out with
  | QueryKind.Capability | QueryKind.Explain =>
      c ← read_resolved_capability limits; mret (out <| qs_capability := c |>)
  | QueryKind.DeviceCapabilities | QueryKind.Fleet | QueryKind.StaleCapabilities =>
      l ← read_counted (max_query_results limits) "capability result" (read_resolved_capability limits);
      mret (out <| qs_capabilities := l |>)
  | QueryKind.Quirks =>
      l ← read_counted (max_query_results limits) "quirk application" (read_quirk_application limits);
      mret (out <| qs_quirks := l |>)
  | QueryKind.QuirkRecords =>
      l ← read_counted (max_quirks limits) "quirk record" (read_quirk_record limits);
      mret (out <| qs_quirk_records := l |>)
  | QueryKind.Compatibility =>
      l ← read_counted (max_compatibility_facts limits) "compatibility fact" (read_compatibility_fact limits);
      mret (out <| qs_compatibility := l |>)
  | QueryKind.Compare => c ← read_device_comparison limits; mret (out <| qs_comparison := c |>)
  | QueryKind.Devices =>
      l ← read_counted (max_devices limits) "subject" (read_subject_snapshot limits);
      mret (out <| qs_subjects := l |>)
  | QueryKind.Publishers =>
      l ← read_counted (max_publishers limits) "publisher" (read_publisher_record limits);
      mret (out <| qs_publishers := l |>)
  | QueryKind.Snapshot => s ← read_registry_snapshot limits; mret (out <| qs_snapshot := s |>)
  end.

Definition decode_query_response (data : list byte) (limits : RegistryLimits) : Status + QueryResponse :=
  let '(code, reader) := rd_u16 (rd_open data) in
  if negb (error_code_known code) then inl (failure ProtocolError "unknown error code in query response")
  else
    let '(message, reader) := rd_str (max_string_bytes limits) reader in
    let '(kind, reader) := rd_u16 reader in
    if negb (query_kind_known kind) then inl (failure ProtocolError "unknown query kind in query response")
    else decode_from
      (code ← cast_enum code;
       kind ← cast_query_kind kind;
       out ← read_response_body limits
               (default_response <| qs_code := code |> <| qs_message := message |> <| qs_kind := kind |>);
       text ← read_str (max_string_bytes limits);
       mret (out <| qs_text := text |>))
      (trailing_bytes "query response") reader.

(* ===================================================================== *)
(** ** What fits, and what a message says *)

(** The control messages, each with the frame type that carries it. *)
Inductive ControlMessage :=
  | CHello (message : HelloMessage)
  | CWelcome (message : WelcomeMessage)
  | CRegisterPublisher (message : RegisterPublisherMessage)
  | CPublisherAccepted (message : PublisherAcceptedMessage)
  | CPublicationAccepted (message : PublicationAcceptedMessage)
  | CFencePublisher (message : FencePublisherMessage)
  | CFenceAccepted (message : FenceAcceptedMessage)
  | CShutdown (message : ShutdownMessage)
  | CError (message : ErrorMessage)
  | CHeartbeat (message : HeartbeatMessage).

Definition write_control (message : ControlMessage) (limits : RegistryLimits) : Writer :=
  match message with
  | CHello m => write_hello m limits
  | CWelcome m => write_welcome m limits
  | CRegisterPublisher m => write_register_publisher m limits
  | CPublisherAccepted m => write_publisher_accepted m limits
  | CPublicationAccepted m => write_publication_accepted m limits
  | CFencePublisher m => write_fence_publisher m limits
  | CFenceAccepted m => write_fence_accepted m limits
  | CShutdown m => write_shutdown m limits
  | CError m => write_error_message m limits
  | CHeartbeat m => write_heartbeat m
  end.

Definition encode_control (message : ControlMessage) (limits : RegistryLimits) : Status * list byte :=
  match message with
  | CHello m => encode_hello m limits
  | CWelcome m => encode_welcome m limits
  | CRegisterPublisher m => encode_register_publisher m limits
  | CPublisherAccepted m => encode_publisher_accepted m limits
  | CPublicationAccepted m => encode_publication_accepted m limits
  | CFencePublisher m => encode_fence_publisher m limits
  | CFenceAccepted m => encode_fence_accepted m limits
  | CShutdown m => encode_shutdown m limits
  | CError m => encode_error_message m limits
  | CHeartbeat m => encode_heartbeat m limits
  end.

(** Whether the receiver decodes exactly the message that was sent. *)
Definition control_decoded (message : ControlMessage) (data : list byte) (limits : RegistryLimits) : Prop :=
  match message with
  | CHello m => decode_hello data limits = inr m
  | CWelcome m => decode_welcome data limits = inr m
  | CRegisterPublisher m => decode_register_publisher data limits = inr m
  | CPublisherAccepted m => decode_publisher_accepted data limits = inr m
  | CPublicationAccepted m => decode_publication_accepted data limits = inr m
  | CFencePublisher m => decode_fence_publisher data limits = inr m
  | CFenceAccepted m => decode_fence_accepted data limits = inr m
  | CShutdown m => decode_shutdown data limits = inr m
  | CError m => decode_error_message data limits = inr m
  | CHeartbeat m => decode_heartbeat data limits = inr m
  end.

Definition control_fits (message : ControlMessage) : bool :=
  match message with
  | CHello m => u32_fits (he_protocol_version m) && u64_fits (he_nonce m)
  | CWelcome m => u32_fits (we_protocol_version m) && gen_fits (we_epoch m)
  | CRegisterPublisher m => identity_fits (rp_identity m)
  | CPublisherAccepted m => gen_fits (pa_epoch m) && identity_fits (pa_identity m)
  | CPublicationAccepted m => gen_fits (ba_device_generation m) && gen_fits (ba_device_boot m)
  | CHeartbeat m => u64_fits (hb_sequence m) && identity_fits (hb_identity m)
  | _ => true
  end.

Definition request_fits (limits : RegistryLimits) (m : QueryRequest) : bool :=
  match qm_kind m with
  | QueryKind.Capability | QueryKind.Explain => capability_query_fits limits (qm_capability m)
  | QueryKind.DeviceCapabilities => device_query_fits limits (qm_device_capabilities m)
  | QueryKind.Fleet => fleet_query_fits limits (qm_fleet m)
  | QueryKind.StaleCapabilities => stale_query_fits limits (qm_stale m)
  | QueryKind.Quirks => quirk_query_fits limits (qm_quirks m)
  | QueryKind.Compatibility => compatibility_query_fits (qm_compatibility m)
  | QueryKind.Compare => comparison_request_fits limits (qm_comparison m)
  | QueryKind.Publishers => publisher_query_fits (qm_publishers m)
  | QueryKind.Devices | QueryKind.QuirkRecords | QueryKind.Snapshot => true
  end.

(** The part of a request that its kind selects; only that part is sent. *)
Definition request_content (m : QueryRequest) : QueryRequest :=
  let out := default_request <| qm_kind := qm_kind m |> in
  match qm_kind m with
  | QueryKind.Capability | QueryKind.Explain => out <| qm_capability := qm_capability m |>
  | QueryKind.DeviceCapabilities => out <| qm_device_capabilities := qm_device_capabilities m |>
  | QueryKind.Fleet => out <| qm_fleet := qm_fleet m |>
  | QueryKind.StaleCapabilities => out <| qm_stale := qm_stale m |>
  | QueryKind.Quirks => out <| qm_quirks := qm_quirks m |>
  | QueryKind.Compatibility => out <| qm_compatibility := qm_compatibility m |>
  | QueryKind.Compare => out <| qm_comparison := qm_comparison m |>
  | QueryKind.Devices => out <| qm_device := qm_device m |>
  | QueryKind.Publishers => out <| qm_publishers := qm_publishers m |>
  | QueryKind.QuirkRecords | QueryKind.Snapshot => out
  end.

Definition response_fits (limits : RegistryLimits) (m : QueryResponse) : bool :=
  match qs_kind m with
  | QueryKind.Capability | QueryKind.Explain => answer_fits limits (qs_capability m)
  | QueryKind.DeviceCapabilities | QueryKind.Fleet | QueryKind.StaleCapabilities =>
      section_fits (max_query_results limits) (answer_fits limits) (qs_capabilities m)
  | QueryKind.Quirks => section_fits (max_query_results limits) application_fits (qs_quirks m)
  | QueryKind.QuirkRecords => section_fits (max_quirks limits) (quirk_fits limits) (qs_quirk_records m)
  | QueryKind.Compatibility => section_fits (max_compatibility_facts limits) (fact_fits limits) (qs_compatibility m)
  | QueryKind.Compare => comparison_fits limits (qs_comparison m)
  | QueryKind.Devices => section_fits (max_devices limits) (subject_fits limits) (qs_subjects m)
  | QueryKind.Publishers => section_fits (max_publishers limits) publisher_fits (qs_publishers m)
  | QueryKind.Snapshot => snapshot_fits limits (qs_snapshot m)
  end.

Definition response_content (m : QueryResponse) : QueryResponse :=
  let out := default_response <| qs_code := qs_code m |> <| qs_message := qs_message m |> <| qs_kind := qs_kind m |>
               <| qs_text := qs_text m |> in
  match qs_kind m with
  | QueryKind.Capability | QueryKind.Explain => out <| qs_capability := qs_capability m |>
  | QueryKind.DeviceCapabilities | QueryKind.Fleet | QueryKind.StaleCapabilities =>
      out <| qs_capabilities := qs_capabilities m |>
  | QueryKind.Quirks => out <| qs_quirks := qs_quirks m |>
  | QueryKind.QuirkRecords => out <| qs_quirk_records := qs_quirk_records m |>
  | QueryKind.Compatibility => out <| qs_compatibility := qs_compatibility m |>
  | QueryKind.Compare => out <| qs_comparison := qs_comparison m |>
  | QueryKind.Devices => out <| qs_subjects := qs_subjects m |>
  | QueryKind.Publishers => out <| qs_publishers := qs_publishers m |>
  | QueryKind.Snapshot => out <| qs_snapshot := qs_snapshot m |>
  end.

(* ===================================================================== *)
(** ** Lemmas: decoding what was written *)

Lemma decode_from_carries {A} w (read : Reading A) trailing a :
  carries w read a -> w_truncated w = false -> decode_from read trailing (rd_open (w_bytes w)) = inr a.
Proof.
  intros Hc Ht. unfold decode_from. pose proof (Hc Ht []) as H. rewrite app_nil_r in H. by rewrite H.
Qed.

Lemma decode_all_carries {A} w (read : Reading A) trailing a :
  carries w read a -> w_truncated w = false -> decode_all read trailing (w_bytes w) = inr a.
Proof. apply decode_from_carries. Qed.

Lemma decode_coded_carries {A} known refusal (read : N -> Reading A) trailing raw w a :
  raw < 2 ^ 16 -> known raw = true -> carries w (read raw) a -> w_truncated (w_u16 raw +++ w) = false ->
  decode_coded known refusal read trailing (w_bytes (w_u16 raw +++ w)) = inr a.
Proof.
  intros Hraw Hk Hc Ht. unfold decode_coded. cbn [w_then w_bytes w_u16]. rewrite rd_u16_value by done.
  rewrite Hk. by apply decode_from_carries.
Qed.

Lemma apply_code_raw (code : ApplyCode) : enum_index code < 2 ^ 16 /\ apply_code_known (enum_index code) = true.
Proof. by destruct code. Qed.
Lemma error_code_raw (code : ErrorCode) : enum_index code < 2 ^ 16 /\ error_code_known (enum_index code) = true.
Proof. by destruct code. Qed.
Lemma query_kind_raw_known (kind : QueryKind) : query_kind_raw kind < 2 ^ 16 /\ query_kind_known (query_kind_raw kind) = true.
Proof. by destruct kind. Qed.

Lemma cast_query_kind_raw {A} w (kind : QueryKind) (k : QueryKind -> Reading A) a :
  carries w (k kind) a -> carries w (kind ← cast_query_kind (query_kind_raw kind); k kind) a.
Proof. intros H. eapply carries_nothing; [|exact H]. by destruct kind. Qed.

Section RoundTrips.
Context (limits : RegistryLimits) (Hquery : query_limits_fit limits = true).

Lemma wire_metadata : max_metadata_bytes limits < 2 ^ 32.
Proof. apply limits_metadata, base_limits, Hquery. Qed.
Lemma wire_text : max_string_bytes limits < 2 ^ 32.
Proof. apply limits_text, Hquery. Qed.
Hint Resolve wire_metadata wire_text carries_publisher_identity carries_u32_fits : wire.

Ltac plain m := apply decode_all_carries; [wire_struct m|assumption].
Ltac coded m := apply decode_coded_carries; [apply apply_code_raw || apply error_code_raw..|wire_struct m|assumption].

Lemma control_decodes message :
  control_fits message = true -> w_truncated (write_control message limits) = false ->
  control_decoded message (w_bytes (write_control message limits)) limits.
Proof.
  destruct message as [m|m|m|m|m|m|m|m|m|m]; cbn [control_fits write_control control_decoded]; intros Hf Ht; split_fits.
  - unfold write_hello in *. plain m.
  - unfold write_welcome in *. plain m.
  - unfold write_register_publisher in *. plain m.
  - unfold write_publisher_accepted in *. coded m.
  - unfold write_publication_accepted in *. coded m.
  - unfold write_fence_publisher in *. plain m.
  - unfold write_fence_accepted in *. coded m.
  - unfold write_shutdown in *. plain m.
  - unfold write_error_message in *. coded m.
  - unfold write_heartbeat in *. plain m.
Qed.

Lemma carries_request_body m :
  request_fits limits m = true ->
  exists w, write_query_request m limits = w_u16 (query_kind_raw (qm_kind m)) +++ w /\
    carries w (read_request_body limits (qm_kind m)) (request_content m).
Proof.
  unfold request_fits, write_query_request, read_request_body, request_content. intros Hf. eexists. split; [reflexivity|].
  destruct (qm_kind m); cbv zeta; (eapply carries_last; [|reflexivity]).
  - exact (carries_capability_query limits Hquery _ Hf).
  - exact (carries_device_capability_query limits Hquery _ Hf).
  - exact (carries_fleet_query limits Hquery _ Hf).
  - exact (carries_stale_query limits Hquery _ Hf).
  - exact (carries_quirk_query limits Hquery _ Hf).
  - by apply (carries_u64 0).
  - exact (carries_compatibility_query limits Hquery _ Hf).
  - exact (carries_comparison_request limits Hquery _ Hf).
  - apply carries_id.
  - exact (carries_publisher_query limits _ Hf).
  - by apply (carries_u64 0).
  - exact (carries_capability_query limits Hquery _ Hf).
Qed.

Lemma request_decodes m :
  request_fits limits m = true -> w_truncated (write_query_request m limits) = false ->
  decode_query_request (w_bytes (write_query_request m limits)) limits = inr (request_content m).
Proof.
  intros Hf Ht. destruct (carries_request_body m Hf) as (w & Hw & Hc). rewrite Hw in Ht |- *.
  destruct (query_kind_raw_known (qm_kind m)) as [Hraw Hk].
  apply decode_coded_carries; [done|done| |done]. by apply cast_query_kind_raw.
Qed.

Tactic Notation "body" uconstr(H) :=
  eexists; split; [eapply carries_last; [exact H|reflexivity]|by intros ->].

Lemma carries_response_body m out :
  response_fits limits m = true -> qs_kind out = qs_kind m ->
  exists out', carries (write_response_body m limits) (read_response_body limits out) out' /\
    (out = default_response <| qs_code := qs_code m |> <| qs_message := qs_message m |> <| qs_kind := qs_kind m |> ->
     out' <| qs_text := qs_text m |> = response_content m).
Proof.
  unfold response_fits, write_response_body, read_response_body, response_content. intros Hf Hk. rewrite Hk.
  assert (Hcounted : forall A (fits : A -> bool) write read bound what l, WireCodec fits write read ->
    (bound <? 2 ^ 32) = true -> section_fits bound fits l = true ->
    carries (w_list bound write l) (read_counted bound what read) l) by (intros; by eapply carries_coded_list).
  pose proof (base_limits limits Hquery) as Hbase.
  destruct (qs_kind m).
  - body (carries_resolved_capability limits Hquery _ Hf).
  - body (Hcounted _ _ _ _ _ _ _ (answer_codec limits Hquery) (limits_results limits Hquery) Hf).
  - body (Hcounted _ _ _ _ _ _ _ (answer_codec limits Hquery) (limits_results limits Hquery) Hf).
  - body (Hcounted _ _ _ _ _ _ _ (answer_codec limits Hquery) (limits_results limits Hquery) Hf).
  - body (Hcounted _ _ _ _ _ _ _ (application_codec limits Hquery) (limits_results limits Hquery) Hf).
  - body (Hcounted _ _ _ _ _ _ _ (quirk_codec limits Hbase) (limits_quirks limits Hquery) Hf).
  - body (Hcounted _ _ _ _ _ _ _ (fact_codec limits Hbase) (limits_facts limits Hquery) Hf).
  - body (carries_device_comparison limits Hquery _ Hf).
  - body (Hcounted _ _ _ _ _ _ _ (subject_codec limits Hbase) (limits_devices limits Hquery) Hf).
  - body (Hcounted _ _ _ _ _ _ _ (publisher_codec limits Hquery) (limits_publishers limits Hquery) Hf).
  - body (carries_registry_snapshot limits Hquery _ Hf).
  - body (carries_resolved_capability limits Hquery _ Hf).
Qed.

Lemma response_decodes m :
  response_fits limits m = true -> w_truncated (write_query_response m limits) = false ->
  decode_query_response (w_bytes (write_query_response m limits)) limits = inr (response_content m).
Proof.
  intros Hf Ht. destruct (error_code_raw (qs_code m)) as [Hraw Hcode].
  destruct (query_kind_raw_known (qs_kind m)) as [Hkraw Hkind].
  unfold decode_query_response. unfold write_query_response in *. unfold w_enum in *.
  cbn [w_then w_bytes w_truncated w_u16 orb] in *. apply orb_false_iff in Ht as [Hmsg Ht].
  rewrite rd_u16_value by done. rewrite Hcode. cbn [negb]. unfold rd_str at 1, w_str at 1.
  rewrite rd_bytes_carries by (apply wire_text || done). rewrite string_of_list_ascii_of_string.
  rewrite rd_u16_value by done. rewrite Hkind. cbn [negb].
  apply (decode_from_carries (write_response_body m limits +++ w_str (qs_text m) (max_string_bytes limits))); [|exact Ht].
  eapply carries_nothing; [apply carries_cast|cbv beta]. apply cast_query_kind_raw. cbv beta.
  set (out := default_response <| qs_code := _ |> <| qs_message := _ |> <| qs_kind := _ |>).
  destruct (carries_response_body m out Hf eq_refl) as (out' & Hc & Ho).
  eapply carries_bind; [exact Hc|]. eapply carries_last; [apply carries_str, wire_text|]. by rewrite <- Ho.
Qed.
End RoundTrips.

(* ===================================================================== *)
(** ** Properties *)

(** Every control message arrives as it was sent: its encoder succeeds and
    its decoder returns the message, provided its counters have the width of
    the wire and none of its texts exceeds its bound. *)
Theorem control_message_round_trip limits message
    (Hlimits : query_limits_fit limits = true) (Hfits : control_fits message = true)
    (Hwhole : w_truncated (write_control message limits) = false) :
  (encode_control message limits).1 = success /\
  control_decoded message (encode_control message limits).2 limits.
Proof.
  pose proof (control_decodes limits Hlimits message Hfits Hwhole) as H. by destruct message.
Qed.

Definition sample_acceptance : ControlMessage :=
  CPublicationAccepted (mk_PublicationAcceptedMessage ApplyCode.Accepted "ok" (mk_Gen 3) (mk_Gen 2)).

Lemma control_message_round_trip_witness :
  control_decoded sample_acceptance (encode_control sample_acceptance default_limits).2 default_limits.
Proof. exact (proj2 (control_message_round_trip default_limits sample_acceptance eq_refl eq_refl eq_refl)). Defined.

(** The coordinator decodes the question that the client asked: of a
    request it receives the kind and the query of that kind, and nothing of
    the queries of other kinds. *)
Theorem query_request_round_trip limits request
    (Hlimits : query_limits_fit limits = true) (Hfits : request_fits limits request = true)
    (Hwhole : w_truncated (write_query_request request limits) = false) :
  (encode_query_request request limits).1 = success /\
  decode_query_request (encode_query_request request limits).2 limits = inr (request_content request).
Proof. exact (conj eq_refl (request_decodes limits Hlimits request Hfits Hwhole)). Qed.

Definition sample_request : QueryRequest :=
  default_request <| qm_kind := QueryKind.Fleet |>
    <| qm_fleet := mk_FleetCapabilityQuery Id_none (env_set ∅ "Kernel" "6.1") (Some EffectiveSupport.Supported) None None true 7 |>.

Lemma query_request_round_trip_witness :
  decode_query_request (encode_query_request sample_request default_limits).2 default_limits =
    inr (request_content sample_request).
Proof. refine (proj2 (query_request_round_trip default_limits sample_request _ _ _)); vm_compute; reflexivity. Defined.

(** An answer that [encode_query_response] accepts is decoded by the client
    as the status, the kind, the text and the answer of that kind that the
    coordinator sent. *)
Theorem query_response_round_trip limits response data
    (Hlimits : query_limits_fit limits = true) (Hfits : response_fits limits response = true)
    (Hencode : encode_query_response response limits = (success, data)) :
  decode_query_response data limits = inr (response_content response).
Proof.
  unfold encode_query_response in Hencode. destruct (w_truncated _) eqn:Ht; [done|].
  destruct (max_frame_bytes limits <? _); [done|]. apply pair_equal_spec in Hencode as [_ <-].
  by apply response_decodes.
Qed.

Definition sample_response : QueryResponse :=
  default_response <| qs_kind := QueryKind.Devices |> <| qs_subjects := du_subjects sample_state |> <| qs_text := "t" |>.

Lemma query_response_round_trip_witness :
  exists data, encode_query_response sample_response default_limits = (success, data) /\
    decode_query_response data default_limits = inr (response_content sample_response).
Proof.
  eexists. split; [vm_compute; reflexivity|].
  eapply query_response_round_trip; vm_compute; reflexivity.
Defined.

(** A text of [n] letters. *)
Definition long_text (n : nat) : string := string_of_list_ascii (repeat "a"%char n).

(** The encoders of registrations and queries do not look at the truncation
    flag: a registration whose adapter exceeds the bound is encoded with
    success and arrives with a shorter one, and a query arrives with a shorter
    prefix, which asks for more capabilities. *)
Theorem long_adapter_shortened :
  let registration := mk_RegisterPublisherMessage no_publisher (long_text 513) EmptyString in
  let query := default_request <| qm_kind := QueryKind.DeviceCapabilities |>
                 <| qm_device_capabilities ::= fun q => q <| dq_capability_prefix := long_text 193 |> |> in
  (encode_register_publisher registration default_limits).1 = success /\
  (encode_query_request query default_limits).1 = success /\
  (exists m, decode_register_publisher (encode_register_publisher registration default_limits).2 default_limits = inr m /\
     rp_adapter m = long_text 512) /\
  exists m, decode_query_request (encode_query_request query default_limits).2 default_limits = inr m /\
    dq_capability_prefix (qm_device_capabilities m) = long_text 192.
Proof.
  cbv zeta. split; [reflexivity|]. split; [reflexivity|].
  split; (eexists; split; [vm_compute; reflexivity|vm_compute; reflexivity]).
Qed.
