(* ===== verification/Coordinator.v ===== *)
(** * The coordinator

    Models [coordinator.cpp]: sessions, the interpretation of frames, the
    iterations of the event loop, start-up and ordered shutdown. The event
    loop runs in one thread, which owns the sessions; an iteration is a
    function of what the sockets report. What a session was sent is
    recorded in its connection. The clock is a parameter, read once per frame. *)

From S2P Require Import Prelude Tokens Versions Support Conditions Values Hardware Quirks Compat Publication.
From S2P Require Import RegistryState Fixtures Resolution Publishers Devices Knowledge Evidence Ingest Runs Catalog System.
From S2P Require Import Wire Checksum Codec Frames Queries Render Snapshots Durable Image QueryCodec Messages.

(* ===================================================================== *)
(** ** State *)

Record CoordinatorConfig := mk_CoordinatorConfig {
  cc_state_path : string;
  cc_limits : RegistryLimits;
  cc_persist_on_mutation : bool;
  cc_node_name : string
}.

Record CoordinatorStats := mk_CoordinatorStats {
  ct_connections_accepted : N;
  ct_frames_received : N;
  ct_frames_rejected : N;
  ct_publications_applied : N;
  ct_publications_rejected : N;
  ct_publisher_deaths : N;
  ct_publisher_fences : N;
  ct_backpressure_events : N;
  ct_sessions_fenced : N;
  ct_queries_served : N;
  ct_epoch_advances : N
}.

#[global] Instance eta_CoordinatorStats : Eta CoordinatorStats := fun r =>
  mk_CoordinatorStats
    (ct_connections_accepted r) (ct_frames_received r) (ct_frames_rejected r) (ct_publications_applied r)
    (ct_publications_rejected r) (ct_publisher_deaths r) (ct_publisher_fences r) (ct_backpressure_events r)
    (ct_sessions_fenced r) (ct_queries_served r) (ct_epoch_advances r).

Record ShutdownToken := mk_ShutdownToken { tk_requested : bool; tk_reason : string }.

(** [ShutdownToken::request]: the first reason is kept. *)
Definition request (reason : string) (token : ShutdownToken) : ShutdownToken :=
  mk_ShutdownToken true (if is_empty (tk_reason token) then reason else tk_reason token).

Record Session := mk_Session {
  se_connection : Connection;
  se_buffer : list byte;
  se_publisher : PublisherId;
  se_boot : PublisherBootId;
  se_publisher_registered : bool;
  se_adapter : string;
  se_handshake_complete : bool;
  se_delivered : N
}.

#[global] Instance eta_Session : Eta Session := fun r =>
  mk_Session
    (se_connection r) (se_buffer r) (se_publisher r) (se_boot r) (se_publisher_registered r) (se_adapter r)
    (se_handshake_complete r) (se_delivered r).

(** A session on a connection with these results of [send_all]. *)
Definition new_session (sends : list Status) : Session :=
  mk_Session (mk_Connection true sends [] []) [] Id_none Gen_none false EmptyString false 0.

(** The replies the session was sent. *)
Definition se_sent (session : Session) : list Frame := cn_sent (se_connection session).

(** Sockets are known by their handles. The store is the path of the state
    file. *)
Record Coordinator := mk_Coordinator {
  co_config : CoordinatorConfig;
  co_registry : Registry;
  co_store : option string;
  co_token : ShutdownToken;
  co_stats : CoordinatorStats;
  co_sessions : gmap N Session;
  co_started : bool
}.

#[global] Instance eta_Coordinator : Eta Coordinator := fun r =>
  mk_Coordinator
    (co_config r) (co_registry r) (co_store r) (co_token r) (co_stats r) (co_sessions r) (co_started r).

Definition new_coordinator (builtin : list CapabilitySchema) (config : CoordinatorConfig) : Coordinator :=
  mk_Coordinator config (construct_registry builtin (cc_limits config)) None (mk_ShutdownToken false EmptyString)
    (mk_CoordinatorStats 0 0 0 0 0 0 0 0 0 0 0) ∅ false.

Definition co_limits (co : Coordinator) : RegistryLimits := cc_limits (co_config co).

(* ===================================================================== *)
(** ** Sending *)

Definition kFrameFlagAck : N := 2.

Definition send_on (session : Session) (frame : Frame) (limits : RegistryLimits) : Status * Session :=
  let '(status, connection) := send_frame frame limits (se_connection session) in
  (status, session <| se_connection := connection |>).

Definition respond (session : Session) (type : MessageType) (correlation : N) (payload : list byte)
    (co : Coordinator) : Status * Session :=
  send_on session (mk_Frame type kFrameFlagAck correlation payload) (co_limits co).

Definition send_error (session : Session) (correlation : N) (code : ErrorCode) (message : string) (co : Coordinator) :
    Status * Session :=
  let '(encoded, payload) := encode_error_message (mk_ErrorMessage code message) (co_limits co) in
  if negb (status_ok encoded) then (encoded, session)
  else send_on session (mk_Frame MessageType.ErrorResponse 0 correlation payload) (co_limits co).

Definition count_rejected_frame (co : Coordinator) : Coordinator :=
  co <| co_stats ::= fun s => s <| ct_frames_rejected ::= u64_succ |> |>.

(** What interpreting a frame leaves behind. *)
Definition Outcome : Type := Status * Session * Coordinator.

Definition reject (session : Session) (frame : Frame) (status : Status) (co : Coordinator) : Outcome :=
  let co := count_rejected_frame co in
  (send_error session (fr_correlation frame) (status_code status) (status_message status) co, co).

(** An answer that was encoded, sent back under the correlation of the frame. *)
Definition answer (session : Session) (frame : Frame) (type : MessageType) (encoded : Status * list byte)
    (co : Coordinator) : Outcome :=
  let '(status, payload) := encoded in
  if negb (status_ok status) then (status, session, co)
  else (respond session type (fr_correlation frame) payload co, co).

(* ===================================================================== *)
(** ** [serve_query] *)

(** The [switch]: the status and the response under construction. *)
Definition fill_response {A} (result : Status + A) (fill : A -> QueryResponse) (response : QueryResponse) :
    Status * QueryResponse :=
  match result with inl status => (status, response) | inr a => (success, fill a) end.

Definition query_registry (now : string) (request : QueryRequest) (st : Registry) :
    Status * QueryResponse * Registry :=
  let response := default_response <| qs_kind := qm_kind request |> in
  match qm_kind request with
  | QueryKind.Capability =>
      (fill_response (query_capability (qm_capability request) st) (fun c => response <| qs_capability := c |>) response, st)
  | QueryKind.Explain =>
      let '(status, response) :=
        fill_response (query_capability (qm_capability request) st) (fun c => response <| qs_capability := c |>) response in
      (status, response <| qs_text := rc_explanation (qs_capability response) |>, st)
  | QueryKind.DeviceCapabilities =>
      (fill_response (query_capabilities (qm_device_capabilities request) st) (fun l => response <| qs_capabilities := l |>)
         response, st)
  | QueryKind.Fleet =>
      (fill_response (query_fleet (qm_fleet request) st) (fun l => response <| qs_capabilities := l |>) response, st)
  | QueryKind.StaleCapabilities =>
      (fill_response (query_stale (qm_stale request) st) (fun l => response <| qs_capabilities := l |>) response, st)
  | QueryKind.Quirks =>
      (fill_response (query_quirks (qm_quirks request) st) (fun l => response <| qs_quirks := l |>) response, st)
  | QueryKind.QuirkRecords => (success, response <| qs_quirk_records := list_quirks st |>, st)
  | QueryKind.Compatibility =>
      (success, response <| qs_compatibility := query_compatibility (qm_compatibility request) st |>, st)
  | QueryKind.Compare =>
      (fill_response (compare_devices (qm_comparison request) st) (fun c => response <| qs_comparison := c |>) response, st)
  | QueryKind.Devices => (success, response <| qs_subjects := list_devices st |>, st)
  | QueryKind.Publishers =>
      let query := qm_publishers request in
      (success, response <| qs_publishers := list_publishers (pq_state query) (pq_max_results query) st |>, st)
  | QueryKind.Snapshot =>
      let '(st, result) := snapshot now st in
      (fill_response result (fun s => response <| qs_snapshot := s |>) response, st)
  end.

(** The response with the status of a failed query. *)
Definition query_response (now : string) (request : QueryRequest) (st : Registry) : QueryResponse * Registry :=
  let '(status, response, st) := query_registry now request st in
  (if negb (status_ok status)
   then response <| qs_code := status_code status |> <| qs_message := status_message status |>
   else response, st).

Definition serve_query (now : string) (session : Session) (frame : Frame) (request : QueryRequest) (co : Coordinator) :
    Outcome :=
  let co := co <| co_stats ::= fun s => s <| ct_queries_served ::= u64_succ |> |> in
  let '(response, st) := query_response now request (co_registry co) in
  let co := co <| co_registry := st |> in
  let '(encoded, payload) := encode_query_response response (co_limits co) in
  if negb (status_ok encoded) then reject session frame encoded co
  else if max_frame_bytes (co_limits co) <? lengthN payload
  then answer session frame MessageType.ErrorResponse
         (encode_error_message (mk_ErrorMessage LimitExceeded "query response exceeds the frame bound") (co_limits co)) co
  else (respond session MessageType.QueryResponse (fr_correlation frame) payload co, co).

(* ===================================================================== *)
(** ** [dispatch] *)

Section Dispatch.
Variable hash : string -> N.
Variable clock : N -> string.

(** The time at which the frames received so far were interpreted. *)
Definition now (co : Coordinator) : string := clock (ct_frames_received (co_stats co)).

Definition on_hello (session : Session) (frame : Frame) (co : Coordinator) : Outcome :=
  match decode_hello (fr_payload frame) (co_limits co) with
  | inl status => reject session frame status co
  | inr hello =>
      if negb (he_protocol_version hello =? protocol_version)
      then reject session frame
             (failure UnsupportedVersion
                ("client protocol version " +:+ pretty (he_protocol_version hello) +:+ " is not supported")%string) co
      else
        let session := session <| se_handshake_complete := true |> in
        answer session frame MessageType.Welcome
          (encode_welcome (mk_WelcomeMessage protocol_version (r_epoch (co_registry co)) (cc_node_name (co_config co)))
             (co_limits co)) co
  end.

Definition on_register_publisher (session : Session) (frame : Frame) (co : Coordinator) : Outcome :=
  if negb (se_handshake_complete session)
  then reject session frame (failure ProtocolError "HELLO is required first") co
  else match decode_register_publisher (fr_payload frame) (co_limits co) with
  | inl status => reject session frame status co
  | inr request =>
      let '(st, applied) := register_publisher (now co) (rp_identity request) (rp_adapter request) (co_registry co) in
      let co := co <| co_registry := st |> in
      let identity := ar_assigned_publisher applied in
      let session :=
        if accepted applied
        then session <| se_publisher := pi_id identity |> <| se_boot := pi_boot identity |>
               <| se_adapter := rp_adapter request |> <| se_publisher_registered := true |>
        else session in
      answer session frame MessageType.PublisherAccepted
        (encode_publisher_accepted
           (mk_PublisherAcceptedMessage (ar_code applied) (r_epoch (co_registry co)) identity (ar_detail applied))
           (co_limits co)) co
  end.

Definition on_publication (session : Session) (frame : Frame) (co : Coordinator) : Outcome :=
  match decode_publication (fr_payload frame) (co_limits co) with
  | inl status => reject session frame status co
  | inr publication =>
      let '(st, applied) := apply_locked hash (now co) publication (co_registry co) in
      let co := co <| co_registry := st |>
        <| co_stats ::= fun s =>
             if accepted applied then s <| ct_publications_applied ::= u64_succ |>
             else s <| ct_publications_rejected ::= u64_succ |> |> in
      answer session frame MessageType.PublicationAccepted
        (encode_publication_accepted
           (mk_PublicationAcceptedMessage (ar_code applied) (ar_detail applied) (ar_device_generation applied)
              (ar_device_boot applied)) (co_limits co)) co
  end.

Definition on_heartbeat (session : Session) (frame : Frame) (co : Coordinator) : Outcome :=
  match decode_heartbeat (fr_payload frame) (co_limits co) with
  | inl status => reject session frame status co
  | inr heartbeat =>
      answer session frame MessageType.HeartbeatAccepted
        (encode_heartbeat (mk_HeartbeatMessage (hb_sequence heartbeat) (hb_identity heartbeat)) (co_limits co)) co
  end.

Definition on_fence_publisher (session : Session) (frame : Frame) (co : Coordinator) : Outcome :=
  match decode_fence_publisher (fr_payload frame) (co_limits co) with
  | inl status => reject session frame status co
  | inr request =>
      let '(st, applied) := fence_publisher (fp_publisher request) (fp_reason request) (co_registry co) in
      let co := co <| co_registry := st |>
        <| co_stats ::= fun s => if accepted applied then s <| ct_publisher_fences ::= u64_succ |> else s |> in
      answer session frame MessageType.FenceAccepted
        (encode_fence_accepted (mk_FenceAcceptedMessage (ar_code applied) (ar_detail applied)) (co_limits co)) co
  end.

Definition on_query (session : Session) (frame : Frame) (co : Coordinator) : Outcome :=
  match decode_query_request (fr_payload frame) (co_limits co) with
  | inl status => reject session frame status co
  | inr request => serve_query (now co) session frame request co
  end.

Definition on_shutdown (session : Session) (frame : Frame) (co : Coordinator) : Outcome :=
  match decode_shutdown (fr_payload frame) (co_limits co) with
  | inl status => reject session frame status co
  | inr message =>
      let '(encoded, payload) := encode_shutdown message (co_limits co) in
      if negb (status_ok encoded) then (encoded, session, co)
      else
        let sent := respond session MessageType.ShutdownAccepted (fr_correlation frame) payload co in
        let reason := if is_empty (sd_reason message) then "shutdown requested by client"%string else sd_reason message in
        (sent, co <| co_token ::= request reason |>)
  end.

Definition dispatch (session : Session) (frame : Frame) (co : Coordinator) : Outcome :=
  let co := co <| co_stats ::= fun s => s <| ct_frames_received ::= u64_succ |> |> in
  match fr_type frame with
  | MessageType.Hello => on_hello session frame co
  | MessageType.RegisterPublisher => on_register_publisher session frame co
  | MessageType.Publication => on_publication session frame co
  | MessageType.Heartbeat => on_heartbeat session frame co
  | MessageType.FencePublisher => on_fence_publisher session frame co
  | MessageType.QueryRequest => on_query session frame co
  | MessageType.SnapshotRequest =>
      serve_query (now co) session frame (default_request <| qm_kind := QueryKind.Snapshot |>) co
  | MessageType.ShutdownRequest => on_shutdown session frame co
  | _ =>
      reject session frame
        (failure ProtocolError
           ("message type " +:+ message_type_to_string (fr_type frame) +:+ " is not valid for a coordinator")%string) co
  end.

(* ===================================================================== *)
(** ** The event loop *)

Definition retire_session (session : Session) (reason : string) (co : Coordinator) : Coordinator :=
  if se_publisher_registered session then
    let '(st, retired) := retire_publisher_boot (se_publisher session) (se_boot session) reason (co_registry co) in
    co <| co_registry := st |>
       <| co_stats ::= fun s =>
            if accepted retired || (ar_code retired ==? ApplyCode.AcceptedIdempotent)
            then s <| ct_publisher_deaths ::= u64_succ |> else s |>
  else co.

Definition drop_session (handle : N) (reason : string) (co : Coordinator) : Coordinator :=
  match co_sessions co !! handle with
  | None => co
  | Some session =>
      retire_session session reason co
        <| co_stats ::= fun s => s <| ct_sessions_fenced ::= u64_succ |> |>
        <| co_sessions ::= delete handle |>
  end.

(** [read_session], on what the socket delivers: the frames, or [None] when
    the session is closed. *)
Definition read_session (session : Session) (received : Received) (co : Coordinator) :
    option (list Frame) * Session * Coordinator :=
  match received with
  | Closed | Failed _ | Data [] => (None, session, co)
  | Data bytes =>
      let '(fed, frames, buffer) := feed (co_limits co) (se_buffer session) bytes in
      let session := session <| se_buffer := buffer |> in
      if negb (status_ok fed)
      then let co := count_rejected_frame co in
           let '(_, session) := send_error session 0 (status_code fed) (status_message fed) co in
           (None, session, co)
      else if max_pending_publications (co_limits co) <? lengthN frames
      then let co := count_rejected_frame (co <| co_stats ::= fun s => s <| ct_backpressure_events ::= u64_succ |> |>) in
           let '(_, session) := send_error session 0 QueueFull "too many frames delivered in one batch" co in
           (None, session, co)
      else (Some frames, session, co)
  end.

(** [dispatch_frames]: whether the session is to be closed. *)
Fixpoint dispatch_frames (session : Session) (frames : list Frame) (co : Coordinator) : bool * Session * Coordinator :=
  match frames with
  | [] => (false, session, co)
  | frame :: frames =>
      let '(dispatched, session, co) := dispatch session frame co in
      if negb (status_ok dispatched) then (true, session, co)
      else
        let session := session <| se_delivered ::= u64_succ |> in
        if tk_requested (co_token co) then (false, session, co) else dispatch_frames session frames co
  end.

Definition put_session (handle : N) (session : Session) (co : Coordinator) : Coordinator :=
  co <| co_sessions ::= insert handle session |>.

(** What a wake-up reports: the external token, the result of waiting, the
    result of [accept] when the listener is ready, with the connection's
    handle and script, and what the ready sessions deliver. *)
Record Wakeup := mk_Wakeup {
  wk_external : option string;
  wk_waited : Status;
  wk_accept : option (Status + (N * list Status));
  wk_ready : gmap N Received
}.

Definition accept_connection (handle : N) (sends : list Status) (co : Coordinator) : Coordinator :=
  if max_connections (co_limits co) <=? sizeN (co_sessions co)
  then co <| co_stats ::= fun s => s <| ct_backpressure_events ::= u64_succ |> |>
  else co <| co_sessions ::= emplace handle (new_session sends) |>
          <| co_stats ::= fun s => s <| ct_connections_accepted ::= u64_succ |> |>.

(** Phase one: reading the ready sessions, in the order of their handles. *)
Definition read_ready (ready : gmap N Received) (handle : N)
    (acc : list N * list (N * list Frame) * Coordinator) : list N * list (N * list Frame) * Coordinator :=
  let '(dead, delivered, co) := acc in
  match ready !! handle, co_sessions co !! handle with
  | Some received, Some session =>
      let '(frames, session, co) := read_session session received co in
      let co := put_session handle session co in
      match frames with
      | None => (dead ++ [handle], delivered, co)
      | Some [] => (dead, delivered, co)
      | Some frames => (dead, delivered ++ [(handle, frames)], co)
      end
  | _, _ => acc
  end.

(** Phase two: interpreting what one session delivered. *)
Definition dispatch_delivered (co : Coordinator) (entry : N * list Frame) : Coordinator :=
  match co_sessions co !! entry.1 with
  | None => co
  | Some session =>
      let '(closed, session, co) := dispatch_frames session entry.2 co in
      let co := put_session entry.1 session co in
      if closed then drop_session entry.1 "session closed during dispatch" co else co
  end.

Definition drop_dead (co : Coordinator) (handle : N) : Coordinator :=
  drop_session handle "publisher connection closed; boot identity retired" co.

(** One iteration, after the tokens were polled. *)
Definition iterate (wake : Wakeup) (co : Coordinator) : Status * Coordinator :=
  let handles := map fst (map_entries (co_sessions co)) in
  if negb (status_ok (wk_waited wake)) then (wk_waited wake, co)
  else match wk_accept wake with
  | Some (inl status) => (status, co)
  | accepted =>
      let co := match accepted with Some (inr (handle, sends)) => accept_connection handle sends co | _ => co end in
      let '(dead, delivered, co) := foldl (fun acc handle => read_ready (wk_ready wake) handle acc) ([], [], co) handles in
      let co := foldl drop_dead co dead in
      (success, foldl dispatch_delivered co delivered)
  end.

(** The ordered shutdown, up to saving the state. *)
Definition shut_down (co : Coordinator) : Coordinator :=
  let co := foldl (fun co entry =>
      retire_session entry.2 "coordinator shutdown; boot identity retired" co
        <| co_stats ::= fun s => s <| ct_sessions_fenced ::= u64_succ |> |>)
    co (map_entries (co_sessions co)) in
  co <| co_sessions := ∅ |> <| co_registry ::= begin_shutdown |>.

(** Why the loop stopped: on a request, after the ordered shutdown, with a
    failure, or not at all within these wake-ups. *)
Inductive Stopped := ShutDown | LoopFailed (status : Status) | StillRunning.

Fixpoint run_loop (wakes : list Wakeup) (co : Coordinator) : Stopped * Coordinator :=
  if tk_requested (co_token co) then (ShutDown, shut_down co)
  else match wakes with
  | [] => (StillRunning, co)
  | wake :: wakes =>
      match wk_external wake with
      | Some reason => (ShutDown, shut_down (co <| co_token ::= request reason |>))
      | None =>
          let '(status, co) := iterate wake co in
          if negb (status_ok status) then (LoopFailed status, co) else run_loop wakes co
      end
  end.
End Dispatch.

(* ===================================================================== *)
(** ** [start], [load_state] and [save_state] *)

(** [load_state], on what the store yields. *)
Definition load_state (loaded : Status + DurableState) (co : Coordinator) : Status * Coordinator :=
  match co_store co with
  | None => (success, co)
  | Some _ =>
      match loaded with
      | inl status => (status, co)
      | inr state =>
          let '(st, imported) := import_durable_state state (co_registry co) in
          (match imported with inl status => status | inr _ => success end, co <| co_registry := st |>)
      end
  end.

(** [FileStateStore(state_path)] takes the default options. *)
Definition store_options : PersistOptions := mk_PersistOptions default_limits 0.

Definition saved_state (time : string) (co : Coordinator) : DurableState := export_durable_state time (co_registry co).

(** [save_state]: what the file system may be afterwards, and the status. *)
Definition save_state (time : string) (co : Coordinator) (fs fs' : FileSystem) (result : Status) : Prop :=
  match co_store co with
  | None => fs' = fs /\ result = success
  | Some path => saving path store_options (saved_state time co) fs (fs', Finished result)
  end.

(** [start] up to the save that may end it: the sockets open, and the state
    file, where one exists, loads as [loaded]. *)
Definition start (loaded : option (Status + DurableState)) (co : Coordinator) : Status * Coordinator :=
  let co :=
    if negb (is_empty (cc_state_path (co_config co))) then co <| co_store := Some (cc_state_path (co_config co)) |> else co in
  let '(status, co) :=
    match co_store co, loaded with
    | Some _, Some loaded => load_state loaded co
    | _, _ => (success, co)
    end in
  if negb (status_ok status) then (status, co)
  else (success,
        co <| co_registry ::= advance_coordinator_epoch |>
           <| co_stats ::= fun s => s <| ct_epoch_advances ::= u64_succ |> |>
           <| co_registry ::= reset_publisher_liveness "coordinator restarted; publisher liveness is not restored" |>
           <| co_started := true |>).

(** The save that ends [start]. *)
Definition saves_at_start (co : Coordinator) : bool :=
  negb (is_empty (cc_state_path (co_config co))) && cc_persist_on_mutation (co_config co).

(* ===================================================================== *)
(** ** Lemmas: the registry a coordinator serves

    Whatever arrives, the registry goes through operations of its public
    interface: the coordinator refines the runs of the file Runs. *)

(** The operations a coordinator performs while it serves. *)
Definition is_served (op : Operation) : bool :=
  match op with
  | OpRegisterPublisher _ _ _ | OpFencePublisher _ _ | OpRetireBoot _ _ _ | OpApply _ _ | OpSnapshot | OpBeginShutdown => true
  | _ => false
  end.

Lemma snapshot_counts time st : (snapshot time st).1 = count_snapshot st.
Proof. unfold snapshot, count_snapshot. by destruct (_ <? _). Qed.

Lemma query_response_registry time request st :
  (query_response time request st).2 = if qm_kind request ==? QueryKind.Snapshot then count_snapshot st else st.
Proof.
  unfold query_response, query_registry. rewrite <- (snapshot_counts time st).
  destruct (qm_kind request); cbn -[query_capability query_capabilities query_fleet query_stale query_quirks compare_devices snapshot];
    try (by destruct (fill_response _ _ _)); try done.
  destruct (snapshot time st). by destruct (fill_response _ _ _).
Qed.

Section Serving.
Variable hash : string -> N.
Variable clock : N -> string.

Definition serves (co co' : Coordinator) : Prop :=
  co_config co' = co_config co /\
  exists ops, Forall (fun op => is_served op = true) ops /\ co_registry co' = run hash ops (co_registry co).

#[global] Instance serves_preorder : PreOrder serves.
Proof.
  split.
  - intros co. split; [done|]. by exists [].
  - intros a b c [Hab (o1 & F1 & E1)] [Hbc (o2 & F2 & E2)]. split; [congruence|]. exists (o1 ++ o2).
    split; [by apply Forall_app|]. rewrite E2, E1. unfold run. by rewrite foldl_app.
Qed.

Lemma serves_same co co' : co_config co' = co_config co -> co_registry co' = co_registry co -> serves co co'.
Proof. intros Hc Hr. split; [done|]. by exists []. Qed.

Lemma serves_step op co co' :
  is_served op = true -> co_config co' = co_config co -> co_registry co' = step hash op (co_registry co) -> serves co co'.
Proof. intros Hs Hc Hr. split; [done|]. exists [op]. split; [by apply Forall_singleton|done]. Qed.

Lemma reject_same session frame status co :
  co_config (reject session frame status co).2 = co_config co /\
  co_registry (reject session frame status co).2 = co_registry co.
Proof. done. Qed.

Lemma answer_same session frame type encoded co : (answer session frame type encoded co).2 = co.
Proof. unfold answer. destruct encoded as [status payload]. by destruct (negb _). Qed.

Lemma serve_query_registry time session frame request co :
  co_config (serve_query time session frame request co).2 = co_config co /\
  co_registry (serve_query time session frame request co).2 = (query_response time request (co_registry co)).2.
Proof.
  unfold serve_query. cbn [co_registry].
  change (co_registry (co <| co_stats ::= _ |>)) with (co_registry co).
  destruct (query_response time request (co_registry co)) as [response st]. cbn [snd].
  destruct (encode_query_response _ _) as [encoded payload]. destruct (negb _); [done|]. destruct (_ <? _); [|done].
  by rewrite answer_same.
Qed.

Lemma serve_query_serves time session frame request co : serves co (serve_query time session frame request co).2.
Proof.
  destruct (serve_query_registry time session frame request co) as [Hc Hr]. rewrite query_response_registry in Hr.
  destruct (qm_kind request ==? QueryKind.Snapshot); [by apply (serves_step OpSnapshot)|by apply serves_same].
Qed.

Lemma dispatch_serves session frame co : serves co (dispatch hash clock session frame co).2.
Proof.
  unfold dispatch. set (co1 := co <| co_stats ::= _ |>). transitivity co1; [by apply serves_same|]. clearbody co1.
  destruct (fr_type frame); try (by apply serves_same).
  - unfold on_hello. destruct (decode_hello _ _) as [|hello]; [by apply serves_same|].
    destruct (negb _); [by apply serves_same|]. by rewrite answer_same.
  - unfold on_register_publisher. destruct (negb _); [by apply serves_same|].
    destruct (decode_register_publisher _ _) as [|request]; [by apply serves_same|].
    destruct (register_publisher _ _ _ _) as [st applied] eqn:E. rewrite answer_same.
    apply (serves_step (OpRegisterPublisher (now clock co1) (rp_identity request) (rp_adapter request))); [done|done|].
    cbn. by rewrite E.
  - unfold on_publication. destruct (decode_publication _ _) as [|p]; [by apply serves_same|].
    destruct (apply_locked _ _ _ _) as [st applied] eqn:E. rewrite answer_same.
    apply (serves_step (OpApply (now clock co1) p)); [done|done|]. cbn. by rewrite E.
  - unfold on_query. destruct (decode_query_request _ _) as [|request]; [by apply serves_same|]. apply serve_query_serves.
  - unfold on_fence_publisher. destruct (decode_fence_publisher _ _) as [|request]; [by apply serves_same|].
    destruct (fence_publisher _ _ _) as [st applied] eqn:E. rewrite answer_same.
    apply (serves_step (OpFencePublisher (fp_publisher request) (fp_reason request))); [done|done|]. cbn. by rewrite E.
  - apply serve_query_serves.
  - unfold on_shutdown. destruct (decode_shutdown _ _) as [|message]; [by apply serves_same|].
    destruct (encode_shutdown _ _) as [encoded payload]. destruct (negb _); by apply serves_same.
  - unfold on_heartbeat. destruct (decode_heartbeat _ _) as [|heartbeat]; [by apply serves_same|]. by rewrite answer_same.
Qed.

(* ===================================================================== *)
(** ** Lemmas: replies *)

(** What sending to a session leaves alone. *)
Definition same_role (s s' : Session) : Prop :=
  se_publisher s' = se_publisher s /\ se_boot s' = se_boot s /\
  se_publisher_registered s' = se_publisher_registered s /\ se_buffer s' = se_buffer s.

(** After success one reply was sent, under the correlation of the frame;
    after a failure none was. *)
Definition replied (correlation : N) (s s' : Session) (status : Status) : Prop :=
  if status_ok status
  then exists reply, se_sent s' = se_sent s ++ [reply] /\ fr_correlation reply = correlation
  else se_sent s' = se_sent s.

Lemma send_on_replies session frame limits :
  let '(status, session') := send_on session frame limits in
  same_role session session' /\ replied (fr_correlation frame) session session' status.
Proof.
  unfold send_on, send_frame, replied, se_sent. destruct (encode_frame frame limits) as [encoded bytes].
  destruct (negb (status_ok encoded)) eqn:He; [by apply negb_true_iff in He as ->|].
  destruct (negb (cn_open _)); [done|].
  destruct (cn_results (se_connection session)) as [|result results]; [split; [done|]; cbn; by exists frame|].
  split; [done|]. cbn. destruct (status_ok result); [by exists frame|done].
Qed.

(** A reply goes to the session, whose role does not change. *)
Definition speaks (frame : Frame) (session : Session) (out : Outcome) : Prop :=
  same_role session out.1.2 /\ replied (fr_correlation frame) session out.1.2 out.1.1.

Lemma respond_speaks session frame type payload co co' :
  speaks frame session (respond session type (fr_correlation frame) payload co, co').
Proof.
  unfold speaks, respond. set (reply := mk_Frame type kFrameFlagAck (fr_correlation frame) payload).
  pose proof (send_on_replies session reply (co_limits co)) as H. by destruct (send_on session reply _).
Qed.

Lemma reject_speaks session frame status co : speaks frame session (reject session frame status co).
Proof.
  unfold speaks, reject, send_error. destruct (encode_error_message _ _) as [encoded payload] eqn:E.
  assert (status_ok encoded = true) as -> by (unfold encode_error_message, encode_unchecked in E; by apply pair_equal_spec in E as [<- _]).
  cbn [negb fst snd]. set (reply := mk_Frame MessageType.ErrorResponse 0 (fr_correlation frame) payload).
  pose proof (send_on_replies session reply (co_limits (count_rejected_frame co))) as H.
  by destruct (send_on session reply _).
Qed.

Lemma silent_speaks frame session status co :
  status_ok status = false -> speaks frame session (status, session, co).
Proof. intros H. unfold speaks, replied. cbn. by rewrite H. Qed.

Lemma answer_speaks session frame type encoded co : speaks frame session (answer session frame type encoded co).
Proof.
  unfold answer. destruct encoded as [status payload]. destruct (negb (status_ok status)) eqn:E.
  - by apply silent_speaks, negb_true_iff.
  - apply respond_speaks.
Qed.

Lemma serve_query_speaks time session frame request co : speaks frame session (serve_query time session frame request co).
Proof.
  unfold serve_query. destruct (query_response _ _ _) as [response st]. destruct (encode_query_response _ _) as [encoded payload].
  destruct (negb _); [apply reject_speaks|]. destruct (_ <? _); [apply answer_speaks|apply respond_speaks].
Qed.

(** A registered session names a publisher of the registry. *)
Definition session_ok (st : Registry) (s : Session) : Prop :=
  se_publisher_registered s = true -> is_Some (r_publishers st !! se_publisher s).

Lemma session_ok_grows st st' s : publishers_grow st st' -> session_ok st s -> session_ok st' s.
Proof. intros Hg Hok Hr. destruct (Hok Hr) as [p Hp]. destruct (Hg _ _ Hp) as (p' & Hp' & _). by exists p'. Qed.

Lemma session_ok_role st s s' : same_role s s' -> session_ok st s -> session_ok st s'.
Proof. unfold session_ok. intros (-> & _ & -> & _). done. Qed.

Lemma serves_grows co co' : serves co co' -> publishers_grow (co_registry co) (co_registry co').
Proof. intros [_ (ops & _ & ->)]. apply run_grows. Qed.

(** Publishers are filed under their identity. *)
Definition publishers_named (st : Registry) : Prop :=
  forall id s, r_publishers st !! id = Some s -> pi_id (pr_identity (ps_record s)) = id.

Lemma publishers_named_same st st' :
  r_publishers st' = r_publishers st -> publishers_named st -> publishers_named st'.
Proof. unfold publishers_named. by intros ->. Qed.

Lemma publishers_named_insert st st' id s :
  r_publishers st' = <[id := s]> (r_publishers st) -> pi_id (pr_identity (ps_record s)) = id ->
  publishers_named st -> publishers_named st'.
Proof.
  intros E Hs Hn id' s'. rewrite E, lookup_insert_Some. intros [[<- <-]|[_ H]]; [done|by apply Hn].
Qed.

Lemma register_locked_named time identity adapter st :
  publishers_named st -> publishers_named (register_publisher_locked time identity adapter st).1.
Proof.
  intros Hn. unfold register_publisher_locked. destruct (negb _); [done|]. destruct (_ || _); [done|].
  publisher_cases st (pi_id identity).
  - pose proof (Hn _ _ Hs) as Hi. destruct (ps_publisher_fenced s); [done|].
    destruct (negb _); [by apply (publishers_named_insert st _ (pi_id identity) (rebooted_state time (r_epoch st) adapter s))|].
    destruct (bool_decide _); [done|]. destruct (_ !=? _); [done|].
    by apply (publishers_named_insert st _ (pi_id identity) (reaffirmed_state (r_epoch st) adapter s)).
  - destruct (_ <=? _); [done|]. destruct (_ && _); [done|].
    by apply (publishers_named_insert st _ (pi_id identity) (first_boot_state time (r_epoch st) (pi_id identity) adapter)).
Qed.

Lemma apply_locked_named time p st : publishers_named st -> publishers_named (apply_locked hash time p st).1.
Proof.
  intros Hn. destruct (is_sequenced (pb_kind p)) eqn:Hk.
  - destruct (apply_locked_cases hash time p st Hk) as [st' r _ Hpub _ _|p' state st' r _ _ Hc Hseq];
      [by eapply publishers_named_same|].
    apply check_publisher_spec in Hc as (Hst & _). pose proof (Hn _ _ Hst) as Hi.
    destruct Hseq as [st' s' r _ Hpub (_ & _ & Hid & _) _ _ _ _|st0 st' s' r _ _ Hpub (_ & _ & Hid & _) _ _ _ _ _|
                      st0 st' s' r _ _ Hpub (_ & _ & Hid & _) _ _ _ _];
      (eapply publishers_named_insert; [exact Hpub|congruence|exact Hn]).
  - unfold apply_locked. destruct (r_shutting_down st); [done|].
    destruct (prepare_publication st p) as [r|p'] eqn:Hp; [by eapply publishers_named_same|].
    rewrite (pp_kind _ _ _ (prepare_publication_spec _ _ _ Hp)).
    destruct (pb_kind p ==? PublicationKind.RegisterCapabilitySchema) eqn:H1.
    + eapply publishers_named_same; [|exact Hn]. unfold apply_schema, refuse, register_capability_schema_locked.
      destruct (negb _); [by destruct (negb _)|]. destruct (_ !! cs_id _) as [c|]; [by destruct (same_schema _ _)|].
      destruct (_ !! cs_capability _); [done|]. by destruct (_ <=? _).
    + destruct (pb_kind p ==? PublicationKind.RegisterPublisher) eqn:H2.
      * pose proof (register_locked_named time (pb_publisher p') (pb_reason p') st Hn) as Hr.
        eapply publishers_named_same; [|exact Hr]. unfold apply_registration. cbv zeta. cbn [fst]. by destruct (accepted _).
      * exfalso. unfold is_sequenced in Hk. by rewrite H1, H2 in Hk.
Qed.

Lemma served_step_named op st : is_served op = true -> publishers_named st -> publishers_named (step hash op st).
Proof.
  intros Hs Hn. destruct op; try done; cbn [step].
  - unfold register_publisher. destruct (r_shutting_down st); [done|]. by apply register_locked_named.
  - unfold fence_publisher. publisher_cases st publisher; [|done]. destruct (ps_publisher_fenced s); [done|].
    apply (publishers_named_insert st _ publisher (fenced_state reason s)); [done| |done]. exact (Hn _ _ Hs0).
  - unfold retire_publisher_boot. publisher_cases st publisher; [|done]. destruct (negb _); [done|].
    destruct (bool_decide _); [done|]. apply (publishers_named_insert st _ publisher (retired_state boot reason s)); [done| |done].
    unfold retired_state. cbv zeta. destruct (_ ==? _); exact (Hn _ _ Hs0).
  - by apply apply_locked_named.
  - unfold count_snapshot. by destruct (_ <? _).
Qed.

Lemma serves_named co co' : serves co co' -> publishers_named (co_registry co) -> publishers_named (co_registry co').
Proof.
  intros [_ (ops & Hops & ->)]. generalize (co_registry co). induction Hops as [|op ops Hop _ IH]; intros st Hn; [done|].
  apply IH. by apply served_step_named.
Qed.

(** An accepted registration makes the publisher known under the identity it
    reports. *)
Lemma registered_known time identity adapter st :
  publishers_named st -> accepted (register_publisher time identity adapter st).2 = true ->
  is_Some (r_publishers (register_publisher time identity adapter st).1 !!
           pi_id (ar_assigned_publisher (register_publisher time identity adapter st).2)).
Proof.
  intros Hn. unfold register_publisher, register_publisher_locked. destruct (r_shutting_down st); [done|].
  destruct (negb (id_valid _)); [done|]. destruct (_ || _); [done|]. publisher_cases st (pi_id identity).
  - pose proof (Hn _ _ Hs) as Hi. destruct (ps_publisher_fenced s); [done|].
    destruct (negb _); [|destruct (bool_decide _); [done|]; destruct (_ !=? _); [done|]];
      intros _; cbn -[r_publishers]; rewrite Hi; cbn; rewrite lookup_insert_eq; by eexists.
  - destruct (_ <=? _); [done|]. destruct (_ && _); [done|]. intros _. cbn. rewrite lookup_insert_eq. by eexists.
Qed.

(* ===================================================================== *)
(** ** Lemmas: one frame *)

Lemma speaks_replied frame session session1 out :
  se_sent session1 = se_sent session -> speaks frame session1 out ->
  replied (fr_correlation frame) session out.1.2 out.1.1.
Proof. intros E [_ H]. unfold replied in *. by rewrite <- E. Qed.

Lemma dispatch_replied session frame co :
  let out := dispatch hash clock session frame co in replied (fr_correlation frame) session out.1.2 out.1.1.
Proof.
  cbv zeta. unfold dispatch. set (co1 := co <| co_stats ::= _ |>). clearbody co1.
  assert (Hspeaks : forall out, speaks frame session out -> replied (fr_correlation frame) session out.1.2 out.1.1)
    by (by intros out []).
  destruct (fr_type frame);
    lazymatch goal with |- context [reject session frame] => apply Hspeaks, reject_speaks | _ => idtac end.
  - unfold on_hello. destruct (decode_hello _ _) as [|hello]; [apply Hspeaks, reject_speaks|].
    destruct (negb _); [apply Hspeaks, reject_speaks|].
    eapply (speaks_replied frame session (session <| se_handshake_complete := true |>)); [done|apply answer_speaks].
  - unfold on_register_publisher. destruct (negb _); [apply Hspeaks, reject_speaks|].
    destruct (decode_register_publisher _ _) as [|m]; [apply Hspeaks, reject_speaks|].
    destruct (register_publisher _ _ _ _) as [st applied]. eapply speaks_replied; [|apply answer_speaks].
    by destruct (accepted applied).
  - unfold on_publication. destruct (decode_publication _ _) as [|p]; [apply Hspeaks, reject_speaks|].
    destruct (apply_locked _ _ _ _) as [st applied]. apply Hspeaks, answer_speaks.
  - unfold on_query. destruct (decode_query_request _ _) as [|m]; [apply Hspeaks, reject_speaks|]. apply Hspeaks, serve_query_speaks.
  - unfold on_fence_publisher. destruct (decode_fence_publisher _ _) as [|m]; [apply Hspeaks, reject_speaks|].
    destruct (fence_publisher _ _ _) as [st applied]. apply Hspeaks, answer_speaks.
  - apply Hspeaks, serve_query_speaks.
  - unfold on_shutdown. destruct (decode_shutdown _ _) as [|message]; [apply Hspeaks, reject_speaks|].
    destruct (encode_shutdown _ _) as [encoded payload]. destruct (negb _) eqn:E; [by apply Hspeaks, silent_speaks, negb_true_iff|].
    apply (Hspeaks (respond _ _ _ _ _, _)), respond_speaks.
  - unfold on_heartbeat. destruct (decode_heartbeat _ _) as [|m]; [apply Hspeaks, reject_speaks|]. apply Hspeaks, answer_speaks.
Qed.

(** Only a registration changes the role of a session. *)
Lemma dispatch_role session frame co :
  let out := dispatch hash clock session frame co in
  same_role session out.1.2 \/
  se_publisher_registered out.1.2 = true /\ se_buffer out.1.2 = se_buffer session /\
  exists time identity adapter,
    let registered := register_publisher time identity adapter (co_registry co) in
    accepted registered.2 = true /\ co_registry out.2 = registered.1 /\
    se_publisher out.1.2 = pi_id (ar_assigned_publisher registered.2) /\
    se_boot out.1.2 = pi_boot (ar_assigned_publisher registered.2).
Proof.
  cbv zeta. unfold dispatch. change (co_registry co) with (co_registry (co <| co_stats ::= fun s => s <| ct_frames_received ::= u64_succ |> |>)).
  set (co1 := co <| co_stats ::= _ |>). clearbody co1.
  assert (Hspeaks : forall out, speaks frame session out -> same_role session out.1.2) by (by intros out []).
  destruct (fr_type frame);
    lazymatch goal with |- context [reject session frame] => left; apply Hspeaks, reject_speaks | _ => idtac end.
  - left. unfold on_hello. destruct (decode_hello _ _) as [|hello]; [apply Hspeaks, reject_speaks|].
    destruct (negb _); [apply Hspeaks, reject_speaks|].
    match goal with |- context [answer ?s frame ?t ?e ?c] => exact (proj1 (answer_speaks s frame t e c)) end.
  - unfold on_register_publisher. destruct (negb _); [left; apply Hspeaks, reject_speaks|].
    destruct (decode_register_publisher _ _) as [|m]; [left; apply Hspeaks, reject_speaks|].
    destruct (register_publisher (now clock co1) (rp_identity m) (rp_adapter m) (co_registry co1)) as [st applied] eqn:E.
    match goal with |- context [answer ?s frame ?t ?e ?c] => pose proof (proj1 (answer_speaks s frame t e c)) as Hrole;
      rewrite (answer_same s frame t e c) end.
    destruct (accepted applied) eqn:Ha; [right|by left]. destruct Hrole as (R1 & R2 & R3 & R4).
    rewrite R1, R2, R3, R4. split_and!; [done|done|]. exists (now clock co1), (rp_identity m), (rp_adapter m). by rewrite E.
  - left. unfold on_publication. destruct (decode_publication _ _) as [|p]; [apply Hspeaks, reject_speaks|].
    destruct (apply_locked _ _ _ _) as [st applied]. apply Hspeaks, answer_speaks.
  - left. unfold on_query. destruct (decode_query_request _ _) as [|m]; [apply Hspeaks, reject_speaks|].
    apply Hspeaks, serve_query_speaks.
  - left. unfold on_fence_publisher. destruct (decode_fence_publisher _ _) as [|m]; [apply Hspeaks, reject_speaks|].
    destruct (fence_publisher _ _ _) as [st applied]. apply Hspeaks, answer_speaks.
  - left. apply Hspeaks, serve_query_speaks.
  - left. unfold on_shutdown. destruct (decode_shutdown _ _) as [|message]; [apply Hspeaks, reject_speaks|].
    destruct (encode_shutdown _ _) as [encoded payload]. destruct (negb _); [done|]. apply (respond_speaks session frame _ _ co1 co1).
  - left. unfold on_heartbeat. destruct (decode_heartbeat _ _) as [|m]; [apply Hspeaks, reject_speaks|].
    apply Hspeaks, answer_speaks.
Qed.

Lemma dispatch_session_ok session frame co :
  let out := dispatch hash clock session frame co in
  publishers_named (co_registry co) -> session_ok (co_registry co) session -> session_ok (co_registry out.2) out.1.2.
Proof.
  cbv zeta. intros Hn Hok. destruct (dispatch_role session frame co) as [Hr|(_ & _ & time & identity & adapter & Ha & Hst & Hp & _)].
  - eapply session_ok_role; [exact Hr|]. eapply session_ok_grows; [|exact Hok]. apply serves_grows, dispatch_serves.
  - intros _. rewrite Hp, Hst. by apply registered_known.
Qed.

(* ===================================================================== *)
(** ** Lemmas: the event loop *)

(** Publishers are filed under their identity, and every registered session
    names one of them. *)
Definition coordinator_ok (co : Coordinator) : Prop :=
  publishers_named (co_registry co) /\ map_Forall (fun _ s => session_ok (co_registry co) s) (co_sessions co).

(** A served step that touches at most the session of [handle]. *)
Lemma coordinator_ok_step handle co co' :
  serves co co' -> coordinator_ok co ->
  (forall other, other <> handle -> co_sessions co' !! other = co_sessions co !! other \/ co_sessions co' !! other = None) ->
  (forall s, co_sessions co' !! handle = Some s -> session_ok (co_registry co') s) -> coordinator_ok co'.
Proof.
  intros Hs [Hn Hok] Hother Hhandle. split; [by eapply serves_named|]. intros h s Hh.
  destruct (decide (h = handle)) as [->|Hne]; [by apply Hhandle|].
  destruct (Hother h Hne) as [E|E]; rewrite E in Hh; [|done].
  eapply session_ok_grows; [by eapply serves_grows|]. by apply (Hok h).
Qed.

Lemma retire_session_serves session reason co : serves co (retire_session session reason co).
Proof.
  unfold retire_session. destruct (se_publisher_registered session); [|done].
  destruct (retire_publisher_boot _ _ _ _) as [st retired] eqn:E.
  apply (serves_step (OpRetireBoot (se_publisher session) (se_boot session) reason)); [done|done|]. cbn. by rewrite E.
Qed.

Lemma retire_session_sessions session reason co : co_sessions (retire_session session reason co) = co_sessions co.
Proof. unfold retire_session. destruct (se_publisher_registered session); [|done]. by destruct (retire_publisher_boot _ _ _ _). Qed.

(** Retiring a session fences its boot. *)
Lemma retire_session_revokes session reason co :
  se_publisher_registered session = true -> gen_valid (se_boot session) = true ->
  session_ok (co_registry co) session ->
  exists p, r_publishers (co_registry (retire_session session reason co)) !! se_publisher session = Some p /\
    boot_revoked p (se_boot session).
Proof.
  intros Hr Hb Hok. destruct (Hok Hr) as [p Hp]. unfold retire_session. rewrite Hr. unfold retire_publisher_boot.
  rewrite Hp, Hb. cbn [negb]. case_bool_decide as Hin; [by exists p; split; [|right]|].
  cbn -[r_publishers retired_state]. exists (retired_state (se_boot session) reason p). split.
  - cbn. apply lookup_insert_eq.
  - right. unfold retired_state. cbv zeta. destruct (_ ==? _); cbn; set_solver.
Qed.

Lemma drop_session_serves handle reason co : serves co (drop_session handle reason co).
Proof.
  unfold drop_session. destruct (co_sessions co !! handle) as [session|]; [|done].
  etrans; [apply retire_session_serves|by apply serves_same].
Qed.

Lemma drop_session_sessions handle reason co :
  co_sessions (drop_session handle reason co) = delete handle (co_sessions co).
Proof.
  unfold drop_session. destruct (co_sessions co !! handle) as [session|] eqn:E.
  - cbn. by rewrite retire_session_sessions.
  - symmetry. by apply delete_id.
Qed.

Lemma drop_session_ok handle reason co : coordinator_ok co -> coordinator_ok (drop_session handle reason co).
Proof.
  intros Hok. apply (coordinator_ok_step handle co); [apply drop_session_serves|done|..]; rewrite drop_session_sessions.
  - intros other Hne. left. by rewrite lookup_delete_ne.
  - intros s. by rewrite lookup_delete_eq.
Qed.

Lemma reject_sessions session frame status co : co_sessions (reject session frame status co).2 = co_sessions co.
Proof. done. Qed.

Lemma serve_query_sessions time session frame request co :
  co_sessions (serve_query time session frame request co).2 = co_sessions co.
Proof.
  unfold serve_query. destruct (query_response _ _ _) as [response st]. destruct (encode_query_response _ _) as [encoded payload].
  destruct (negb _); [done|]. destruct (_ <? _); [by rewrite answer_same|done].
Qed.

Lemma dispatch_sessions session frame co : co_sessions (dispatch hash clock session frame co).2 = co_sessions co.
Proof.
  unfold dispatch. change (co_sessions co) with (co_sessions (co <| co_stats ::= fun s => s <| ct_frames_received ::= u64_succ |> |>)).
  set (co1 := co <| co_stats ::= _ |>). clearbody co1.
  destruct (fr_type frame); lazymatch goal with |- context [reject session frame] => done | _ => idtac end.
  - unfold on_hello. destruct (decode_hello _ _) as [|hello]; [done|]. destruct (negb _); [done|]. by rewrite answer_same.
  - unfold on_register_publisher. destruct (negb _); [done|]. destruct (decode_register_publisher _ _) as [|m]; [done|].
    destruct (register_publisher _ _ _ _). by rewrite answer_same.
  - unfold on_publication. destruct (decode_publication _ _) as [|p]; [done|].
    destruct (apply_locked _ _ _ _). by rewrite answer_same.
  - unfold on_query. destruct (decode_query_request _ _) as [|m]; [done|]. apply serve_query_sessions.
  - unfold on_fence_publisher. destruct (decode_fence_publisher _ _) as [|m]; [done|].
    destruct (fence_publisher _ _ _). by rewrite answer_same.
  - apply serve_query_sessions.
  - unfold on_shutdown. destruct (decode_shutdown _ _) as [|message]; [done|].
    destruct (encode_shutdown _ _). by destruct (negb _).
  - unfold on_heartbeat. destruct (decode_heartbeat _ _) as [|m]; [done|]. by rewrite answer_same.
Qed.

Lemma dispatch_frames_ok frames : forall session co,
  let out := dispatch_frames hash clock session frames co in
  publishers_named (co_registry co) -> session_ok (co_registry co) session ->
  serves co out.2 /\ co_sessions out.2 = co_sessions co /\ session_ok (co_registry out.2) out.1.2.
Proof.
  cbv zeta. induction frames as [|frame frames IH]; intros session co Hn Hok; cbn [dispatch_frames]; [done|].
  pose proof (dispatch_serves session frame co) as Hs. pose proof (dispatch_sessions session frame co) as Hm.
  pose proof (dispatch_session_ok session frame co Hn Hok) as Hk.
  destruct (dispatch hash clock session frame co) as [[status session1] co1]. cbn [fst snd] in *.
  destruct (negb (status_ok status)); [done|]. destruct (tk_requested (co_token co1)); [done|].
  destruct (IH (session1 <| se_delivered ::= u64_succ |>) co1) as (H1 & H2 & H3); [by eapply serves_named|done|].
  split; [by etrans|]. split; [congruence|done].
Qed.

Lemma dispatch_delivered_ok co entry :
  coordinator_ok co -> coordinator_ok (dispatch_delivered hash clock co entry) /\
  serves co (dispatch_delivered hash clock co entry) /\
  forall handle, co_sessions co !! handle = None -> co_sessions (dispatch_delivered hash clock co entry) !! handle = None.
Proof.
  intros Hok. unfold dispatch_delivered. destruct (co_sessions co !! entry.1) as [session|] eqn:E; [|done].
  destruct (dispatch_frames_ok entry.2 session co) as (H1 & H2 & H3); [by destruct Hok|by apply (proj2 Hok entry.1)|].
  destruct (dispatch_frames hash clock session entry.2 co) as [[closed session1] co1]. cbn [fst snd] in *.
  assert (Hput : coordinator_ok (put_session entry.1 session1 co1)).
  { apply (coordinator_ok_step entry.1 co); [etrans; [exact H1|by apply serves_same]|done|..]; cbn; rewrite H2.
    - intros other Hne. left. by rewrite lookup_insert_ne.
    - intros s. rewrite lookup_insert_eq. by intros [= <-]. }
  assert (Hserves : serves co (put_session entry.1 session1 co1)) by (etrans; [exact H1|by apply serves_same]).
  assert (Hnone : forall handle, co_sessions co !! handle = None ->
    co_sessions (put_session entry.1 session1 co1) !! handle = None).
  { intros handle Hh. cbn. rewrite H2, lookup_insert_ne by congruence. done. }
  destruct closed; [|done]. split; [by apply drop_session_ok|]. split; [etrans; [exact Hserves|apply drop_session_serves]|].
  intros handle Hh. rewrite drop_session_sessions. apply lookup_delete_None. right. by apply Hnone.
Qed.

Lemma send_error_role session correlation code message co :
  same_role session (send_error session correlation code message co).2.
Proof.
  unfold send_error. destruct (encode_error_message _ _) as [encoded payload]. destruct (negb _); [done|].
  set (reply := mk_Frame MessageType.ErrorResponse 0 correlation payload).
  pose proof (send_on_replies session reply (co_limits co)) as H. by destruct (send_on session reply _) as [? ?], H.
Qed.

(** Who the session speaks for. *)
Definition same_publisher (s s' : Session) : Prop :=
  se_publisher s' = se_publisher s /\ se_boot s' = se_boot s /\
  se_publisher_registered s' = se_publisher_registered s.

Definition received_closed (received : Received) : bool := match received with Data (_ :: _) => false | _ => true end.

Lemma read_session_spec session received co :
  let '(frames, session', co') := read_session session received co in
  same_publisher session session' /\ co_registry co' = co_registry co /\ co_config co' = co_config co /\
  co_sessions co' = co_sessions co /\ (received_closed received = true -> frames = None).
Proof.
  unfold read_session. destruct received as [[|b bytes]| |]; try done.
  destruct (feed _ _ _) as [[fed frames] buffer]. destruct (negb _).
  - match goal with |- context [send_error ?s ?c ?e ?m ?o] => pose proof (send_error_role s c e m o) as H;
      destruct (send_error s c e m o) end. by destruct H as (? & ? & ? & _).
  - destruct (_ <? _); [|done].
    match goal with |- context [send_error ?s ?c ?e ?m ?o] => pose proof (send_error_role s c e m o) as H;
      destruct (send_error s c e m o) end. by destruct H as (? & ? & ? & _).
Qed.

(** What reading has done after some of the handles: the registry is
    untouched, every session speaks for the same publisher, and the closed
    ones are listed. *)
Definition read_invariant (ready : gmap N Received) (co0 : Coordinator) (seen : list N)
    (acc : list N * list (N * list Frame) * Coordinator) : Prop :=
  let '(dead, delivered, co) := acc in
  co_registry co = co_registry co0 /\ co_config co = co_config co0 /\
  (forall handle, option_Forall2 same_publisher (co_sessions co0 !! handle) (co_sessions co !! handle)) /\
  (forall handle received, handle ∈ seen -> ready !! handle = Some received -> received_closed received = true ->
     is_Some (co_sessions co0 !! handle) -> handle ∈ dead).

Lemma read_ready_invariant ready co0 seen handle acc :
  read_invariant ready co0 seen acc -> read_invariant ready co0 (seen ++ [handle]) (read_ready ready handle acc).
Proof.
  destruct acc as [[dead delivered] co]. intros (Hr & Hc & Hs & Hd). unfold read_ready.
  pose proof (Hs handle) as Hh. destruct (ready !! handle) as [received|] eqn:Er.
  2: { split_and!; try done. intros h rc [Hin| ->%list_elem_of_singleton]%elem_of_app; [by apply Hd|congruence]. }
  destruct (co_sessions co !! handle) as [session|] eqn:E; inversion Hh as [session0 ? Hrole E0|E0]; subst.
  2: { split_and!; try done. intros h rc [Hin| ->%list_elem_of_singleton]%elem_of_app; [by apply Hd|].
       intros _ _ [? ?]. congruence. }
  pose proof (read_session_spec session received co) as Hread.
  destruct (read_session session received co) as [[frames session1] co1].
  destruct Hread as (R1 & R2 & R3 & R4 & R5).
  assert (Hsess : forall h, option_Forall2 same_publisher (co_sessions co0 !! h) (co_sessions (put_session handle session1 co1) !! h)).
  { intros h. cbn. rewrite R4. destruct (decide (h = handle)) as [->|Hne].
    - rewrite lookup_insert_eq, <- E0. constructor. destruct Hrole as (? & ? & ?), R1 as (? & ? & ?). split_and!; congruence.
    - rewrite lookup_insert_ne by done. apply Hs. }
  destruct frames as [[|f frames]|]; (split_and!; [cbn; congruence|cbn; congruence|exact Hsess|]);
    intros h rc [Hin| ->%list_elem_of_singleton]%elem_of_app Hrc Hcl Hsome.
  - by eapply Hd.
  - assert (rc = received) as -> by congruence. by specialize (R5 Hcl).
  - by eapply Hd.
  - assert (rc = received) as -> by congruence. by specialize (R5 Hcl).
  - apply elem_of_app. left. by eapply Hd.
  - apply elem_of_app. right. by left.
Qed.

Lemma read_all_invariant ready co0 handles : forall seen acc,
  read_invariant ready co0 seen acc ->
  read_invariant ready co0 (seen ++ handles) (foldl (fun acc handle => read_ready ready handle acc) acc handles).
Proof.
  induction handles as [|handle handles IH]; intros seen acc H; cbn [foldl]; [by rewrite app_nil_r|].
  rewrite cons_middle, app_assoc. apply IH. by apply read_ready_invariant.
Qed.

Lemma read_invariant_ok ready co0 seen acc : read_invariant ready co0 seen acc -> coordinator_ok co0 -> coordinator_ok acc.2.
Proof.
  destruct acc as [[dead delivered] co]. intros (Hr & Hc & Hs & _) [Hn Hok]. split; cbn [snd].
  - by rewrite Hr.
  - intros handle s Hh. rewrite Hr. pose proof (Hs handle) as H. rewrite Hh in H. inversion H as [s0 ? (E1 & _ & E3) E0|]; subst.
    unfold session_ok. rewrite E1, E3. by apply (Hok handle).
Qed.

(** Dropping the dead sessions. *)
Lemma drop_dead_all dead : forall co, coordinator_ok co ->
  let co' := foldl drop_dead co dead in
  coordinator_ok co' /\ serves co co' /\ (forall handle, co_sessions co !! handle = None -> co_sessions co' !! handle = None) /\
  forall handle session, handle ∈ dead -> co_sessions co !! handle = Some session ->
    se_publisher_registered session = true -> gen_valid (se_boot session) = true ->
    co_sessions co' !! handle = None /\
    exists p, r_publishers (co_registry co') !! se_publisher session = Some p /\ boot_revoked p (se_boot session).
Proof.
  cbv zeta. induction dead as [|h dead IH]; intros co Hok; cbn [foldl].
  { split_and!; [done|done|done|]. intros ? ? []%elem_of_nil. }
  set (co1 := drop_dead co h). assert (Hok1 : coordinator_ok co1) by (by apply drop_session_ok).
  destruct (IH co1 Hok1) as (K1 & K2 & K3 & K4).
  assert (Hm : co_sessions co1 = delete h (co_sessions co)) by apply drop_session_sessions.
  split_and!; [done|etrans; [apply drop_session_serves|exact K2]| |].
  - intros handle Hh. apply K3. rewrite Hm. apply lookup_delete_None. by right.
  - intros handle session Hin Hs Hr Hb. destruct (decide (handle = h)) as [->|Hne].
    + split; [apply K3; rewrite Hm; apply lookup_delete_eq|].
      destruct (retire_session_revokes session "publisher connection closed; boot identity retired" co Hr Hb) as (p & Hp & Hrev);
        [by apply (proj2 Hok h)|].
      assert (Hp1 : r_publishers (co_registry co1) !! se_publisher session = Some p).
      { unfold co1, drop_dead, drop_session. by rewrite Hs. }
      destruct (serves_grows _ _ K2 _ _ Hp1) as (p' & Hp' & Hg). exists p'. split; [done|]. by eapply boot_revoked_grows.
    + apply K4; [by apply elem_of_cons in Hin as [->|]|by rewrite Hm, lookup_delete_ne by congruence|done|done].
Qed.

Lemma dispatch_all delivered : forall co, coordinator_ok co ->
  let co' := foldl (dispatch_delivered hash clock) co delivered in
  coordinator_ok co' /\ serves co co' /\ forall handle, co_sessions co !! handle = None -> co_sessions co' !! handle = None.
Proof.
  cbv zeta. induction delivered as [|entry delivered IH]; intros co Hok; cbn [foldl]; [done|].
  destruct (dispatch_delivered_ok co entry Hok) as (H1 & H2 & H3). destruct (IH _ H1) as (K1 & K2 & K3).
  split_and!; [done|by etrans|auto].
Qed.

Lemma accept_connection_ok handle sends co : coordinator_ok co -> coordinator_ok (accept_connection handle sends co).
Proof.
  intros Hok. unfold accept_connection. destruct (_ <=? _); [done|].
  apply (coordinator_ok_step handle co); [by apply serves_same|done|..]; cbn; unfold emplace.
  - intros other Hne. left. destruct (co_sessions co !! handle); [done|]. by rewrite lookup_insert_ne.
  - intros s. destruct (co_sessions co !! handle) as [s0|] eqn:E.
    + intros Hs. by apply (proj2 Hok handle).
    + rewrite lookup_insert_eq. by intros [= <-].
Qed.

Lemma accept_connection_keeps handle sends co h s :
  co_sessions co !! h = Some s -> co_sessions (accept_connection handle sends co) !! h = Some s.
Proof.
  intros Hs. unfold accept_connection. destruct (_ <=? _); [done|]. cbn. unfold emplace.
  destruct (co_sessions co !! handle) as [s0|] eqn:E; [done|]. rewrite lookup_insert_ne by congruence. done.
Qed.

Lemma accept_connection_serves handle sends co : serves co (accept_connection handle sends co).
Proof. unfold accept_connection. destruct (_ <=? _); by apply serves_same. Qed.

(** An iteration that goes on: what it serves, and what happens to a session
    whose connection was closed. *)
Lemma iterate_spec wake co :
  coordinator_ok co ->
  let co' := (iterate hash clock wake co).2 in
  coordinator_ok co' /\ serves co co' /\
  forall handle session received, co_sessions co !! handle = Some session ->
    se_publisher_registered session = true -> gen_valid (se_boot session) = true ->
    wk_ready wake !! handle = Some received -> received_closed received = true ->
    wk_waited wake = success -> (forall status, wk_accept wake <> Some (inl status)) ->
    co_sessions co' !! handle = None /\
    exists p, r_publishers (co_registry co') !! se_publisher session = Some p /\ boot_revoked p (se_boot session).
Proof.
  cbv zeta. intros Hok. unfold iterate. destruct (negb (status_ok (wk_waited wake))) eqn:Hw.
  { split_and!; [done|done|]. intros ? ? ? _ _ _ _ _ E. by rewrite E in Hw. }
  set (handles := map fst (map_entries (co_sessions co))).
  assert (Hmain : forall co1, coordinator_ok co1 -> serves co co1 ->
    (forall h s, co_sessions co !! h = Some s -> co_sessions co1 !! h = Some s) ->
    let '(dead, delivered, co2) := foldl (fun acc handle => read_ready (wk_ready wake) handle acc) ([], [], co1) handles in
    let co' := foldl (dispatch_delivered hash clock) (foldl drop_dead co2 dead) delivered in
    coordinator_ok co' /\ serves co co' /\
    forall handle session received, co_sessions co !! handle = Some session ->
      se_publisher_registered session = true -> gen_valid (se_boot session) = true ->
      wk_ready wake !! handle = Some received -> received_closed received = true ->
      co_sessions co' !! handle = None /\
      exists p, r_publishers (co_registry co') !! se_publisher session = Some p /\ boot_revoked p (se_boot session)).
  { intros co1 Hok1 Hserves1 Hkeep.
    assert (H0 : read_invariant (wk_ready wake) co1 [] ([], [], co1)).
    { split_and!; [done|done| |]; [|by intros ? ? []%elem_of_nil]. intros h. by destruct (co_sessions co1 !! h); constructor. }
    pose proof (read_all_invariant (wk_ready wake) co1 handles [] _ H0) as Hread. cbn [app] in Hread.
    pose proof (read_invariant_ok _ _ _ _ Hread Hok1) as Hok2.
    destruct (foldl _ _ handles) as [[dead delivered] co2]. cbn [snd] in Hok2. destruct Hread as (R1 & R2 & R3 & R4).
    assert (Hserves2 : serves co co2) by (etrans; [exact Hserves1|by apply serves_same]).
    destruct (drop_dead_all dead co2 Hok2) as (D1 & D2 & D3 & D4).
    destruct (dispatch_all delivered _ D1) as (P1 & P2 & P3). split_and!; [done|by etrans; [|etrans]|].
    intros handle session received Hs Hr Hb Hrc Hcl. apply Hkeep in Hs as Hs1.
    assert (Hin : handle ∈ dead).
    { eapply (R4 handle received); [|exact Hrc|exact Hcl|by eexists]. unfold handles. apply list_elem_of_fmap.
      exists (handle, session). split; [done|]. by apply elem_of_map_entries. }
    pose proof (R3 handle) as H. rewrite Hs1 in H. inversion H as [? s2 (E1 & E2 & E3) E4 E5|]; subst.
    destruct (D4 handle s2 Hin (eq_sym E5)) as (N & p & Hp & Hrev); [by rewrite E3|by rewrite E2|].
    rewrite E1 in Hp. rewrite E2 in Hrev. split; [by apply P3|].
    destruct (serves_grows _ _ P2 _ _ Hp) as (p' & Hp' & Hg). exists p'. split; [done|]. by eapply boot_revoked_grows. }
  destruct (wk_accept wake) as [[status|[handle sends]]|].
  - split_and!; [done|done|]. intros ? ? ? _ _ _ _ _ _ E. by destruct (E status).
  - pose proof (Hmain _ (accept_connection_ok handle sends co Hok) (accept_connection_serves handle sends co)
      (accept_connection_keeps handle sends co)) as H.
    destruct (foldl _ _ handles) as [[dead delivered] co2]. cbn [snd]. destruct H as (H1 & H2 & H3).
    split_and!; [done|done|]. intros; by eapply H3.
  - pose proof (Hmain co Hok (reflexivity co) (fun h s H => H)) as H.
    destruct (foldl _ _ handles) as [[dead delivered] co2]. cbn [snd]. destruct H as (H1 & H2 & H3).
    split_and!; [done|done|]. intros; by eapply H3.
Qed.

Lemma shut_down_spec co : coordinator_ok co -> coordinator_ok (shut_down co) /\ serves co (shut_down co).
Proof.
  intros Hok. unfold shut_down.
  set (retire := fun co (entry : N * Session) => retire_session entry.2 "coordinator shutdown; boot identity retired" co
    <| co_stats ::= fun s => s <| ct_sessions_fenced ::= u64_succ |> |>).
  assert (Hfold : forall entries co, serves co (foldl retire co entries)).
  { induction entries as [|entry entries IH]; intros c; cbn [foldl]; [done|]. etrans; [|apply IH].
    etrans; [apply retire_session_serves|by apply serves_same]. }
  assert (Hs : serves co (foldl retire co (map_entries (co_sessions co)) <| co_sessions := ∅ |> <| co_registry ::= begin_shutdown |>)).
  { etrans; [apply Hfold|]. by apply (serves_step OpBeginShutdown). }
  split; [|exact Hs]. split; [eapply serves_named; [exact Hs|apply Hok]|]. apply map_Forall_empty.
Qed.

Lemma run_loop_spec wakes : forall co, coordinator_ok co ->
  coordinator_ok (run_loop hash clock wakes co).2 /\ serves co (run_loop hash clock wakes co).2.
Proof.
  induction wakes as [|wake wakes IH]; intros co Hok; cbn [run_loop]; destruct (tk_requested (co_token co));
    try (by apply shut_down_spec); [done|].
  destruct (wk_external wake) as [reason|].
  - assert (Hok' : coordinator_ok (co <| co_token ::= request reason |>)) by done.
    destruct (shut_down_spec _ Hok') as [H1 H2]. split; [exact H1|]. etrans; [|exact H2]. by apply serves_same.
  - destruct (iterate_spec wake co Hok) as (H1 & H2 & _). destruct (iterate hash clock wake co) as [status co1]. cbn [snd] in *.
    destruct (negb _); [done|]. destruct (IH co1 H1) as [K1 K2]. split; [done|by etrans].
Qed.
End Serving.

(* ===================================================================== *)
(** ** Lemmas: starting *)

Lemma reset_not_authoritative reason st record :
  publisher_is_authoritative (reset_publisher_liveness reason st) record = false.
Proof.
  unfold publisher_is_authoritative. change (r_publishers (reset_publisher_liveness reason st)) with (deadened_state reason <$> r_publishers st).
  rewrite lookup_fmap. destruct (r_publishers st !! _) as [s|]; [|done]. cbn [fmap option_fmap option_map].
  destruct (ps_publisher_fenced _); [done|].
  assert (H : (pr_state (ps_record (deadened_state reason s)) ==? PublisherState.Registered) = false).
  { unfold deadened_state. destruct (pr_state (ps_record s) ==? PublisherState.Registered) eqn:E; [|done].
    cbv zeta. by destruct (gen_valid _). }
  by rewrite H.
Qed.

Lemma stage_watermark_named w (s s' : gmap PublisherId PublisherStateInternal) :
  stage_watermark w s = inr s' ->
  map_Forall (fun id p => pi_id (pr_identity (ps_record p)) = id) s -> map_Forall (fun id p => pi_id (pr_identity (ps_record p)) = id) s'.
Proof.
  unfold stage_watermark. destruct (id_valid (wm_publisher w)) eqn:Hv; [|done]. cbn [negb]. cbv zeta.
  destruct (bool_decide _); [done|]. intros H Hs. apply (inj inr) in H. subst s'. apply map_Forall_insert_2; [|done].
  destruct (s !! wm_publisher w) as [p|] eqn:Hp; cbn [default from_option].
  - pose proof (Hs _ _ Hp) as Hi. cbn in Hi. cbn. rewrite Hi, Hv. exact Hi.
  - done.
Qed.

Lemma stage_fence_named w (s s' : gmap PublisherId PublisherStateInternal) :
  stage_fence w s = inr s' ->
  map_Forall (fun id p => pi_id (pr_identity (ps_record p)) = id) s -> map_Forall (fun id p => pi_id (pr_identity (ps_record p)) = id) s'.
Proof.
  unfold stage_fence. destruct (id_valid (wm_publisher w)) eqn:Hv; [|done]. destruct (gen_valid (wm_boot w)); [|done].
  cbn [negb orb]. cbv zeta. intros H Hs. apply (inj inr) in H. subst s'. apply map_Forall_insert_2; [|done].
  destruct (s !! wm_publisher w) as [p|] eqn:Hp; cbn [default from_option].
  - pose proof (Hs _ _ Hp) as Hi. cbn in Hi. cbn. rewrite Hi, Hv. exact Hi.
  - done.
Qed.

Lemma import_named state st : publishers_named st -> publishers_named (import_durable_state state st).1.
Proof.
  intros Hn. destruct (import_durable_state state st) as [st' [status|report]] eqn:E; cbn [fst].
  - apply import_failure in E as [serial ->]. by eapply publishers_named_same.
  - apply import_success in E as (s & (pubs & Hw & Hf)%im_publishers & _ & ->). intros id p.
    change (r_publishers _) with (retire_imported <$> sd_publishers s). rewrite lookup_fmap.
    destruct (sd_publishers s !! id) as [q|] eqn:Hq; [|done]. intros [= <-].
    assert (Hall : map_Forall (fun id p => pi_id (pr_identity (ps_record p)) = id) (sd_publishers s)).
    { eapply (try_fold_invariant (map_Forall (fun id p => pi_id (pr_identity (ps_record p)) = id)) stage_fence);
        [intros; by eapply stage_fence_named|exact Hf|].
      eapply (try_fold_invariant (map_Forall (fun id p => pi_id (pr_identity (ps_record p)) = id)) stage_watermark);
        [intros; by eapply stage_watermark_named|exact Hw|apply map_Forall_empty]. }
    exact (Hall _ _ Hq).
Qed.

Lemma construct_registry_publishers builtin limits : r_publishers (construct_registry builtin limits) = ∅.
Proof.
  unfold construct_registry. cbv zeta.
  assert (H : forall st, r_publishers (foldl load_schema st builtin) = r_publishers st)
    by (induction builtin as [|s builtin IH]; intros st; cbn [foldl]; [done|by rewrite IH]).
  exact (H (empty_registry limits)).
Qed.

(** What [start] leaves behind, whatever the state file holds. *)
Lemma start_ok loaded builtin config : coordinator_ok (start loaded (new_coordinator builtin config)).2.
Proof.
  assert (Hload : forall co, publishers_named (co_registry co) -> co_sessions co = ∅ ->
    let out := match co_store co, loaded with Some _, Some loaded => load_state loaded co | _, _ => (success, co) end in
    publishers_named (co_registry out.2) /\ co_sessions out.2 = ∅).
  { intros co Hn Hs. cbv zeta. destruct (co_store co) eqn:Est; [|done]. destruct loaded as [[status|state]|]; [..|done].
    - unfold load_state. by rewrite Est.
    - unfold load_state. rewrite Est. pose proof (import_named state (co_registry co) Hn) as Hi.
      by destruct (import_durable_state state (co_registry co)). }
  assert (Hnew : publishers_named (construct_registry builtin (cc_limits config))).
  { intros id s. rewrite construct_registry_publishers. by rewrite lookup_empty. }
  unfold start. set (co := if negb (is_empty _) then _ else _).
  assert (Hco : publishers_named (co_registry co) /\ co_sessions co = ∅) by (unfold co; by destruct (negb _)).
  clearbody co. destruct (Hload co (proj1 Hco) (proj2 Hco)) as [Hn Hs].
  destruct (match co_store co, loaded with Some _, Some loaded => _ | _, _ => _ end) as [status co1]. cbn [snd] in *.
  destruct (negb (status_ok status)); cbn [snd]; (split; [|cbn; rewrite Hs; apply map_Forall_empty]); [done|].
  intros id s. cbn. rewrite lookup_fmap. destruct (r_publishers (co_registry co1) !! id) as [p|] eqn:E; [|done].
  intros [= <-]. rewrite <- (Hn _ _ E). unfold deadened_state. destruct (_ ==? _); [|done]. cbv zeta. by destruct (gen_valid _).
Qed.

(* ===================================================================== *)
(** ** Properties *)

(** C12: a coordinator refines its registry. Whatever the state file holds,
    whatever arrives on the sockets and however sending fails, what the
    coordinator does to the registry after [start] is a run of the registry's
    operations: registrations, fences, retired boots, publications, snapshots
    and the shutdown. Every registered session names a known publisher, and
    the registry's invariant holds at the end if it held after [start]. *)
Theorem coordinator_refines_registry hash clock builtin config loaded wakes :
  let co := (start loaded (new_coordinator builtin config)).2 in
  let co' := (run_loop hash clock wakes co).2 in
  coordinator_ok co' /\
  exists ops, Forall (fun op => is_served op = true) ops /\ co_registry co' = run hash ops (co_registry co) /\
    forall n, n + 2 * lengthN ops < u64_modulus -> registry_ok n (co_registry co) ->
      registry_ok (n + 2 * lengthN ops) (co_registry co').
Proof.
  cbv zeta. set (co := (start _ _).2).
  destruct (run_loop_spec hash clock wakes co (start_ok loaded builtin config)) as [Hok [_ (ops & Hops & E)]].
  split; [done|]. exists ops. split_and!; [done|done|]. intros n Hn Hreg. rewrite E. by apply run_ok.
Qed.


(** The coordinator that has interpreted one more frame. *)
Definition received_frame (co : Coordinator) : Coordinator :=
  co <| co_stats ::= fun s => s <| ct_frames_received ::= u64_succ |> |>.

Lemma query_response_content time request st :
  response_content (query_response time request st).1 = (query_response time request st).1.
Proof.
  unfold query_response, query_registry. destruct (qm_kind request);
    cbn -[query_capability query_capabilities query_fleet query_stale query_quirks compare_devices snapshot
          response_content default_response];
    try (destruct (snapshot time st) as [st' result]);
    try (match goal with |- context [fill_response ?r] => destruct r as [status|a] end); cbn [fill_response fst snd];
    try (destruct (negb _)); reflexivity.
Qed.

(** An answer on an open connection is sent. *)
Lemma answer_sent session frame type payload co :
  cn_open (se_connection session) = true -> cn_results (se_connection session) = [] ->
  lengthN payload <= max_frame_bytes (co_limits co) ->
  let '(status, session', co') := answer session frame type (success, payload) co in
  status = success /\ co' = co /\
  se_sent session' = se_sent session ++ [mk_Frame type kFrameFlagAck (fr_correlation frame) payload].
Proof.
  intros Ho Hr Hle. unfold answer. change (negb (status_ok success)) with false. cbv iota.
  unfold respond, send_on, send_frame, encode_frame. cbn [fr_type fr_payload fr_flags].
  rewrite message_type_raw_known, (proj2 (N.ltb_ge _ _) Hle). cbn [negb].
  change (negb (N.ldiff kFrameFlagAck kKnownFrameFlags =? 0)) with false. cbv iota.
  change (negb (status_ok success)) with false. cbv iota. by rewrite Ho, Hr.
Qed.

(** A query that fits the wire is answered with the registry's answer. A
    frame that carries an encoded query is answered by one frame, sent back
    under its correlation, which the client decodes as exactly what the
    registry answers to that query at that time; only a snapshot query
    changes the registry. *)
Theorem query_is_answered hash clock session frame request co
    (Hlimits : query_limits_fit (co_limits co) = true) (Hopen : cn_open (se_connection session) = true)
    (Hresults : cn_results (se_connection session) = [])
    (Htype : fr_type frame = MessageType.QueryRequest)
    (Hfits : request_fits (co_limits co) request = true)
    (Hwhole : w_truncated (write_query_request request (co_limits co)) = false)
    (Hpayload : fr_payload frame = (encode_query_request request (co_limits co)).2) :
  let answered := query_response (now clock (received_frame co)) (request_content request) (co_registry co) in
  response_fits (co_limits co) answered.1 = true ->
  (encode_query_response answered.1 (co_limits co)).1 = success ->
  let '(status, session', co') := dispatch hash clock session frame co in
  status = success /\ co_registry co' = answered.2 /\
  exists reply, se_sent session' = se_sent session ++ [reply] /\
    fr_type reply = MessageType.QueryResponse /\ fr_correlation reply = fr_correlation frame /\
    fr_flags reply = kFrameFlagAck /\ lengthN (fr_payload reply) <= max_frame_bytes (co_limits co) /\
    decode_query_response (fr_payload reply) (co_limits co) = inr answered.1.
Proof.
  cbv zeta. intros Hresponse Hencode. unfold dispatch. rewrite Htype. unfold on_query. fold (received_frame co).
  change (co_limits (received_frame co)) with (co_limits co). rewrite Hpayload.
  unfold encode_query_request, encode_unchecked. cbn [snd]. rewrite request_decodes by done. unfold serve_query.
  change (co_registry (received_frame co <| co_stats ::= _ |>)) with (co_registry co).
  destruct (query_response _ _ _) as [response st] eqn:E. cbn [fst snd] in *.
  change (co_limits (received_frame co <| co_stats ::= _ |> <| co_registry := st |>)) with (co_limits co).
  destruct (encode_query_response response (co_limits co)) as [encoded payload] eqn:Eenc. cbn [fst] in Hencode. subst encoded.
  assert (Hdecoded : decode_query_response payload (co_limits co) = inr response /\ (max_frame_bytes (co_limits co) <? lengthN payload) = false).
  { unfold encode_query_response in Eenc. destruct (w_truncated (write_query_response _ _)) eqn:Ht; [done|].
    destruct (max_frame_bytes _ <? _) eqn:Hb; [done|]. apply pair_equal_spec in Eenc as [_ <-]. split; [|done].
    rewrite response_decodes by done. f_equal.
    pose proof (query_response_content (now clock (received_frame co)) (request_content request) (co_registry co)) as Hc.
    by rewrite E in Hc. }
  destruct Hdecoded as [Hdecoded Hbound]. rewrite Hbound. cbn [status_ok negb].
  unfold respond, send_on, send_frame.
  change (co_limits (received_frame co <| co_stats ::= _ |> <| co_registry := st |>)) with (co_limits co).
  unfold encode_frame. cbn [fr_payload fr_type fr_flags]. rewrite Hbound, Hopen, Hresults. split; [done|]. split; [done|].
  eexists. split_and!; [done..|by apply N.ltb_ge|done].
Qed.

(** The frames of a batch are answered one by one and in their order: the
    correlations of the replies are those of a prefix of the frames. The
    prefix is the whole batch unless answering a frame failed, which closes
    the session, or a shutdown was requested. *)
Theorem replies_in_order hash clock session frames co :
  let '(closed, session', co') := dispatch_frames hash clock session frames co in
  exists replies, se_sent session' = se_sent session ++ replies /\
    map fr_correlation replies `prefix_of` map fr_correlation frames /\
    (closed = true -> (length replies < length frames)%nat) /\
    (closed = false -> tk_requested (co_token co') = false -> length replies = length frames).
Proof.
  revert session co. induction frames as [|frame frames IH]; intros session co; cbn [dispatch_frames].
  { exists []. rewrite app_nil_r. by split_and!. }
  pose proof (dispatch_replied hash clock session frame co) as Hr. cbv zeta in Hr.
  destruct (dispatch hash clock session frame co) as [[status session1] co1]. cbn [fst snd] in Hr. unfold replied in Hr.
  destruct (status_ok status); cbn [negb].
  - destruct Hr as (reply & Hsent & Hc). set (session2 := session1 <| se_delivered ::= u64_succ |>).
    assert (Hsent2 : se_sent session2 = se_sent session ++ [reply]) by exact Hsent. destruct (tk_requested (co_token co1)) eqn:Et.
    + exists [reply]. split_and!; [done| |done|congruence]. cbn. rewrite Hc. by apply prefix_cons, prefix_nil.
    + specialize (IH session2 co1). destruct (dispatch_frames hash clock session2 frames co1) as [[closed session'] co'].
      destruct IH as (replies & Hs & Hp & Hcl & Hop). exists (reply :: replies). rewrite Hs, Hsent2, <- app_assoc.
      split_and!; [done| |..].
      * cbn. rewrite Hc. by apply prefix_cons.
      * intros H. cbn. apply Hcl in H. lia.
      * intros H1 H2. cbn. by rewrite Hop.
  - exists []. rewrite app_nil_r. split_and!; [done|apply prefix_nil|cbn; lia|done].
Qed.

(** An import raises the epoch of a new registry to that of the image. *)
Lemma raise_first {tag} (imported : Gen tag) : gen_valid imported = true -> raise_gen imported Gen_first = imported.
Proof.
  unfold raise_gen, gen_valid, gen_ltb. destruct imported as [v]. cbn. intros Hv. rewrite Hv. cbn [andb].
  destruct (1 <? v)%N eqn:E; [done|]. apply N.ltb_ge in E. apply negb_true_iff, N.eqb_neq in Hv. unfold Gen_first. f_equal. lia.
Qed.

(** C14: knowledge survives a restart, authority does not. When a coordinator
    has saved its state and a new one starts from the state file, the new one
    has the same devices, platforms, quirks, compatibility facts and
    capability records, its epoch is the next one, and no record is
    authoritative until its publisher registers again. *)
Theorem restart_restores_knowledge_not_authority time path fs0 fs file builtin config co co'
    (Hstore : co_store co = Some path) (Hpath : cc_state_path config = path) (Hnamed : is_empty path = false)
    (Hexportable : exportable (co_registry co)) (Hstorable : storable store_options (saved_state time co) = true)
    (Hsaved : save_state time co fs0 fs success) (Hread : reads fs path file)
    (Hstarted : start (Some (load path store_options file false)) (new_coordinator builtin config) = (success, co')) :
  let st := co_registry co in
  let st' := co_registry co' in
  r_devices st' = r_devices st /\ r_platforms st' = r_platforms st /\ r_quirks st' = r_quirks st /\
  r_compatibility st' = r_compatibility st /\ (forall k, records_at (r_keys st') k ≡ₚ records_at (r_keys st) k) /\
  (gen_valid (r_epoch st) = true -> r_epoch st' = gen_next (r_epoch st)) /\
  forall record, publisher_is_authoritative st' record = false.
Proof.
  cbv zeta. unfold save_state in Hsaved. rewrite Hstore in Hsaved.
  pose proof (load_saved _ _ _ _ _ _ _ Hstorable Hsaved Hread) as Hload. cbn [phase_succeeded status_ok] in Hload.
  rewrite Hload in Hstarted. unfold start in Hstarted.
  change (cc_state_path (co_config (new_coordinator builtin config))) with (cc_state_path config) in Hstarted.
  rewrite Hpath, Hnamed in Hstarted. cbn [negb] in Hstarted.
  set (co1 := new_coordinator builtin config <| co_store := Some path |>) in *.
  change (co_store co1) with (Some path) in Hstarted. cbv iota in Hstarted. unfold load_state in Hstarted.
  change (co_store co1) with (Some path) in Hstarted. cbv iota in Hstarted.
  change (co_registry co1) with (construct_registry builtin (cc_limits config)) in Hstarted.
  destruct (import_durable_state _ _) as [st1 imported] eqn:Ei. destruct imported as [status|report].
  { destruct (status_ok status) eqn:Es; cbn [negb] in Hstarted.
    - exfalso. apply import_fails in Ei. congruence.
    - apply pair_equal_spec in Hstarted as [-> _]. done. }
  cbn [negb status_ok] in Hstarted. apply pair_equal_spec in Hstarted as [_ <-].
  destruct (restored_tables _ _ _ _ _ Hexportable Ei) as (H1 & H2 & H3 & H4 & H5).
  split_and!; [exact H1|exact H2|exact H3|exact H4|exact H5| |by intros; apply reset_not_authoritative].
  intros Hv. apply import_success in Ei as (s & _ & _ & ->). cbn.
  unfold saved_state. cbn. rewrite !raise_first by exact Hv. by rewrite Hv.
Qed.

(* ===================================================================== *)
(** ** Witnesses *)

Definition sample_config : CoordinatorConfig := mk_CoordinatorConfig "hcr.state" default_limits false "node-0".

(** The session the agent registered on. *)
Definition agent_session : Session :=
  new_session [] <| se_handshake_complete := true |> <| se_publisher_registered := true |>
    <| se_publisher := agent |> <| se_boot := Gen_first |>.

Definition sample_coordinator : Coordinator :=
  new_coordinator [schema_entry] sample_config
    <| co_registry := sample_fleet |> <| co_store := Some "hcr.state"%string |> <| co_sessions := {[7%N := agent_session]} |>.

Definition sample_clock (frames : N) : string := "t".

Lemma sample_coordinator_ok : coordinator_ok sample_coordinator.
Proof.
  split.
  - intros id s. change (r_publishers (co_registry sample_coordinator)) with ({[agent := agent_state]} : gmap PublisherId PublisherStateInternal).
    intros [<- <-]%lookup_singleton_Some. reflexivity.
  - apply map_Forall_singleton. intros _. exists agent_state. reflexivity.
Qed.

(** The connection of the agent is closed while a second client connects. *)
Definition closing_wake : Wakeup := mk_Wakeup None success (Some (inr (9, []))) {[7 := Closed]}.


(** The question a client asks about the GPU. *)
Definition sample_question : QueryRequest :=
  default_request <| qm_kind := QueryKind.DeviceCapabilities |> <| qm_device_capabilities := default_device_query gpu |>.

Definition question_frame : Frame :=
  mk_Frame MessageType.QueryRequest 0 42 (encode_query_request sample_question default_limits).2.

Lemma query_is_answered_witness :
  let answered := query_response "t" sample_question sample_fleet in
  lengthN (qs_capabilities answered.1) = 1 /\
  let '(status, session', co') := dispatch strlen sample_clock agent_session question_frame sample_coordinator in
  status = success /\ co_registry co' = answered.2 /\
  exists reply, se_sent session' = se_sent agent_session ++ [reply] /\
    fr_type reply = MessageType.QueryResponse /\ fr_correlation reply = fr_correlation question_frame /\
    fr_flags reply = kFrameFlagAck /\ lengthN (fr_payload reply) <= max_frame_bytes default_limits /\
    decode_query_response (fr_payload reply) default_limits = inr answered.1.
Proof.
  cbv zeta. split; [vm_compute; reflexivity|].
  refine (query_is_answered strlen sample_clock agent_session question_frame sample_question sample_coordinator
    _ _ _ _ _ _ _ _ _); vm_compute; reflexivity.
Defined.

Lemma restart_restores_knowledge_not_authority_witness :
  exists fs file co', save_state "t" sample_coordinator ∅ fs success /\
    start (Some (load "hcr.state" store_options file false)) (new_coordinator [schema_entry] sample_config) = (success, co') /\
    r_devices (co_registry co') = {[gpu := gpu_state]} /\ r_epoch (co_registry co') = mk_Gen 2.
Proof.
  destruct sample_saving as [fs Hs]. pose proof (proj2 (save_outcome _ _ _ _ _ _ Hs)) as (image & E & Hp & _).
  assert (Hread : reads fs "hcr.state" (Some [image])).
  { unfold reads. rewrite Hp. split; [apply app_nil_r|]. apply Forall_singleton.
    apply encode_durable_state_inr in E as (payload & _ & _ & _ & ->). discriminate. }
  assert (Hload : load "hcr.state" store_options (Some [image]) false = inr sample_state)
    by exact (load_saved "hcr.state" sample_options sample_state ∅ fs (Finished success) (Some [image]) sample_storable Hs Hread).
  destruct (start (Some (inr sample_state)) (new_coordinator [schema_entry] sample_config)) as [status co'] eqn:Estart.
  assert (Hok : status = success) by (symmetry; etrans; [|exact (f_equal fst Estart)]; vm_compute; reflexivity).
  subst status.
  assert (Hstarted : start (Some (load "hcr.state" store_options (Some [image]) false))
    (new_coordinator [schema_entry] sample_config) = (success, co')) by (rewrite Hload; exact Estart).
  exists fs, (Some [image]), co'. split; [exact Hs|]. split; [exact Hstarted|].
  destruct (restart_restores_knowledge_not_authority "t" "hcr.state" ∅ fs (Some [image]) [schema_entry] sample_config
    sample_coordinator co' eq_refl eq_refl eq_refl sample_fleet_exportable sample_storable Hs Hread Hstarted)
    as (Hd & _ & _ & _ & _ & He & _).
  split; [exact Hd|]. exact (He eq_refl).
Defined.

(* ===================================================================== *)
(** ** Findings *)

(** Only a registration asks for the handshake: on a new connection, without
    HELLO and without a registration, a publication under the identity of a
    publisher registered elsewhere is applied. *)
Definition stranger_frame : Frame :=
  mk_Frame MessageType.Publication 0 1
    (encode_publication (claim 1 "cap.compute.fp8" false) default_limits).2.

Theorem publication_without_handshake :
  let '(status, session, co) := dispatch strlen sample_clock (new_session []) stranger_frame sample_coordinator in
  status = success /\ se_handshake_complete session = false /\ se_publisher_registered session = false /\
  ct_publications_applied (co_stats co) = 1 /\ r_evidence_count (co_registry co) = 2.
Proof. vm_compute. repeat split. Qed.

(** A session remembers one identity only: when a connection registers two
    publishers and is closed, the boot of the first stays authoritative. *)
Definition registration_frame (id : string) : Frame :=
  mk_Frame MessageType.RegisterPublisher 0 1
    (encode_register_publisher
       (mk_RegisterPublisherMessage (mk_PublisherIdentity (Id_parse id) Gen_none Gen_none) "nvml" EmptyString)
       default_limits).2.

Theorem first_identity_survives_connection :
  let session := new_session [] <| se_handshake_complete := true |> in
  let '(closed, session, co) :=
    dispatch_frames strlen sample_clock session [registration_frame "agent-a"; registration_frame "agent-b"]
      (new_coordinator [schema_entry] sample_config) in
  let co := drop_session 7 "publisher connection closed; boot identity retired" (put_session 7 session co) in
  let state id := match r_publishers (co_registry co) !! Id_parse id with
    | Some p => Some (pr_state (ps_record p)) | None => None end in
  closed = false /\ state "agent-a" = Some PublisherState.Registered /\ state "agent-b" = Some PublisherState.Dead.
Proof. vm_compute. repeat split. Qed.
