(* ===== verification/Client.v ===== *)
(** * The client and the publisher agent

    Models [client.cpp] and [publisher.cpp]: the two sides that talk to a
    coordinator. Both hold a connection with its frame decoder and a
    correlation counter, here a [Link]. The result of [connect_loopback] is
    an argument of what connects. The theorems compose the two sides: what a
    client is told by a coordinator is what the registry answers, and what a
    publisher publishes is what the registry applies. *)

From S2P Require Import Prelude Tokens Versions Support Conditions Values Hardware Quirks Compat Publication.
From S2P Require Import RegistryState Fixtures Resolution Publishers Devices Knowledge Evidence Ingest Runs Catalog System.
From S2P Require Import Wire Checksum Codec Frames Queries Render Snapshots Durable Image QueryCodec Messages Coordinator.

(* ===================================================================== *)
(** ** Links *)

Record Link := mk_Link { lk_connection : Connection; lk_buffer : list byte; lk_correlation : N }.

#[global] Instance eta_Link : Eta Link := fun r => mk_Link (lk_connection r) (lk_buffer r) (lk_correlation r).

Definition new_link : Link := mk_Link no_connection [] 0.

(** A frame sent under the next correlation, which is returned. *)
Definition post (limits : RegistryLimits) (type : MessageType) (payload : list byte) (link : Link) : Status * N * Link :=
  let correlation := u64_succ (lk_correlation link) in
  let '(status, connection) := send_frame (mk_Frame type 0 correlation payload) limits (lk_connection link) in
  (status, correlation, link <| lk_correlation := correlation |> <| lk_connection := connection |>).

(** The next frame that arrives. *)
Definition await (limits : RegistryLimits) (link : Link) : (Status + Frame) * Link :=
  let '(received, buffer, connection) := receive_on limits (lk_buffer link) (lk_connection link) in
  (received, link <| lk_buffer := buffer |> <| lk_connection := connection |>).

(** [impl_->connection] is replaced by what [connect_loopback] yields; the
    decoder keeps what it holds. *)
Definition set_connection (connection : Connection) (link : Link) : Link := link <| lk_connection := connection |>.
Definition close_link (link : Link) : Link := link <| lk_connection ::= close |>.

(* ===================================================================== *)
(** ** [CapabilityClient] *)

Record ClientConfig := mk_ClientConfig { kc_agent : string; kc_limits : RegistryLimits }.
Record Client := mk_Client { cl_config : ClientConfig; cl_link : Link; cl_epoch : CoordinatorEpoch }.

#[global] Instance eta_Client : Eta Client := fun r => mk_Client (cl_config r) (cl_link r) (cl_epoch r).

Definition new_client (config : ClientConfig) : Client := mk_Client config new_link Gen_none.
Definition cl_limits (client : Client) : RegistryLimits := kc_limits (cl_config client).
Definition client_connected (client : Client) : bool := cn_open (lk_connection (cl_link client)).
Definition client_disconnect (client : Client) : Status * Client := (success, client <| cl_link ::= close_link |>).

Definition not_connected : Status := failure IoFailure "client is not connected".

(** [exchange]: every path of its loop returns. *)
Definition exchange (request : QueryRequest) (client : Client) : (Status + QueryResponse) * Client :=
  let limits := cl_limits client in
  if negb (client_connected client) then (inl not_connected, client)
  else
    let '(encoded, payload) := encode_query_request request limits in
    if negb (status_ok encoded) then (inl encoded, client)
    else
      let '(sent, correlation, link) := post limits MessageType.QueryRequest payload (cl_link client) in
      let client := client <| cl_link := link |> in
      if negb (status_ok sent) then (inl sent, client)
      else
        let '(received, link) := await limits link in
        let client := client <| cl_link := link |> in
        (match received with
         | inl status => inl status
         | inr response =>
             if negb (fr_correlation response =? correlation)
             then inl (failure ProtocolError "query response correlation does not match")
             else if fr_type response ==? MessageType.ErrorResponse
             then match decode_error_message (fr_payload response) limits with
                  | inl status => inl status
                  | inr error => inl (failure (er_code error) (er_message error))
                  end
             else if fr_type response !=? MessageType.QueryResponse
             then inl (failure ProtocolError
                         ("expected QUERY_RESPONSE but received " +:+ message_type_to_string (fr_type response))%string)
             else match decode_query_response (fr_payload response) limits with
                  | inl status => inl status
                  | inr out => if qs_code out !=? Ok then inl (failure (qs_code out) (qs_message out)) else inr out
                  end
         end, client).

Definition client_connect (connected : Status + Connection) (client : Client) : Status * Client :=
  match connected with
  | inl status => (status, client)
  | inr connection =>
      let limits := cl_limits client in
      let client := client <| cl_link ::= set_connection connection |> in
      let '(encoded, payload) :=
        encode_hello (mk_HelloMessage protocol_version (kc_agent (cl_config client)) "client" 0) limits in
      if negb (status_ok encoded) then (encoded, client)
      else
        let '(sent, _, link) := post limits MessageType.Hello payload (cl_link client) in
        let client := client <| cl_link := link |> in
        if negb (status_ok sent) then (sent, client)
        else
          let '(received, link) := await limits link in
          let client := client <| cl_link := link |> in
          match received with
          | inl status => (status, client)
          | inr response =>
              if fr_type response !=? MessageType.Welcome
              then (failure ProtocolError
                      ("expected WELCOME but received " +:+ message_type_to_string (fr_type response))%string, client)
              else match decode_welcome (fr_payload response) limits with
              | inl status => (status, client)
              | inr welcome =>
                  if negb (we_protocol_version welcome =? protocol_version)
                  then (failure UnsupportedVersion
                          ("coordinator protocol version " +:+ pretty (we_protocol_version welcome) +:+
                           " is not supported")%string, client)
                  else (success, client <| cl_epoch := we_epoch welcome |>)
              end
          end
  end.

(** *** The queries: a request, and the part of the response that answers it *)

Definition ask {A} (request : QueryRequest) (part : QueryResponse -> A) (client : Client) : (Status + A) * Client :=
  let '(result, client) := exchange request client in
  (match result with inl status => inl status | inr response => inr (part response) end, client).

Definition capability_request (query : CapabilityQuery) : QueryRequest :=
  default_request <| qm_kind := QueryKind.Capability |> <| qm_capability := query |>.
Definition device_capabilities_request (query : DeviceCapabilityQuery) : QueryRequest :=
  default_request <| qm_kind := QueryKind.DeviceCapabilities |> <| qm_device_capabilities := query |>.
Definition fleet_request (query : FleetCapabilityQuery) : QueryRequest :=
  default_request <| qm_kind := QueryKind.Fleet |> <| qm_fleet := query |>.
Definition stale_request (query : StaleCapabilityQuery) : QueryRequest :=
  default_request <| qm_kind := QueryKind.StaleCapabilities |> <| qm_stale := query |>.
Definition quirks_request (query : QuirkQuery) : QueryRequest :=
  default_request <| qm_kind := QueryKind.Quirks |> <| qm_quirks := query |>.
Definition compatibility_request (query : CompatibilityQuery) : QueryRequest :=
  default_request <| qm_kind := QueryKind.Compatibility |> <| qm_compatibility := query |>.
Definition compare_request (request : ComparisonRequest) : QueryRequest :=
  default_request <| qm_kind := QueryKind.Compare |> <| qm_comparison := request |>.
Definition explain_request (query : CapabilityQuery) : QueryRequest :=
  default_request <| qm_kind := QueryKind.Explain |> <| qm_capability := query |>.
Definition bare_request (kind : QueryKind) : QueryRequest := default_request <| qm_kind := kind |>.

Definition client_query_capability (query : CapabilityQuery) : Client -> (Status + ResolvedCapability) * Client :=
  ask (capability_request query) qs_capability.
Definition client_query_capabilities (query : DeviceCapabilityQuery) :
    Client -> (Status + list ResolvedCapability) * Client :=
  ask (device_capabilities_request query) qs_capabilities.
Definition client_query_fleet (query : FleetCapabilityQuery) : Client -> (Status + list ResolvedCapability) * Client :=
  ask (fleet_request query) qs_capabilities.
Definition client_query_stale (query : StaleCapabilityQuery) : Client -> (Status + list ResolvedCapability) * Client :=
  ask (stale_request query) qs_capabilities.
Definition client_query_quirks (query : QuirkQuery) : Client -> (Status + list QuirkApplication) * Client :=
  ask (quirks_request query) qs_quirks.
Definition client_list_quirks : Client -> (Status + list QuirkRecord) * Client :=
  ask (bare_request QueryKind.QuirkRecords) qs_quirk_records.
Definition client_query_compatibility (query : CompatibilityQuery) :
    Client -> (Status + list CompatibilityFact) * Client :=
  ask (compatibility_request query) qs_compatibility.
Definition client_compare (request : ComparisonRequest) : Client -> (Status + DeviceComparison) * Client :=
  ask (compare_request request) qs_comparison.
Definition client_list_devices : Client -> (Status + list SubjectSnapshot) * Client :=
  ask (bare_request QueryKind.Devices) qs_subjects.
Definition client_list_publishers : Client -> (Status + list PublisherRecord) * Client :=
  ask (bare_request QueryKind.Publishers) qs_publishers.
Definition client_snapshot : Client -> (Status + RegistrySnapshot) * Client :=
  ask (bare_request QueryKind.Snapshot) qs_snapshot.
Definition client_explain (query : CapabilityQuery) : Client -> (Status + string) * Client :=
  ask (explain_request query) (fun response =>
    if is_empty (qs_text response) then rc_explanation (qs_capability response) else qs_text response).

(** *** Administration *)

Definition client_fence_publisher (publisher : PublisherId) (reason : string) (client : Client) : Status * Client :=
  let limits := cl_limits client in
  if negb (client_connected client) then (not_connected, client)
  else
    let '(encoded, payload) := encode_fence_publisher (mk_FencePublisherMessage publisher reason) limits in
    if negb (status_ok encoded) then (encoded, client)
    else
      let '(sent, _, link) := post limits MessageType.FencePublisher payload (cl_link client) in
      let client := client <| cl_link := link |> in
      if negb (status_ok sent) then (sent, client)
      else
        let '(received, link) := await limits link in
        let client := client <| cl_link := link |> in
        (match received with
         | inl status => status
         | inr response =>
             if fr_type response !=? MessageType.FenceAccepted
             then failure ProtocolError "coordinator did not confirm the fence"
             else match decode_fence_accepted (fr_payload response) limits with
                  | inl status => status
                  | inr message =>
                      if negb (apply_code_accepted (fa_code message))
                      then failure FencedPublisher (apply_code_to_string (fa_code message) +:+ ": " +:+ fa_detail message)%string
                      else success
                  end
         end, client).

(** Whatever arrives counts as the confirmation. *)
Definition client_shutdown (reason : string) (client : Client) : Status * Client :=
  let limits := cl_limits client in
  if negb (client_connected client) then (not_connected, client)
  else
    let '(encoded, payload) := encode_shutdown (mk_ShutdownMessage reason) limits in
    if negb (status_ok encoded) then (encoded, client)
    else
      let '(sent, _, link) := post limits MessageType.ShutdownRequest payload (cl_link client) in
      let client := client <| cl_link := link |> in
      if negb (status_ok sent) then (sent, client)
      else
        let '(received, link) := await limits link in
        (match received with inl status => status | inr _ => success end, client <| cl_link := link |>).

(* ===================================================================== *)
(** ** [CapabilityPublisher] *)

Record PublisherConfig := mk_PublisherConfig {
  pc_publisher : PublisherId;
  pc_adapter : string;
  pc_agent : string;
  pc_nonce : N;
  pc_limits : RegistryLimits
}.

Record Agent := mk_Agent {
  ag_config : PublisherConfig;
  ag_link : Link;
  ag_identity : PublisherIdentity;
  ag_epoch : CoordinatorEpoch;
  ag_sequence : N;
  ag_evidence_generation : EvidenceGeneration;
  ag_registered : bool
}.

#[global] Instance eta_Agent : Eta Agent := fun r =>
  mk_Agent (ag_config r) (ag_link r) (ag_identity r) (ag_epoch r) (ag_sequence r) (ag_evidence_generation r)
    (ag_registered r).

Definition new_agent (config : PublisherConfig) : Agent :=
  mk_Agent config new_link no_publisher Gen_none 0 Gen_first false.
Definition ag_limits (agent : Agent) : RegistryLimits := pc_limits (ag_config agent).

(** [Impl::receive]. *)
Definition receive (expected : MessageType) (limits : RegistryLimits) (link : Link) : (Status + Frame) * Link :=
  let '(received, link) := await limits link in
  (match received with
   | inl status => inl status
   | inr out =>
       if fr_type out ==? MessageType.ErrorResponse
       then match decode_error_message (fr_payload out) limits with
            | inl status => inl status
            | inr error => inl (failure (er_code error) (er_message error))
            end
       else if fr_type out !=? expected
       then inl (failure ProtocolError ("expected " +:+ message_type_to_string expected +:+ " but received " +:+
                                        message_type_to_string (fr_type out))%string)
       else inr out
   end, link).

(** One message and its answer: the statuses of sending and of receiving
    are returned apart, because their callers treat them differently. *)
Inductive Answered := NotEncoded (status : Status) | NotSent (status : Status) | NotReceived (status : Status) | Reply (payload : list byte).

Definition converse (limits : RegistryLimits) (type expected : MessageType) (encoded : Status * list byte) (link : Link) :
    Answered * Link :=
  let '(status, payload) := encoded in
  if negb (status_ok status) then (NotEncoded status, link)
  else
    let '(sent, _, link) := post limits type payload link in
    if negb (status_ok sent) then (NotSent sent, link)
    else
      let '(received, link) := receive expected limits link in
      (match received with inl status => NotReceived status | inr frame => Reply (fr_payload frame) end, link).

(** The first half of [connect_and_register]: HELLO and WELCOME. *)
Definition greet (agent : Agent) : Status * Agent :=
  let limits := ag_limits agent in
  let config := ag_config agent in
  let '(answered, link) := converse limits MessageType.Hello MessageType.Welcome
    (encode_hello (mk_HelloMessage protocol_version (pc_agent config) "publisher" (pc_nonce config)) limits) (ag_link agent) in
  let agent := agent <| ag_link := link |> in
  match answered with
  | NotEncoded status | NotSent status | NotReceived status => (status, agent)
  | Reply payload =>
      match decode_welcome payload limits with
      | inl status => (status, agent)
      | inr welcome =>
          if negb (we_protocol_version welcome =? protocol_version)
          then (failure UnsupportedVersion
                  ("coordinator protocol version " +:+ pretty (we_protocol_version welcome) +:+ " is not supported")%string,
                agent)
          else (success, agent <| ag_epoch := we_epoch welcome |>)
      end
  end.

(** The second half: REGISTER_PUBLISHER. *)
Definition enlist (agent : Agent) : Status * Agent :=
  let limits := ag_limits agent in
  let config := ag_config agent in
  let '(answered, link) := converse limits MessageType.RegisterPublisher MessageType.PublisherAccepted
    (encode_register_publisher
       (mk_RegisterPublisherMessage (no_publisher <| pi_id := pc_publisher config |>) (pc_adapter config) (pc_agent config))
       limits) (ag_link agent) in
  let agent := agent <| ag_link := link |> in
  match answered with
  | NotEncoded status | NotSent status | NotReceived status => (status, agent)
  | Reply payload =>
      match decode_publisher_accepted payload limits with
      | inl status => (status, agent)
      | inr message =>
          if negb (apply_code_accepted (pa_code message))
          then (failure UnknownPublisher
                  ("publisher registration rejected: " +:+ apply_code_to_string (pa_code message) +:+ ": " +:+
                   pa_detail message)%string, agent)
          else (success, agent <| ag_identity := pa_identity message |> <| ag_epoch := pa_epoch message |>
                               <| ag_registered := true |>)
      end
  end.

Definition connect_and_register (connected : Status + Connection) (agent : Agent) : Status * Agent :=
  if negb (id_valid (pc_publisher (ag_config agent)))
  then (failure InvalidIdentity "publisher requires a canonical publisher identity", agent)
  else match connected with
  | inl status => (status, agent)
  | inr connection =>
      let '(status, agent) := greet (agent <| ag_link ::= set_connection connection |>) in
      if negb (status_ok status) then (status, agent) else enlist agent
  end.

Definition ensure_publisher (connected : Status + Connection) (identity : PublisherIdentity) (agent : Agent) :
    ApplyResult * Agent :=
  let '(status, agent) := if negb (ag_registered agent) then connect_and_register connected agent else (success, agent) in
  if negb (status_ok status) then (rejected_result ApplyCode.RejectedUnknownPublisher (describe status), agent)
  else if id_valid (pi_id identity) && (pi_id identity !=? pi_id (ag_identity agent))
  then (rejected_result ApplyCode.RejectedUnknownPublisher
          ("publisher is already registered as " +:+ id_str (pi_id (ag_identity agent)))%string, agent)
  else (rejected_result ApplyCode.Accepted "publisher identity confirmed by the coordinator"
          <| ar_assigned_publisher := ag_identity agent |>, agent).

Definition next_sequence (agent : Agent) : N * Agent :=
  let sequence := u64_succ (ag_sequence agent) in (sequence, agent <| ag_sequence := sequence |>).

(** The publication as it is sent. *)
Definition bind_publication (time : string) (sequence : N) (publication : Publication) (agent : Agent) : Publication :=
  publication
    <| pb_publisher := ag_identity agent |>
    <| pb_sequence := sequence |>
    <| pb_evidence_generation ::= fun g => if negb (gen_valid g) then ag_evidence_generation agent else g |>
    <| pb_issued_at_utc ::= fun t => if is_empty t then time else t |>.

Definition publish (time : string) (publication : Publication) (agent : Agent) : ApplyResult * Agent :=
  if negb (ag_registered agent)
  then (rejected_result ApplyCode.RejectedUnknownPublisher "publisher is not registered with a coordinator", agent)
  else
    let limits := ag_limits agent in
    let '(sequence, agent) := next_sequence agent in
    let bound := bind_publication time sequence publication agent in
    let '(answered, link) := converse limits MessageType.Publication MessageType.PublicationAccepted
      (encode_publication bound limits) (ag_link agent) in
    let agent := agent <| ag_link := link |> in
    (match answered with
     | NotEncoded status => rejected_result ApplyCode.RejectedValidation (describe status)
     | NotSent status | NotReceived status => rejected_result ApplyCode.RejectedUnknownPublisher (describe status)
     | Reply payload =>
         match decode_publication_accepted payload limits with
         | inl status => rejected_result ApplyCode.RejectedValidation (describe status)
         | inr message =>
             rejected_result (ba_code message) (ba_detail message)
               <| ar_mutated := ba_code message ==? ApplyCode.Accepted |>
               <| ar_device_generation := if gen_valid (ba_device_generation message) then ba_device_generation message
                                          else cr_device_generation (pb_capability bound) |>
               <| ar_device_boot := if gen_valid (ba_device_boot message) then ba_device_boot message
                                    else cr_device_boot (pb_capability bound) |>
         end
     end, agent).

Definition heartbeat (agent : Agent) : ApplyResult * Agent :=
  if negb (ag_registered agent)
  then (rejected_result ApplyCode.RejectedUnknownPublisher "publisher is not registered with a coordinator", agent)
  else
    let limits := ag_limits agent in
    let '(sequence, agent) := next_sequence agent in
    let '(answered, link) := converse limits MessageType.Heartbeat MessageType.HeartbeatAccepted
      (encode_heartbeat (mk_HeartbeatMessage sequence (ag_identity agent)) limits) (ag_link agent) in
    let agent := agent <| ag_link := link |> in
    match answered with
    | NotEncoded status => (rejected_result ApplyCode.RejectedValidation (describe status), agent)
    | NotSent status | NotReceived status =>
        (rejected_result ApplyCode.RejectedUnknownPublisher (describe status), agent <| ag_registered := false |>)
    | Reply _ =>
        (rejected_result ApplyCode.Accepted "heartbeat acknowledged" <| ar_assigned_publisher := ag_identity agent |>, agent)
    end.

Definition agent_disconnect (agent : Agent) : Status * Agent := (success, agent <| ag_link ::= close_link |>).
Definition agent_connected (agent : Agent) : bool := cn_open (lk_connection (ag_link agent)) && ag_registered agent.

Definition next_evidence_generation (agent : Agent) : EvidenceGeneration * Agent :=
  let generation := if gen_valid (ag_evidence_generation agent) then gen_next (ag_evidence_generation agent) else Gen_first in
  (generation, agent <| ag_evidence_generation := generation |>).

(* ===================================================================== *)
(** ** The contract: what a registry tells

    [Answers] is what can be asked of a registry, wherever it is. A registry
    gives its own [local_answers]; whoever can have a request answered with a
    response gives [remote_answers], by the requests and the parts of the
    responses that the client uses. *)

Record Answers := mk_Answers {
  an_capability : CapabilityQuery -> Status + ResolvedCapability;
  an_capabilities : DeviceCapabilityQuery -> Status + list ResolvedCapability;
  an_fleet : FleetCapabilityQuery -> Status + list ResolvedCapability;
  an_stale : StaleCapabilityQuery -> Status + list ResolvedCapability;
  an_quirks : QuirkQuery -> Status + list QuirkApplication;
  an_quirk_records : Status + list QuirkRecord;
  an_compatibility : CompatibilityQuery -> Status + list CompatibilityFact;
  an_compare : ComparisonRequest -> Status + DeviceComparison;
  an_devices : Status + list SubjectSnapshot;
  an_publishers : Status + list PublisherRecord;
  an_snapshot : Status + RegistrySnapshot;
  an_explain : CapabilityQuery -> Status + string
}.

Definition map_answer {A B} (f : A -> B) (answer : Status + A) : Status + B :=
  match answer with inl status => inl status | inr a => inr (f a) end.

Definition local_answers (time : string) (st : Registry) : Answers := {|
  an_capability query := query_capability query st;
  an_capabilities query := query_capabilities query st;
  an_fleet query := query_fleet query st;
  an_stale query := query_stale query st;
  an_quirks query := query_quirks query st;
  an_quirk_records := inr (list_quirks st);
  an_compatibility query := inr (query_compatibility query st);
  an_compare request := compare_devices request st;
  an_devices := inr (list_devices st);
  an_publishers := inr (list_publishers None 0 st);
  an_snapshot := (snapshot time st).2;
  an_explain query := map_answer rc_explanation (query_capability query st)
|}.

Definition remote_answers (tell : QueryRequest -> Status + QueryResponse) : Answers := {|
  an_capability query := map_answer qs_capability (tell (capability_request query));
  an_capabilities query := map_answer qs_capabilities (tell (device_capabilities_request query));
  an_fleet query := map_answer qs_capabilities (tell (fleet_request query));
  an_stale query := map_answer qs_capabilities (tell (stale_request query));
  an_quirks query := map_answer qs_quirks (tell (quirks_request query));
  an_quirk_records := map_answer qs_quirk_records (tell (bare_request QueryKind.QuirkRecords));
  an_compatibility query := map_answer qs_compatibility (tell (compatibility_request query));
  an_compare request := map_answer qs_comparison (tell (compare_request request));
  an_devices := map_answer qs_subjects (tell (bare_request QueryKind.Devices));
  an_publishers := map_answer qs_publishers (tell (bare_request QueryKind.Publishers));
  an_snapshot := map_answer qs_snapshot (tell (bare_request QueryKind.Snapshot));
  an_explain query := map_answer (fun response =>
    if is_empty (qs_text response) then rc_explanation (qs_capability response) else qs_text response)
    (tell (explain_request query))
|}.

(** Equal answers to every question. *)
Record agree (a b : Answers) : Prop := {
  ag_capability : forall query, an_capability a query = an_capability b query;
  ag_capabilities : forall query, an_capabilities a query = an_capabilities b query;
  ag_fleet : forall query, an_fleet a query = an_fleet b query;
  ag_stale : forall query, an_stale a query = an_stale b query;
  ag_quirks : forall query, an_quirks a query = an_quirks b query;
  ag_quirk_records : an_quirk_records a = an_quirk_records b;
  ag_compatibility : forall query, an_compatibility a query = an_compatibility b query;
  ag_compare : forall request, an_compare a request = an_compare b request;
  ag_devices : an_devices a = an_devices b;
  ag_publishers : an_publishers a = an_publishers b;
  ag_snapshot : an_snapshot a = an_snapshot b;
  ag_explain : forall query, an_explain a query = an_explain b query
}.

(** What a client makes of a response. *)
Definition answer_of (response : QueryResponse) : Status + QueryResponse :=
  if qs_code response !=? Ok then inl (failure (qs_code response) (qs_message response)) else inr response.

(** What a client is told by a coordinator that serves this registry. *)
Definition told (time : string) (st : Registry) (request : QueryRequest) : Status + QueryResponse :=
  answer_of (query_response time request st).1.

(** Failures are failures, and reach the client as they are. *)
Definition sound_answer {A} (answer : Status + A) : Prop :=
  match answer with inl status => status_ok status = false | inr _ => True end.

Lemma query_capability_sound query st : sound_answer (query_capability query st).
Proof. unfold query_capability. by repeat case_match. Qed.
Lemma query_capabilities_sound query st : sound_answer (query_capabilities query st).
Proof. unfold query_capabilities. by repeat case_match. Qed.
Lemma query_fleet_sound query st : sound_answer (query_fleet query st).
Proof. unfold query_fleet. by case_match. Qed.
Lemma query_stale_sound query st : sound_answer (query_stale query st).
Proof. unfold query_stale. by repeat case_match. Qed.
Lemma query_quirks_sound query st : sound_answer (query_quirks query st).
Proof. unfold query_quirks. by repeat case_match. Qed.
Lemma compare_devices_sound request st : sound_answer (compare_devices request st).
Proof. unfold compare_devices. by repeat case_match. Qed.
Lemma snapshot_sound time st : sound_answer (snapshot time st).2.
Proof. unfold snapshot. by case_match. Qed.

Lemma failure_of status : failure (status_code status) (status_message status) = status.
Proof. by destruct status. Qed.

Lemma answer_of_failed status (response : QueryResponse) :
  status_ok status = false ->
  answer_of (response <| qs_code := status_code status |> <| qs_message := status_message status |>) = inl status.
Proof.
  intros Hs. unfold answer_of. destruct response.
  assert (Hne : (status_code status !=? Ok) = true) by (destruct status as [[] message]; done).
  cbn. by rewrite Hne, failure_of.
Qed.

(** What is told when a query of the registry is wrapped by
    [fill_response]. *)
Lemma told_filled {A B} time st st' request (answer : Status + A) fill (part : QueryResponse -> B) (f : A -> B) response :
  query_registry time request st = (fill_response answer fill response, st') -> sound_answer answer ->
  (forall a, qs_code (fill a) = Ok /\ part (fill a) = f a) ->
  map_answer part (told time st request) = map_answer f answer.
Proof.
  intros E Hs Hfill. unfold told, query_response. rewrite E. destruct answer as [status|a]; cbn [fill_response sound_answer] in *.
  - rewrite Hs. cbn [negb fst]. by rewrite answer_of_failed.
  - destruct (Hfill a) as [Hc Hp]. change (negb (status_ok success)) with false. cbv iota. cbn [fst]. unfold answer_of.
    rewrite Hc. change (Ok !=? Ok) with false. cbv iota. cbn [map_answer]. by rewrite Hp.
Qed.

Lemma map_answer_id {A} (answer : Status + A) : map_answer (fun a => a) answer = answer.
Proof. by destruct answer. Qed.

(** A query whose answer is one part of the response. *)
Ltac told_part sound :=
  etrans; [eapply (told_filled _ _ _ _ _ _ _ (fun a => a)); [reflexivity|apply sound|by intros a]|apply map_answer_id].

(** A client told by a coordinator gets the registry's own answers, to
    each of the twelve queries of its interface, failures included. *)
Theorem told_is_local time st : agree (remote_answers (told time st)) (local_answers time st).
Proof.
  split; try intros query; cbn [an_capability an_capabilities an_fleet an_stale an_quirks an_quirk_records
    an_compatibility an_compare an_devices an_publishers an_snapshot an_explain remote_answers local_answers].
  - told_part query_capability_sound.
  - told_part query_capabilities_sound.
  - told_part query_fleet_sound.
  - told_part query_stale_sound.
  - told_part query_quirks_sound.
  - reflexivity.
  - reflexivity.
  - told_part compare_devices_sound.
  - reflexivity.
  - reflexivity.
  - pose proof (snapshot_sound time st) as Hs. unfold told, query_response, query_registry.
    change (qm_kind (bare_request QueryKind.Snapshot)) with QueryKind.Snapshot. cbv iota.
    destruct (snapshot time st) as [st' [status|s]]; cbn [snd fill_response sound_answer] in *; [|reflexivity].
    rewrite Hs. cbn [negb fst]. by rewrite answer_of_failed.
  - pose proof (query_capability_sound query st) as Hs. unfold told, query_response, query_registry.
    change (qm_kind (explain_request query)) with QueryKind.Explain. cbv iota.
    change (qm_capability (explain_request query)) with query.
    destruct (query_capability query st) as [status|c]; cbn [fill_response sound_answer map_answer] in *.
    + rewrite Hs. cbn [negb fst]. by rewrite answer_of_failed.
    + change (negb (status_ok success)) with false. cbv iota. unfold answer_of. cbn [fst].
      change (qs_code _ !=? Ok) with false. cbn [map_answer]. 
      match goal with |- context [qs_text ?r] => change (qs_text r) with (rc_explanation c); change (qs_capability r) with c end.
      by destruct (is_empty (rc_explanation c)).
Qed.

(* ===================================================================== *)
(** ** Lemmas: one exchange *)

(** The connection is open, sending succeeds, and nothing is left in the
    decoder. *)
Definition idle (link : Link) : Prop :=
  cn_open (lk_connection link) = true /\ cn_results (lk_connection link) = [] /\ lk_buffer link = [].

(** What arrives next is this frame, in chunks, and then [rest]. *)
Definition arriving (frame : Frame) (rest arrivals : list Received) : Prop :=
  exists chunks, arrivals = map Data chunks ++ rest /\ concat chunks = frame_bytes frame /\
    Forall (fun chunk => chunk <> []) chunks.

Definition link_arrivals (link : Link) : list Received := cn_arrivals (lk_connection link).
Definition link_sent (link : Link) : list Frame := cn_sent (lk_connection link).

(** The link after a frame was sent, and after one was received. *)
Definition posted (frame : Frame) (link : Link) : Link :=
  link <| lk_correlation := fr_correlation frame |>
       <| lk_connection ::= fun c => c <| cn_sent ::= fun sent => sent ++ [frame] |> |>.
Definition received (rest : list Received) (link : Link) : Link :=
  link <| lk_buffer := [] |> <| lk_connection ::= fun c => c <| cn_arrivals := rest |> |>.

Lemma post_idle limits type payload link :
  idle link -> lengthN payload <= max_frame_bytes limits ->
  let frame := mk_Frame type 0 (u64_succ (lk_correlation link)) payload in
  post limits type payload link = (success, u64_succ (lk_correlation link), posted frame link).
Proof.
  intros (Ho & Hr & _) Hle. cbv zeta. unfold post, send_frame.
  rewrite encode_frame_accepts with (f := mk_Frame type 0 (u64_succ (lk_correlation link)) payload).
  - change (negb (status_ok success)) with false. cbv iota. rewrite Ho, Hr. reflexivity.
  - unfold frame_fits. cbn [fr_flags fr_payload fr_correlation]. rewrite (proj2 (N.leb_le _ _) Hle). cbn.
    apply N.ltb_lt, u64_succ_lt.
Qed.

Lemma await_arriving limits frame rest link :
  max_frame_bytes limits < 2 ^ 32 -> frame_fits limits frame = true -> cn_open (lk_connection link) = true ->
  lk_buffer link = [] -> arriving frame rest (link_arrivals link) ->
  await limits link = (inr frame, received rest link).
Proof.
  intros Hmax Hfit Ho Hb (chunks & Ha & Hc & Hne). unfold await, receive_on. rewrite Ho, Hb. unfold link_arrivals in Ha.
  rewrite Ha, (receive_frame_chunks limits Hmax frame) by done. reflexivity.
Qed.

(** An exchange that is answered with an encoded response. *)
Lemma exchange_replied request client response reply rest :
  let limits := cl_limits client in
  let sent := mk_Frame MessageType.QueryRequest 0 (u64_succ (lk_correlation (cl_link client)))
                (encode_query_request request limits).2 in
  max_frame_bytes limits < 2 ^ 32 -> idle (cl_link client) -> lengthN (fr_payload sent) <= max_frame_bytes limits ->
  frame_fits limits reply = true -> fr_type reply = MessageType.QueryResponse ->
  fr_correlation reply = fr_correlation sent -> decode_query_response (fr_payload reply) limits = inr response ->
  arriving reply rest (link_arrivals (cl_link client)) ->
  exchange request client = (answer_of response, client <| cl_link := received rest (posted sent (cl_link client)) |>).
Proof.
  cbv zeta. intros Hmax Hidle Hroom Hfit Htype Hcorr Hdecode Harrives. unfold exchange.
  assert (Hopen : client_connected client = true) by apply Hidle. rewrite Hopen. cbn [negb].
  set (limits := cl_limits client) in *.
  change (encode_query_request request limits) with (success, w_bytes (write_query_request request limits)) in *.
  cbn [snd fr_payload fr_correlation] in *. change (negb (status_ok success)) with false. cbv iota.
  rewrite post_idle by done. cbv zeta. change (negb (status_ok success)) with false. cbv iota.
  change (cl_link (client <| cl_link := ?l |>)) with l.
  set (sent := mk_Frame _ _ _ _).
  rewrite (await_arriving limits reply rest (posted sent (cl_link client))) by (done || apply Hidle).
  rewrite Hcorr, N.eqb_refl, Htype, Hdecode. reflexivity.
Qed.

(* ===================================================================== *)
(** ** Properties *)

(** The frame of a client's next query. *)
Definition query_frame (request : QueryRequest) (client : Client) : Frame :=
  mk_Frame MessageType.QueryRequest 0 (u64_succ (lk_correlation (cl_link client)))
    (encode_query_request request (cl_limits client)).2.

(** One query of a client that a coordinator interprets and whose reply reaches
    the client: what they agree on beforehand. *)
Record delivered (hash : string -> N) (clock : N -> string) (client : Client) (request : QueryRequest) (session : Session)
    (co : Coordinator) (rest : list Received) : Prop := {
  dl_limits : query_limits_fit (co_limits co) = true;
  dl_bound : max_frame_bytes (co_limits co) < 2 ^ 32;
  dl_same : cl_limits client = co_limits co;
  dl_idle : idle (cl_link client);
  dl_open : cn_open (se_connection session) = true;
  dl_results : cn_results (se_connection session) = [];
  dl_fits : request_fits (co_limits co) request = true;
  dl_whole : w_truncated (write_query_request request (co_limits co)) = false;
  dl_room : lengthN (fr_payload (query_frame request client)) <= max_frame_bytes (co_limits co);
  dl_response : response_fits (co_limits co)
    (query_response (now clock (received_frame co)) (request_content request) (co_registry co)).1 = true;
  dl_encoded : (encode_query_response
    (query_response (now clock (received_frame co)) (request_content request) (co_registry co)).1 (co_limits co)).1 = success;
  dl_reply : forall reply,
    se_sent (dispatch hash clock session (query_frame request client) co).1.2 = se_sent session ++ [reply] ->
    arriving reply rest (link_arrivals (cl_link client))
}.

Lemma delivered_is_told hash clock client request session co rest :
  delivered hash clock client request session co rest ->
  exchange request client =
    (told (now clock (received_frame co)) (co_registry co) (request_content request),
     client <| cl_link := received rest (posted (query_frame request client) (cl_link client)) |>) /\
  co_registry (dispatch hash clock session (query_frame request client) co).2 =
    (query_response (now clock (received_frame co)) (request_content request) (co_registry co)).2.
Proof.
  intros [Hlimits Hmax Hsame Hidle Hopen Hresults Hfits Hwhole Hroom Hresponse Hencode Harrives].
  pose proof (query_is_answered hash clock session (query_frame request client) request co Hlimits Hopen Hresults
    eq_refl Hfits Hwhole) as Hanswered.
  specialize (Hanswered ltac:(unfold query_frame; by rewrite Hsame)). cbv zeta in Hanswered.
  specialize (Hanswered Hresponse Hencode).
  destruct (dispatch hash clock session _ co) as [[status session'] co'].
  destruct Hanswered as (_ & Hreg & reply & Hsent & Htype & Hcorr & Hflags & Hbound & Hdecode).
  specialize (Harrives _ Hsent). split; [|exact Hreg].
  assert (Hreply : frame_fits (co_limits co) reply = true).
  { unfold frame_fits. rewrite Hflags, (proj2 (N.leb_le _ _) Hbound), Hcorr. cbn. apply N.ltb_lt, u64_succ_lt. }
  pose proof (exchange_replied request client
    (query_response (now clock (received_frame co)) (request_content request) (co_registry co)).1 reply rest) as Hexchange.
  cbv zeta in Hexchange. fold (query_frame request client) in Hexchange. rewrite Hsame in Hexchange.
  by rewrite Hexchange.
Qed.

(** C15: a remote query is a local one. When a coordinator interprets the frame
    of a client's query and its reply reaches the client, however the network
    cuts it into chunks, the client is told exactly what the registry answers
    at that time, or the status with which the registry refuses; the client
    has then sent one frame and is ready for the next query. *)
Theorem remote_query_is_local hash clock client request session co rest
    (Hlimits : query_limits_fit (co_limits co) = true) (Hmax : max_frame_bytes (co_limits co) < 2 ^ 32)
    (Hsame : cl_limits client = co_limits co) (Hidle : idle (cl_link client))
    (Hopen : cn_open (se_connection session) = true) (Hresults : cn_results (se_connection session) = [])
    (Hfits : request_fits (co_limits co) request = true)
    (Hwhole : w_truncated (write_query_request request (co_limits co)) = false)
    (Hroom : lengthN (fr_payload (query_frame request client)) <= max_frame_bytes (co_limits co)) :
  let time := now clock (received_frame co) in
  let answered := query_response time (request_content request) (co_registry co) in
  response_fits (co_limits co) answered.1 = true ->
  (encode_query_response answered.1 (co_limits co)).1 = success ->
  let '(_, session', co') := dispatch hash clock session (query_frame request client) co in
  (forall reply, se_sent session' = se_sent session ++ [reply] ->
     arriving reply rest (link_arrivals (cl_link client))) ->
  let '(result, client') := exchange request client in
  result = told time (co_registry co) (request_content request) /\ co_registry co' = answered.2 /\
  link_sent (cl_link client') = link_sent (cl_link client) ++ [query_frame request client] /\
  idle (cl_link client') /\ link_arrivals (cl_link client') = rest.
Proof.
  cbv zeta. intros Hresponse Hencode. pose proof (delivered_is_told hash clock client request session co rest) as Htold.
  destruct (dispatch hash clock session _ co) as [[status session'] co'] eqn:Edispatch. intros Harrives.
  destruct Htold as [-> Hreg]; [constructor; try done; by rewrite Edispatch|].
  by destruct Hidle as (? & ? & _).
Qed.

Lemma reply_fits limits type correlation payload :
  correlation < 2 ^ 64 -> lengthN payload <= max_frame_bytes limits ->
  frame_fits limits (mk_Frame type kFrameFlagAck correlation payload) = true.
Proof.
  intros Hc Hle. unfold frame_fits. cbn [fr_flags fr_payload fr_correlation]. rewrite (proj2 (N.leb_le _ _) Hle). cbn.
  by apply N.ltb_lt.
Qed.

(** A conversation that is answered as expected. *)
Lemma converse_replied limits type expected payload link reply rest :
  max_frame_bytes limits < 2 ^ 32 -> idle link -> lengthN payload <= max_frame_bytes limits ->
  frame_fits limits reply = true -> fr_type reply = expected -> expected <> MessageType.ErrorResponse ->
  arriving reply rest (link_arrivals link) ->
  let sent := mk_Frame type 0 (u64_succ (lk_correlation link)) payload in
  converse limits type expected (success, payload) link = (Reply (fr_payload reply), received rest (posted sent link)).
Proof.
  cbv zeta. intros Hmax Hidle Hle Hfit <- Hne Harrives. unfold converse. change (negb (status_ok success)) with false. cbv iota.
  rewrite post_idle by done. cbv zeta. change (negb (status_ok success)) with false. cbv iota. unfold receive.
  set (sent := mk_Frame _ _ _ _).
  rewrite (await_arriving limits reply rest (posted sent link)) by (done || apply Hidle).
  rewrite (proj2 (eqb_false _ _) Hne), eqb_refl. reflexivity.
Qed.

(** The frame of an agent's next publication. *)
Definition next_bound (time : string) (p : Publication) (agent : Agent) : Publication :=
  bind_publication time (u64_succ (ag_sequence agent)) p agent.

(** The acceptance that tells of an applied publication. *)
Definition acceptance (applied : ApplyResult) : PublicationAcceptedMessage :=
  mk_PublicationAcceptedMessage (ar_code applied) (ar_detail applied) (ar_device_generation applied)
    (ar_device_boot applied).

(** C16: a remote publication is a local one. When a registered publisher
    publishes and the coordinator interprets the frame and its reply reaches
    the publisher, the registry has applied exactly the publication with the
    publisher's identity and its next sequence number, and the publisher
    learns the registry's verdict and detail and the device generation and
    boot that the registry assigned. *)
Theorem remote_publish_is_apply hash clock time p agent session co payload rest
    (Hlimits : query_limits_fit (co_limits co) = true) (Hmax : max_frame_bytes (co_limits co) < 2 ^ 32)
    (Hsame : ag_limits agent = co_limits co) (Hregistered : ag_registered agent = true)
    (Hidle : idle (ag_link agent))
    (Hopen : cn_open (se_connection session) = true) (Hresults : cn_results (se_connection session) = [])
    (Hfits : publication_fits (co_limits co) (next_bound time p agent) = true)
    (Hencode : encode_publication (next_bound time p agent) (co_limits co) = (success, payload)) :
  let frame := mk_Frame MessageType.Publication 0 (u64_succ (lk_correlation (ag_link agent))) payload in
  let '(st, applied) := apply_locked hash (now clock (received_frame co)) (next_bound time p agent) (co_registry co) in
  control_fits (CPublicationAccepted (acceptance applied)) = true ->
  w_truncated (write_publication_accepted (acceptance applied) (co_limits co)) = false ->
  lengthN (encode_publication_accepted (acceptance applied) (co_limits co)).2 <= max_frame_bytes (co_limits co) ->
  let '(_, session', co') := dispatch hash clock session frame co in
  (forall reply, se_sent session' = se_sent session ++ [reply] ->
     arriving reply rest (link_arrivals (ag_link agent))) ->
  let '(result, agent') := publish time p agent in
  co_registry co' = st /\ ar_code result = ar_code applied /\ ar_detail result = ar_detail applied /\
  (gen_valid (ar_device_generation applied) = true -> ar_device_generation result = ar_device_generation applied) /\
  (gen_valid (ar_device_boot applied) = true -> ar_device_boot result = ar_device_boot applied) /\
  ag_sequence agent' = u64_succ (ag_sequence agent) /\ idle (ag_link agent') /\
  pb_publisher (next_bound time p agent) = ag_identity agent /\
  pb_sequence (next_bound time p agent) = u64_succ (ag_sequence agent).
Proof.
  cbv zeta. set (frame := mk_Frame _ _ _ _).
  destruct (apply_locked hash _ (next_bound time p agent) (co_registry co)) as [st applied] eqn:Eapply.
  intros Hafits Hawhole Haroom. unfold dispatch. change (fr_type frame) with MessageType.Publication. cbv iota.
  fold (received_frame co). unfold on_publication. change (co_limits (received_frame co)) with (co_limits co).
  change (fr_payload frame) with payload. rewrite (publication_decodes (co_limits co) (next_bound time p agent) payload)
    by (done || by apply base_limits).
  change (co_registry (received_frame co)) with (co_registry co). rewrite Eapply. cbv zeta.
  match goal with |- context [answer session frame _ _ ?c] => set (co1 := c) end.
  fold (acceptance applied). change (co_limits co1) with (co_limits co).
  change (encode_publication_accepted (acceptance applied) (co_limits co)) with
    (success, w_bytes (write_publication_accepted (acceptance applied) (co_limits co))) in *. cbn [snd] in Haroom.
  pose proof (answer_sent session frame MessageType.PublicationAccepted
    (w_bytes (write_publication_accepted (acceptance applied) (co_limits co))) co1 Hopen Hresults Haroom) as Hanswer.
  destruct (answer session frame _ _ co1) as [[status session'] co']. destruct Hanswer as (_ & -> & Hsent).
  intros Harrives. specialize (Harrives _ Hsent). unfold publish. rewrite Hregistered. cbn [negb next_sequence].
  change (bind_publication time _ p _) with (next_bound time p agent). rewrite Hsame, Hencode.
  change (ag_link (agent <| ag_sequence := _ |>)) with (ag_link agent).
  pose proof (control_decodes (co_limits co) Hlimits (CPublicationAccepted (acceptance applied)) Hafits Hawhole) as Hdecode.
  cbn [control_decoded write_control] in Hdecode.
  match type of Harrives with arriving ?r _ _ => set (reply := r) in * end.
  rewrite (converse_replied (co_limits co) MessageType.Publication MessageType.PublicationAccepted payload (ag_link agent)
    reply rest); try done.
  - cbv zeta. change (fr_payload reply) with (w_bytes (write_publication_accepted (acceptance applied) (co_limits co))).
    rewrite Hdecode. destruct Hidle as (Ho & Hr & Hb). split_and!; try done.
    + intros Hv. cbn. by rewrite Hv.
    + intros Hv. cbn. by rewrite Hv.
  - unfold encode_publication in Hencode. destruct (w_truncated _); [done|].
    destruct (_ <? _) eqn:E; [done|]. apply pair_equal_spec in Hencode as [_ <-]. by apply N.ltb_ge.
  - apply reply_fits; [apply u64_succ_lt|done].
Qed.

(* ===================================================================== *)
(** ** Witnesses *)

(** A client of the sample coordinator asks about the GPU; the reply reaches
    it in two pieces. *)
Definition asking_link (arrivals : list Received) : Link := mk_Link (mk_Connection true [] [] arrivals) [] 41.
Definition asking_client (arrivals : list Received) : Client :=
  mk_Client (mk_ClientConfig "hcr-client" default_limits) (asking_link arrivals) Gen_first.

Definition in_two (frame : Frame) : list Received :=
  [Data (take 20 (frame_bytes frame)); Data (drop 20 (frame_bytes frame))].

Definition reply_to (frame : Frame) : Frame :=
  match se_sent (dispatch strlen sample_clock agent_session frame sample_coordinator).1.2 with [r] => r | _ => frame end.

Lemma arriving_in_two frame : arriving frame [] (in_two frame).
Proof.
  assert (Hlen : (28 <= length (frame_bytes frame))%nat) by (rewrite frame_bytes_length; lia).
  exists [take 20 (frame_bytes frame); drop 20 (frame_bytes frame)]. split_and!; [done|cbn [concat]; by rewrite app_nil_r, take_drop|].
  repeat constructor; intros E; apply (f_equal length) in E; rewrite ?length_take, ?length_drop in E; cbn in E; lia.
Qed.

(** What the sample coordinator sent reaches the asker. *)
Lemma reply_arrives frame reply :
  se_sent (dispatch strlen sample_clock agent_session frame sample_coordinator).1.2 = [reply_to frame] ->
  se_sent (dispatch strlen sample_clock agent_session frame sample_coordinator).1.2 = [] ++ [reply] ->
  arriving reply [] (in_two (reply_to frame)).
Proof. intros E1 E2. rewrite E1 in E2. apply (inj (fun x => [] ++ [x])) in E2. subst reply. apply arriving_in_two. Qed.

Definition sample_asker : Client := asking_client (in_two (reply_to (query_frame sample_question (asking_client [])))).

Lemma sample_asked :
  se_sent (dispatch strlen sample_clock agent_session (query_frame sample_question sample_asker) sample_coordinator).1.2 =
  [reply_to (query_frame sample_question sample_asker)].
Proof. vm_compute. reflexivity. Qed.

Lemma remote_query_is_local_witness :
  exists client', exchange sample_question sample_asker = (told "t" sample_fleet sample_question, client').
Proof.
  pose proof (remote_query_is_local strlen sample_clock sample_asker sample_question agent_session sample_coordinator []) as H.
  specialize (H ltac:(vm_compute; reflexivity) ltac:(vm_compute; reflexivity) eq_refl (conj eq_refl (conj eq_refl eq_refl))
    eq_refl eq_refl ltac:(vm_compute; reflexivity) ltac:(vm_compute; reflexivity) ltac:(vm_compute; discriminate)).
  cbv zeta in H. specialize (H ltac:(vm_compute; reflexivity) ltac:(vm_compute; reflexivity)).
  pose proof (fun reply => reply_arrives (query_frame sample_question sample_asker) reply sample_asked) as Harrives.
  revert H Harrives.
  generalize (dispatch strlen sample_clock agent_session (query_frame sample_question sample_asker) sample_coordinator).
  intros [[status session'] co'] H Harrives. specialize (H Harrives). revert H.
  generalize (exchange sample_question sample_asker). intros [result client'] [H _]. exists client'. rewrite H. reflexivity.
Defined.

(** The agent of the sample fleet publishes a claim. *)
Definition publishing_agent (arrivals : list Received) : Agent :=
  mk_Agent (mk_PublisherConfig agent "nvml" "hcr-publisher" 0 default_limits) (asking_link arrivals) agent_boot Gen_first
    0 Gen_first true.

Definition sample_claim : Publication := claim 0 "cap.compute.fp8" false.

Definition claim_payload : list byte :=
  (encode_publication (next_bound "t" sample_claim (publishing_agent [])) default_limits).2.
Definition claim_frame : Frame := mk_Frame MessageType.Publication 0 (u64_succ 41) claim_payload.

Definition sample_agent : Agent := publishing_agent (in_two (reply_to claim_frame)).

Lemma sample_published :
  se_sent (dispatch strlen sample_clock agent_session claim_frame sample_coordinator).1.2 = [reply_to claim_frame].
Proof. vm_compute. reflexivity. Qed.

Lemma remote_publish_is_apply_witness :
  let applied := (apply_locked strlen "t" (next_bound "t" sample_claim sample_agent) sample_fleet).2 in
  ar_code applied = ApplyCode.Accepted /\ ar_code (publish "t" sample_claim sample_agent).1 = ar_code applied.
Proof.
  cbv zeta. split; [vm_compute; reflexivity|].
  pose proof (remote_publish_is_apply strlen sample_clock "t" sample_claim sample_agent agent_session sample_coordinator
    claim_payload [] ltac:(vm_compute; reflexivity) ltac:(vm_compute; reflexivity) eq_refl eq_refl
    (conj eq_refl (conj eq_refl eq_refl)) eq_refl eq_refl ltac:(vm_compute; reflexivity) ltac:(vm_compute; reflexivity)) as H.
  cbv zeta in H. change (now sample_clock (received_frame sample_coordinator)) with "t"%string in H.
  change (co_registry sample_coordinator) with sample_fleet in H.
  assert (Happly : forall applied, (apply_locked strlen "t" (next_bound "t" sample_claim sample_agent) sample_fleet).2 = applied ->
    control_fits (CPublicationAccepted (acceptance applied)) = true /\
    w_truncated (write_publication_accepted (acceptance applied) default_limits) = false /\
    lengthN (encode_publication_accepted (acceptance applied) default_limits).2 <= max_frame_bytes default_limits).
  { intros applied <-. split_and!; [vm_compute; reflexivity..|vm_compute; discriminate]. }
  pose proof (fun reply => reply_arrives claim_frame reply sample_published) as Harrives.
  revert H Happly Harrives.
  generalize (apply_locked strlen "t" (next_bound "t" sample_claim sample_agent) sample_fleet).
  change (mk_Frame MessageType.Publication 0 (u64_succ (lk_correlation (ag_link sample_agent))) claim_payload)
    with claim_frame.
  generalize (dispatch strlen sample_clock agent_session claim_frame sample_coordinator).
  intros [[status session'] co'] [st applied] H Happly Harrives. destruct (Happly applied eq_refl) as (H1 & H2 & H3).
  specialize (H H1 H2 H3 Harrives). revert H. generalize (publish "t" sample_claim sample_agent).
  intros [result agent'] (_ & H & _). exact H.
Defined.

(* ===================================================================== *)
(** ** Findings *)

(** Any frame confirms a shutdown: the client reports success when the
    coordinator answers with an error. *)
Theorem shutdown_confirmed_by_error :
  let refusal := mk_Frame MessageType.ErrorResponse 0 42
    (encode_error_message (mk_ErrorMessage ProtocolError "no") default_limits).2 in
  (client_shutdown "bye" (asking_client (in_two refusal))).1 = success.
Proof. vm_compute. reflexivity. Qed.

(** A new connection is read through what the old one left in the decoder: a
    client that lost its connection in the middle of a frame cannot connect
    again, although the coordinator welcomes it. *)
Theorem decoder_survives_connection :
  let welcome := mk_Frame MessageType.Welcome kFrameFlagAck 1
    (encode_welcome (mk_WelcomeMessage protocol_version Gen_first "node-0") default_limits).2 in
  let client := new_client (mk_ClientConfig "hcr-client" default_limits) in
  let cut_off := (client_connect (inr (mk_Connection true [] [] [Data (take 20 (frame_bytes welcome)); Closed])) client).2 in
  (client_connect (inr (mk_Connection true [] [] [Data (frame_bytes welcome)])) client).1 = success /\
  (client_connect (inr (mk_Connection true [] [] [Data (frame_bytes welcome)])) cut_off).1 <> success.
Proof. split; [vm_compute; reflexivity|vm_compute; discriminate]. Qed.
