(* ===== verification/AdapterCommon.v ===== *)
(** * Helpers of the discovery adapters

    Models [adapter_common.hpp]/[adapter_common.cpp]: canonical tokens from
    vendor texts, renderings of identifiers, values and conditions. *)

From S2P Require Import Prelude Tokens Versions Support Conditions Values Hardware.

(* ===================================================================== *)
(** ** Canonical tokens of adapters *)

(** The loop of [canonical_token]; [out] is what was written, last character
    first. Both branches for a character that is not alphanumeric do the same. *)
Fixpoint canonical_loop (text out : list ascii) (previous_separator : bool) : list ascii :=
  match text with
  | [] => out
  | raw :: rest =>
      if kMaxTokenLength <=? lengthN out then out
      else
        let c := lower_char raw in
        if is_token_alnum c then canonical_loop rest (c :: out) false
        else if negb previous_separator then canonical_loop rest ("."%char :: out) true
        else canonical_loop rest out previous_separator
  end.

Fixpoint drop_dots (l : list ascii) : list ascii :=
  match l with
  | c :: rest => if Ascii.eqb c "." then drop_dots rest else l
  | [] => []
  end.

Definition canonical_token (text : string) : string :=
  let out := reverse (drop_dots (canonical_loop (list_ascii_of_string text) [] true)) in
  match drop_dots out with
  | [] => "unnamed"
  | token => string_of_list_ascii token
  end.

Definition token_from_hash (prefix text : string) : string :=
  (prefix +:+ "." +:+ hex64 (fnv1a64_mix_text kFnvOffsetBasis text))%string.

Definition hex_byte (b : N) : list ascii := [hex_digit (N.land (N.shiftr b 4) 15); hex_digit (N.land b 15)].

Definition hex_bytes (data : list N) : string := string_of_list_ascii (concat (map hex_byte data)).

(** [bytes] holds at least sixteen bytes. *)
Definition format_gpu_uuid (bytes : list N) : string :=
  let hex := hex_bytes (take 16 bytes) in
  ("GPU-" +:+ substring 0 8 hex +:+ "-" +:+ substring 8 4 hex +:+ "-" +:+ substring 12 4 hex +:+ "-" +:+
   substring 16 4 hex +:+ "-" +:+ substring 20 12 hex)%string.

Definition bits_per_second (magnitude : N) : CapabilityValue :=
  if (1000000000 <=? magnitude) && (magnitude mod 1000000000 =? 0)
  then VBandwidth (magnitude / 1000000000) BandwidthUnit.GigabitsPerSecond
  else if (1000000 <=? magnitude) && (magnitude mod 1000000 =? 0)
  then VBandwidth (magnitude / 1000000) BandwidthUnit.MegabitsPerSecond
  else if (1000 <=? magnitude) && (magnitude mod 1000 =? 0)
  then VBandwidth (magnitude / 1000) BandwidthUnit.KilobitsPerSecond
  else VBandwidth magnitude BandwidthUnit.BitsPerSecond.

Definition condition (kind : ConditionKind) (key value : string) : ConditionPtr := Some (Condition kind key value []).

Definition all_of (children : list ConditionPtr) : ConditionPtr :=
  match List.filter (fun child => match child with Some _ => true | None => false end) children with
  | [child] => child
  | kept => Some (Condition ConditionKind.AllOf EmptyString EmptyString kept)
  end.

(* ===================================================================== *)
(** ** Properties of the tokens *)

(** What the loop has written, last character first: alphanumeric characters
    with single dots between them. *)
Fixpoint spaced (l : list ascii) : bool :=
  match l with
  | [] => true
  | c :: rest =>
      spaced rest &&
      (is_token_alnum c || (Ascii.eqb c "." && match rest with [] => false | d :: _ => is_token_alnum d end))
  end.

(** [previous_separator] is what [out] ends in. *)
Definition separated (out : list ascii) : bool := match out with [] => true | c :: _ => negb (is_token_alnum c) end.

Lemma canonical_loop_spaced text : forall out,
  spaced out = true -> lengthN out <= kMaxTokenLength ->
  spaced (canonical_loop text out (separated out)) = true /\
  lengthN (canonical_loop text out (separated out)) <= kMaxTokenLength.
Proof.
  induction text as [|raw rest IH]; intros out Hs Hl; cbn [canonical_loop]; [done|].
  destruct (kMaxTokenLength <=? lengthN out) eqn:Hfull; [done|]. apply N.leb_gt in Hfull.
  destruct (is_token_alnum (lower_char raw)) eqn:Ha.
  - specialize (IH (lower_char raw :: out)). cbn [separated] in IH. rewrite Ha in IH. cbn in IH.
    apply IH; [by rewrite Hs, Ha|rewrite lengthN_cons; lia].
  - destruct (negb (separated out)) eqn:Hsep; [|by apply IH].
    specialize (IH ("."%char :: out)). cbn [separated] in IH. apply IH; [|rewrite lengthN_cons; lia].
    cbn. rewrite Hs. destruct out; cbn in *; [done|]. by rewrite negb_involutive in Hsep.
Qed.

Lemma spaced_cons c rest : spaced (c :: rest) = true ->
  spaced rest = true /\ (is_token_alnum c = true \/ c = "."%char /\ separated rest = false).
Proof.
  cbn. intros [Hs [Hc|[Hc%Ascii.eqb_eq Hr]%andb_true_iff]%orb_true_iff]%andb_true_iff; [by auto|].
  split; [done|right; split; [done|]]. destruct rest; [done|]. cbn. by rewrite Hr.
Qed.

Lemma alnum_not_dot c : is_token_alnum c = true -> Ascii.eqb c "." = false.
Proof. intros H. apply Ascii.eqb_neq. by intros ->. Qed.

Lemma strlen_of_list l : strlen (string_of_list_ascii l) = lengthN l.
Proof. unfold strlen, lengthN. f_equal. induction l; cbn; congruence. Qed.

Lemma drop_dots_alnum c l : is_token_alnum c = true -> drop_dots (c :: l) = c :: l.
Proof. intros H. cbn. by rewrite alnum_not_dot. Qed.

Lemma drop_dots_spaced out : spaced out = true ->
  spaced (drop_dots out) = true /\ lengthN (drop_dots out) <= lengthN out /\
  match drop_dots out with [] => out = [] | c :: _ => is_token_alnum c = true end.
Proof.
  destruct out as [|c rest]; [done|]. intros Hsp. destruct (spaced_cons c rest Hsp) as [Hs [Hc|[-> Hr]]].
  - by rewrite drop_dots_alnum.
  - destruct rest as [|d rest]; [done|]. cbn in Hr. apply negb_false_iff in Hr.
    change (drop_dots (("."%char : ascii) :: d :: rest)) with (drop_dots (d :: rest)).
    rewrite drop_dots_alnum by done. split_and!; [done|rewrite !lengthN_cons; lia|done].
Qed.

Lemma spaced_chars l : spaced l = true -> forallb is_token_char l = true.
Proof.
  induction l as [|c l IH]; [done|]. intros [Hs Hc]%spaced_cons. cbn. rewrite IH by done. rewrite andb_true_r.
  destruct Hc as [Hc|[-> _]]; [|done]. unfold is_token_char. by rewrite Hc.
Qed.

Lemma spaced_first l c : spaced (l ++ [c]) = true -> is_token_alnum c = true.
Proof.
  induction l as [|x l IH]; cbn [app]; intros [Hs Hc]%spaced_cons; [|by apply IH]. by destruct Hc as [?|[_ ?]].
Qed.

(** The characters of a canonical token, last first, before they are made a
    string; [None] stands for the name of what has none. *)
Definition token_chars (text : string) : list ascii := drop_dots (canonical_loop (list_ascii_of_string text) [] true).

Lemma token_chars_spec text :
  spaced (token_chars text) = true /\ lengthN (token_chars text) <= kMaxTokenLength /\
  separated (token_chars text) = bool_decide (token_chars text = []).
Proof.
  destruct (canonical_loop_spaced (list_ascii_of_string text) []) as [Hs Hl]; [done|by vm_compute|].
  change (separated []) with true in *. apply drop_dots_spaced in Hs as (Hs & Hd & Hh). fold (token_chars text) in *.
  split_and!; [done|lia|].
  destruct (token_chars text); [done|]. cbn. by rewrite Hh.
Qed.

Lemma canonical_token_chars text :
  canonical_token text = if bool_decide (token_chars text = []) then "unnamed"%string
                         else string_of_list_ascii (reverse (token_chars text)).
Proof.
  unfold canonical_token. fold (token_chars text). destruct (token_chars_spec text) as (Hs & _ & _).
  destruct (token_chars text) as [|c l _] using rev_ind; [done|]. rewrite reverse_snoc.
  rewrite bool_decide_eq_false_2 by (by destruct l). by rewrite drop_dots_alnum by (by eapply spaced_first).
Qed.

Lemma canonical_loop_again l : forall out,
  spaced (reverse l ++ out) = true -> lengthN (reverse l ++ out) <= kMaxTokenLength ->
  canonical_loop l out (separated out) = reverse l ++ out.
Proof.
  induction l as [|c l IH]; intros out Hs Hl; [done|]. rewrite reverse_cons, <- (assoc_L (++)) in *. cbn [app] in Hs, Hl |- *.
  cbn [canonical_loop]. rewrite lengthN_app, lengthN_cons in Hl.
  rewrite (proj2 (N.leb_gt _ _)) by lia.
  assert (Hc : spaced (c :: out) = true).
  { clear -Hs. revert Hs. generalize (reverse l). intros l'. induction l' as [|x l' IH]; [done|].
    cbn [app]. intros H. apply spaced_cons in H as [H _]. by apply IH. }
  destruct (spaced_cons c out Hc) as [Ho [Ha|[-> Hsep]]].
  - assert (Hlow : lower_char c = c).
    { unfold lower_char, is_token_alnum, in_range in *. clear -Ha. destruct c as [[] [] [] [] [] [] [] []]; vm_compute in *; done. }
    rewrite Hlow, Ha. rewrite <- (IH (c :: out)) by (rewrite ?lengthN_app, ?lengthN_cons; done || lia). cbn. by rewrite Ha.
  - change (is_token_alnum (lower_char ".")) with false. cbv iota. rewrite Hsep. cbn [negb].
    rewrite <- (IH ("."%char :: out)) by (rewrite ?lengthN_app, ?lengthN_cons; done || lia). done.
Qed.

Lemma canonical_loop_lower text : forall out previous,
  canonical_loop (list_ascii_of_string (ascii_lower text)) out previous =
  canonical_loop (list_ascii_of_string text) out previous.
Proof.
  induction text as [|c text IH]; intros out previous; [done|]. cbn.
  assert (Hc : lower_char (lower_char c) = lower_char c).
  { destruct c as [[] [] [] [] [] [] [] []]; vm_compute; done. }
  rewrite Hc. repeat case_match; auto.
Qed.

(** Whatever text a vendor supplies, its canonical token is one that an
    identity accepts, it is its own canonical token, and it does not depend on
    the case of the text. *)
Theorem canonical_token_is_canonical text :
  is_canonical_token (canonical_token text) = true /\
  canonical_token (canonical_token text) = canonical_token text /\
  canonical_token (ascii_lower text) = canonical_token text.
Proof.
  split_and!; [| |unfold canonical_token; by rewrite canonical_loop_lower];
    destruct (token_chars_spec text) as (Hs & Hl & Hsep); rewrite (canonical_token_chars text);
    (case_bool_decide as He; [by vm_compute|]).
  - destruct (token_chars text) as [|c l] using rev_ind; [done|]. rewrite reverse_snoc. clear IHl.
    assert (Hlen : strlen (string_of_list_ascii (c :: reverse l)) = lengthN (l ++ [c])).
    { rewrite strlen_of_list. unfold lengthN. cbn. rewrite length_reverse, length_app. cbn. f_equal. lia. }
    unfold is_canonical_token. cbn [string_of_list_ascii]. change (String c ?s) with (string_of_list_ascii (c :: reverse l)).
    rewrite Hlen, (proj2 (N.ltb_ge _ _) Hl), (spaced_first l c Hs). cbn [negb].
    rewrite list_ascii_of_string_of_list_ascii. apply spaced_chars in Hs.
    rewrite forallb_app in Hs. cbn in Hs |- *. apply andb_true_iff in Hs as [Hr Hc]. rewrite andb_true_r in Hc.
    rewrite Hc. cbn. clear -Hr. rewrite forallb_forall in *. intros x Hx. apply Hr.
    by apply list_elem_of_In, elem_of_reverse, list_elem_of_In.
  - rewrite canonical_token_chars.
    assert (Hagain : token_chars (string_of_list_ascii (reverse (token_chars text))) = token_chars text).
    { unfold token_chars at 1. rewrite list_ascii_of_string_of_list_ascii.
      change true with (separated []) at 1. rewrite (canonical_loop_again (reverse (token_chars text)) []); rewrite app_nil_r, reverse_involutive; [|done..].
      destruct (token_chars text) as [|c l]; [done|]. apply drop_dots_alnum. cbn in Hsep. by apply negb_false_iff. }
    rewrite Hagain. by case_bool_decide.
Qed.
