(* ===== verification/Discovery.v ===== *)
(** * Discovery

    Models [discovery.hpp]/[discovery.cpp] with programs of commands and
    answers (file Programs): an adapter commands the publication builder, the
    builder commands an evidence sink, and a sink is anything that answers
    (the class [EvidenceSink]): the local sink over a registry, or the agent
    that publishes to a coordinator. *)

From S2P Require Import Prelude Tokens Versions Support Conditions Values Hardware Quirks Compat Publication.
From S2P Require Import RegistryState Fixtures Resolution Publishers Devices Knowledge Evidence Ingest Runs Catalog System.
From S2P Require Import Wire Checksum Codec Frames Queries Render Snapshots Durable Image QueryCodec Messages Coordinator Client.
From S2P Require Import Programs AdapterCommon.

(* ===================================================================== *)
(** ** Device identities *)

Definition canonical_device_id (kind token : string) : DeviceId :=
  Id_parse (kind +:+ "." +:+ hex64 (fnv1a64_mix_text (fnv1a64_mix_text kFnvOffsetBasis kind) token))%string.

Definition host_device_id (platform : PlatformIdentity) : DeviceId :=
  canonical_device_id "dev.host"
    (id_str (pl_id platform) +:+ "|" +:+ pl_vendor platform +:+ "|" +:+ pl_model platform)%string.

(* ===================================================================== *)
(** ** Evidence sinks *)

Inductive SinkCommand :=
  | EnsurePublisher (identity : PublisherIdentity) (adapter : string)
  | NextSequence (publisher : PublisherId)
  | Publish (publication : Publication).

Definition sink_answer (c : SinkCommand) : Type :=
  match c with NextSequence _ => N | _ => ApplyResult end.

Abbreviation Sinking := (Program sink_answer).

(** The pure virtual functions of [EvidenceSink]. *)
Class EvidenceSink (S : Type) := {
  sink_ensure : PublisherIdentity -> string -> S -> ApplyResult * S;
  sink_next : PublisherId -> S -> N * S;
  sink_publish : Publication -> S -> ApplyResult * S
}.

Definition answer_sink {S} `{EvidenceSink S} (c : SinkCommand) (s : S) : sink_answer c * S :=
  match c with
  | EnsurePublisher identity adapter => sink_ensure identity adapter s
  | NextSequence publisher => sink_next publisher s
  | Publish publication => sink_publish publication s
  end.

(** What clients rely on: [issued] is the last sequence a publisher was
    given. It moves by single steps, and issuing one is such a step. *)
Class SequencedSink (S : Type) `{EvidenceSink S} := {
  issued : PublisherId -> S -> N;
  ensure_issues p identity adapter s : issued p (sink_ensure identity adapter s).2 = issued p s;
  next_issues p s : sink_next p s = (u64_succ (issued p s), (sink_next p s).2) /\
    issued p (sink_next p s).2 = u64_succ (issued p s);
  next_issues_other p q s : issued q (sink_next p s).2 = issued q s \/
    issued q (sink_next p s).2 = u64_succ (issued q s);
  publish_issues p publication s : issued p (sink_publish publication s).2 = issued p s \/
    issued p (sink_publish publication s).2 = u64_succ (issued p s)
}.

(** *** The local sink *)

Module LocalEvidenceSink.
Section Local.
(** The clock as read at each call, and [std::hash]. *)
Variables (hash : string -> N) (clock : N -> string).

Record Sink := mk_Sink {
  registry : Registry;
  assigned : gmap PublisherId PublisherIdentity;
  sequences : gmap PublisherId N;
  ticks : N
}.

#[global] Instance eta_Sink : Eta Sink := fun r => mk_Sink (registry r) (assigned r) (sequences r) (ticks r).

Definition new_sink (st : Registry) : Sink := mk_Sink st ∅ ∅ 0.

(** [registry_.register_publisher]. *)
Definition register (identity : PublisherIdentity) (adapter : string) (s : Sink) : ApplyResult * Sink :=
  let '(st, result) := register_publisher (clock (ticks s)) identity adapter (registry s) in
  (result, s <| registry := st |> <| ticks ::= N.succ |>).

Definition ensure_publisher (identity : PublisherIdentity) (adapter : string) (s : Sink) : ApplyResult * Sink :=
  match assigned s !! pi_id identity with
  | Some existing =>
      let '(reaffirmed, s) := register existing adapter s in
      (if accepted reaffirmed || (ar_code reaffirmed ==? ApplyCode.AcceptedIdempotent)
       then rejected_result ApplyCode.Accepted "publisher identity reused by this process"
              <| ar_assigned_publisher := existing |>
       else reaffirmed, s)
  | None =>
      let '(registered, s) := register identity adapter s in
      (registered,
       if accepted registered then s <| assigned ::= insert (pi_id identity) (ar_assigned_publisher registered) |> else s)
  end.

Definition next_sequence (publisher : PublisherId) (s : Sink) : N * Sink :=
  let sequence := u64_succ (default 0 (sequences s !! publisher)) in
  (sequence, s <| sequences ::= insert publisher sequence |>).

Definition publisher_count (s : Sink) : N := sizeN (assigned s).

Definition publish (publication : Publication) (s : Sink) : ApplyResult * Sink :=
  let '(st, result) := apply_locked hash (clock (ticks s)) publication (registry s) in
  (result, s <| registry := st |> <| ticks ::= N.succ |>).

End Local.

#[global] Arguments mk_Sink : clear implicits.
End LocalEvidenceSink.

Abbreviation LocalSink := LocalEvidenceSink.Sink.

#[global] Instance local_sink (hash : string -> N) (clock : N -> string) : EvidenceSink LocalSink := {|
  sink_ensure := LocalEvidenceSink.ensure_publisher clock;
  sink_next := LocalEvidenceSink.next_sequence;
  sink_publish := LocalEvidenceSink.publish hash clock
|}.

(** *** The agent as a sink *)

#[global] Instance agent_sink (connected : Status + Connection) (time : string) : EvidenceSink Agent := {|
  sink_ensure identity adapter agent := ensure_publisher connected identity agent;
  sink_next publisher agent := next_sequence agent;
  sink_publish publication agent := publish time publication agent
|}.

(* ===================================================================== *)
(** ** The publication builder *)

Record DiscoveryContext := mk_DiscoveryContext {
  dx_publisher : PublisherIdentity;
  dx_platform : PlatformIdentity;
  dx_evidence_generation : EvidenceGeneration;
  dx_observed_at_utc : string;
  dx_environment : EnvironmentContext;
  dx_software : DeviceSoftwareState;
  dx_source_class : SourceClass;
  dx_provenance : ProvenanceClass;
  dx_adapter : string
}.

#[global] Instance eta_DiscoveryContext : Eta DiscoveryContext := fun r =>
  mk_DiscoveryContext (dx_publisher r) (dx_platform r) (dx_evidence_generation r) (dx_observed_at_utc r)
    (dx_environment r) (dx_software r) (dx_source_class r) (dx_provenance r) (dx_adapter r).

Record DiscoveryReport := mk_DiscoveryReport {
  dp_adapter : string;
  dp_available : bool;
  dp_accepted : N;
  dp_idempotent : N;
  dp_rejected : N;
  dp_notes : list string
}.

#[global] Instance eta_DiscoveryReport : Eta DiscoveryReport := fun r =>
  mk_DiscoveryReport (dp_adapter r) (dp_available r) (dp_accepted r) (dp_idempotent r) (dp_rejected r) (dp_notes r).

Definition default_report : DiscoveryReport := mk_DiscoveryReport EmptyString false 0 0 0 [].

Definition add_note (text : string) (report : DiscoveryReport) : DiscoveryReport :=
  report <| dp_notes ::= fun notes => notes ++ [text] |>.

Record SubjectContext := mk_SubjectContext {
  sc_device : DeviceId;
  sc_generation : DeviceGeneration;
  sc_boot : DeviceBootId
}.

(** *** Default member initialisers *)

Definition default_software : DeviceSoftwareState :=
  mk_DeviceSoftwareState (mk_FirmwareIdentity Id_none EmptyString EmptyString) Gen_none
    (mk_DriverIdentity Id_none EmptyString) Gen_none (mk_RuntimeIdentity Id_none EmptyString) Gen_none.

Definition default_hardware : HardwareIdentity :=
  mk_HardwareIdentity Id_none Id_none Id_none Id_none Id_none Id_none HardwareClass.Unknown [].

Definition default_identity : DeviceIdentity :=
  mk_DeviceIdentity Id_none Id_none default_hardware Id_none None None EmptyString.

Definition default_platform : PlatformIdentity :=
  mk_PlatformIdentity Id_none EmptyString EmptyString EmptyString Id_none [].

Definition default_registration : DeviceRegistration :=
  mk_DeviceRegistration default_identity default_software default_platform false 0 EmptyString.

Definition default_record : CapabilityRecord :=
  mk_CapabilityRecord Id_none Gen_none Gen_none Id_none Id_none Gen_none SupportState.Unknown VNone
    PrecisionClass.Unknown default_source None Gen_none Gen_none Gen_none Gen_none Id_none Id_none Id_none false.

Definition default_quirk : QuirkRecord :=
  mk_QuirkRecord Id_none Gen_none EmptyString EmptyString QuirkCategory.Other QuirkSeverity.Informational
    MitigationKind.None (mk_QuirkApplicability [] [] [] [] [] [] [] [] [] [] None) [] default_source false.

Definition default_reference : HardwareReference := mk_HardwareReference ReferenceKind.Device EmptyString no_version.

Definition default_fact : CompatibilityFact :=
  mk_CompatibilityFact Id_none Gen_none CompatibilitySubjectKind.Other default_reference default_reference
    CompatibilityOutcome.Unknown None any_version EmptyString default_source false.

Definition default_schema : CapabilitySchema :=
  mk_CapabilitySchema Id_none Id_none CapabilityDomain.Other ValueKind.None EmptyString EmptyString.

Definition default_publication : Publication :=
  mk_Publication PublicationKind.RegisterDevice no_publisher 0 Gen_none default_registration default_record
    default_quirk default_fact default_schema EmptyString EmptyString.

(** *** Building and submitting *)

Record Builder := mk_Builder { bu_context : DiscoveryContext; bu_report : DiscoveryReport }.

#[global] Instance eta_Builder : Eta Builder := fun r => mk_Builder (bu_context r) (bu_report r).

Definition new_builder (now : string) (context : DiscoveryContext) : Builder :=
  let context := context
    <| dx_evidence_generation ::= fun g => if negb (gen_valid g) then Gen_first else g |>
    <| dx_observed_at_utc ::= fun t => if is_empty t then now else t |> in
  mk_Builder context (default_report <| dp_adapter := dx_adapter context |>).

(** [note]: the result is returned as it came. *)
Definition note (result : ApplyResult) (what : string) (builder : Builder) : Builder :=
  builder <| bu_report ::= fun report =>
    match ar_code result with
    | ApplyCode.Accepted => report <| dp_accepted ::= u64_succ |>
    | ApplyCode.AcceptedIdempotent => report <| dp_idempotent ::= u64_succ |>
    | code => add_note (what +:+ ": " +:+ apply_code_to_string code +:+ ": " +:+ ar_detail result)%string
                (report <| dp_rejected ::= u64_succ |>)
    end |>.

Definition take_sequence (builder : Builder) : Sinking N :=
  ask (NextSequence (pi_id (dx_publisher (bu_context builder)))).

(** What every publication is stamped with. *)
Definition stamp (context : DiscoveryContext) (sequence : N) (publication : Publication) : Publication :=
  publication
    <| pb_publisher := dx_publisher context |>
    <| pb_sequence := sequence |>
    <| pb_evidence_generation := dx_evidence_generation context |>
    <| pb_issued_at_utc := dx_observed_at_utc context |>.

(** A source that does not classify itself has the class of the context. *)
Definition classify (context : DiscoveryContext) (source : EvidenceSource) : EvidenceSource :=
  if source_class source ==? SourceClass.Unspecified
  then source <| source_class := dx_source_class context |> <| provenance := dx_provenance context |>
  else source.

Definition classify_publication (context : DiscoveryContext) (publication : Publication) : Publication :=
  publication
    <| pb_capability ::= fun c => c <| cr_source ::= classify context |> |>
    <| pb_quirk ::= fun q => q <| qr_source ::= classify context |> |>
    <| pb_compatibility ::= fun f => f <| cf_source ::= classify context |> |>.

Definition submission_name (publication : Publication) : string :=
  let kind := publication_kind_to_string (pb_kind publication) in
  if id_valid (cr_capability (pb_capability publication))
  then (kind +:+ " " +:+ id_str (cr_capability (pb_capability publication)))%string
  else if id_valid (qr_id (pb_quirk publication))
  then (kind +:+ " " +:+ id_str (qr_id (pb_quirk publication)))%string
  else if id_valid (cf_id (pb_compatibility publication))
  then (kind +:+ " " +:+ id_str (cf_id (pb_compatibility publication)))%string
  else kind.

(** The status of a result, as [submit] and the registrations return it. *)
Definition status_of_result (result : ApplyResult) : Status :=
  if accepted result then success
  else failure InvalidArgument (apply_code_to_string (ar_code result) +:+ ": " +:+ ar_detail result)%string.

(** A stamped publication under the next sequence, and its outcome noted. *)
Definition send (what : string) (publication : Publication) (builder : Builder) : Sinking (ApplyResult * Builder) :=
  sequence ← take_sequence builder;
  result ← ask (Publish (stamp (bu_context builder) sequence publication));
  mret (result, note result what builder).

Definition submit (publication : Publication) (builder : Builder) : Sinking (Status * Builder) :=
  let publication := classify_publication (bu_context builder) publication in
  sent ← send (submission_name publication) publication builder;
  mret (status_of_result sent.1, sent.2).

(** [register_subject] and [announce_device_generation]. *)
Definition send_registration (kind : PublicationKind) (what : string) (registration sent : DeviceRegistration)
    (builder : Builder) : Sinking ((Status + SubjectContext) * Builder) :=
  sent ← send what (default_publication <| pb_kind := kind |> <| pb_device := sent |>) builder;
  mret (if accepted sent.1
        then inr (mk_SubjectContext (di_id (dr_identity registration)) (ar_device_generation sent.1)
                    (ar_device_boot sent.1))
        else inl (status_of_result sent.1), sent.2).

Definition register_subject (registration : DeviceRegistration) : Builder -> Sinking ((Status + SubjectContext) * Builder) :=
  send_registration PublicationKind.RegisterDevice "register-device" registration registration.

Definition announce_device_generation (registration : DeviceRegistration) :
    Builder -> Sinking ((Status + SubjectContext) * Builder) :=
  send_registration PublicationKind.PublishDeviceGeneration "publish-device-generation" registration
    (registration <| dr_device_boot_observed := true |>).

(** [context_.adapter.empty() ? report_.adapter : context_.adapter]. *)
Definition builder_adapter (builder : Builder) : string :=
  if is_empty (dx_adapter (bu_context builder)) then dp_adapter (bu_report builder) else dx_adapter (bu_context builder).

(** The arguments of [publish_capability], with their defaults. *)
Record Observation := mk_Observation {
  ob_capability : CapabilityId;
  ob_support : SupportState;
  ob_value : CapabilityValue;
  ob_precision : PrecisionClass;
  ob_reference : string;
  ob_conditions : ConditionPtr;
  ob_source_class : SourceClass;
  ob_provenance : ProvenanceClass
}.

Definition observed (capability : CapabilityId) (support : SupportState) (value : CapabilityValue)
    (precision : PrecisionClass) (reference : string) : Observation :=
  mk_Observation capability support value precision reference None SourceClass.Unspecified ProvenanceClass.UnknownSource.

Definition capability_publication (subject : SubjectContext) (o : Observation) (builder : Builder) : Publication :=
  let context := bu_context builder in
  default_publication
    <| pb_kind := PublicationKind.PublishCapability |>
    <| pb_capability := default_record
         <| cr_device := sc_device subject |>
         <| cr_device_generation := sc_generation subject |>
         <| cr_device_boot := sc_boot subject |>
         <| cr_capability := ob_capability o |>
         <| cr_support := ob_support o |>
         <| cr_value := ob_value o |>
         <| cr_precision := ob_precision o |>
         <| cr_conditions := ob_conditions o |>
         <| cr_source := default_source
              <| source_class := ob_source_class o |>
              <| provenance := ob_provenance o |>
              <| adapter := builder_adapter builder |>
              <| native_reference := ob_reference o |>
              <| observed_at_utc := dx_observed_at_utc context |>
              <| evidence_generation := dx_evidence_generation context |> |> |>.

Definition publish_capability (subject : SubjectContext) (o : Observation) (builder : Builder) : Sinking (Status * Builder) :=
  submit (capability_publication subject o builder) builder.

(** The source of curated knowledge, attributed to the adapter that sends it. *)
Definition attribute (builder : Builder) (source : EvidenceSource) : EvidenceSource :=
  source
    <| adapter := builder_adapter builder |>
    <| evidence_generation := dx_evidence_generation (bu_context builder) |>
    <| observed_at_utc ::= fun t => if is_empty t then dx_observed_at_utc (bu_context builder) else t |>.

Definition publish_quirk (quirk : QuirkRecord) (builder : Builder) : Sinking (Status * Builder) :=
  submit (default_publication
            <| pb_kind := if qr_withdrawn quirk then PublicationKind.WithdrawQuirk else PublicationKind.PublishQuirk |>
            <| pb_quirk := quirk <| qr_source ::= attribute builder |> |>) builder.

Definition publish_compatibility (fact : CompatibilityFact) (builder : Builder) : Sinking (Status * Builder) :=
  submit (default_publication
            <| pb_kind := if cf_withdrawn fact then PublicationKind.WithdrawCompatibility
                          else PublicationKind.PublishCompatibility |>
            <| pb_compatibility := fact <| cf_source ::= attribute builder |> |>) builder.

Definition register_schema (schema : CapabilitySchema) (builder : Builder) : Sinking (Status * Builder) :=
  submit (default_publication <| pb_kind := PublicationKind.RegisterCapabilitySchema |> <| pb_schema := schema |>) builder.

Definition builder_heartbeat (builder : Builder) : Sinking (Status * Builder) :=
  submit (default_publication <| pb_kind := PublicationKind.Heartbeat |>) builder.

Definition bump_evidence_generation (builder : Builder) : Builder :=
  builder <| bu_context ::= fun context => context <| dx_evidence_generation ::= fun g =>
    if gen_valid g then gen_next g else Gen_first |> |>.

(* ===================================================================== *)
(** ** Adapters

    An adapter works through its builder only: its commands are the builder's
    methods. *)

Inductive BuilderCommand :=
  | RegisterSubject (registration : DeviceRegistration)
  | AnnounceDeviceGeneration (registration : DeviceRegistration)
  | PublishCapability (subject : SubjectContext) (o : Observation)
  | PublishQuirk (quirk : QuirkRecord)
  | PublishCompatibility (fact : CompatibilityFact)
  | RegisterSchema (schema : CapabilitySchema)
  | BuilderHeartbeat
  | BumpEvidenceGeneration
  | ReadReport.

Definition builder_answer (c : BuilderCommand) : Type :=
  match c with
  | RegisterSubject _ | AnnounceDeviceGeneration _ => Status + SubjectContext
  | BumpEvidenceGeneration => unit
  | ReadReport => DiscoveryReport
  | _ => Status
  end.

Abbreviation Adapting := (Program builder_answer).

Definition answer_builder (c : BuilderCommand) : Builder -> Sinking (builder_answer c * Builder) :=
  match c with
  | RegisterSubject registration => register_subject registration
  | AnnounceDeviceGeneration registration => announce_device_generation registration
  | PublishCapability subject o => publish_capability subject o
  | PublishQuirk quirk => publish_quirk quirk
  | PublishCompatibility fact => publish_compatibility fact
  | RegisterSchema schema => register_schema schema
  | BuilderHeartbeat => builder_heartbeat
  | BumpEvidenceGeneration => fun builder => mret (tt, bump_evidence_generation builder)
  | ReadReport => fun builder => mret (bu_report builder, builder)
  end.

(** [IDiscoveryBackend]. [discover] replaces the report it is given; every
    adapter constructs one builder over its sink and context. *)
Record IDiscoveryBackend := mk_IDiscoveryBackend {
  bk_adapter_name : string;
  bk_source_class : SourceClass;
  bk_provenance : ProvenanceClass;
  (** What [available] returns, and the reason it leaves. *)
  bk_available : bool * string;
  bk_discover : DiscoveryContext -> Adapting (Status * DiscoveryReport)
}.

Definition discover (now : string) (backend : IDiscoveryBackend) (context : DiscoveryContext) :
    Sinking (Status * DiscoveryReport) :=
  done ← translate answer_builder (bk_discover backend context) (new_builder now context);
  mret done.1.

(** [run_discovery]. *)
Definition effective_context (backend : IDiscoveryBackend) (context : DiscoveryContext) (registered : ApplyResult) :
    DiscoveryContext :=
  context
    <| dx_publisher := ar_assigned_publisher registered |>
    <| dx_source_class := bk_source_class backend |>
    <| dx_provenance := bk_provenance backend |>
    <| dx_adapter := bk_adapter_name backend |>.

Definition run_discovery (now : string) (backend : IDiscoveryBackend) (context : DiscoveryContext) :
    Sinking (Status * DiscoveryReport) :=
  let report := default_report <| dp_adapter := bk_adapter_name backend |> in
  if negb (bk_available backend).1
  then mret (success,
             add_note (if is_empty (bk_available backend).2 then "adapter reports itself unavailable"
                       else (bk_available backend).2) (report <| dp_available := false |>))
  else
    let report := report <| dp_available := true |> in
    registered ← ask (EnsurePublisher (dx_publisher context) (bk_adapter_name backend));
    if negb (accepted registered)
    then mret (failure InvalidProvenance
                 ("discovery adapter " +:+ bk_adapter_name backend +:+ " could not register: " +:+ ar_detail registered)%string,
               add_note ("publisher registration failed: " +:+ apply_code_to_string (ar_code registered) +:+ ": " +:+
                         ar_detail registered)%string report)
    else
      discovered ← discover now backend (effective_context backend context registered);
      mret (discovered.1, discovered.2 <| dp_adapter := bk_adapter_name backend |> <| dp_available := true |>).

(* ===================================================================== *)
(** ** Sinks that number their publications *)

#[global] Instance local_sequenced hash clock : @SequencedSink LocalSink (local_sink hash clock).
Proof.
  refine {| issued p s := default 0 (LocalEvidenceSink.sequences s !! p) |}; cbn; intros.
  - unfold LocalEvidenceSink.ensure_publisher, LocalEvidenceSink.register.
    destruct (LocalEvidenceSink.assigned s !! pi_id identity), (register_publisher _ _ _ _) as [st result]; cbn; [done|].
    by destruct (accepted result).
  - by rewrite lookup_insert_eq.
  - destruct (decide (p = q)) as [->|Hne]; [right|left]; by rewrite ?lookup_insert_eq, ?lookup_insert_ne.
  - left. unfold LocalEvidenceSink.publish. by destruct (apply_locked _ _ _ _).
Defined.

Lemma connect_keeps_sequence connected agent : ag_sequence (connect_and_register connected agent).2 = ag_sequence agent.
Proof.
  unfold connect_and_register. destruct (negb _); [done|]. destruct connected as [|connection]; [done|].
  unfold greet, enlist. repeat case_match; simplify_eq; done.
Qed.

#[global] Instance agent_sequenced connected time : @SequencedSink Agent (agent_sink connected time).
Proof.
  refine {| issued _ agent := ag_sequence agent |}; cbn; intros.
  - unfold ensure_publisher. destruct (negb (ag_registered s)).
    + pose proof (connect_keeps_sequence connected s) as Hk. destruct (connect_and_register connected s) as [status agent'].
      cbn in Hk. by repeat case_match.
    + by repeat case_match.
  - done.
  - by right.
  - unfold publish. destruct (negb (ag_registered s)); [by left|right]. cbn. by repeat case_match.
Defined.

(** *** What a command of an adapter does to the sink *)

Definition sink_event : Type := {c & sink_answer c}.

Definition published_by (event : sink_event) : option Publication :=
  match projT1 event with Publish publication => Some publication | _ => None end.

Definition published : list sink_event -> list Publication := omap published_by.

Definition is_registration (kind : PublicationKind) : bool :=
  (kind ==? PublicationKind.RegisterDevice) || (kind ==? PublicationKind.PublishDeviceGeneration).

(** A publication made under a context. *)
Record made_under (context : DiscoveryContext) (publication : Publication) : Prop := {
  mu_publisher : pb_publisher publication = dx_publisher context;
  mu_issued_at : pb_issued_at_utc publication = dx_observed_at_utc context;
  mu_classified : dx_source_class context <> SourceClass.Unspecified ->
    is_registration (pb_kind publication) = true \/
    (source_class (cr_source (pb_capability publication)) <> SourceClass.Unspecified /\
     source_class (qr_source (pb_quirk publication)) <> SourceClass.Unspecified /\
     source_class (cf_source (pb_compatibility publication)) <> SourceClass.Unspecified)
}.

(** The contexts of a builder over time differ in the evidence generation. *)
Definition same_context (c1 c2 : DiscoveryContext) : Prop :=
  exists generation, c2 = c1 <| dx_evidence_generation := generation |>.

Definition outcomes (report : DiscoveryReport) : N := dp_accepted report + dp_idempotent report + dp_rejected report.

Section Builders.
Context {S : Type} `{SequencedSink S}.

Lemma send_spec what publication b s :
  let p := pi_id (dx_publisher (bu_context b)) in
  let sequence := u64_succ (issued p s) in
  let sent := stamp (bu_context b) sequence publication in
  let s1 := (sink_next p s).2 in
  let '(result, s2) := sink_publish sent s1 in
  perform answer_sink (send what publication b) s = ((result, note result what b), s2) /\
  trace answer_sink (send what publication b) s =
    [existT (NextSequence p) sequence; existT (Publish sent) result] /\
  (issued p s2 = sequence \/ issued p s2 = u64_succ sequence).
Proof.
  intros p sequence sent s1. destruct (next_issues p s) as [Hn Hi].
  pose proof (publish_issues p sent s1) as Hp. destruct (sink_publish sent s1) as [result s2] eqn:Es.
  unfold send, take_sequence, ask. cbn. fold p. rewrite Hn. cbn. fold s1 sequence sent. rewrite Es. cbn.
  split_and!; [done|done|]. cbn in Hp. unfold s1 in Hp. by rewrite Hi in Hp.
Qed.

Lemma same_context_refl c : same_context c c.
Proof. exists (dx_evidence_generation c). by destruct c. Qed.

Lemma same_context_trans c1 c2 c3 : same_context c1 c2 -> same_context c2 c3 -> same_context c1 c3.
Proof. intros [g1 ->] [g2 ->]. by exists g2. Qed.

Lemma made_under_same c1 c2 publication : same_context c1 c2 -> made_under c2 publication -> made_under c1 publication.
Proof. intros [g ->] [H1 H2 H3]. by constructor. Qed.

(** A command publishes nothing, or one publication under the next sequence,
    whose outcome it notes. *)
Definition command_effect (b : Builder) (s : S) (tr : list sink_event) (b' : Builder) (s' : S) : Prop :=
  let p := pi_id (dx_publisher (bu_context b)) in
  (tr = [] /\ same_context (bu_context b) (bu_context b') /\ bu_report b' = bu_report b /\ s' = s) \/
  exists sent result what,
    tr = [existT (NextSequence p) (u64_succ (issued p s)); existT (Publish sent) result] /\
    pb_sequence sent = u64_succ (issued p s) /\ made_under (bu_context b) sent /\
    b' = note result what b /\
    (issued p s' = u64_succ (issued p s) \/ issued p s' = u64_succ (u64_succ (issued p s))).

Lemma send_effect what publication b s :
  (forall sequence, made_under (bu_context b) (stamp (bu_context b) sequence publication)) ->
  let sent := perform answer_sink (send what publication b) s in
  command_effect b s (trace answer_sink (send what publication b) s) sent.1.2 sent.2.
Proof.
  intros Hmade. pose proof (send_spec what publication b s) as Hsend. cbv zeta in Hsend.
  destruct (sink_publish _ _) as [result s2]. destruct Hsend as (-> & -> & Hi). right. repeat eexists; eauto.
  all: apply Hmade.
Qed.

Lemma command_effect_send {A} (f : ApplyResult * Builder -> A) what publication b s :
  (forall sequence, made_under (bu_context b) (stamp (bu_context b) sequence publication)) ->
  let m := send what publication b ≫= fun sent => mret (f sent, sent.2) in
  command_effect b s (trace answer_sink m s) (perform answer_sink m s).1.2 (perform answer_sink m s).2.
Proof.
  intros Hmade m. unfold m. rewrite perform_bind, trace_bind. cbn. rewrite app_nil_r. by apply send_effect.
Qed.

Lemma classify_specified context source : dx_source_class context <> SourceClass.Unspecified ->
  source_class (classify context source) <> SourceClass.Unspecified.
Proof. unfold classify. destruct (source_class source ==? _) eqn:E; [done|]. by bsimpl. Qed.

Lemma submit_made context sequence publication :
  made_under context (stamp context sequence (classify_publication context publication)).
Proof. constructor; [done..|]. intros Hc. right. cbn. by split_and!; apply classify_specified. Qed.

Lemma answer_builder_effect c b s :
  let m := answer_builder c b in
  command_effect b s (trace answer_sink m s) (perform answer_sink m s).1.2 (perform answer_sink m s).2.
Proof.
  destruct c; cbn [answer_builder];
    unfold register_subject, announce_device_generation, send_registration, publish_capability, publish_quirk,
      publish_compatibility, register_schema, builder_heartbeat, submit; cbv zeta;
    try (apply command_effect_send; intros sequence;
         (apply submit_made || (constructor; [done..|by left]))).
  - left. split_and!; [done| |done|done]. by eexists.
  - left. split_and!; [done|apply same_context_refl|done|done].
Qed.

(** *** What an adapter does to the sink *)

Lemma note_context result what b : bu_context (note result what b) = bu_context b.
Proof. done. Qed.

(** Every rejection has its note. *)
Definition surfaced (report : DiscoveryReport) : Prop := lengthN (dp_notes report) = dp_rejected report.

Lemma note_outcomes result what b : outcomes (bu_report b) + 1 < u64_modulus -> surfaced (bu_report b) ->
  outcomes (bu_report (note result what b)) = outcomes (bu_report b) + 1 /\ surfaced (bu_report (note result what b)).
Proof.
  unfold outcomes, surfaced, note, add_note. intros Hb Hs.
  destruct (ar_code result); cbn; rewrite ?lengthN_app, ?lengthN_cons, ?u64_succ_small by lia;
    change (lengthN []) with 0; split; lia.
Qed.

Lemma published_pair p n sent result tr :
  published (existT (NextSequence p) n :: existT (Publish sent) result :: tr) = sent :: published tr.
Proof. done. Qed.

Lemma adapter_effect {A} (m : Adapting A) : forall b s,
  let p := pi_id (dx_publisher (bu_context b)) in
  let run := translate answer_builder m b in
  let publications := published (trace answer_sink run s) in
  let report := bu_report (perform answer_sink run s).1.2 in
  issued p s + 2 * lengthN publications < u64_modulus ->
  outcomes (bu_report b) + lengthN publications < u64_modulus -> surfaced (bu_report b) ->
  Forall (made_under (bu_context b)) publications /\
  Sorted.StronglySorted N.lt (issued p s :: map pb_sequence publications) /\
  outcomes report = outcomes (bu_report b) + lengthN publications /\ surfaced report.
Proof.
  induction m as [a|c k IH]; intros b s p run publications report.
  { intros _ _ Hs. subst publications report. cbn. split_and!; [by apply List.Forall_nil| |by rewrite N.add_0_r|done].
    apply Sorted.SSorted_cons; [apply Sorted.SSorted_nil|apply List.Forall_nil]. }
  subst publications report run. cbn [translate]. rewrite trace_bind, perform_bind.
  pose proof (answer_builder_effect c b s) as Heff. cbv zeta in Heff.
  destruct (perform answer_sink (answer_builder c b) s) as [[answer b'] s']. cbn [fst snd] in *.
  specialize (IH answer b' s'). cbv zeta in IH.
  set (rest := translate answer_builder (k answer) b') in *.
  destruct Heff as [(Htr & Hctx & Hrep & ->)|(sent & result & what & Htr & Hseq & Hmade & -> & Hi)];
    rewrite Htr; cbn [app].
  - assert (Hp : pi_id (dx_publisher (bu_context b')) = p) by (by destruct Hctx as [g ->]).
    rewrite Hp, Hrep in IH. intros H1 H2 H3. destruct (IH H1 H2 H3) as (Hf & Hss & Ho). split; [|done].
    eapply Forall_impl; [exact Hf|]. intros x. by apply made_under_same.
  - rewrite published_pair. fold p. rewrite note_context in IH. fold p in IH. rewrite lengthN_cons. intros H1 H2 H3.
    fold p in Hi, Hseq. rewrite (u64_succ_small (issued p s)) in Hi, Hseq by lia.
    rewrite (u64_succ_small (issued p s + 1)) in Hi by lia.
    destruct (note_outcomes result what b) as [Ho Hn]; [lia|done|].
    destruct IH as (Hf & Hss & Ho' & Hn'); [lia|lia|done|]. cbn [map]. rewrite Hseq. split_and!; [by constructor| |lia|done].
    inversion Hss as [|x l Hl Hall]; subst. constructor; [|constructor; [lia|]].
    + constructor; [done|]. eapply Forall_impl; [exact Hall|]. cbn. lia.
    + eapply Forall_impl; [exact Hall|]. cbn. lia.
Qed.
End Builders.

(* ===================================================================== *)
(** ** Publishers under a local sink *)

(** What publishing and re-affirming keep of a publisher: its identity, its
    boot and what is revoked. *)
Definition keeps_boot (s s' : PublisherStateInternal) : Prop :=
  ps_publisher_fenced s' = ps_publisher_fenced s /\ ps_fenced_boots s' = ps_fenced_boots s /\
  pi_id (pr_identity (ps_record s')) = pi_id (pr_identity (ps_record s)) /\
  pi_boot (pr_identity (ps_record s')) = pi_boot (pr_identity (ps_record s)).

#[global] Instance keeps_boot_preorder : PreOrder keeps_boot.
Proof. split; [by intros s|]. intros s1 s2 s3 (?&?&?&?) (?&?&?&?). unfold keeps_boot. intuition congruence. Qed.

Definition first_boot (id : PublisherId) (s : PublisherStateInternal) : Prop :=
  pi_id (pr_identity (ps_record s)) = id /\ pi_boot (pr_identity (ps_record s)) = mk_Gen 1.

(** One publisher between two registries: kept, or registered for the first time. *)
Definition settled_at (st st' : Registry) (id : PublisherId) : Prop :=
  match r_publishers st !! id with
  | Some s => exists s', r_publishers st' !! id = Some s' /\ keeps_boot s s'
  | None => forall s', r_publishers st' !! id = Some s' -> first_boot id s'
  end.

Definition settled (st st' : Registry) : Prop := forall id, settled_at st st' id.

Lemma settled_same st st' id : r_publishers st' !! id = r_publishers st !! id -> settled_at st st' id.
Proof.
  unfold settled_at. intros ->. destruct (r_publishers st !! id) as [s|]; [|done]. by exists s.
Qed.

Lemma settled_at_trans st1 st2 st3 id : settled_at st1 st2 id -> settled_at st2 st3 id -> settled_at st1 st3 id.
Proof.
  unfold settled_at. destruct (r_publishers st1 !! id) as [s|] eqn:E1.
  - intros (s2 & -> & H2) (s3 & H3 & H). exists s3. split; [done|by etransitivity].
  - intros H12. destruct (r_publishers st2 !! id) as [s2|] eqn:E2; [|done].
    intros (s3 & H3 & (_ & _ & Hid & Hb)) s' Hs'. destruct (H12 s2 eq_refl) as [? ?]. simplify_eq. split; congruence.
Qed.

#[global] Instance settled_preorder : PreOrder settled.
Proof.
  split; [intros st id; by apply settled_same|]. intros st1 st2 st3 H1 H2 id. by eapply settled_at_trans.
Qed.

Lemma settled_insert st st' id s s' :
  r_publishers st !! id = Some s -> r_publishers st' = <[id := s']> (r_publishers st) -> keeps_boot s s' -> settled st st'.
Proof.
  intros Hs E Hk id'. destruct (decide (id = id')) as [<-|Hne].
  - unfold settled_at. rewrite Hs, E, lookup_insert_eq. by exists s'.
  - apply settled_same. by rewrite E, lookup_insert_ne.
Qed.

Lemma same_standing_keeps s s' : same_standing s s' -> keeps_boot s s'.
Proof. intros (? & ? & Hi & _). unfold keeps_boot. by rewrite Hi. Qed.

(** Registering: others are left alone; whoever names a boot keeps it. *)
Lemma register_settled now identity adapter st id :
  gen_valid (pi_boot identity) = true \/ id <> pi_id identity ->
  settled_at st (register_publisher_locked now identity adapter st).1 id.
Proof.
  intros Hor. unfold register_publisher_locked.
  destruct (negb _); [by apply settled_same|]. destruct (_ || _); [by apply settled_same|].
  destruct (decide (id = pi_id identity)) as [->|Hne].
  - destruct Hor as [Hv|]; [|done]. destruct (r_publishers st !! pi_id identity) as [s|] eqn:Hs.
    + destruct (ps_publisher_fenced s) eqn:Hf; [by apply settled_same|]. rewrite Hv. cbn [negb].
      destruct (bool_decide _); [by apply settled_same|]. destruct (_ !=? _); [by apply settled_same|].
      eapply settled_insert; [exact Hs|done|by repeat split].
    + destruct (_ <=? _); [by apply settled_same|]. destruct (_ && _); [by apply settled_same|].
      unfold settled_at. rewrite Hs. cbn. rewrite lookup_insert_eq. intros s' [= <-]. done.
  - destruct (r_publishers st !! pi_id identity) as [s|] eqn:Hs.
    + destruct (ps_publisher_fenced s); [by apply settled_same|].
      destruct (negb _); [apply settled_same; cbn; by rewrite lookup_insert_ne|].
      destruct (bool_decide _); [by apply settled_same|]. destruct (_ !=? _); [by apply settled_same|].
      apply settled_same; cbn; by rewrite lookup_insert_ne.
    + destruct (_ <=? _); [by apply settled_same|]. destruct (_ && _); [by apply settled_same|].
      apply settled_same; cbn; by rewrite lookup_insert_ne.
Qed.

Lemma apply_locked_settled hash now p st : settled st (apply_locked hash now p st).1.
Proof.
  destruct (is_sequenced (pb_kind p)) eqn:Hk.
  - destruct (apply_locked_cases hash now p st Hk) as [st' r _ Hpub _ _|p' state st' r _ _ Hc Hseq].
    { intros id. apply settled_same. by rewrite Hpub. }
    apply check_publisher_spec in Hc as (Hst & _).
    destruct Hseq; eapply settled_insert; try done; by apply same_standing_keeps.
  - unfold apply_locked. destruct (r_shutting_down st); [done|].
    destruct (prepare_publication st p) as [r|p'] eqn:Hp; [intros id; by apply settled_same|].
    pose proof (prepare_publication_spec _ _ _ Hp) as Hpp. rewrite (pp_kind _ _ _ Hpp).
    destruct (pb_kind p ==? PublicationKind.RegisterCapabilitySchema) eqn:H1.
    + unfold apply_schema, refuse, register_capability_schema_locked. intros id. apply settled_same.
      destruct (negb _); [by destruct (negb _)|]. destruct (_ !! cs_id _) as [c|]; [by destruct (same_schema _ _)|].
      destruct (_ !! cs_capability _); [done|]. by destruct (_ <=? _).
    + destruct (pb_kind p ==? PublicationKind.RegisterPublisher) eqn:H2.
      * unfold apply_registration. cbv zeta. cbn [fst]. intros id.
        eapply settled_at_trans; [apply (register_settled now (pb_publisher p') (pb_reason p'))|].
        -- left. pose proof (pp_valid _ _ _ Hpp) as Hv. unfold validate_publication in Hv. accepts Hv. by bsimpl.
        -- apply settled_same. by destruct (accepted _).
      * exfalso. unfold is_sequenced in Hk. by rewrite H1, H2 in Hk.
Qed.

(** Publishers are filed under their identity, with boots from 1 to [n]. *)
Definition boots_bounded (n : N) (st : Registry) : Prop :=
  map_Forall (fun id s => pi_id (pr_identity (ps_record s)) = id /\
                          1 <= gen_value (pi_boot (pr_identity (ps_record s))) <= n) (r_publishers st).

Record sink_ok (n : N) (s : LocalSink) : Prop := {
  so_bounded : boots_bounded n (LocalEvidenceSink.registry s);
  so_assigned : map_Forall (fun id i => pi_id i = id /\ gen_valid (pi_boot i) = true) (LocalEvidenceSink.assigned s)
}.

Lemma boots_bounded_weaken n m st : n <= m -> boots_bounded n st -> boots_bounded m st.
Proof. intros Hn H. eapply map_Forall_impl; [exact H|]. cbn. intros id s (? & ? & ?). split; [done|lia]. Qed.

Lemma settled_bounded n st st' : 1 <= n -> settled st st' -> boots_bounded n st -> boots_bounded n st'.
Proof.
  intros Hn Hset H id s' Hs'. specialize (Hset id). unfold settled_at in Hset.
  destruct (r_publishers st !! id) as [s|] eqn:Hs.
  - destruct Hset as (s2 & H2 & (_ & _ & Hid & Hb)). simplify_eq. rewrite Hid, Hb. by apply (H id s).
  - destruct (Hset s' Hs') as [Hid Hb]. rewrite Hid, Hb. cbn. split; [done|lia].
Qed.

Lemma register_bounded now identity adapter n st : 1 <= n -> n + 1 < u64_modulus -> boots_bounded n st ->
  let out := register_publisher now identity adapter st in
  boots_bounded (n + 1) out.1 /\
  (accepted out.2 = true -> pi_id (ar_assigned_publisher out.2) = pi_id identity /\
                            gen_valid (pi_boot (ar_assigned_publisher out.2)) = true).
Proof.
  intros Hn Hm Hb. cbn zeta. assert (Hw : boots_bounded (n + 1) st) by (eapply boots_bounded_weaken; [|done]; lia).
  unfold register_publisher, register_publisher_locked. destruct (r_shutting_down st); [done|].
  destruct (negb _); [done|]. destruct (_ || _); [done|].
  destruct (r_publishers st !! pi_id identity) as [s|] eqn:Hs.
  - destruct (Hb _ _ Hs) as (Hid & H1 & H2). destruct (ps_publisher_fenced s); [done|].
    destruct (negb (gen_valid (pi_boot identity))) eqn:Hv.
    + assert (Hnext : gen_value (next_boot s) = gen_value (pi_boot (pr_identity (ps_record s))) + 1).
      { unfold next_boot, gen_valid. rewrite (proj2 (N.eqb_neq _ _)) by lia. cbn. apply u64_succ_small. lia. }
      cbn. rewrite Hid. split.
      * apply map_Forall_insert_2; [cbn; split; [done|lia]|done].
      * intros _. split; [done|]. unfold gen_valid. rewrite Hnext. apply negb_true_iff, N.eqb_neq. lia.
    + destruct (bool_decide _); [done|]. destruct (_ !=? _) eqn:E; [done|]. bsimpl. cbn. rewrite Hid. split.
      * apply map_Forall_insert_2; [cbn; split; [done|lia]|done].
      * by rewrite E.
  - destruct (_ <=? _); [done|]. destruct (_ && _); [done|]. cbn. split; [|done].
    apply map_Forall_insert_2; [cbn; split; [done|lia]|done].
Qed.

Lemma local_command_keeps hash clock c n s : 1 <= n -> n + 1 < u64_modulus -> sink_ok n s ->
  let s' := (@answer_sink LocalSink (local_sink hash clock) c s).2 in
  sink_ok (n + 1) s' /\
  forall id identity, LocalEvidenceSink.assigned s !! id = Some identity ->
    LocalEvidenceSink.assigned s' !! id = Some identity /\
    settled_at (LocalEvidenceSink.registry s) (LocalEvidenceSink.registry s') id.
Proof.
  intros Hn Hm [Hb Ha]. destruct c as [identity adapter|publisher|publication]; cbn.
  - pose proof (fun i => register_bounded (clock (LocalEvidenceSink.ticks s)) i adapter n _ Hn Hm Hb) as Hreg.
    pose proof (fun i id Hor => register_settled (clock (LocalEvidenceSink.ticks s)) i adapter
                                  (LocalEvidenceSink.registry s) id Hor) as Hset.
    assert (Hset' : forall i id, gen_valid (pi_boot i) = true \/ id <> pi_id i ->
      settled_at (LocalEvidenceSink.registry s)
        (register_publisher (clock (LocalEvidenceSink.ticks s)) i adapter (LocalEvidenceSink.registry s)).1 id).
    { intros i id Hor. unfold register_publisher. destruct (r_shutting_down _); [by apply settled_same|auto]. }
    clear Hset. unfold LocalEvidenceSink.ensure_publisher, LocalEvidenceSink.register.
    destruct (LocalEvidenceSink.assigned s !! pi_id identity) as [existing|] eqn:He.
    + specialize (Hreg existing). specialize (Hset' existing). destruct (Ha _ _ He) as [Hid Hv].
      destruct (register_publisher _ _ _ _) as [st result]. cbn in *. split; [by constructor; [apply Hreg|]|].
      intros id i Hi. split; [done|]. apply Hset'. by left.
    + specialize (Hreg identity). specialize (Hset' identity). destruct (register_publisher _ _ _ _) as [st result].
      cbn in *. destruct Hreg as [Hr1 Hr2]. destruct (accepted result) eqn:Hacc.
      * split; [constructor; cbn; [done|by apply map_Forall_insert_2; [apply Hr2|]]|].
        intros id i Hi. cbn. assert (Hne : pi_id identity <> id) by congruence.
        rewrite lookup_insert_ne by done. split; [done|]. apply Hset'. by right.
      * split; [by constructor|]. intros id i Hi. split; [done|]. apply Hset'. right. congruence.
  - split; [constructor; [by eapply boots_bounded_weaken; [|exact Hb]; lia|done]|].
    intros id i Hi. split; [done|by apply settled_same].
  - pose proof (apply_locked_settled hash (clock (LocalEvidenceSink.ticks s)) publication (LocalEvidenceSink.registry s)) as Hset.
    unfold LocalEvidenceSink.publish. destruct (apply_locked _ _ _ _) as [st result]. cbn in *. split.
    + constructor; [|done]. apply (settled_bounded _ (LocalEvidenceSink.registry s)); [lia|done|].
      by eapply boots_bounded_weaken; [|exact Hb]; lia.
    + intros id i Hi. split; [done|apply Hset].
Qed.

Lemma local_program_keeps hash clock {A} (m : Sinking A) : forall n s,
  let sink := local_sink hash clock in
  1 <= n -> n + lengthN (trace answer_sink m s) < u64_modulus -> sink_ok n s ->
  let s' := (perform answer_sink m s).2 in
  sink_ok (n + lengthN (trace answer_sink m s)) s' /\
  forall id identity, LocalEvidenceSink.assigned s !! id = Some identity ->
    LocalEvidenceSink.assigned s' !! id = Some identity /\
    settled_at (LocalEvidenceSink.registry s) (LocalEvidenceSink.registry s') id.
Proof.
  induction m as [a|c k IH]; intros n s sink Hn Hm Hok; cbn.
  { change (lengthN []) with 0. rewrite N.add_0_r. split; [done|]. intros id i Hi. split; [done|by apply settled_same]. }
  cbn in Hm. pose proof (local_command_keeps hash clock c n s Hn) as Hc. cbv zeta in Hc. fold sink in Hc.
  destruct (answer_sink c s) as [answer s1]. rewrite lengthN_cons in *. cbn in Hc.
  destruct Hc as [Hok1 Hk1]; [lia|done|].
  destruct (IH answer (n + 1) s1) as [Hok2 Hk2]; [lia|fold sink; lia|done|]. fold sink in Hok2, Hk2.
  split; [by rewrite N.add_assoc|]. intros id i Hi. destruct (Hk1 id i Hi) as [Hi1 Hs1].
  destruct (Hk2 id i Hi1) as [Hi2 Hs2]. split; [done|by eapply settled_at_trans].
Qed.

(* ===================================================================== *)
(** ** Properties *)

(** *** What a command of an adapter is turned into *)

(** The publications of a run of a sink, each with its result. *)
Definition verdict_of (event : sink_event) : option (Publication * ApplyResult) :=
  match event with
  | existT (Publish publication) result => Some (publication, result)
  | _ => None
  end.

Definition verdicts : list sink_event -> list (Publication * ApplyResult) := omap verdict_of.

(** A command of an adapter, with what its builder answered. *)
Definition builder_event : Type := {c & builder_answer c}.

Definition publishes (event : builder_event) : bool :=
  match projT1 event with BumpEvidenceGeneration | ReadReport => false | _ => true end.

(** The methods of a builder over a sink. *)
Definition serve {S} `{EvidenceSink S} (c : BuilderCommand) (at_ : Builder * S) : builder_answer c * (Builder * S) :=
  let '(answered, s) := perform answer_sink (answer_builder c at_.1) at_.2 in (answered.1, (answered.2, s)).

(** The source of a claim as it is sent: attributed to the adapter, under the
    class the adapter gave or else that of the context. *)
Definition attributed (context : DiscoveryContext) (given sent : EvidenceSource) : Prop :=
  adapter sent = dx_adapter context /\ native_reference sent = native_reference given /\
  (source_class sent, provenance sent) =
    (if source_class given ==? SourceClass.Unspecified
     then (dx_source_class context, dx_provenance context) else (source_class given, provenance given)).

(** The publication says what the command says. *)
Definition carries (context : DiscoveryContext) (c : BuilderCommand) (sent : Publication) : Prop :=
  match c with
  | RegisterSubject registration =>
      pb_kind sent = PublicationKind.RegisterDevice /\ pb_device sent = registration
  | AnnounceDeviceGeneration registration =>
      pb_kind sent = PublicationKind.PublishDeviceGeneration /\
      pb_device sent = registration <| dr_device_boot_observed := true |>
  | PublishCapability subject o =>
      let claim := pb_capability sent in
      pb_kind sent = PublicationKind.PublishCapability /\
      cr_device claim = sc_device subject /\ cr_device_generation claim = sc_generation subject /\
      cr_device_boot claim = sc_boot subject /\ cr_capability claim = ob_capability o /\
      cr_support claim = ob_support o /\ cr_value claim = ob_value o /\ cr_precision claim = ob_precision o /\
      cr_conditions claim = ob_conditions o /\
      attributed context (default_source <| source_class := ob_source_class o |> <| provenance := ob_provenance o |>
                            <| native_reference := ob_reference o |>) (cr_source claim)
  | PublishQuirk quirk =>
      pb_kind sent = (if qr_withdrawn quirk then PublicationKind.WithdrawQuirk else PublicationKind.PublishQuirk) /\
      exists source, pb_quirk sent = quirk <| qr_source := source |> /\ attributed context (qr_source quirk) source
  | PublishCompatibility fact =>
      pb_kind sent = (if cf_withdrawn fact then PublicationKind.WithdrawCompatibility
                      else PublicationKind.PublishCompatibility) /\
      exists source, pb_compatibility sent = fact <| cf_source := source |> /\ attributed context (cf_source fact) source
  | RegisterSchema schema => pb_kind sent = PublicationKind.RegisterCapabilitySchema /\ pb_schema sent = schema
  | BuilderHeartbeat => pb_kind sent = PublicationKind.Heartbeat
  | BumpEvidenceGeneration | ReadReport => False
  end.

(** What the adapter is told is the verdict on the publication: a subject
    under the generation and boot the verdict assigned, or a status. *)
Definition tells (c : BuilderCommand) : builder_answer c -> ApplyResult -> Prop :=
  match c with
  | RegisterSubject registration | AnnounceDeviceGeneration registration => fun answer result =>
      match answer with
      | inr subject => accepted result = true /\
          subject = mk_SubjectContext (di_id (dr_identity registration)) (ar_device_generation result) (ar_device_boot result)
      | inl status => accepted result = false /\ status_ok status = false
      end
  | BumpEvidenceGeneration => fun _ _ => False
  | ReadReport => fun _ _ => False
  | _ => fun status result => status_ok status = accepted result
  end.

Definition fulfilled (context : DiscoveryContext) (asked : builder_event) (verdict : Publication * ApplyResult) : Prop :=
  carries context (projT1 asked) verdict.1 /\ pb_publisher verdict.1 = dx_publisher context /\
  tells (projT1 asked) (projT2 asked) verdict.2.

(** Builders over time: only the evidence generation moves. *)
Definition builds_for (context : DiscoveryContext) (b : Builder) : Prop :=
  dx_publisher (bu_context b) = dx_publisher context /\ dx_adapter (bu_context b) = dx_adapter context /\
  dx_source_class (bu_context b) = dx_source_class context /\ dx_provenance (bu_context b) = dx_provenance context /\
  dp_adapter (bu_report b) = dx_adapter context.

Lemma status_of_result_ok result : status_ok (status_of_result result) = accepted result.
Proof. unfold status_of_result. by destruct (accepted result). Qed.

Lemma attributed_spec context b given sent : builds_for context b ->
  adapter given = builder_adapter b -> native_reference given = native_reference sent ->
  source_class given = source_class sent -> provenance given = provenance sent ->
  attributed context sent (classify (bu_context b) given).
Proof.
  intros (_ & Ha & Hc & Hp & Hr) Had Hn Hsc Hpr. unfold attributed, classify. rewrite <- Hc, <- Hp, <- Hsc, <- Hpr, <- Hn.
  unfold builder_adapter in Had. rewrite Ha, Hr in Had. assert (adapter given = dx_adapter context) as <- by (by destruct (is_empty _)).
  by destruct (source_class given ==? SourceClass.Unspecified).
Qed.

Section Served.
Context {S : Type} `{SequencedSink S}.

(** A method of the builder publishes what it is told to, once, or leaves the
    sink alone. *)
Definition serves (context : DiscoveryContext) (c : BuilderCommand) (m : Sinking (builder_answer c * Builder)) (s : S) : Prop :=
  let '((answer, b'), s') := perform answer_sink m s in
  builds_for context b' /\
  if publishes (existT c answer) then
    exists n sent result,
      trace answer_sink m s = [existT (NextSequence (pi_id (dx_publisher context))) n; existT (Publish sent) result] /\
      sink_publish sent (sink_next (pi_id (dx_publisher context)) s).2 = (result, s') /\
      fulfilled context (existT c answer) (sent, result)
  else trace answer_sink m s = [] /\ s' = s.

Lemma send_serves context c (f : ApplyResult * Builder -> builder_answer c) what publication b s :
  builds_for context b -> (forall answer, publishes (existT c answer) = true) ->
  (forall n result, carries context c (stamp (bu_context b) n publication) /\
                    tells c (f (result, note result what b)) result) ->
  serves context c (send what publication b ≫= fun sent => mret (f sent, sent.2)) s.
Proof.
  intros Hb Hpublishes Hfulfilled. assert (Hb' := Hb). destruct Hb' as (Hpub & Ha & Hc & Hp & Hr).
  pose proof (send_spec what publication b s) as Hs. cbv zeta in Hs. rewrite Hpub in Hs.
  destruct (sink_publish _ _) as [result s'] eqn:Es. destruct Hs as (Hperform & Htrace & _).
  unfold serves. rewrite perform_bind, trace_bind, Hperform, Htrace. cbn [fst snd perform trace mret Program_ret].
  rewrite Hpublishes, app_nil_r. split.
  - repeat split; try done. unfold note. by destruct (ar_code result).
  - eexists _, _, result. split; [done|]. split; [exact Es|]. destruct (Hfulfilled (u64_succ (issued (pi_id (dx_publisher context)) s)) result).
    by repeat split.
Qed.

Lemma serve_fulfils context c b s : builds_for context b -> serves context c (answer_builder c b) s.
Proof.
  intros Hb. destruct c; cbn [answer_builder];
    unfold register_subject, announce_device_generation, send_registration, publish_capability, publish_quirk,
      publish_compatibility, register_schema, builder_heartbeat, submit; cbv zeta.
  all: try (apply send_serves; [done|done|]; intros n result; cbn [carries tells fst snd]; rewrite ?status_of_result_ok;
            split; [|try done]).
  all: try (by repeat split).
  all: try (destruct (accepted result) eqn:E; [by split|split; [done|]; by rewrite status_of_result_ok, E]).
  - split_and!; try done. by apply attributed_spec.
  - split; [done|]. eexists. split; [done|]. by apply attributed_spec.
  - split; [done|]. eexists. split; [done|]. by apply attributed_spec.
  - split; [|done]. exact Hb.
  - split; [exact Hb|done].
Qed.
End Served.

(** *** What a run of an adapter does to a registry *)

(** A sequence of publications applied one after the other, at the readings
    of the clock from [t] on: the results and the registry. *)
Fixpoint ingest (hash : string -> N) (clock : N -> string) (t : N) (publications : list Publication) (st : Registry) :
    list ApplyResult * Registry :=
  match publications with
  | [] => ([], st)
  | publication :: rest =>
      let '(st1, result) := apply_locked hash (clock t) publication st in
      let '(results, st2) := ingest hash clock (N.succ t) rest st1 in (result :: results, st2)
  end.

(** The operations of the registry that these are. *)
Fixpoint ingested (clock : N -> string) (t : N) (publications : list Publication) : list Operation :=
  match publications with
  | [] => []
  | publication :: rest => OpApply (clock t) publication :: ingested clock (N.succ t) rest
  end.

Lemma ingest_is_run hash clock publications : forall t st,
  (ingest hash clock t publications st).2 = run hash (ingested clock t publications) st.
Proof.
  induction publications as [|p rest IH]; intros t st; [done|]. cbn. unfold run in IH. rewrite <- IH.
  destruct (apply_locked hash (clock t) p st) as [st1 result]. cbn. by destruct (ingest _ _ _ _ _).
Qed.

(** An adapter over a local sink: the commands it gives that publish, one by
    one, and the publications that are ingested. *)
Lemma adapter_ingests hash clock context {A} (m : Adapting A) : forall b s,
  let sink := local_sink hash clock in
  builds_for context b ->
  let s' := (perform answer_sink (translate answer_builder m b) s).2 in
  let made := verdicts (trace answer_sink (translate answer_builder m b) s) in
  ingest hash clock (LocalEvidenceSink.ticks s) (map fst made) (LocalEvidenceSink.registry s) =
    (map snd made, LocalEvidenceSink.registry s') /\
  Forall2 (fulfilled context) (List.filter publishes (trace serve m (b, s))) made.
Proof.
  induction m as [a|c k IH]; intros b s sink Hb; [by split; [|constructor]|]. cbv zeta. cbn [translate trace].
  rewrite trace_bind, perform_bind. pose proof (serve_fulfils context c b s Hb) as Hc. unfold serves in Hc.
  unfold serve at 1. cbn [fst snd]. fold sink.
  destruct (perform answer_sink (answer_builder c b) s) as [[answer b'] s'] eqn:Eperform. cbn [fst snd].
  destruct Hc as [Hb' Hc]. specialize (IH answer b' s' Hb'). cbv zeta in IH. cbn [List.filter].
  destruct (publishes (existT c answer)).
  - destruct Hc as (n & sent & result & -> & Hpublish & Hfulfilled). cbn [app].
    match goal with |- context [verdicts (?e1 :: ?e2 :: ?tr)] =>
      change (verdicts (e1 :: e2 :: tr)) with ((sent, result) :: verdicts tr) end.
    assert (Happlied : apply_locked hash (clock (LocalEvidenceSink.ticks s)) sent (LocalEvidenceSink.registry s) =
      (LocalEvidenceSink.registry s', result) /\ LocalEvidenceSink.ticks s' = N.succ (LocalEvidenceSink.ticks s)).
    { cbn in Hpublish. unfold LocalEvidenceSink.publish in Hpublish. cbn in Hpublish.
      destruct (apply_locked _ _ _ _) as [st1 result']. by injection Hpublish as -> <-. }
    destruct Happlied as [Happlied Hticks]. cbn [map fst snd ingest]. rewrite Happlied, <- Hticks.
    destruct IH as [Hrest IH]. split; [|by constructor]. destruct (ingest _ _ _ _ _) as [results st2]. by injection Hrest as -> ->.
  - destruct Hc as [-> ->]. exact IH.
Qed.

Lemma verdicts_ensured identity adapter result tr :
  verdicts (existT (EnsurePublisher identity adapter) result :: tr) = verdicts tr.
Proof. done. Qed.

(** What discovery publishes for whom, once it was admitted. *)
Lemma discover_ingests hash clock now backend context s :
  let sink := local_sink hash clock in
  let s' := (perform answer_sink (discover now backend context) s).2 in
  let made := verdicts (trace answer_sink (discover now backend context) s) in
  ingest hash clock (LocalEvidenceSink.ticks s) (map fst made) (LocalEvidenceSink.registry s) =
    (map snd made, LocalEvidenceSink.registry s') /\
  Forall2 (fulfilled context)
    (List.filter publishes (trace serve (bk_discover backend context) (new_builder now context, s))) made.
Proof.
  cbv zeta. unfold discover. rewrite trace_bind, perform_bind. cbn [trace perform mret Program_ret]. rewrite app_nil_r.
  apply adapter_ingests. by repeat split.
Qed.

(** The identity a local sink registers for another: the one it was assigned,
    once there is one. *)
Definition enrolling (s : LocalSink) (identity : PublisherIdentity) : PublisherIdentity :=
  default identity (LocalEvidenceSink.assigned s !! pi_id identity).

Lemma ensure_registers clock identity adapter s :
  let enrolment := register_publisher (clock (LocalEvidenceSink.ticks s)) (enrolling s identity) adapter
                     (LocalEvidenceSink.registry s) in
  let '(ensured, s') := LocalEvidenceSink.ensure_publisher clock identity adapter s in
  LocalEvidenceSink.registry s' = enrolment.1 /\ LocalEvidenceSink.ticks s' = N.succ (LocalEvidenceSink.ticks s) /\
  accepted ensured = accepted enrolment.2 /\
  (accepted ensured = true -> ar_assigned_publisher ensured =
     default (ar_assigned_publisher enrolment.2) (LocalEvidenceSink.assigned s !! pi_id identity)).
Proof.
  cbv zeta. unfold LocalEvidenceSink.ensure_publisher, LocalEvidenceSink.register, enrolling.
  destruct (LocalEvidenceSink.assigned s !! pi_id identity) as [existing|]; cbn [default from_option id];
    destruct (register_publisher _ _ _ _) as [st result]; cbn [fst snd].
  - assert (Hcode : (ar_code result ==? ApplyCode.AcceptedIdempotent) = true -> accepted result = true).
    { unfold accepted. intros E. bsimpl. by rewrite E. }
    destruct (accepted result) eqn:Ha; [by split_and!|]. destruct (_ ==? _); [by specialize (Hcode eq_refl)|].
    cbn [orb]. rewrite Ha. by split_and!.
  - by destruct (accepted result) eqn:Ha; split_and!.
Qed.

(** C17: discovery is ingestion. When a backend is unavailable, nothing is
    published and the sink is untouched. Otherwise discovery registers the
    backend's adapter under the identity the process holds, or else the one it
    is given, and what happens to the registry is that registration followed
    by the application of what is published, in its order, each with the
    result the registry gave. Nothing is published when the registration is
    refused. When it is accepted, the publications correspond, one by one and
    in order, to the adapter's publishing commands: each says what the command
    says, under the authority the process was assigned and with its source
    attributed to the adapter, and the adapter is told the registry's verdict.
    An adapter neither bypasses the production path nor loses evidence on it. *)
Theorem discovery_is_ingestion hash clock now backend context s :
  let sink := local_sink hash clock in
  let discovery := run_discovery now backend context in
  let s' := (perform answer_sink discovery s).2 in
  let made := verdicts (trace answer_sink discovery s) in
  let identity := enrolling s (dx_publisher context) in
  let t := LocalEvidenceSink.ticks s in
  let enrolment := register_publisher (clock t) identity (bk_adapter_name backend) (LocalEvidenceSink.registry s) in
  ((bk_available backend).1 = false -> trace answer_sink discovery s = [] /\ s' = s) /\
  ((bk_available backend).1 = true ->
     LocalEvidenceSink.registry s' =
       run hash (OpRegisterPublisher (clock t) identity (bk_adapter_name backend) ::
                 ingested clock (N.succ t) (map fst made)) (LocalEvidenceSink.registry s) /\
     ingest hash clock (N.succ t) (map fst made) enrolment.1 = (map snd made, LocalEvidenceSink.registry s') /\
     (accepted enrolment.2 = false -> made = []) /\
     (accepted enrolment.2 = true ->
        let authority := default (ar_assigned_publisher enrolment.2)
                           (LocalEvidenceSink.assigned s !! pi_id (dx_publisher context)) in
        let effective := context <| dx_publisher := authority |> <| dx_source_class := bk_source_class backend |>
                           <| dx_provenance := bk_provenance backend |> <| dx_adapter := bk_adapter_name backend |> in
        let enrolled := (sink_ensure (dx_publisher context) (bk_adapter_name backend) s).2 in
        Forall2 (fulfilled effective)
          (List.filter publishes (trace serve (bk_discover backend effective) (new_builder now effective, enrolled)))
          made)).
Proof.
  cbv zeta. unfold run_discovery. destruct (bk_available backend) as [[] reason]; [|by split]. split; [done|]. intros _.
  cbn [fst snd negb]. pose proof (ensure_registers clock (dx_publisher context) (bk_adapter_name backend) s) as Hensure.
  cbv zeta in Hensure. rewrite perform_bind, trace_bind. unfold ask. cbn [perform trace answer_sink sink_ensure local_sink].
  destruct (LocalEvidenceSink.ensure_publisher _ _ _ s) as [ensured s1] eqn:Eensure. cbn [fst snd].
  destruct Hensure as (Hst & Ht & Ha & Hauthority). set (enrolment := register_publisher _ _ _ _) in *.
  assert (Hrun : forall ps, (ingest hash clock (N.succ (LocalEvidenceSink.ticks s)) ps enrolment.1).2 =
    run hash (OpRegisterPublisher (clock (LocalEvidenceSink.ticks s)) (enrolling s (dx_publisher context))
                (bk_adapter_name backend) :: ingested clock (N.succ (LocalEvidenceSink.ticks s)) ps) (LocalEvidenceSink.registry s)).
  { intros ps. by rewrite ingest_is_run. }
  destruct (accepted ensured) eqn:Hacc; cbn [negb].
  - rewrite perform_bind, trace_bind. cbn [perform trace mret Program_ret]. rewrite app_nil_r.
    match goal with |- context [discover now backend ?c] => set (effective := c) end.
    pose proof (discover_ingests hash clock now backend effective s1) as (Hingest & Hfulfilled).
    rewrite Hst, Ht in Hingest.
    cbn [app]. rewrite !verdicts_ensured, <- Hrun, Hingest. split_and!; [done|done|congruence|]. intros _. rewrite <- (Hauthority eq_refl). exact Hfulfilled.
  - cbn [perform trace mret Program_ret snd app]. change (verdicts _) with (@nil (Publication * ApplyResult)).
    rewrite <- Hrun. cbn [map ingest snd]. rewrite <- Hst. split_and!; [done|done|done|congruence].
Qed.

(** Two heartbeats, and a context of a publisher nobody registered. *)
Definition two_heartbeats : Adapting unit := ask BuilderHeartbeat ≫= fun _ => ask BuilderHeartbeat ≫= fun _ => mret tt.

Definition nobody : DiscoveryContext :=
  mk_DiscoveryContext agent_boot default_platform Gen_none "t" ∅ default_software SourceClass.Nvml
    ProvenanceClass.RealVendorApi "nvml".

Definition no_clock (_ : N) : string := EmptyString.

Definition bare_sink : LocalSink := LocalEvidenceSink.new_sink (construct_registry [] default_limits).

(** A backend that only shows it is alive. *)
Definition pulse : IDiscoveryBackend :=
  mk_IDiscoveryBackend "pulse" SourceClass.Nvml ProvenanceClass.RealVendorApi (true, EmptyString)
    (fun _ => two_heartbeats ≫= fun _ => mret (success, default_report)).

(** A process that does not know its boot yet. *)
Definition newcomer : DiscoveryContext := nobody <| dx_publisher := no_publisher <| pi_id := agent |> |>.

Lemma discovery_is_ingestion_witness :
  let sink := local_sink strlen no_clock in
  let s' := (perform answer_sink (run_discovery EmptyString pulse newcomer) bare_sink).2 in
  let made := verdicts (trace answer_sink (run_discovery EmptyString pulse newcomer) bare_sink) in
  LocalEvidenceSink.registry s' =
    run strlen (OpRegisterPublisher EmptyString (dx_publisher newcomer) "pulse" :: ingested no_clock 1 (map fst made))
      (LocalEvidenceSink.registry bare_sink) /\
  map (fun verdict => (pb_kind verdict.1, pb_publisher verdict.1, accepted verdict.2)) made =
    [(PublicationKind.Heartbeat, agent_boot, true); (PublicationKind.Heartbeat, agent_boot, true)].
Proof.
  cbv zeta. split; [|vm_compute; reflexivity].
  refine (proj1 (proj2 (discovery_is_ingestion strlen no_clock EmptyString pulse newcomer bare_sink) _)).
  reflexivity.
Defined.

(** C24: whatever an adapter does with its builder, over any sink that numbers
    publications: each publication is bound to the publisher and the time of
    the context, its sources are classified, sequence numbers increase strictly
    and continue the publisher's stream, and the report counts every
    publication once and has a note for every rejection. *)
Theorem adapter_publications_in_order {S} `{SequencedSink S} {A} (m : Adapting A) now context s :
  let b := new_builder now context in
  let p := pi_id (dx_publisher context) in
  let discovery := translate answer_builder m b in
  let publications := published (trace answer_sink discovery s) in
  let report := bu_report (perform answer_sink discovery s).1.2 in
  issued p s + 2 * lengthN publications < u64_modulus ->
  Forall (made_under (bu_context b)) publications /\
  Sorted.StronglySorted N.lt (issued p s :: map pb_sequence publications) /\
  dp_accepted report + dp_idempotent report + dp_rejected report = lengthN publications /\
  lengthN (dp_notes report) = dp_rejected report.
Proof.
  cbv zeta. intros Hlen. destruct (adapter_effect m (new_builder now context) s) as (Hf & Hss & Ho & Hn);
    [exact Hlen|change (outcomes (bu_report (new_builder now context))) with 0; lia|done|]. split_and!; [done|done| |done]. exact Ho.
Qed.

Lemma adapter_publications_in_order_witness :
  let sink := local_sink strlen (fun _ => EmptyString) in
  let s := LocalEvidenceSink.new_sink (construct_registry [] default_limits) in
  let discovery := translate answer_builder two_heartbeats (new_builder EmptyString nobody) in
  Sorted.StronglySorted N.lt [0; 1; 2] /\
  map pb_sequence (published (trace answer_sink discovery s)) = [1; 2].
Proof.
  cbv zeta. split; [|vm_compute; reflexivity].
  pose proof (@adapter_publications_in_order LocalSink (local_sink strlen (fun _ => EmptyString))
    (local_sequenced strlen (fun _ => EmptyString)) unit two_heartbeats
    EmptyString nobody (LocalEvidenceSink.new_sink (construct_registry [] default_limits))) as H.
  cbv zeta in H. destruct H as (_ & H & _); [vm_compute; reflexivity|].
  match type of H with Sorted.StronglySorted _ ?l => assert (E : l = [0; 1; 2]) by (vm_compute; reflexivity) end.
  rewrite E in H. exact H.
Defined.

(** C20: a process holds one boot per publisher. Once a local sink has assigned
    an identity, whatever is ensured and published through the sink afterwards:
    the assignment stays, the registry keeps the boot, fences and retirements
    of that publisher as they were, and ensuring it again yields the same
    identity or is refused. *)
Theorem process_keeps_its_boot hash clock {A B} (m0 : Sinking A) (m : Sinking B) n st id identity state :
  let sink := local_sink hash clock in
  let s := (perform answer_sink m0 (LocalEvidenceSink.new_sink st)).2 in
  let s' := (perform answer_sink m s).2 in
  1 <= n -> boots_bounded n st ->
  n + lengthN (trace answer_sink m0 (LocalEvidenceSink.new_sink st)) + lengthN (trace answer_sink m s) < u64_modulus ->
  LocalEvidenceSink.assigned s !! id = Some identity ->
  r_publishers (LocalEvidenceSink.registry s) !! id = Some state ->
  LocalEvidenceSink.assigned s' !! id = Some identity /\
  (exists state', r_publishers (LocalEvidenceSink.registry s') !! id = Some state' /\ keeps_boot state state') /\
  forall again adapter, pi_id again = id ->
    let ensured := LocalEvidenceSink.ensure_publisher clock again adapter s' in
    accepted ensured.1 = true -> ar_assigned_publisher ensured.1 = identity.
Proof.
  cbv zeta. intros Hn Hst Hlen Hi Hs.
  destruct (local_program_keeps hash clock m0 n (LocalEvidenceSink.new_sink st)) as [Hok _];
    [done|lia|by constructor|].
  destruct (local_program_keeps hash clock m _ _ (N.le_trans _ _ _ Hn (N.le_add_r _ _)) Hlen Hok) as [_ Hk].
  destruct (Hk id identity Hi) as [Hi' Hset]. unfold settled_at in Hset. rewrite Hs in Hset.
  split_and!; [done|done|]. intros again adapter <-. unfold LocalEvidenceSink.ensure_publisher. rewrite Hi'.
  destruct (LocalEvidenceSink.register _ _ _ _) as [reaffirmed s2]. cbn.
  destruct (accepted reaffirmed) eqn:Ha; cbn; [done|].
  destruct (ar_code reaffirmed ==? _) eqn:Hc; cbn; [done|by rewrite Ha].
Qed.

(** A process that registers, then registers again and sends a heartbeat. *)
Definition enrol : Sinking ApplyResult := ask (EnsurePublisher (no_publisher <| pi_id := agent |>) "nvml").

Definition enrol_again : Sinking ApplyResult :=
  enrol ≫= fun _ => ask (Publish (default_publication <| pb_kind := PublicationKind.Heartbeat |>
                                    <| pb_publisher := agent_boot |> <| pb_sequence := 1 |>)).

Lemma process_keeps_its_boot_witness :
  let sink := local_sink strlen no_clock in
  LocalEvidenceSink.assigned (perform answer_sink enrol_again (perform answer_sink enrol bare_sink).2).2 !! agent =
  Some agent_boot.
Proof.
  cbv zeta.
  refine (proj1 (process_keeps_its_boot strlen no_clock enrol enrol_again 1 (construct_registry [] default_limits) agent
    agent_boot (first_boot_state EmptyString Gen_first agent "nvml") _ _ _ _ _)).
  - lia.
  - apply map_Forall_empty.
  - vm_compute. reflexivity.
  - vm_compute. reflexivity.
  - vm_compute. reflexivity.
Defined.

(** When the coordinator epoch advances under a local sink, ensuring the
    publisher again is accepted but yields the identity of the old epoch, with
    which every publication is refused. *)
Theorem ensured_identity_goes_stale :
  let sink := local_sink strlen no_clock in
  let s := (perform answer_sink enrol bare_sink).2 in
  let s := s <| LocalEvidenceSink.registry ::= advance_coordinator_epoch |> in
  let '(ensured, s) := perform answer_sink enrol s in
  let '(published, _) := sink_publish (default_publication <| pb_kind := PublicationKind.Heartbeat |>
    <| pb_publisher := ar_assigned_publisher ensured |> <| pb_sequence := 1 |>) s in
  ar_code ensured = ApplyCode.Accepted /\ ar_code published = ApplyCode.RejectedStaleEpoch.
Proof. vm_compute. split; reflexivity. Qed.

(** Through a registered agent every publication of a builder takes two
    sequence numbers: the builder's, which is never sent, and the agent's. *)
Theorem agent_skips_sequences connected time what publication b agent :
  let sink := agent_sink connected time in
  ag_registered agent = true -> ag_sequence agent + 2 < u64_modulus ->
  ag_sequence (perform answer_sink (send what publication b) agent).2 = ag_sequence agent + 2.
Proof.
  cbv zeta. intros Hr Hs. unfold send, take_sequence, ask. cbn. unfold publish. cbn. rewrite Hr. cbn.
  set (bound := bind_publication _ _ _ _). destruct (converse _ _ _ _ _) as [answered link].
  rewrite !u64_succ_small by (rewrite ?u64_succ_small by lia; lia). destruct answered; cbn; lia.
Qed.
