(* ===== verification/HostAdapters.v ===== *)
(** * The host adapters

    Models [adapter_cpu.cpp], [adapter_pci.cpp], [adapter_cxl.cpp] and
    [adapter_network.cpp]. What the operating system and the processor answer
    is an argument; on a build for another system ([None]) an adapter reports
    itself unavailable. The observations an adapter publishes are computed
    apart from their publication. *)

From S2P Require Import Prelude Tokens Versions Support Conditions Values Hardware Quirks Compat Publication.
From S2P Require Import RegistryState Fixtures Resolution Publishers Devices Knowledge Evidence Ingest Runs Catalog System.
From S2P Require Import Wire Checksum Codec Frames Queries Render Snapshots Durable Image QueryCodec Messages Coordinator Client.
From S2P Require Import Programs AdapterCommon Discovery.

(* ===================================================================== *)
(** ** Shared steps *)

Definition cap (name : string) : CapabilityId := Id_parse name.

(** [text.empty() ? fallback : text]. *)
Definition or_else (text fallback : string) : string := if is_empty text then fallback else text.

(** [text.find(needle)], [text.find(needle, from)]. *)
Definition find_from (from : nat) (needle text : string) : option nat := String.index from needle text.
Definition has_text (needle text : string) : bool := bool_decide (is_Some (find_from 0 needle text)).

Definition rest_of (from : nat) (text : string) : string := substring from (String.length text - from) text.

(** The host platform as a subject, the same in every adapter. *)
Definition host_registration (context : DiscoveryContext) : DeviceRegistration :=
  let platform := dx_platform context in
  let model := canonical_token (or_else (pl_model platform) "unknown-platform") in
  let identity := default_identity
    <| di_id := host_device_id platform |>
    <| di_incarnation := Id_parse (token_from_hash "inc.host"
         (id_str (pl_id platform) +:+ "|" +:+ pl_model platform +:+ "|" +:+
          fw_version (sw_firmware (dx_software context)))%string) |>
    <| di_hardware := mk_HardwareIdentity
         (Id_parse (canonical_token (or_else (pl_vendor platform) "unknown-platform-vendor")))
         (Id_parse ("product." +:+ model)%string) (Id_parse "family.host-platform") (Id_parse ("model." +:+ model)%string)
         (Id_parse "rev.host-platform.1") (Id_parse "arch.x86_64") HardwareClass.Other (pl_native_identifiers platform) |>
    <| di_platform := pl_id platform |>
    <| di_display_name := pl_display_name platform |> in
  mk_DeviceRegistration identity (dx_software context) platform false 0 (dx_observed_at_utc context).

(** Statuses of publications are dropped by every adapter. *)
Fixpoint publish_observations (subject : SubjectContext) (observations : list Observation) : Adapting unit :=
  match observations with
  | [] => mret tt
  | o :: rest => _ ← ask (PublishCapability subject o); publish_observations subject rest
  end.

(** A return with the builder's report, and perhaps a note. *)
Definition return_with (status : Status) : Adapting (Status * DiscoveryReport) :=
  report ← ask ReadReport; mret (status, report).

Definition return_noting (status : Status) (text : string) : Adapting (Status * DiscoveryReport) :=
  report ← ask ReadReport; mret (status, add_note text report).

(** [register_subject], an early return when it fails. *)
Definition with_subject (registration : DeviceRegistration) (then_ : SubjectContext -> Adapting (Status * DiscoveryReport)) :
    Adapting (Status * DiscoveryReport) :=
  registered ← ask (RegisterSubject registration);
  match registered with inl status => return_with status | inr subject => then_ subject end.

(* ===================================================================== *)
(** ** PCI functions *)

Record PciDeviceRecord := mk_PciDeviceRecord {
  pci_instance_id : string;
  pci_vendor_id : string;
  pci_device_id : string;
  pci_subsystem_id : string;
  pci_revision : string;
  pci_class_code : string;
  pci_description : string
}.

(** One function as the device enumerator reports it. *)
Record PciFunction := mk_PciFunction {
  pf_instance_id : string;
  pf_hardware_ids : list string;
  pf_compatible_ids : list string;
  pf_description : string
}.

Definition extract_between (text begin stop : string) : string :=
  match find_from 0 begin text with
  | None => EmptyString
  | Some start =>
      let value_start := (start + String.length begin)%nat in
      match find_from value_start stop text with
      | None => EmptyString
      | Some finish => substring value_start (finish - value_start) text
      end
  end.

Definition pci_revision_of (hardware_id : string) : string :=
  let revision := extract_between hardware_id "REV_" "&" in
  if negb (is_empty revision) then revision
  else match find_from 0 "REV_" hardware_id with Some rev => rest_of (rev + 4) hardware_id | None => EmptyString end.

Fixpoint pci_class_of (compatible : list string) : string :=
  match compatible with
  | [] => EmptyString
  | identifier :: rest =>
      match find_from 0 "CC_" identifier with
      | Some cc => if (cc + 9 <=? String.length identifier)%nat then substring (cc + 3) 6 identifier else pci_class_of rest
      | None => pci_class_of rest
      end
  end.

Definition pci_record (f : PciFunction) : PciDeviceRecord :=
  let hardware_id := default EmptyString (head (pf_hardware_ids f)) in
  mk_PciDeviceRecord (pf_instance_id f) (extract_between hardware_id "VEN_" "&") (extract_between hardware_id "DEV_" "&")
    (extract_between hardware_id "SUBSYS_" "&") (pci_revision_of hardware_id) (pci_class_of (pf_compatible_ids f))
    (pf_description f).

Definition pci_before (a b : PciDeviceRecord) : bool := string_ltb (pci_instance_id a) (pci_instance_id b).

(** [bus]: [None] on another system; [inl] when the enumerator cannot be
    opened. The second component is [detail]. *)
Definition enumerate_pci_devices (bus : option (unit + list PciFunction)) : (Status + list PciDeviceRecord) * string :=
  match bus with
  | None =>
      let detail := "PCI enumeration is implemented for Windows hosts only"%string in (inl (failure NotFound detail), detail)
  | Some (inl _) =>
      let detail := "SetupDiGetClassDevs failed for the PCI enumerator"%string in (inl (failure IoFailure detail), detail)
  | Some (inr functions) =>
      let out := std_sort pci_before
        (map pci_record (List.filter (fun f => negb (is_empty (pf_instance_id f))) functions)) in
      (inr out, ("enumerated " +:+ pretty (lengthN out) +:+ " PCI functions")%string)
  end.

Definition pci_observation (devices : list PciDeviceRecord) : Observation :=
  observed (cap "cap.platform.pci_devices") SupportState.SupportedNative (VCount (lengthN devices) "devices")
    PrecisionClass.Exact "SetupDiGetClassDevs(PCI)/SP_DEVINFO_DATA".

Definition pci_discover (bus : option (unit + list PciFunction)) (context : DiscoveryContext) :
    Adapting (Status * DiscoveryReport) :=
  match enumerate_pci_devices bus with
  | (inl _, detail) => return_noting success detail
  | (inr devices, _) =>
      with_subject (host_registration context) (fun subject =>
        _ ← publish_observations subject [pci_observation devices];
        return_noting success ("enumerated " +:+ pretty (lengthN devices) +:+ " PCI functions")%string)
  end.

Definition make_pci_topology_backend (bus : option (unit + list PciFunction)) : IDiscoveryBackend :=
  mk_IDiscoveryBackend "pci.topology" SourceClass.PciConfiguration ProvenanceClass.RealOsReported
    (match bus with
     | Some _ => (true, EmptyString)
     | None => (false, "the PCI topology adapter is implemented for Windows hosts only"%string)
     end) (pci_discover bus).

(* ===================================================================== *)
(** ** CXL devices *)

Definition is_cxl_class (class_code : string) : bool :=
  if strlen class_code <? 4 then false
  else
    let subclass := substring 2 2 class_code in
    if substring 0 2 class_code !=? "05"%string then false
    else (subclass ==? "02"%string) || (subclass ==? "10"%string).

Definition cxl_registration (device : PciDeviceRecord) (context : DiscoveryContext) : DeviceRegistration :=
  let identity := default_identity
    <| di_id := canonical_device_id "dev.cxl" (pci_instance_id device) |>
    <| di_incarnation := Id_parse (token_from_hash "inc.cxl" (pci_instance_id device +:+ "|" +:+ pci_revision device)%string) |>
    <| di_hardware := mk_HardwareIdentity
         (Id_parse ("vendor.pci." +:+ canonical_token (pci_vendor_id device))%string)
         (Id_parse ("product.pci." +:+ canonical_token (pci_device_id device))%string)
         (Id_parse "family.cxl-device")
         (Id_parse ("model.pci." +:+ canonical_token (pci_device_id device))%string)
         (Id_parse ("rev.pci." +:+ canonical_token (or_else (pci_revision device) "unknown"))%string)
         (Id_parse "arch.cxl") HardwareClass.CxlDevice
         [mk_NativeIdentifier "pci.instance" (pci_instance_id device);
          mk_NativeIdentifier "pci.vendor_id" (pci_vendor_id device);
          mk_NativeIdentifier "pci.device_id" (pci_device_id device);
          mk_NativeIdentifier "pci.subsystem_id" (pci_subsystem_id device);
          mk_NativeIdentifier "pci.class_code" (pci_class_code device)] |>
    <| di_platform := pl_id (dx_platform context) |>
    <| di_instance_locator := Some (pci_instance_id device) |>
    <| di_display_name := or_else (pci_description device) "CXL device" |> in
  mk_DeviceRegistration identity (default_software <| sw_runtime := sw_runtime (dx_software context) |>)
    (dx_platform context) false 0 (dx_observed_at_utc context).

Definition cxl_class_reference : string := "SetupDiGetClassDevs(PCI)/class-code 05.02|05.10".

Definition cxl_host_observations (cxl_devices : list PciDeviceRecord) : list Observation :=
  observed (cap "cap.platform.cxl_devices") SupportState.SupportedNative (VCount (lengthN cxl_devices) "devices")
    PrecisionClass.Exact cxl_class_reference ::
  match cxl_devices with
  | [] => [observed (cap "cap.memory.cxl_exposure") SupportState.Unsupported VNone PrecisionClass.Exact
             "SetupDiGetClassDevs(PCI)/no CXL class code present"]
  | _ :: _ => []
  end.

Definition cxl_device_observations : list Observation :=
  [observed (cap "cap.memory.cxl_exposure") SupportState.SupportedNative (VBoolean true) PrecisionClass.DirectReported
     cxl_class_reference;
   observed (cap "cap.interconnect.cxl") SupportState.SupportedNative (VBoolean true) PrecisionClass.DirectReported
     cxl_class_reference].

Fixpoint publish_cxl_devices (context : DiscoveryContext) (devices : list PciDeviceRecord) : Adapting unit :=
  match devices with
  | [] => mret tt
  | device :: rest =>
      registered ← ask (RegisterSubject (cxl_registration device context));
      _ ← match registered with
          | inl _ => mret tt
          | inr subject => publish_observations subject cxl_device_observations
          end;
      publish_cxl_devices context rest
  end.

Definition cxl_discover (bus : option (unit + list PciFunction)) (context : DiscoveryContext) :
    Adapting (Status * DiscoveryReport) :=
  match enumerate_pci_devices bus with
  | (inl _, detail) => return_noting success detail
  | (inr devices, _) =>
      let cxl_devices := List.filter (fun device => is_cxl_class (pci_class_code device)) devices in
      with_subject (host_registration context) (fun subject =>
        _ ← publish_observations subject (cxl_host_observations cxl_devices);
        match cxl_devices with
        | [] => return_noting success "no CXL-class device is present on this platform"
        | _ :: _ =>
            _ ← publish_cxl_devices context cxl_devices;
            return_noting success ("enumerated " +:+ pretty (lengthN cxl_devices) +:+ " CXL-class devices")%string
        end)
  end.

(** Available everywhere, also where the bus cannot be enumerated. *)
Definition make_cxl_backend (bus : option (unit + list PciFunction)) : IDiscoveryBackend :=
  mk_IDiscoveryBackend "cxl.enumeration" SourceClass.CxlEnumeration ProvenanceClass.RealOsReported (true, EmptyString)
    (cxl_discover bus).

(* ===================================================================== *)
(** ** Network interfaces *)

(** [IF_OPER_STATUS]; [OperOther] is any other number. *)
Inductive OperStatus :=
  | OperUp | OperDown | OperTesting | OperUnknown | OperDormant | OperNotPresent | OperLowerLayerDown | OperOther.

Definition interface_state_token (status : OperStatus) : string :=
  match status with
  | OperUp => "up"
  | OperDown => "down"
  | OperTesting => "testing"
  | OperUnknown => "unknown"
  | OperDormant => "dormant"
  | OperNotPresent => "not-present"
  | OperLowerLayerDown => "lower-layer-down"
  | OperOther => "unknown"
  end.

(** The fields read of [IP_ADAPTER_ADDRESSES]; texts are what [narrow] and the
    C string give, empty when absent. *)
Record AdapterAddresses := mk_AdapterAddresses {
  aa_if_type : N;
  aa_if_index : N;
  aa_description : string;
  aa_adapter_name : string;
  aa_oper_status : OperStatus;
  aa_transmit_link_speed : N;
  aa_receive_link_speed : N;
  aa_mtu : N
}.

Definition IF_TYPE_ETHERNET_CSMACD : N := 6.
Definition IF_TYPE_IEEE80211 : N := 71.

Definition physical_interface (entry : AdapterAddresses) : bool :=
  (aa_if_type entry =? IF_TYPE_ETHERNET_CSMACD) || (aa_if_type entry =? IF_TYPE_IEEE80211).

(** [description.substr(0, description.find(' '))]. *)
Definition first_word (text : string) : string :=
  match find_from 0 " " text with Some space => substring 0 space text | None => text end.

Definition nic_registration (entry : AdapterAddresses) (context : DiscoveryContext) : DeviceRegistration :=
  let description := aa_description entry in
  let key := or_else (aa_adapter_name entry) description in
  let identity := default_identity
    <| di_id := canonical_device_id "dev.nic" key |>
    <| di_incarnation := Id_parse (token_from_hash "inc.nic" key) |>
    <| di_hardware := mk_HardwareIdentity
         (Id_parse ("vendor." +:+ canonical_token (first_word description))%string)
         (Id_parse ("product." +:+ canonical_token description)%string)
         (Id_parse (if aa_if_type entry =? IF_TYPE_IEEE80211 then "family.network.wireless" else "family.network.ethernet"))
         (Id_parse ("model." +:+ canonical_token description)%string)
         (Id_parse ("rev.iftype." +:+ pretty (aa_if_type entry))%string)
         (Id_parse "arch.network-adapter") HardwareClass.Nic
         ([mk_NativeIdentifier "windows.interface.index" (pretty (aa_if_index entry));
           mk_NativeIdentifier "windows.interface.description" description;
           mk_NativeIdentifier "windows.interface.type" (pretty (aa_if_type entry))] ++
          if negb (is_empty (aa_adapter_name entry))
          then [mk_NativeIdentifier "windows.adapter.name" (aa_adapter_name entry)] else []) |>
    <| di_platform := pl_id (dx_platform context) |>
    <| di_instance_locator := Some ("ifindex:" +:+ pretty (aa_if_index entry))%string |>
    <| di_display_name := description |> in
  mk_DeviceRegistration identity (default_software <| sw_runtime := sw_runtime (dx_software context) |>)
    (dx_platform context) false (aa_if_index entry) (dx_observed_at_utc context).

Definition kUnknownSpeed : N := u64_modulus - 1.

Definition link_speed (entry : AdapterAddresses) : N :=
  if negb (aa_transmit_link_speed entry =? 0) then aa_transmit_link_speed entry else aa_receive_link_speed entry.

(** [if (test) publish(o);] *)
Definition when (test : bool) (o : Observation) : list Observation := if test then [o] else [].

Definition nic_observations (entry : AdapterAddresses) : list Observation :=
  let speed := link_speed entry in
  [observed (cap "cap.net.interface_state") SupportState.SupportedNative
     (VEnum "interface_state" (interface_state_token (aa_oper_status entry))) PrecisionClass.DirectReported
     "GetAdaptersAddresses/OperStatus"] ++
  when (negb (speed =? 0) && negb (speed =? kUnknownSpeed))
    (observed (cap "cap.net.link_speed") SupportState.SupportedNative (bits_per_second speed)
       PrecisionClass.DirectReported "GetAdaptersAddresses/TransmitLinkSpeed") ++
  when (negb (aa_mtu entry =? 0))
    (observed (cap "cap.net.mtu") SupportState.SupportedNative (VCount (aa_mtu entry) "bytes")
       PrecisionClass.DirectReported "GetAdaptersAddresses/Mtu") ++
  [observed (cap "cap.net.dma") SupportState.SupportedNative (VBoolean true) PrecisionClass.DirectReported
     "GetAdaptersAddresses/physical bus-mastering adapter"].

(** The loop; [published] counts the interfaces that were registered. *)
Fixpoint publish_interfaces (context : DiscoveryContext) (entries : list AdapterAddresses) (published : N) : Adapting N :=
  match entries with
  | [] => mret published
  | entry :: rest =>
      if negb (physical_interface entry) || is_empty (aa_description entry) then publish_interfaces context rest published
      else
        registered ← ask (RegisterSubject (nic_registration entry context));
        match registered with
        | inl _ => publish_interfaces context rest published
        | inr subject =>
            _ ← publish_observations subject (nic_observations entry);
            publish_interfaces context rest (u64_succ published)
        end
  end.

(** [interfaces]: [None] on another system; [inl] the error of
    [GetAdaptersAddresses], after the one retry with a larger buffer. *)
Definition network_discover (interfaces : option (N + list AdapterAddresses)) (context : DiscoveryContext) :
    Adapting (Status * DiscoveryReport) :=
  match interfaces with
  | None => return_noting success "unsupported host platform"
  | Some (inl code) => return_noting success ("GetAdaptersAddresses failed with code " +:+ pretty code)%string
  | Some (inr entries) =>
      published ← publish_interfaces context entries 0;
      return_noting success
        ("published " +:+ pretty published +:+
         " physical network interfaces; RDMA/SR-IOV/offload/SmartNIC capabilities are not discoverable through this API and remain UNKNOWN")%string
  end.

Definition make_network_backend (interfaces : option (N + list AdapterAddresses)) : IDiscoveryBackend :=
  mk_IDiscoveryBackend "nic.windows" SourceClass.OsEnumeration ProvenanceClass.RealOsReported
    (match interfaces with
     | Some _ => (true, EmptyString)
     | None => (false, "the network adapter discovery backend is implemented for Windows hosts only"%string)
     end) (network_discover interfaces).

(* ===================================================================== *)
(** ** The processor and the platform *)

(** The entries of [GetLogicalProcessorInformationEx], in the order of the
    buffer; the last field is the entry's own size, 0 ends the walk. *)
Inductive CacheType := CacheUnified | CacheInstruction | CacheData | CacheTrace.

Inductive TopologyRelation :=
  | RelationProcessorCore
  | RelationNumaNode
  | RelationCache (level : N) (type : CacheType) (size : N)
  | RelationOther.

Record TopologyEntry := mk_TopologyEntry { te_relation : TopologyRelation; te_size : N }.

Record ProcessorTopology := mk_ProcessorTopology {
  physical_cores : N;
  logical_processors : N;
  numa_nodes : N;
  l1d : N;
  l1i : N;
  l2 : N;
  l3 : N
}.

#[global] Instance eta_ProcessorTopology : Eta ProcessorTopology := fun r =>
  mk_ProcessorTopology (physical_cores r) (logical_processors r) (numa_nodes r) (l1d r) (l1i r) (l2 r) (l3 r).

#[global] Instance CacheType_eq_dec : EqDecision CacheType.
Proof. solve_decision. Defined.

Definition note_relation (relation : TopologyRelation) (t : ProcessorTopology) : ProcessorTopology :=
  match relation with
  | RelationProcessorCore => t <| physical_cores ::= u64_succ |>
  | RelationNumaNode => t <| numa_nodes ::= u64_succ |>
  | RelationCache level type size =>
      if (level =? 1) && (type ==? CacheData) then t <| l1d ::= fun n => wrap64 (n + size) |>
      else if (level =? 1) && (type ==? CacheInstruction) then t <| l1i ::= fun n => wrap64 (n + size) |>
      else if level =? 2 then t <| l2 ::= fun n => wrap64 (n + size) |>
      else if level =? 3 then t <| l3 ::= fun n => wrap64 (n + size) |>
      else t
  | RelationOther => t
  end.

Fixpoint walk_topology (entries : list TopologyEntry) (t : ProcessorTopology) : ProcessorTopology :=
  match entries with
  | [] => t
  | entry :: rest =>
      let t := note_relation (te_relation entry) t in
      if te_size entry =? 0 then t else walk_topology rest t
  end.

(** [entries]: [None] when the system does not report them. *)
Definition collect_topology (entries : option (list TopologyEntry)) (active_processors : N) : option ProcessorTopology :=
  match entries with
  | None => None
  | Some entries =>
      let t := walk_topology entries (mk_ProcessorTopology 0 0 0 0 0 0 0) <| logical_processors := active_processors |> in
      if negb (physical_cores t =? 0) then Some t else None
  end.

(** [cpuid]: the registers eax, ebx, ecx, edx as unsigned 32-bit numbers. *)
Record CpuidRegisters := mk_CpuidRegisters { eax : N; ebx : N; ecx : N; edx : N }.

Definition listed (present : bool) (name : string) : list string := if present then [name] else [].

Definition isa_features (cpuid : N -> N -> CpuidRegisters) (xcr0 : N) : list string :=
  let leaf1 := cpuid 1 0 in
  let leaf7 := cpuid 7 0 in
  let ecx1 := N.testbit (ecx leaf1) in
  let edx1 := N.testbit (edx leaf1) in
  let ebx7 := N.testbit (ebx leaf7) in
  let ecx7 := N.testbit (ecx leaf7) in
  let edx7 := N.testbit (edx leaf7) in
  let os_avx := N.land xcr0 6 =? 6 in
  let os_avx512 := N.land xcr0 230 =? 230 in
  let cpu_avx512 := ebx7 16 in
  listed (edx1 26) "sse2" ++ listed (ecx1 0) "sse3" ++ listed (ecx1 9) "ssse3" ++ listed (ecx1 19) "sse4.1" ++
  listed (ecx1 20) "sse4.2" ++ listed (ecx1 22) "movbe" ++ listed (ecx1 23) "popcnt" ++ listed (ecx1 25) "aes" ++
  listed (ecx1 1) "pclmulqdq" ++ listed (ecx1 12) "fma3" ++ listed (ecx1 28) "f16c" ++ listed (ecx1 29) "avx" ++
  listed (ecx1 30) "rdrand" ++ listed (ebx7 3) "bmi1" ++ listed (ebx7 5) "avx2" ++ listed (ebx7 8) "bmi2" ++
  listed (ebx7 18) "rdseed" ++ listed (ebx7 19) "adx" ++ listed (ebx7 29) "sha" ++ listed (ecx7 8) "gfni" ++
  listed (ecx7 9) "vaes" ++ listed (ecx7 10) "vpclmulqdq" ++ listed (edx7 24) "amx.tile" ++
  listed (edx7 25) "amx.int8" ++ listed (edx7 22) "amx.bf16" ++
  listed (os_avx && ebx7 5) "avx2.os-enabled" ++
  listed (os_avx512 && cpu_avx512) "avx512f" ++
  listed (os_avx512 && cpu_avx512 && ebx7 17) "avx512dq" ++
  listed (os_avx512 && cpu_avx512 && ebx7 30) "avx512bw" ++
  listed (os_avx512 && cpu_avx512 && ebx7 31) "avx512vl" ++
  listed (os_avx512 && cpu_avx512 && ecx7 1) "avx512vbmi" ++
  listed (os_avx512 && cpu_avx512 && ecx7 11) "avx512vnni".

Definition collect_isa_features (cpuid : N -> N -> CpuidRegisters) (xcr0 : N) : list string :=
  std_unique (std_sort string_ltb (isa_features cpuid xcr0)).

Definition cpu_vendor_token (vendor_string : string) : string :=
  if has_text "AuthenticAMD" vendor_string then "vendor:amd"
  else if has_text "GenuineIntel" vendor_string then "vendor:intel"
  else ("vendor:" +:+ canonical_token vendor_string)%string.

(** The characters of a C string: up to the first null. *)
Fixpoint c_string (chars : list ascii) : list ascii :=
  match chars with [] => [] | c :: rest => if Ascii.eqb c "000" then [] else c :: c_string rest end.

(** [s.c_str()], read back as a text. *)
Definition c_str (s : string) : string := string_of_list_ascii (c_string (list_ascii_of_string s)).

Fixpoint trim_front (chars : list ascii) : list ascii :=
  match chars with
  | c :: rest => if Ascii.eqb c " " || Ascii.eqb c "000" then trim_front rest else chars
  | [] => []
  end.

Definition register_chars (value : N) : list ascii :=
  map (fun i => ascii_of_N (N.land (N.shiftr value (8 * i)) 255)) [0; 1; 2; 3].

Definition brand_string (cpuid : N -> N -> CpuidRegisters) : string :=
  let leaf i := let r := cpuid (0x80000002 + i) 0 in
    register_chars (eax r) ++ register_chars (ebx r) ++ register_chars (ecx r) ++ register_chars (edx r) in
  let brand := c_string (leaf 0 ++ leaf 1 ++ leaf 2) in
  string_of_list_ascii (reverse (trim_front (reverse (trim_front brand)))).

(** [snprintf] with ["%x"]. *)
Fixpoint drop_zeros (s : string) : string :=
  match s with
  | String c ((String _ _) as rest) => if Ascii.eqb c "0" then drop_zeros rest else s
  | _ => s
  end.

Definition hex_text (value : N) : string := drop_zeros (hex64 value).

Definition cpu_signature (leaf1 : CpuidRegisters) : N * N * N :=
  let field shift mask := N.land (N.shiftr (eax leaf1) shift) mask in
  let base_family := field 8 15 in
  let base_model := field 4 15 in
  let display_family := if base_family =? 15 then base_family + field 20 255 else base_family in
  let display_model :=
    if (base_family =? 15) || (base_family =? 6) then N.shiftl (field 16 15) 4 + base_model else base_model in
  (display_family, display_model, field 0 15).

(** What the host answers. *)
Record WindowsHost := mk_WindowsHost {
  wh_topology : option (list TopologyEntry);
  wh_active_processors : N;
  wh_vendor_identifier : string;
  wh_processor_name : string;
  wh_cpuid : N -> N -> CpuidRegisters;
  wh_xcr0 : N;
  wh_large_page_minimum : N;
  (** [RtlGetVersion]: major, minor, build. *)
  wh_version : option (N * N * N);
  (** [registry_string] of the BIOS key; empty when absent. *)
  wh_bios : string -> string;
  wh_computer_name : option string
}.

Definition windows_build (host : WindowsHost) : string :=
  match wh_version host with
  | None => EmptyString
  | Some (major, minor, build) => (pretty major +:+ "." +:+ pretty minor +:+ "." +:+ pretty build)%string
  end.

Definition cpu_registration (host : WindowsHost) (topology : ProcessorTopology) (context : DiscoveryContext) :
    DeviceRegistration :=
  let vendor_string := wh_vendor_identifier host in
  let processor_name := wh_processor_name host in
  let brand := brand_string (wh_cpuid host) in
  let '(family, model, stepping) := cpu_signature (wh_cpuid host 1 0) in
  let vendor_token := cpu_vendor_token (c_str (or_else vendor_string brand)) in
  let model_token := canonical_token (or_else processor_name brand) in
  let identity := default_identity
    <| di_id := canonical_device_id "dev.cpu" (vendor_token +:+ "|" +:+ model_token)%string |>
    <| di_incarnation := Id_parse (token_from_hash "inc.cpu"
         (vendor_token +:+ "|" +:+ model_token +:+ "|" +:+ pretty (physical_cores topology))%string) |>
    <| di_hardware := mk_HardwareIdentity (Id_parse vendor_token)
         (Id_parse ("product." +:+ model_token)%string)
         (Id_parse ("family." +:+ canonical_token (or_else vendor_string "unknown"))%string)
         (Id_parse ("model." +:+ model_token)%string)
         (Id_parse ("rev." +:+ canonical_token vendor_token +:+ "." +:+ hex_text family +:+ "." +:+ hex_text model +:+ "." +:+
                    hex_text stepping)%string)
         (Id_parse "arch.x86_64") HardwareClass.Cpu
         [mk_NativeIdentifier "cpuid.vendor" (or_else vendor_string brand);
          mk_NativeIdentifier "cpuid.brand" brand;
          mk_NativeIdentifier "cpuid.family" (hex_text family);
          mk_NativeIdentifier "cpuid.model" (hex_text model);
          mk_NativeIdentifier "cpuid.stepping" (hex_text stepping);
          mk_NativeIdentifier "windows.processor.count" (pretty (logical_processors topology))] |>
    <| di_platform := pl_id (dx_platform context) |>
    <| di_display_name := or_else processor_name brand |> in
  mk_DeviceRegistration identity (dx_software context) (dx_platform context) false 0 (dx_observed_at_utc context).

Definition cache_fields (t : ProcessorTopology) : list (string * option CapabilityValue) :=
  let field name bytes := if bytes =? 0 then [] else [(name, Some (VBytes bytes))] in
  std_sort (fun a b => string_ltb a.1 b.1)
    (field "l1d.bytes"%string (l1d t) ++ field "l1i.bytes"%string (l1i t) ++ field "l2.bytes"%string (l2 t) ++
     field "l3.bytes"%string (l3 t)).

Definition page_sizes (large_page : N) : list string :=
  std_sort string_ltb
    (["4k"%string] ++ listed (N.shiftl 2 20 <=? large_page) "2m" ++ listed (N.shiftl 1 30 <=? large_page) "1g").

Definition native (name : string) (value : CapabilityValue) (precision : PrecisionClass) (reference : string) : Observation :=
  observed (cap name) SupportState.SupportedNative value precision reference.

Definition cpu_observations (host : WindowsHost) (t : ProcessorTopology) : list Observation :=
  [native "cap.compute.architecture" (VArchitectureSet [Id_parse "arch.x86_64"]) PrecisionClass.DirectReported
     "cpuid vendor/family";
   native "cap.platform.cpu.isa_features" (VFeatureSet (collect_isa_features (wh_cpuid host) (wh_xcr0 host)))
     PrecisionClass.Probed "cpuid + xgetbv";
   native "cap.platform.cpu.logical_processors" (VCount (logical_processors t) "processors") PrecisionClass.Exact
     "GetActiveProcessorCount";
   native "cap.platform.cpu.physical_cores" (VCount (physical_cores t) "cores") PrecisionClass.Exact
     "GetLogicalProcessorInformationEx(RelationProcessorCore)"] ++
  when (negb (numa_nodes t =? 0))
    (native "cap.memory.numa_nodes" (VCount (numa_nodes t) "nodes") PrecisionClass.Exact
       "GetLogicalProcessorInformationEx(RelationNumaNode)") ++
  when (negb (l1d t =? 0) || negb (l2 t =? 0) || negb (l3 t =? 0))
    (native "cap.platform.cache_hierarchy" (VRecord (cache_fields t)) PrecisionClass.Exact
       "GetLogicalProcessorInformationEx(RelationCache)") ++
  [native "cap.platform.page_sizes" (VFeatureSet (page_sizes (wh_large_page_minimum host)))
     PrecisionClass.DirectReported "GetSystemInfo + GetLargePageMinimum"].

Definition os_observations (host : WindowsHost) : list Observation :=
  let build := windows_build host in
  native "cap.platform.os" (VEnum "os" "windows") PrecisionClass.DirectReported "RtlGetVersion" ::
  when (negb (is_empty build))
    (native "cap.platform.kernel" (VEnum "kernel" build) PrecisionClass.DirectReported "RtlGetVersion").

Definition cpu_discover (host : option WindowsHost) (context : DiscoveryContext) : Adapting (Status * DiscoveryReport) :=
  match host with
  | None => return_noting success "unsupported host platform"
  | Some host =>
      match collect_topology (wh_topology host) (wh_active_processors host) with
      | None =>
          return_noting (failure Internal "processor topology unavailable")
            "GetLogicalProcessorInformationEx did not report processor topology"
      | Some topology =>
          with_subject (cpu_registration host topology context) (fun cpu_subject =>
            _ ← publish_observations cpu_subject (cpu_observations host topology);
            with_subject (host_registration context) (fun host_subject =>
              _ ← publish_observations host_subject (os_observations host);
              return_with success))
      end
  end.

Definition make_cpu_platform_backend (host : option WindowsHost) : IDiscoveryBackend :=
  mk_IDiscoveryBackend "cpu.platform" SourceClass.OsEnumeration ProvenanceClass.RealOsReported
    (match host with
     | Some _ => (true, EmptyString)
     | None => (false, "the CPU discovery adapter is implemented for Windows hosts only"%string)
     end) (cpu_discover host).

(** [probe_host_platform]: what it leaves in its arguments when it succeeds;
    [detail] is returned either way. *)
Record HostProbe := mk_HostProbe {
  hp_platform : PlatformIdentity;
  hp_environment : EnvironmentContext;
  hp_software : DeviceSoftwareState
}.

Definition probe_platform (host : WindowsHost) : PlatformIdentity :=
  let bios := wh_bios host in
  let system_product := bios "SystemProductName"%string in
  let system_vendor := bios "SystemManufacturer"%string in
  let board_product := bios "BaseBoardProduct"%string in
  mk_PlatformIdentity
    (Id_parse (token_from_hash "platform.host"
       (default "unnamed"%string (wh_computer_name host) +:+ "|" +:+ system_vendor +:+ "|" +:+ system_product +:+ "|" +:+
        board_product +:+ "|" +:+ bios "BIOSVersion"%string)%string))
    (or_else system_product board_product)
    (or_else system_vendor (bios "BaseBoardManufacturer"%string))
    (or_else board_product system_product)
    (Id_parse "arch.x86_64")
    [mk_NativeIdentifier "smbios.bios.vendor" (bios "BIOSVendor"%string);
     mk_NativeIdentifier "smbios.bios.version" (bios "BIOSVersion"%string);
     mk_NativeIdentifier "smbios.bios.release_date" (bios "BIOSReleaseDate"%string);
     mk_NativeIdentifier "smbios.board.product" board_product;
     mk_NativeIdentifier "smbios.system.product" system_product].

Definition probe_host_platform (host : option WindowsHost) (probe : HostProbe) : Status * string * HostProbe :=
  match host with
  | None =>
      let detail := "host platform probing is implemented for Windows hosts only"%string in
      (failure NotFound detail, detail, probe)
  | Some host =>
      let bios := wh_bios host in
      let build := windows_build host in
      let platform := probe_platform host in
      let software := hp_software probe
        <| sw_firmware := mk_FirmwareIdentity
             (Id_parse ("fw." +:+ canonical_token (or_else (bios "BIOSVendor"%string) "unknown-bios-vendor"))%string)
             (bios "BIOSVersion"%string) (bios "BIOSReleaseDate"%string) |>
        <| sw_runtime := mk_RuntimeIdentity (Id_parse "runtime.windows") build |> in
      let environment := env_set (hp_environment probe) kOs "windows" in
      let environment := if negb (is_empty build) then env_set environment kKernelVersion build else environment in
      (success,
       ("platform " +:+ id_str (pl_id platform) +:+ " (" +:+ pl_display_name platform +:+ "), firmware " +:+
        or_else (bios "BIOSVersion"%string) "unknown")%string,
       mk_HostProbe platform environment software)
  end.

(* ===================================================================== *)
(** ** Properties *)

Lemma elem_of_listed f present name : f ∈ listed present name <-> present = true /\ f = name.
Proof. destruct present; cbn; set_solver. Qed.

(** The extended family and model of the signature are the fields of their
    own width: a part of family 1Ah has the model its own four bits give. *)
Example cpu_signature_family_1ah ebx ecx edx :
  cpu_signature (mk_CpuidRegisters 0x00b40f40 ebx ecx edx) = (26, 68, 0).
Proof. reflexivity. Qed.

Example cpu_signature_family_6 ebx ecx edx :
  cpu_signature (mk_CpuidRegisters 0x000906ea ebx ecx edx) = (6, 158, 10).
Proof. reflexivity. Qed.

(** Walks a list of listed names one by one. *)
Lemma listed_cases f present name l : f ∈ listed present name ++ l -> (present = true /\ f = name) \/ f ∈ l.
Proof. rewrite elem_of_app, elem_of_listed. tauto. Qed.

Lemma listed_here present name l : present = true -> name ∈ listed present name ++ l.
Proof. intros ->. left. Qed.

Lemma listed_there f present name l : f ∈ l -> f ∈ listed present name ++ l.
Proof. intros Hf. by apply elem_of_app; right. Qed.

Lemma listed_last present name : present = true -> name ∈ listed present name.
Proof. intros ->. left. Qed.

Ltac find_listed := repeat first [apply listed_here; done | apply listed_last; done | apply listed_there].
Ltac each_listed H := repeat (apply listed_cases in H as [[?Hp ->]|H]); [..|apply elem_of_listed in H as [?Hp ->]].

Definition avx512_enabled (cpuid : N -> N -> CpuidRegisters) (xcr0 : N) : bool :=
  N.testbit (ebx (cpuid 7 0)) 16 && (N.land xcr0 230 =? 230).

Lemma isa_features_cases cpuid xcr0 f : f ∈ isa_features cpuid xcr0 ->
  is_canonical_token f = true /\ (String.prefix "avx512" f = true -> avx512_enabled cpuid xcr0 = true).
Proof.
  unfold isa_features, avx512_enabled. intros Hf. each_listed Hf;
    (split; [by vm_compute|]; intros Hpre; try (exfalso; vm_compute in Hpre; discriminate Hpre));
    rewrite !andb_true_iff in *; destruct_and!; by split.
Qed.

Lemma length_isa_features cpuid xcr0 : (length (isa_features cpuid xcr0) <= 32)%nat.
Proof.
  assert (Hlisted : forall b name, (length (listed b name) <= 1)%nat) by (intros [] name; cbn; lia).
  unfold isa_features. rewrite !length_app.
  repeat match goal with |- context[length (listed ?b ?n)] =>
    pose proof (Hlisted b n); generalize dependent (length (listed b n)); intros end.
  lia.
Qed.

Lemma length_std_unique {A} `{EqDecision A} (l : list A) : (length (std_unique l) <= length l)%nat.
Proof.
  induction l as [|x [|y l] IH]; [done|done|]. cbn [std_unique] in *. destruct (x ==? y); cbn [length] in *; lia.
Qed.

(** A sorted set of canonical names within the limit is stored as it is. *)
Lemma feature_set_stored limits l : forallb is_canonical_token l = true -> lengthN l <= max_feature_set_entries limits ->
  let features := std_unique (std_sort string_ltb l) in
  normalize_value limits (VFeatureSet features) = Value (VFeatureSet features).
Proof.
  intros Hc Hl features. apply normalize_validated. cbn [validate_value validate_scalar].
  assert (Hlen : lengthN features <= lengthN l).
  { unfold lengthN, features. pose proof (length_std_unique (std_sort string_ltb l)). rewrite length_std_sort in *. lia. }
  rewrite (proj2 (N.ltb_ge _ _)) by lia. rewrite check_tokens_ok. apply andb_true_iff. split.
  - rewrite forallb_forall in Hc |- *. intros x Hx. apply Hc. apply list_elem_of_In in Hx. apply list_elem_of_In.
    unfold features in Hx. by rewrite elem_of_sort_unique in Hx.
  - apply ascending_spec; [apply _|]. apply sort_unique_strict, _.
Qed.

(** The instruction set a CPU is reported with is a canonical set, which
    the registry stores as it is; nothing of AVX-512 is in it unless the
    processor has the foundation and the system enabled its registers, and
    then the foundation is. *)
Theorem isa_features_sound cpuid xcr0 :
  let features := collect_isa_features cpuid xcr0 in
  normalize_value default_limits (VFeatureSet features) = Value (VFeatureSet features) /\
  (forall f, f ∈ features -> String.prefix "avx512" f = true -> avx512_enabled cpuid xcr0 = true) /\
  ("avx512f"%string ∈ features <-> avx512_enabled cpuid xcr0 = true).
Proof.
  cbv zeta. unfold collect_isa_features. split_and!.
  - apply feature_set_stored.
    + apply forallb_forall. intros f Hf%list_elem_of_In. by apply (isa_features_cases cpuid xcr0).
    + pose proof (length_isa_features cpuid xcr0). unfold lengthN. cbn. lia.
  - intros f. rewrite elem_of_sort_unique. intros Hf. by apply isa_features_cases.
  - rewrite elem_of_sort_unique. split; [intros Hf; by apply (isa_features_cases _ _ _ Hf)|].
    unfold avx512_enabled, isa_features. intros [H1 H2]%andb_true_iff. rewrite H1, H2. find_listed.
Qed.

(** Bit 28 of the feature register is AVX and bit 29 is F16C; the adapter
    reads them the other way round, so a processor with AVX but without F16C
    is reported with F16C and without AVX. *)
Theorem avx_reported_as_f16c cpuid xcr0 :
  N.testbit (ecx (cpuid 1 0)) 28 = true -> N.testbit (ecx (cpuid 1 0)) 29 = false ->
  "f16c"%string ∈ collect_isa_features cpuid xcr0 /\ "avx"%string ∉ collect_isa_features cpuid xcr0.
Proof.
  intros H28 H29. unfold collect_isa_features. rewrite !elem_of_sort_unique. unfold isa_features.
  split; [find_listed|]. intros Hf.
  assert (Hnamed : forall f, f ∈ isa_features cpuid xcr0 -> f = "avx"%string -> N.testbit (ecx (cpuid 1 0)) 29 = true).
  { clear. intros f Hf Ha. unfold isa_features in Hf. each_listed Hf; done || discriminate Ha. }
  specialize (Hnamed _ Hf eq_refl). congruence.
Qed.
