(* ===== verification/GpuAdapters.v ===== *)
(** * The GPU adapters

    Models [adapter_nvml.cpp] and [adapter_cuda.cpp]. The vendor libraries are
    arguments: each entry point is absent ([None], a null pointer) or answers
    with a code and a value. What an adapter publishes about a device is
    computed apart from its publication, so that each claim can be traced to
    the answer it rests on. *)

From S2P Require Import Prelude Tokens Versions Support Conditions Values Hardware Quirks Compat Publication.
From S2P Require Import RegistryState Fixtures Resolution Publishers Devices Knowledge Evidence Ingest Runs Catalog System.
From S2P Require Import Wire Checksum Codec Frames Queries Render Snapshots Durable Image QueryCodec Messages Coordinator Client.
From S2P Require Import Programs AdapterCommon Discovery HostAdapters.

Definition gpu_device_id_from_uuid (uuid : string) : DeviceId := canonical_device_id "dev.gpu" (canonical_token uuid).

(** An entry point of a library, and its answer when it succeeds; one that
    fails leaves its outputs alone. *)
Definition Entry (I O : Type) : Type := option (I -> Z * O).

Definition succeeded {I O} (entry : Entry I O) (input : I) : option O :=
  match entry with
  | Some f => let '(code, output) := f input in if (code =? 0)%Z then Some output else None
  | None => None
  end.

Definition resolved {I O} (entry : Entry I O) : bool := match entry with Some _ => true | None => false end.

(** [read_string] over a buffer of the library, empty unless it succeeds. *)
Definition read_string (buffer : list ascii) : string := string_of_list_ascii (c_string buffer).

Definition text_of {I} (entry : Entry I (list ascii)) (input : I) : string :=
  match succeeded entry input with Some buffer => read_string buffer | None => EmptyString end.

Definition is_present {A} (o : option A) : bool := match o with Some _ => true | None => false end.

(* ===================================================================== *)
(** ** NVML *)

Record NvmlPciInfo := mk_NvmlPciInfo { np_pci_device_id : N; np_pci_subsystem_id : N; np_bus_id : list ascii }.

(** Device handles are numbers. *)
Record NvmlApi := mk_NvmlApi {
  nv_library : bool;
  nv_init : Entry unit unit;
  nv_driver_version : Entry unit (list ascii);
  nv_nvml_version : Entry unit (list ascii);
  nv_get_count : Entry unit N;
  nv_get_handle : Entry N N;
  nv_get_name : Entry N (list ascii);
  nv_get_uuid : Entry N (list ascii);
  nv_get_pci_info : Entry N NvmlPciInfo;
  nv_get_memory : Entry N N;
  nv_get_compute : Entry N (Z * Z);
  nv_get_vbios : Entry N (list ascii);
  nv_get_serial : Entry N (list ascii);
  nv_get_mig_mode : Entry N N;
  nv_get_ecc_mode : Entry N Z;
  nv_get_power_limits : Entry N (N * N);
  nv_get_temperature_count : Entry N N;
  nv_get_bus_width : Entry N N;
  nv_get_cores : Entry N N
}.

Definition kNvmlErrorNotSupported : Z := 3.

Definition nvml_start (api : NvmlApi) : bool := nv_library api && is_present (succeeded (nv_init api) tt).

Definition nvidia_family_for (name : string) : string :=
  if has_text "RTX" name || has_text "GeForce" name || has_text "GTX" name then "family.nvidia.geforce"
  else if has_text "A100" name || has_text "H100" name || has_text "H200" name || has_text "B200" name ||
          has_text "GB200" name then "family.nvidia.datacenter"
  else if has_text "BlueField" name then "family.nvidia.dpu"
  else if has_text "ConnectX" name then "family.nvidia.nic"
  else "family.nvidia.other".

(** [snprintf] with ["%04x"] of the low 16 bits. *)
Definition hex_word (value : N) : string := hex_digits 4 (N.land value 65535) EmptyString.

(** [uuid], or a name made of the index. *)
Definition nvml_uuid (api : NvmlApi) (index handle : N) : string :=
  or_else (text_of (nv_get_uuid api) handle) ("GPU-index-" +:+ pretty index)%string.

Definition compute_capability (version : Z * Z) : string := (pretty version.1 +:+ "." +:+ pretty version.2)%string.

Definition nvml_identity (api : NvmlApi) (index handle : N) (context : DiscoveryContext) : DeviceIdentity :=
  let name := text_of (nv_get_name api) handle in
  let uuid := nvml_uuid api index handle in
  let vbios := text_of (nv_get_vbios api) handle in
  let serial := text_of (nv_get_serial api) handle in
  let pci := succeeded (nv_get_pci_info api) handle in
  let compute := succeeded (nv_get_compute api) handle in
  default_identity
    <| di_id := gpu_device_id_from_uuid uuid |>
    <| di_incarnation := Id_parse (token_from_hash "inc.gpu" uuid) |>
    <| di_hardware := mk_HardwareIdentity (Id_parse "vendor.nvidia")
         (Id_parse ("product.nvidia." +:+ canonical_token name)%string)
         (Id_parse (nvidia_family_for name))
         (Id_parse ("model.nvidia." +:+ canonical_token name)%string)
         (Id_parse ("rev.nvidia.pci." +:+
                    match pci with Some p => hex_word (np_pci_device_id p) | None => "unknown" end)%string)
         (Id_parse match compute with
                   | Some (major, minor) => ("arch.nvidia.sm_" +:+ pretty (major * 10 + minor)%Z)%string
                   | None => "arch.nvidia.unknown"
                   end)
         (if has_text "BlueField" name then HardwareClass.Dpu else HardwareClass.Gpu)
         ([mk_NativeIdentifier "nvml.uuid" uuid; mk_NativeIdentifier "nvml.name" name] ++
          match pci with
          | Some p => [mk_NativeIdentifier "nvml.pci.bus_id" (read_string (np_bus_id p));
                       mk_NativeIdentifier "pci.device_id" (hex_word (np_pci_device_id p));
                       mk_NativeIdentifier "pci.subsystem_id" (hex_word (np_pci_subsystem_id p))]
          | None => []
          end ++
          (if negb (is_empty vbios) then [mk_NativeIdentifier "nvml.vbios" vbios] else []) ++
          match compute with
          | Some version => [mk_NativeIdentifier "cuda.compute_capability" (compute_capability version)]
          | None => []
          end) |>
    <| di_instance_locator := option_map (fun p => read_string (np_bus_id p)) pci |>
    <| di_platform := pl_id (dx_platform context) |>
    <| di_display_name := or_else name uuid |>
    <| di_serial_number := if negb (is_empty serial) then Some serial else None |>.

Definition nvml_registration (api : NvmlApi) (index handle : N) (context : DiscoveryContext) : DeviceRegistration :=
  mk_DeviceRegistration (nvml_identity api index handle context)
    (default_software
       <| sw_driver := mk_DriverIdentity (Id_parse "driver.nvidia") (text_of (nv_driver_version api) tt) |>
       <| sw_firmware := mk_FirmwareIdentity (Id_parse "fw.nvidia.vbios") (text_of (nv_get_vbios api) handle) EmptyString |>
       <| sw_runtime := mk_RuntimeIdentity (Id_parse "runtime.nvml") (text_of (nv_nvml_version api) tt) |>)
    (dx_platform context) false index (dx_observed_at_utc context).

(** A positive count as a claim. *)
Definition counted (entry : Entry N N) (handle : N) (o : N -> Observation) : list Observation :=
  match succeeded entry handle with
  | Some n => if negb (n =? 0) then [o n] else []
  | None => []
  end.

Definition unsupported (name reference : string) : Observation :=
  observed (cap name) SupportState.Unsupported VNone PrecisionClass.Exact reference.

Definition mig_observations (api : NvmlApi) (handle : N) : list Observation :=
  match nv_get_mig_mode api with
  | None => []
  | Some f =>
      let '(result, current) := f handle in
      if (result =? 0)%Z then
        [observed (cap "cap.partition.mechanism")
           (if current =? 1 then SupportState.SupportedNative else SupportState.Disabled)
           (VFeatureSet ["mig"]) PrecisionClass.DirectReported "nvmlDeviceGetMigMode"]
      else if (result =? kNvmlErrorNotSupported)%Z then
        [unsupported "cap.partition.mechanism" "nvmlDeviceGetMigMode -> NVML_ERROR_NOT_SUPPORTED";
         unsupported "cap.partition.max_partitions" "nvmlDeviceGetMigMode -> NVML_ERROR_NOT_SUPPORTED"]
      else []
  end.

Definition ecc_observations (api : NvmlApi) (handle : N) : list Observation :=
  match nv_get_ecc_mode api with
  | None => []
  | Some f =>
      let '(result, current) := f handle in
      if (result =? 0)%Z then
        [native "cap.memory.ecc" (VEnum "ecc" (if (current =? 1)%Z then "enabled" else "disabled"))
           PrecisionClass.DirectReported "nvmlDeviceGetEccMode";
         native "cap.reliability.ecc_exposure" (VBoolean true) PrecisionClass.DirectReported "nvmlDeviceGetEccMode"]
      else if (result =? kNvmlErrorNotSupported)%Z then
        [unsupported "cap.memory.ecc" "nvmlDeviceGetEccMode -> NVML_ERROR_NOT_SUPPORTED";
         unsupported "cap.reliability.ecc_exposure" "nvmlDeviceGetEccMode -> NVML_ERROR_NOT_SUPPORTED"]
      else []
  end.

Definition power_observations (api : NvmlApi) (handle : N) : list Observation :=
  match succeeded (nv_get_power_limits api) handle with
  | Some (minimum, maximum) =>
      if minimum <? maximum
      then [native "cap.power.cap_range" (VNumericRange (Z.of_N minimum) (Z.of_N maximum) 1)
              PrecisionClass.DirectReported "nvmlDeviceGetPowerManagementLimitConstraints"]
      else []
  | None => []
  end.

(** The surfaces whose entry points the library has. *)
Definition telemetry (api : NvmlApi) : list string :=
  std_sort string_ltb
    (listed (resolved (nv_get_memory api)) "memory" ++ listed (resolved (nv_get_power_limits api)) "power-cap" ++
     listed (resolved (nv_get_temperature_count api)) "temperature").

Definition nvml_observations (api : NvmlApi) (handle : N) : list Observation :=
  match succeeded (nv_get_compute api) handle with
  | Some version => [native "cap.compute.capability" (VEnum "compute_capability" (compute_capability version))
                       PrecisionClass.DirectReported "nvmlDeviceGetCudaComputeCapability"]
  | None => []
  end ++
  counted (nv_get_memory api) handle
    (fun n => native "cap.memory.capacity" (VBytes n) PrecisionClass.Exact "nvmlDeviceGetMemoryInfo") ++
  counted (nv_get_bus_width api) handle
    (fun n => native "cap.memory.bus_width_bits" (VCount n "bits") PrecisionClass.DirectReported "nvmlDeviceGetMemoryBusWidth") ++
  counted (nv_get_cores api) handle
    (fun n => native "cap.compute.execution_units" (VCount n "cores") PrecisionClass.DirectReported "nvmlDeviceGetNumGpuCores") ++
  mig_observations api handle ++ ecc_observations api handle ++ power_observations api handle ++
  counted (nv_get_temperature_count api) handle
    (fun n => native "cap.power.thermal_sensors" (VCount n "sensors") PrecisionClass.DirectReported "nvmlDeviceGetTemperatureCount") ++
  match telemetry api with
  | [] => []
  | surfaces => [native "cap.reliability.telemetry_visibility" (VFeatureSet surfaces) PrecisionClass.DirectReported
                   "nvml device queries"]
  end.

(** The loop over indices; [Some] is an early return. *)
Fixpoint publish_nvml_devices (api : NvmlApi) (context : DiscoveryContext) (indices : list N) :
    Adapting (option (Status * DiscoveryReport)) :=
  match indices with
  | [] => mret None
  | index :: rest =>
      match succeeded (nv_get_handle api) index with
      | None => publish_nvml_devices api context rest
      | Some handle =>
          registered ← ask (RegisterSubject (nvml_registration api index handle context));
          match registered with
          | inl status =>
              returned ← return_noting status ("NVML device registration failed: " +:+ describe status)%string;
              mret (Some returned)
          | inr subject =>
              _ ← publish_observations subject (nvml_observations api handle);
              publish_nvml_devices api context rest
          end
      end
  end.

Definition nvml_discover (api : NvmlApi) (context : DiscoveryContext) : Adapting (Status * DiscoveryReport) :=
  if negb (nvml_start api) then return_noting success "NVML unavailable"
  else if negb (resolved (nv_get_count api)) then return_noting success "NVML does not expose nvmlDeviceGetCount_v2"
  else match succeeded (nv_get_count api) tt with
  | None => return_noting success "nvmlDeviceGetCount_v2 failed"
  | Some count =>
      let driver_version := text_of (nv_driver_version api) tt in
      returned ← publish_nvml_devices api context (map N.of_nat (seq 0 (N.to_nat count)));
      match returned with
      | Some returned => mret returned
      | None =>
          registered ← ask (RegisterSubject (host_registration context));
          _ ← match registered with
              | inl _ => mret tt
              | inr subject =>
                  publish_observations subject
                    [native "cap.platform.accelerators" (VCount count "devices") PrecisionClass.Exact "nvmlDeviceGetCount_v2"]
              end;
          return_noting success
            ("NVML reported " +:+ pretty count +:+ " devices, driver " +:+ or_else driver_version "unknown")%string
      end
  end.

Definition make_nvml_backend (api : NvmlApi) : IDiscoveryBackend :=
  mk_IDiscoveryBackend "nvml" SourceClass.Nvml ProvenanceClass.RealVendorApi
    (if negb (nvml_start api) then (false, "NVML is not present or cannot be initialized on this host"%string)
     else (true, EmptyString)) (nvml_discover api).

(* ===================================================================== *)
(** ** CUDA *)

Record CudaApi := mk_CudaApi {
  cu_library : bool;
  cu_init : Entry unit unit;
  cu_driver_get_version : Entry unit Z;
  cu_get_count : Entry unit Z;
  cu_get_device : Entry Z Z;
  cu_get_name : Entry Z (list ascii);
  cu_get_uuid : Entry Z (list N);
  cu_get_attribute : Entry (Z * Z) Z
}.

Definition cuda_start (api : CudaApi) : bool :=
  cu_library api && resolved (cu_get_count api) && is_present (succeeded (cu_init api) tt).

Definition kAttributeMultiprocessorCount : Z := 16.
Definition kAttributeCanMapHostMemory : Z := 19.
Definition kAttributeConcurrentKernels : Z := 31.
Definition kAttributeUnifiedAddressing : Z := 41.
Definition kAttributeComputeCapabilityMajor : Z := 75.
Definition kAttributeComputeCapabilityMinor : Z := 76.
Definition kAttributeManagedMemory : Z := 83.
Definition kAttributeCooperativeLaunch : Z := 95.

Definition curated_architectures : list (string * list string) :=
  [("arch.nvidia.sm_70", ["fp16"; "int8"]);
   ("arch.nvidia.sm_75", ["fp16"; "int4"; "int8"]);
   ("arch.nvidia.sm_80", ["bf16"; "fp16"; "int4"; "int8"; "tf32"]);
   ("arch.nvidia.sm_86", ["bf16"; "fp16"; "int4"; "int8"; "tf32"]);
   ("arch.nvidia.sm_89", ["bf16"; "fp16"; "int4"; "int8"; "tf32"]);
   ("arch.nvidia.sm_90", ["bf16"; "fp16"; "fp8"; "int4"; "int8"; "tf32"]);
   ("arch.nvidia.sm_100", ["bf16"; "fp16"; "fp8"; "int4"; "int8"; "tf32"]);
   ("arch.nvidia.sm_120", ["bf16"; "fp16"; "int4"; "int8"; "tf32"])]%string.

Definition find_curated (architecture : string) : option (list string) :=
  option_map snd (List.find (fun entry => entry.1 ==? architecture) curated_architectures).

Definition cuda_version (driver_version : Z) : string :=
  (pretty (Z.quot driver_version 1000) +:+ "." +:+ pretty (Z.quot (Z.rem driver_version 1000) 10))%string.

Definition attribute_of (api : CudaApi) (device code : Z) : Z := default 0%Z (succeeded (cu_get_attribute api) (code, device)).

Definition cuda_architecture (api : CudaApi) (device : Z) : string :=
  let major := attribute_of api device kAttributeComputeCapabilityMajor in
  let minor := attribute_of api device kAttributeComputeCapabilityMinor in
  if (0 <? major)%Z then ("arch.nvidia.sm_" +:+ pretty (major * 10 + minor)%Z)%string else "arch.nvidia.unknown".

Definition cuda_registration (api : CudaApi) (driver_version index device : Z) (uuid : string) (context : DiscoveryContext) :
    DeviceRegistration :=
  let name := text_of (cu_get_name api) device in
  let identity := default_identity
    <| di_id := gpu_device_id_from_uuid uuid |>
    <| di_incarnation := Id_parse (token_from_hash "inc.gpu" uuid) |>
    <| di_hardware := mk_HardwareIdentity (Id_parse "vendor.nvidia")
         (Id_parse ("product.nvidia." +:+ canonical_token name)%string) (Id_parse "family.nvidia.cuda-device")
         (Id_parse ("model.nvidia." +:+ canonical_token name)%string) (Id_parse "rev.nvidia.cuda-device")
         (Id_parse (cuda_architecture api device)) HardwareClass.Gpu
         [mk_NativeIdentifier "cuda.uuid" uuid; mk_NativeIdentifier "cuda.name" name;
          mk_NativeIdentifier "cuda.ordinal" (pretty index)] |>
    <| di_platform := pl_id (dx_platform context) |>
    <| di_display_name := or_else name uuid |> in
  mk_DeviceRegistration identity
    (default_software <| sw_runtime := mk_RuntimeIdentity (Id_parse "runtime.cuda")
       (if negb (driver_version =? 0)%Z then cuda_version driver_version else EmptyString) |>)
    (dx_platform context) false (Z.to_N index) (dx_observed_at_utc context).

(** A claim under the adapter's own class, whatever the context says. *)
Definition cuda_native (name : string) (value : CapabilityValue) (reference : string) : Observation :=
  mk_Observation (cap name) SupportState.SupportedNative value PrecisionClass.DirectReported reference None
    SourceClass.CudaRuntime ProvenanceClass.RealVendorApi.

(** A boolean attribute that is set. *)
Definition cuda_flag (api : CudaApi) (device code : Z) (name reference : string) : list Observation :=
  when (negb (attribute_of api device code =? 0)%Z) (cuda_native name (VBoolean true) reference).

Definition cuda_observations (api : CudaApi) (device : Z) : list Observation :=
  let major := attribute_of api device kAttributeComputeCapabilityMajor in
  let minor := attribute_of api device kAttributeComputeCapabilityMinor in
  let architecture := cuda_architecture api device in
  let multiprocessors := attribute_of api device kAttributeMultiprocessorCount in
  (if (0 <? major)%Z
   then [cuda_native "cap.compute.capability" (VEnum "compute_capability" (compute_capability (major, minor)))
           "cuDeviceGetAttribute(COMPUTE_CAPABILITY)";
         cuda_native "cap.runtime.kernel_architectures" (VArchitectureSet [Id_parse architecture])
           "cuDeviceGetAttribute(COMPUTE_CAPABILITY)"]
   else []) ++
  when (0 <? multiprocessors)%Z
    (cuda_native "cap.compute.multiprocessors" (VCount (Z.to_N multiprocessors) "multiprocessors")
       "cuDeviceGetAttribute(MULTIPROCESSOR_COUNT)") ++
  cuda_flag api device kAttributeUnifiedAddressing "cap.memory.unified_addressing" "cuDeviceGetAttribute(UNIFIED_ADDRESSING)" ++
  cuda_flag api device kAttributeCanMapHostMemory "cap.memory.pinned_host_interaction"
    "cuDeviceGetAttribute(CAN_MAP_HOST_MEMORY)" ++
  cuda_flag api device kAttributeConcurrentKernels "cap.compute.concurrent_kernels" "cuDeviceGetAttribute(CONCURRENT_KERNELS)" ++
  cuda_flag api device kAttributeCooperativeLaunch "cap.compute.cooperative_execution"
    "cuDeviceGetAttribute(COOPERATIVE_LAUNCH)" ++
  cuda_flag api device kAttributeManagedMemory "cap.memory.managed_memory" "cuDeviceGetAttribute(MANAGED_MEMORY)" ++
  match find_curated architecture with
  | Some datatypes =>
      [mk_Observation (cap "cap.compute.datatypes") SupportState.SupportedNative
         (VFeatureSet (std_sort string_ltb datatypes)) PrecisionClass.Curated
         "curated architecture table (not live device proof)" None SourceClass.StaticCuratedDatabase
         ProvenanceClass.CuratedStatic]
  | None => []
  end.

Fixpoint publish_cuda_devices (api : CudaApi) (context : DiscoveryContext) (driver_version : Z) (indices : list Z) :
    Adapting (option (Status * DiscoveryReport)) :=
  match indices with
  | [] => mret None
  | index :: rest =>
      match succeeded (cu_get_device api) index with
      | None => publish_cuda_devices api context driver_version rest
      | Some device =>
          match succeeded (cu_get_uuid api) device with
          | None => publish_cuda_devices api context driver_version rest
          | Some bytes =>
              registered ← ask (RegisterSubject
                (cuda_registration api driver_version index device (format_gpu_uuid bytes) context));
              match registered with
              | inl status =>
                  returned ← return_noting status ("CUDA device registration failed: " +:+ describe status)%string;
                  mret (Some returned)
              | inr subject =>
                  _ ← publish_observations subject (cuda_observations api device);
                  publish_cuda_devices api context driver_version rest
              end
          end
      end
  end.

Definition cuda_discover (api : CudaApi) (context : DiscoveryContext) : Adapting (Status * DiscoveryReport) :=
  if negb (cuda_start api) then return_noting success "CUDA driver API unavailable"
  else
    let version := succeeded (cu_driver_get_version api) tt in
    _ ← match version with
        | None => mret tt
        | Some driver_version =>
            registered ← ask (RegisterSubject (host_registration context));
            match registered with
            | inl _ => mret tt
            | inr subject =>
                publish_observations subject
                  [native "cap.runtime.cuda" (VEnum "runtime" (cuda_version driver_version)) PrecisionClass.DirectReported
                     "cuDriverGetVersion"]
            end
        end;
    match succeeded (cu_get_count api) tt with
    | None => return_noting success "cuDeviceGetCount failed"
    | Some count =>
        returned ← publish_cuda_devices api context (default 0%Z version) (map Z.of_nat (seq 0 (Z.to_nat count)));
        match returned with
        | Some returned => mret returned
        | None => return_noting success ("CUDA driver API reported " +:+ pretty count +:+ " devices")%string
        end
    end.

Definition make_cuda_runtime_backend (api : CudaApi) : IDiscoveryBackend :=
  mk_IDiscoveryBackend "cuda.driver-api" SourceClass.CudaRuntime ProvenanceClass.RealVendorApi
    (if negb (cuda_start api)
     then (false, "the CUDA driver library is not present or cannot be initialized on this host"%string)
     else (true, EmptyString)) (cuda_discover api).
