(* ===== verification/Synthetic.v ===== *)
(** * The synthetic fleet

    Models [adapter_synthetic.cpp]: the deterministic fleets and the adapter
    that publishes them. The adapter is executable, so that whole runs of
    discovery into a registry are evaluated: what is accepted, and what the
    registry answers afterwards. *)

From S2P Require Import Prelude Tokens Versions Support Conditions Values Hardware Quirks Compat Publication.
From S2P Require Import RegistryState Fixtures Resolution Publishers Devices Knowledge Evidence Ingest Runs Catalog System.
From S2P Require Import Wire Checksum Codec Frames Queries Render Snapshots Durable Image QueryCodec Messages Coordinator Client.
From S2P Require Import Programs AdapterCommon Discovery.

(* ===================================================================== *)
(** ** Profiles *)

Module SyntheticProfile.
Inductive SyntheticProfile :=
  | MixedVendorFleet | NvidiaGenerationDrift | AmdAcceleratorFleet | CxlFabric | DpuSmartNicFabric
  | PartitioningProfiles | ContradictionScenario | QuirkScenario | UnsupportedScenario | ResetScenario
  | PrecisionMatrix.

#[global] Instance SyntheticProfile_eq_dec : EqDecision SyntheticProfile.
Proof. solve_decision. Defined.

#[global] Program Instance SyntheticProfile_enum : CppEnum SyntheticProfile := {|
  enum_values := [MixedVendorFleet; NvidiaGenerationDrift; AmdAcceleratorFleet; CxlFabric; DpuSmartNicFabric;
    PartitioningProfiles; ContradictionScenario; QuirkScenario; UnsupportedScenario; ResetScenario; PrecisionMatrix]
|}.
Solve Obligations with solve_enum.
End SyntheticProfile.
Abbreviation SyntheticProfile := SyntheticProfile.SyntheticProfile.

Definition synthetic_profile_to_string (profile : SyntheticProfile) : string :=
  match profile with
  | SyntheticProfile.MixedVendorFleet => "mixed-vendor-fleet"
  | SyntheticProfile.NvidiaGenerationDrift => "nvidia-generation-drift"
  | SyntheticProfile.AmdAcceleratorFleet => "amd-accelerator-fleet"
  | SyntheticProfile.CxlFabric => "cxl-fabric"
  | SyntheticProfile.DpuSmartNicFabric => "dpu-smartnic-fabric"
  | SyntheticProfile.PartitioningProfiles => "partitioning-profiles"
  | SyntheticProfile.ContradictionScenario => "contradiction-scenario"
  | SyntheticProfile.QuirkScenario => "quirk-scenario"
  | SyntheticProfile.UnsupportedScenario => "unsupported-scenario"
  | SyntheticProfile.ResetScenario => "reset-scenario"
  | SyntheticProfile.PrecisionMatrix => "precision-matrix"
  end.

Definition all_synthetic_profiles : list SyntheticProfile := enum_upto SyntheticProfile.PrecisionMatrix.

Definition synthetic_profile_from_string (text : string) : option SyntheticProfile :=
  scan_values synthetic_profile_to_string text all_synthetic_profiles.

(* ===================================================================== *)
(** ** Fleets *)

Record SyntheticCapability := mk_SyntheticCapability {
  sy_capability : string;
  sy_support : SupportState;
  sy_value : CapabilityValue;
  sy_precision : PrecisionClass;
  sy_reference : string;
  sy_conditions : ConditionPtr;
  sy_source_class : SourceClass;
  sy_provenance : ProvenanceClass
}.

Record SyntheticDevice := mk_SyntheticDevice {
  sd_vendor : string;
  sd_family : string;
  sd_model : string;
  sd_architecture : string;
  sd_revision : string;
  sd_token : string;
  sd_display : string;
  sd_hardware_class : HardwareClass;
  sd_driver_id : string;
  sd_driver_version : string;
  sd_firmware_id : string;
  sd_firmware_version : string;
  sd_runtime_id : string;
  sd_runtime_version : string;
  sd_capabilities : list SyntheticCapability
}.

#[global] Instance eta_SyntheticDevice : Eta SyntheticDevice := fun r =>
  mk_SyntheticDevice (sd_vendor r) (sd_family r) (sd_model r) (sd_architecture r) (sd_revision r) (sd_token r)
    (sd_display r) (sd_hardware_class r) (sd_driver_id r) (sd_driver_version r) (sd_firmware_id r)
    (sd_firmware_version r) (sd_runtime_id r) (sd_runtime_version r) (sd_capabilities r).

(** A reincarnation names a device by its index. *)
Record SyntheticFleet := mk_SyntheticFleet {
  sf_devices : list SyntheticDevice;
  sf_quirks : list QuirkRecord;
  sf_compatibility : list CompatibilityFact;
  sf_reincarnations : list (nat * list SyntheticCapability)
}.

(** The entry [add] and [add_classified] append. *)
Definition add (capability : string) (support : SupportState) (value : CapabilityValue) (precision : PrecisionClass)
    (reference : string) (conditions : ConditionPtr) : SyntheticCapability :=
  mk_SyntheticCapability capability support value precision reference conditions SourceClass.Unspecified
    ProvenanceClass.UnknownSource.

Definition add_classified (capability : string) (support : SupportState) (value : CapabilityValue)
    (precision : PrecisionClass) (reference : string) (source_class : SourceClass) (provenance : ProvenanceClass) :
    SyntheticCapability :=
  mk_SyntheticCapability capability support value precision reference None source_class provenance.

Definition make_gpu (vendor family model architecture driver_version firmware_version runtime_version token : string) :
    SyntheticDevice :=
  mk_SyntheticDevice vendor family model architecture ("rev." +:+ architecture +:+ ".a0")%string token model
    HardwareClass.Gpu ("driver." +:+ vendor)%string driver_version ("fw." +:+ vendor)%string firmware_version
    ("runtime." +:+ vendor)%string runtime_version [].

Definition split_bandwidth (gigabytes_per_second : N) : CapabilityValue :=
  VBandwidth gigabytes_per_second BandwidthUnit.GigabytesPerSecond.

(** The source every curated quirk and fact of the fleets carries. *)
Definition fleet_source : EvidenceSource :=
  default_source
    <| source_class := SourceClass.SyntheticBackend |>
    <| provenance := ProvenanceClass.Synthetic |>
    <| publisher := no_publisher <| pi_id := Id_parse "publisher.synthetic" |> |>.

Definition fleet_fact_source : EvidenceSource := fleet_source <| adapter := "synthetic.backend"%string |>.

Definition h200 : SyntheticDevice :=
  make_gpu "vendor.nvidia" "family.nvidia.datacenter" "model.nvidia.h200" "arch.nvidia.sm_90"
    "570.86.15" "96.00.74.00.01" "12.8" "h200"
  <| sd_capabilities :=
    [add "cap.compute.fp64" SupportState.SupportedNative (VBoolean true)
       PrecisionClass.DirectReported "synthetic.nvml" None;
     add "cap.compute.fp8" SupportState.SupportedNative (VBoolean true)
       PrecisionClass.DirectReported "synthetic.nvml" None;
     add "cap.memory.capacity" SupportState.SupportedNative (VBytes 141000000000)
       PrecisionClass.DirectReported "synthetic.nvml" None;
     add "cap.memory.type" SupportState.SupportedNative (VEnum "memory_type" "hbm3")
       PrecisionClass.DirectReported "synthetic.nvml" None;
     add "cap.partition.mechanism" SupportState.SupportedNative (VFeatureSet ["mig"; "sriov"])
       PrecisionClass.DirectReported "synthetic.nvml" None;
     add "cap.partition.max_partitions" SupportState.SupportedNative (VCount 7 "partitions")
       PrecisionClass.DirectReported "synthetic.nvml" None;
     add "cap.interconnect.nvlink" SupportState.SupportedNative (VBoolean true)
       PrecisionClass.DirectReported "synthetic.nvml" None;
     add "cap.net.gpudirect" SupportState.SupportedConditional (VBoolean true)
       PrecisionClass.DirectReported "synthetic.nvml" (condition ConditionKind.MinDriverVersion EmptyString "550.0");
     add "cap.reliability.ecc_exposure" SupportState.SupportedNative (VBoolean true)
       PrecisionClass.DirectReported "synthetic.nvml" None;
     add "cap.runtime.cuda" SupportState.SupportedNative (VEnum "runtime" "12.8")
       PrecisionClass.DirectReported "synthetic.runtime" None] |>.

Definition rtx5090 : SyntheticDevice :=
  make_gpu "vendor.nvidia" "family.nvidia.consumer" "model.nvidia.rtx5090" "arch.nvidia.sm_120"
    "616.92" "98.02.5c.00.0a" "12.9" "rtx5090"
  <| sd_capabilities :=
    [add "cap.compute.fp32" SupportState.SupportedNative (VBoolean true)
       PrecisionClass.Probed "synthetic.runtime" None;
     add "cap.memory.capacity" SupportState.SupportedNative (VBytes 34251081216)
       PrecisionClass.DirectReported "synthetic.nvml" None;
     add "cap.memory.type" SupportState.SupportedNative (VEnum "memory_type" "gddr7")
       PrecisionClass.DirectReported "synthetic.nvml" None;
     add "cap.partition.mechanism" SupportState.Unsupported VNone PrecisionClass.Exact "synthetic.nvmlGetMigMode" None;
     add "cap.net.gpudirect" SupportState.Unknown VNone PrecisionClass.Unknown "synthetic.none" None] |>.

Definition mi300x : SyntheticDevice :=
  make_gpu "vendor.amd" "family.amd.instinct" "model.amd.mi300x" "arch.amd.cdna3" "6.10.5" "0x0" "6.2" "mi300x"
  <| sd_capabilities :=
    [add "cap.memory.capacity" SupportState.SupportedNative (VBytes 192000000000)
       PrecisionClass.DirectReported "synthetic.rocm-smi" None;
     add "cap.memory.coherence" SupportState.SupportedNative (VEnum "coherence" "system-wide")
       PrecisionClass.DirectReported "synthetic.rocm-smi" None;
     add "cap.compute.fp64" SupportState.SupportedNative (VBoolean true)
       PrecisionClass.DirectReported "synthetic.rocm-smi" None;
     add "cap.runtime.rocm" SupportState.SupportedNative (VEnum "runtime" "6.2")
       PrecisionClass.DirectReported "synthetic.rocm-smi" None;
     add "cap.interconnect.infinity_fabric" SupportState.SupportedNative (VBoolean true)
       PrecisionClass.DirectReported "synthetic.rocm-smi" None] |>.

Definition gaudi3 : SyntheticDevice :=
  make_gpu "vendor.intel" "family.intel.gaudi" "model.intel.gaudi3" "arch.intel.gaudi3" "1.15.0" "0x1" "1.15" "gaudi3"
  <| sd_hardware_class := HardwareClass.AsicAccelerator |>
  <| sd_capabilities :=
    [add "cap.compute.bf16" SupportState.SupportedNative (VBoolean true)
       PrecisionClass.Curated "curated.architecture-table" None;
     add "cap.compute.fp8" SupportState.SupportedNative (VBoolean true)
       PrecisionClass.Curated "curated.architecture-table" None;
     add "cap.interconnect.collective_offload" SupportState.SupportedNative (VBoolean true)
       PrecisionClass.DirectReported "synthetic.vendor-api" None;
     add "cap.net.rdma" SupportState.SupportedNative (VBoolean true)
       PrecisionClass.DirectReported "synthetic.vendor-api" None] |>.

Definition bluefield3 : SyntheticDevice :=
  make_gpu "vendor.nvidia" "family.nvidia.dpu" "model.nvidia.bluefield3" "arch.nvidia.bf3"
    "24.10" "32.42.1000" "4.7" "bluefield3"
  <| sd_hardware_class := HardwareClass.Dpu |>
  <| sd_capabilities :=
    [add "cap.net.rdma" SupportState.SupportedNative (VBoolean true)
       PrecisionClass.DirectReported "synthetic.nic-api" None;
     add "cap.net.roce" SupportState.SupportedNative (VBoolean true)
       PrecisionClass.DirectReported "synthetic.nic-api" None;
     add "cap.net.smartnic_processing" SupportState.SupportedNative (VBoolean true)
       PrecisionClass.DirectReported "synthetic.nic-api" None;
     add "cap.net.sriov" SupportState.SupportedNative (VBoolean true)
       PrecisionClass.DirectReported "synthetic.nic-api" None;
     add "cap.net.encryption_offload" SupportState.SupportedConditional (VBoolean true)
       PrecisionClass.DirectReported "synthetic.nic-api" (condition ConditionKind.RequiredPrivilege EmptyString "admin")] |>.

Definition cxl_expander : SyntheticDevice :=
  make_gpu "vendor.microchip" "family.cxl.memory" "model.cxl.memory-expander" "arch.cxl.3.0"
    "1.4.0" "1.0.0" "1.4" "cxl-expander"
  <| sd_hardware_class := HardwareClass.CxlDevice |>
  <| sd_capabilities :=
    [add "cap.memory.cxl_exposure" SupportState.SupportedNative (VBoolean true)
       PrecisionClass.DirectReported "synthetic.cxl-enumeration" None;
     add "cap.memory.capacity" SupportState.SupportedNative (VBytes 512000000000)
       PrecisionClass.DirectReported "synthetic.cxl-enumeration" None;
     add "cap.memory.coherence" SupportState.SupportedNative (VEnum "coherence" "coherent")
       PrecisionClass.DirectReported "synthetic.cxl-enumeration" None;
     add "cap.interconnect.cxl" SupportState.SupportedNative (VBoolean true)
       PrecisionClass.DirectReported "synthetic.cxl-enumeration" None;
     add "cap.memory.page_sizes" SupportState.SupportedNative (VFeatureSet ["4k"; "2m"])
       PrecisionClass.DirectReported "synthetic.cxl-enumeration" None] |>.

Definition arc_b580 : SyntheticDevice :=
  make_gpu "vendor.intel" "family.intel.gpu" "model.intel.arc.b580" "arch.intel.xe2" "32.0.101" "1.0" "1.6" "arc-b580"
  <| sd_capabilities :=
    [add "cap.memory.capacity" SupportState.SupportedNative (VBytes 12884901888)
       PrecisionClass.DirectReported "synthetic.level-zero" None;
     add "cap.runtime.level_zero" SupportState.SupportedNative (VEnum "runtime" "1.6")
       PrecisionClass.DirectReported "synthetic.level-zero" None;
     add "cap.net.gpudirect" SupportState.Unsupported VNone PrecisionClass.Exact "synthetic.peer-query" None;
     add "cap.compute.fp64" SupportState.SupportedEmulated (VBoolean true)
       PrecisionClass.Curated "curated.architecture-table" None] |>.

Definition make_mixed_vendor_fleet : SyntheticFleet :=
  mk_SyntheticFleet [h200; rtx5090; mi300x; gaudi3; bluefield3; cxl_expander; arc_b580] [] [] [].

Definition drift_gpu : SyntheticDevice :=
  make_gpu "vendor.nvidia" "family.nvidia.consumer" "model.nvidia.rtx5090" "arch.nvidia.sm_120"
    "610.10" "98.02.5c.00.0a" "12.8" "drift-gpu"
  <| sd_capabilities :=
    [add "cap.memory.capacity" SupportState.SupportedNative (VBytes 34251081216)
       PrecisionClass.DirectReported "synthetic.nvml" None;
     add "cap.runtime.external_memory_handles" SupportState.SupportedNative (VBoolean true)
       PrecisionClass.DirectReported "synthetic.runtime" None] |>.

Definition drift_after : list SyntheticCapability :=
  [add "cap.runtime.external_memory_handles" SupportState.SupportedNative (VBoolean true) PrecisionClass.DirectReported
     "synthetic.runtime" None;
   add "cap.runtime.graph_capture" SupportState.SupportedNative (VBoolean true) PrecisionClass.DirectReported
     "synthetic.runtime" None].

Definition make_generation_drift : SyntheticFleet :=
  mk_SyntheticFleet [drift_gpu] [] [] [(0%nat, drift_after)].

Definition mi250x (index : N) : SyntheticDevice :=
  make_gpu "vendor.amd" "family.amd.instinct" "model.amd.mi250x" "arch.amd.cdna3" "6.4.0" "0x2" "6.0"
    ("mi250x." +:+ pretty index)%string
    <| sd_token := ("mi250x-" +:+ pretty index)%string |>
    <| sd_capabilities :=
      [add "cap.memory.capacity" SupportState.SupportedNative (VBytes 128000000000) PrecisionClass.DirectReported
         "synthetic.rocm-smi" None;
       add "cap.memory.bandwidth" SupportState.SupportedNative (split_bandwidth 3276) PrecisionClass.Curated
         "curated.architecture-table" None;
       add "cap.compute.fp64" SupportState.SupportedNative (VBoolean true) PrecisionClass.DirectReported
         "synthetic.rocm-smi" None;
       add "cap.interconnect.peer_to_peer" SupportState.SupportedConditional (VBoolean true)
         PrecisionClass.DirectReported "synthetic.rocm-smi" (condition ConditionKind.RequiredTopology EmptyString "xgmi")] |>.

Definition amd_mi250x_rocm : CompatibilityFact :=
  default_fact
    <| cf_id := Id_parse "compat.amd.mi250x.rocm" |>
    <| cf_generation := Gen_first |>
    <| cf_kind := CompatibilitySubjectKind.AcceleratorRuntime |>
    <| cf_lhs := mk_HardwareReference ReferenceKind.HardwareFamily "family.amd.instinct" no_version |>
    <| cf_rhs := mk_HardwareReference ReferenceKind.Runtime "runtime.rocm" (version_parse "6.0") |>
    <| cf_outcome := CompatibilityOutcome.CompatibleConditional |>
    <| cf_reason := "requires the ROCm 6.0 runtime or newer for the full capability set"%string |>
    <| cf_version_window := mk_VersionRange (version_parse "6.0") no_version false |>
    <| cf_source := fleet_fact_source |>.

Definition make_amd_fleet : SyntheticFleet :=
  mk_SyntheticFleet [mi250x 0; mi250x 1; mi250x 2] [] [amd_mi250x_rocm] [].

Definition cxl_1 : SyntheticDevice :=
  make_gpu "vendor.microchip" "family.cxl.memory" "model.cxl.memory-expander" "arch.cxl.3.0"
    "1.4.0" "1.0.0" "1.4" "cxl-1"
  <| sd_hardware_class := HardwareClass.CxlDevice |>
  <| sd_capabilities :=
    [add "cap.memory.cxl_exposure" SupportState.SupportedNative (VBoolean true)
       PrecisionClass.DirectReported "synthetic.cxl-enumeration" None;
     add "cap.memory.capacity" SupportState.SupportedNative (VBytes 256000000000)
       PrecisionClass.DirectReported "synthetic.cxl-enumeration" None;
     add "cap.interconnect.cxl" SupportState.SupportedNative (VBoolean true)
       PrecisionClass.DirectReported "synthetic.cxl-enumeration" None] |>.

Definition cxl_2 : SyntheticDevice :=
  make_gpu "vendor.microchip" "family.cxl.memory" "model.cxl.memory-expander.legacy" "arch.cxl.2.0"
    "1.1.0" "0.9.0" "1.1" "cxl-2"
  <| sd_hardware_class := HardwareClass.MemoryExpander |>
  <| sd_capabilities :=
    [add "cap.memory.cxl_exposure" SupportState.SupportedConditional (VBoolean true)
       PrecisionClass.DirectReported "synthetic.cxl-enumeration" (condition ConditionKind.RequiredPlatformSetting "bios.cxl" "enabled");
     add "cap.memory.capacity" SupportState.SupportedNative (VBytes 128000000000)
       PrecisionClass.DirectReported "synthetic.cxl-enumeration" None] |>.

Definition cxl_expander_platform : CompatibilityFact :=
  default_fact
    <| cf_id := Id_parse "compat.cxl.expander.platform" |>
    <| cf_generation := Gen_first |>
    <| cf_kind := CompatibilitySubjectKind.CxlPlatform |>
    <| cf_lhs := mk_HardwareReference ReferenceKind.Device (id_str (canonical_device_id "dev.synthetic" "cxl-2")) no_version |>
    <| cf_rhs := mk_HardwareReference ReferenceKind.Architecture "arch.cxl.2.0" no_version |>
    <| cf_outcome := CompatibilityOutcome.CompatibleConditional |>
    <| cf_reason := "CXL 2.0 expander requires the platform BIOS to enable CXL"%string |>
    <| cf_conditions := condition ConditionKind.RequiredPlatformSetting "bios.cxl" "enabled" |>
    <| cf_source := fleet_fact_source |>.

Definition make_cxl_fabric : SyntheticFleet :=
  mk_SyntheticFleet [cxl_1; cxl_2] [] [cxl_expander_platform] [].

Definition bf3_0 : SyntheticDevice :=
  make_gpu "vendor.nvidia" "family.nvidia.dpu" "model.nvidia.bluefield3" "arch.nvidia.bf3"
    "24.10" "32.42.1000" "4.7" "bf3-0"
  <| sd_hardware_class := HardwareClass.Dpu |>
  <| sd_capabilities :=
    [add "cap.net.rdma" SupportState.SupportedNative (VBoolean true)
       PrecisionClass.DirectReported "synthetic.nic-api" None;
     add "cap.net.roce" SupportState.SupportedNative (VBoolean true)
       PrecisionClass.DirectReported "synthetic.nic-api" None;
     add "cap.net.queue_pairs" SupportState.SupportedNative (VCount 2048 "queues")
       PrecisionClass.DirectReported "synthetic.nic-api" None;
     add "cap.net.smartnic_processing" SupportState.SupportedNative (VBoolean true)
       PrecisionClass.DirectReported "synthetic.nic-api" None;
     add "cap.net.flow_steering" SupportState.SupportedNative (VBoolean true)
       PrecisionClass.DirectReported "synthetic.nic-api" None] |>.

Definition cx7_0 : SyntheticDevice :=
  make_gpu "vendor.mellanox" "family.mellanox.connectx" "model.mellanox.cx7" "arch.mellanox.cx7"
    "24.10" "16.35.2000" "4.7" "cx7-0"
  <| sd_hardware_class := HardwareClass.Nic |>
  <| sd_capabilities :=
    [add "cap.net.rdma" SupportState.SupportedNative (VBoolean true)
       PrecisionClass.DirectReported "synthetic.nic-api" None;
     add "cap.net.link_speed" SupportState.SupportedNative (bits_per_second 400000000000)
       PrecisionClass.DirectReported "synthetic.nic-api" None;
     add "cap.net.sriov" SupportState.SupportedNative (VBoolean true)
       PrecisionClass.DirectReported "synthetic.nic-api" None;
     add "cap.net.smartnic_processing" SupportState.Unsupported VNone PrecisionClass.Exact "synthetic.nic-api" None] |>.

Definition gpu_nic_direct_path : CompatibilityFact :=
  default_fact
    <| cf_id := Id_parse "compat.gpu.nic.direct-path" |>
    <| cf_generation := Gen_first |>
    <| cf_kind := CompatibilitySubjectKind.GpuNicDirectPath |>
    <| cf_lhs := mk_HardwareReference ReferenceKind.HardwareFamily "family.nvidia.dpu" no_version |>
    <| cf_rhs := mk_HardwareReference ReferenceKind.HardwareFamily "family.mellanox.connectx" no_version |>
    <| cf_outcome := CompatibilityOutcome.Compatible |>
    <| cf_reason := "peer memory path between the DPU and the ConnectX-class adapter is supported"%string |>
    <| cf_source := fleet_fact_source |>.

Definition make_dpu_fabric : SyntheticFleet :=
  mk_SyntheticFleet [bf3_0; cx7_0] [] [gpu_nic_direct_path] [].

Definition h100_mig : SyntheticDevice :=
  make_gpu "vendor.nvidia" "family.nvidia.datacenter" "model.nvidia.h100" "arch.nvidia.sm_90"
    "550.54" "92.00.3f.00.0a" "12.4" "h100-mig"
  <| sd_capabilities :=
    [add "cap.partition.mechanism" SupportState.SupportedNative (VFeatureSet ["mig"])
       PrecisionClass.DirectReported "synthetic.nvml" None;
     add "cap.partition.profiles" SupportState.SupportedNative (VFeatureSet ["1g.10gb"; "2g.20gb"; "3g.40gb"; "7g.80gb"])
       PrecisionClass.DirectReported "synthetic.nvml" None;
     add "cap.partition.max_partitions" SupportState.SupportedNative (VCount 7 "partitions")
       PrecisionClass.DirectReported "synthetic.nvml" None;
     add "cap.partition.memory_isolation" SupportState.SupportedNative (VBoolean true)
       PrecisionClass.DirectReported "synthetic.nvml" None;
     add "cap.partition.live_reconfiguration" SupportState.SupportedConditional (VEnum "live_reconfiguration" "reset-preferred")
       PrecisionClass.DirectReported "synthetic.nvml" (condition ConditionKind.RequiredPrivilege EmptyString "admin");
     add "cap.partition.reset_required" SupportState.SupportedNative (VBoolean true)
       PrecisionClass.DirectReported "synthetic.nvml" None] |>.

Definition rx7900 : SyntheticDevice :=
  make_gpu "vendor.amd" "family.amd.radeon" "model.amd.radeon.rx7900" "arch.amd.rdna3" "6.4.0" "0x3" "6.0" "rx7900"
  <| sd_capabilities :=
    [add "cap.partition.mechanism" SupportState.Unsupported VNone PrecisionClass.Exact "synthetic.rocm-smi" None;
     add "cap.partition.max_partitions" SupportState.Unsupported VNone PrecisionClass.Exact "synthetic.rocm-smi" None] |>.

Definition make_partitioning : SyntheticFleet :=
  mk_SyntheticFleet [h100_mig; rx7900] [] [] [].

Definition a100_conflict : SyntheticDevice :=
  make_gpu "vendor.nvidia" "family.nvidia.datacenter" "model.nvidia.a100" "arch.nvidia.sm_80"
    "470.57" "92.00.02.00.01" "11.4" "a100-conflict"
  <| sd_capabilities :=
    [add_classified "cap.interconnect.peer_to_peer" SupportState.SupportedNative (VBoolean true)
       PrecisionClass.Curated "curated.architecture-table" SourceClass.StaticCuratedDatabase ProvenanceClass.CuratedStatic;
     add_classified "cap.compute.fp8" SupportState.SupportedNative (VBoolean true)
       PrecisionClass.Curated "curated.architecture-table" SourceClass.StaticCuratedDatabase ProvenanceClass.CuratedStatic;
     add_classified "cap.compute.fp8" SupportState.Unsupported VNone
       PrecisionClass.Exact "synthetic.runtime-probe" SourceClass.RuntimeProbe ProvenanceClass.RealRuntimeProbe;
     add "cap.memory.capacity" SupportState.SupportedNative (VBytes 42949672960)
       PrecisionClass.DirectReported "synthetic.nvml" None] |>.

Definition make_contradiction : SyntheticFleet :=
  mk_SyntheticFleet [a100_conflict] [] [] [].

Definition h100_quirk : SyntheticDevice :=
  make_gpu "vendor.nvidia" "family.nvidia.datacenter" "model.nvidia.h100" "arch.nvidia.sm_90"
    "535.104" "92.00.3f.00.0a" "12.2" "h100-quirk"
  <| sd_capabilities :=
    [add "cap.interconnect.peer_to_peer" SupportState.SupportedNative (VBoolean true)
       PrecisionClass.DirectReported "synthetic.nvml" None;
     add "cap.runtime.external_memory_handles" SupportState.SupportedNative (VBoolean true)
       PrecisionClass.DirectReported "synthetic.runtime" None] |>.

Definition driver_defect : QuirkRecord :=
  default_quirk
    <| qr_id := Id_parse "quirk.nvidia.p2p-driver-defect" |>
    <| qr_generation := Gen_first |>
    <| qr_title := "peer-to-peer transfers are reported as supported but fail under this driver range"%string |>
    <| qr_description :=
         "The device advertises peer access; the driver range 530.0-539.99 produces transfer failures."%string |>
    <| qr_category := QuirkCategory.DriverDefect |>
    <| qr_severity := QuirkSeverity.Unusable |>
    <| qr_mitigation := MitigationKind.UpgradeDriver |>
    <| qr_applicability ::= fun a => a
         <| qa_families := [Id_parse "family.nvidia.datacenter"] |>
         <| qa_driver_ranges := [mk_VersionRange (version_parse "530.0") (version_parse "540.0") false] |> |>
    <| qr_impacted_capabilities := [Id_parse "cap.interconnect.peer_to_peer"] |>
    <| qr_source := fleet_source |>.

Definition overlapping : QuirkRecord :=
  default_quirk
    <| qr_id := Id_parse "quirk.nvidia.p2p-performance-caveat" |>
    <| qr_generation := Gen_first |>
    <| qr_title := "peer-to-peer bandwidth is degraded on this topology"%string |>
    <| qr_category := QuirkCategory.PerformanceCaveat |>
    <| qr_severity := QuirkSeverity.Caveat |>
    <| qr_mitigation := MitigationKind.None |>
    <| qr_applicability ::= fun a => a <| qa_families := [Id_parse "family.nvidia.datacenter"] |> |>
    <| qr_impacted_capabilities := [Id_parse "cap.interconnect.peer_to_peer"] |>
    <| qr_source := fleet_source |>.

Definition make_quirk_scenario : SyntheticFleet :=
  mk_SyntheticFleet [h100_quirk] [driver_defect; overlapping] [] [].

Definition rtx4090 : SyntheticDevice :=
  make_gpu "vendor.nvidia" "family.nvidia.consumer" "model.nvidia.rtx4090" "arch.nvidia.sm_89"
    "560.35" "95.02.18.00.01" "12.6" "rtx4090"
  <| sd_capabilities :=
    [add "cap.partition.mechanism" SupportState.Unsupported VNone PrecisionClass.Exact "synthetic.nvmlGetMigMode" None;
     add "cap.memory.ecc" SupportState.Unsupported VNone PrecisionClass.Exact "synthetic.nvmlGetEccMode" None;
     add "cap.interconnect.nvswitch" SupportState.Unsupported VNone PrecisionClass.Exact "synthetic.nvmlTopology" None;
     add "cap.compute.fp64" SupportState.SupportedNative (VBoolean true)
       PrecisionClass.DirectReported "synthetic.runtime" None;
     add "cap.net.rdma" SupportState.Unknown VNone PrecisionClass.Unknown "synthetic.none" None] |>.

Definition make_unsupported_scenario : SyntheticFleet :=
  mk_SyntheticFleet [rtx4090] [] [] [].

Definition reset_gpu : SyntheticDevice :=
  make_gpu "vendor.nvidia" "family.nvidia.consumer" "model.nvidia.rtx5090" "arch.nvidia.sm_120"
    "616.92" "98.02.5c.00.0a" "12.9" "reset-gpu"
  <| sd_capabilities :=
    [add "cap.memory.capacity" SupportState.SupportedNative (VBytes 34251081216)
       PrecisionClass.DirectReported "synthetic.nvml" None;
     add "cap.reliability.reset" SupportState.SupportedNative (VEnum "reset" "device-level")
       PrecisionClass.DirectReported "synthetic.nvml" None] |>.

Definition after_reset : list SyntheticCapability :=
  [add "cap.memory.capacity" SupportState.SupportedNative (VBytes 34251081216) PrecisionClass.DirectReported
     "synthetic.nvml" None;
   add "cap.runtime.ipc" SupportState.SupportedNative (VBoolean true) PrecisionClass.DirectReported
     "synthetic.runtime" None].

Definition make_reset_scenario : SyntheticFleet :=
  mk_SyntheticFleet [reset_gpu] [] [] [(0%nat, after_reset)].

Definition b200 : SyntheticDevice :=
  make_gpu "vendor.nvidia" "family.nvidia.datacenter" "model.nvidia.b200" "arch.nvidia.sm_100"
    "570.86.15" "97.00.10.00.01" "12.8" "b200"
  <| sd_capabilities :=
    [add_classified "cap.compute.fp4" SupportState.SupportedNative (VBoolean true)
       PrecisionClass.Curated "curated.architecture-table" SourceClass.StaticCuratedDatabase ProvenanceClass.CuratedStatic;
     add_classified "cap.compute.fp8" SupportState.SupportedNative (VBoolean true)
       PrecisionClass.Probed "synthetic.runtime-probe" SourceClass.HardwareProbe ProvenanceClass.RealLiveHardware;
     add_classified "cap.compute.bf16" SupportState.SupportedNative (VBoolean true)
       PrecisionClass.DirectReported "synthetic.nvml" SourceClass.LiveVendorApi ProvenanceClass.RealVendorApi;
     add_classified "cap.compute.fp64" SupportState.SupportedNative (VBoolean true)
       PrecisionClass.Inferred "derived.from-family" SourceClass.StaticCuratedDatabase ProvenanceClass.Derived] |>.

Definition make_precision_matrix : SyntheticFleet :=
  mk_SyntheticFleet [b200] [] [] [].

Definition build_fleet (profile : SyntheticProfile) : SyntheticFleet :=
  match profile with
  | SyntheticProfile.MixedVendorFleet => make_mixed_vendor_fleet
  | SyntheticProfile.NvidiaGenerationDrift => make_generation_drift
  | SyntheticProfile.AmdAcceleratorFleet => make_amd_fleet
  | SyntheticProfile.CxlFabric => make_cxl_fabric
  | SyntheticProfile.DpuSmartNicFabric => make_dpu_fabric
  | SyntheticProfile.PartitioningProfiles => make_partitioning
  | SyntheticProfile.ContradictionScenario => make_contradiction
  | SyntheticProfile.QuirkScenario => make_quirk_scenario
  | SyntheticProfile.UnsupportedScenario => make_unsupported_scenario
  | SyntheticProfile.ResetScenario => make_reset_scenario
  | SyntheticProfile.PrecisionMatrix => make_precision_matrix
  end.

(* ===================================================================== *)
(** ** The adapter *)

Definition registration_for (device : SyntheticDevice) (context : DiscoveryContext) : DeviceRegistration :=
  let identity := default_identity
    <| di_id := canonical_device_id "dev.synthetic" (sd_token device) |>
    <| di_incarnation := Id_parse ("inc.synthetic." +:+ canonical_token (sd_token device) +:+ "." +:+
                                   canonical_token (sd_model device))%string |>
    <| di_hardware := mk_HardwareIdentity (Id_parse (sd_vendor device))
         (Id_parse ("product." +:+ canonical_token (sd_model device))%string) (Id_parse (sd_family device))
         (Id_parse (sd_model device)) (Id_parse (sd_revision device)) (Id_parse (sd_architecture device))
         (sd_hardware_class device)
         [mk_NativeIdentifier "synthetic.profile.token" (sd_token device);
          mk_NativeIdentifier "synthetic.profile.model" (sd_model device)] |>
    <| di_platform := pl_id (dx_platform context) |>
    <| di_display_name := sd_display device |>
    <| di_instance_locator := Some (sd_token device) |> in
  let software := default_software
    <| sw_driver := mk_DriverIdentity (Id_parse (sd_driver_id device)) (sd_driver_version device) |>
    <| sw_firmware := mk_FirmwareIdentity (Id_parse (sd_firmware_id device)) (sd_firmware_version device) EmptyString |>
    <| sw_runtime := mk_RuntimeIdentity (Id_parse (sd_runtime_id device)) (sd_runtime_version device) |> in
  mk_DeviceRegistration identity software (dx_platform context) false 0 (dx_observed_at_utc context).

(** The arguments [publish_capability] is called with. *)
Definition observation_of (capability : SyntheticCapability) : Observation :=
  mk_Observation (Id_parse (sy_capability capability)) (sy_support capability) (sy_value capability)
    (sy_precision capability) (sy_reference capability) (sy_conditions capability) (sy_source_class capability)
    (sy_provenance capability).

Fixpoint publish_all (subject : SubjectContext) (capabilities : list SyntheticCapability) : Adapting unit :=
  match capabilities with
  | [] => mret tt
  | capability :: rest =>
      _ ← ask (PublishCapability subject (observation_of capability));
      publish_all subject rest
  end.

(** The first loop: [inl] is an early return. *)
Fixpoint publish_devices (context : DiscoveryContext) (devices : list SyntheticDevice)
    (subjects : list SubjectContext) : Adapting ((Status * DiscoveryReport) + list SubjectContext) :=
  match devices with
  | [] => mret (inr subjects)
  | device :: rest =>
      registered ← ask (RegisterSubject (registration_for device context));
      match registered with
      | inl status =>
          report ← ask ReadReport;
          mret (inl (status, add_note ("synthetic device registration failed: " +:+ describe status)%string report))
      | inr subject =>
          _ ← publish_all subject (sd_capabilities device);
          publish_devices context rest (subjects ++ [subject])
      end
  end.

Definition post_reset (device : SyntheticDevice) (context : DiscoveryContext) : DeviceRegistration :=
  registration_for device context
    <| dr_device_boot_observed := true |>
    <| dr_software ::= fun s => s <| sw_firmware ::= fun f =>
         f <| fw_version := (sd_firmware_version device +:+ ".post-reset")%string |> |> |>.

(** The second loop; the subjects it stores are not read again, only counted. *)
Fixpoint publish_reincarnations (context : DiscoveryContext) (fleet : SyntheticFleet)
    (reincarnations : list (nat * list SyntheticCapability)) (subjects : list SubjectContext) :
    Adapting ((Status * DiscoveryReport) + list SubjectContext) :=
  match reincarnations with
  | [] => mret (inr subjects)
  | (index, capabilities) :: rest =>
      match sf_devices fleet !! index with
      | None => publish_reincarnations context fleet rest subjects
      | Some device =>
          _ ← ask BumpEvidenceGeneration;
          announced ← ask (AnnounceDeviceGeneration (post_reset device context));
          match announced with
          | inl status =>
              report ← ask ReadReport;
              mret (inl (status, add_note ("synthetic reincarnation failed: " +:+ describe status)%string report))
          | inr subject =>
              _ ← publish_all subject capabilities;
              publish_reincarnations context fleet rest (<[index := subject]> subjects)
          end
      end
  end.

(** The notes these two loops add are lost: [report] is assigned again. *)
Fixpoint publish_quirks (quirks : list QuirkRecord) : Adapting unit :=
  match quirks with
  | [] => mret tt
  | quirk :: rest => _ ← ask (PublishQuirk quirk); publish_quirks rest
  end.

(** Synthetic device references resolved to registered identities. *)
Definition resolve_reference (fleet : SyntheticFleet) (fact : CompatibilityFact) : CompatibilityFact :=
  if ref_kind (cf_lhs fact) ==? ReferenceKind.Device
  then foldl (fun record device =>
         if sd_token device ==? ref_token (cf_lhs record)
         then record <| cf_lhs ::= fun r => mk_HardwareReference (ref_kind r)
                (id_str (canonical_device_id "dev.synthetic" (sd_token device))) (ref_version r) |>
         else record) fact (sf_devices fleet)
  else fact.

Fixpoint publish_facts (fleet : SyntheticFleet) (facts : list CompatibilityFact) : Adapting unit :=
  match facts with
  | [] => mret tt
  | fact :: rest => _ ← ask (PublishCompatibility (resolve_reference fleet fact)); publish_facts fleet rest
  end.

Definition synthetic_discover (profile : SyntheticProfile) (context : DiscoveryContext) :
    Adapting (Status * DiscoveryReport) :=
  let fleet := build_fleet profile in
  published ← publish_devices context (sf_devices fleet) [];
  match published with
  | inl returned => mret returned
  | inr subjects =>
      reincarnated ← publish_reincarnations context fleet (sf_reincarnations fleet) subjects;
      match reincarnated with
      | inl returned => mret returned
      | inr subjects =>
          _ ← publish_quirks (sf_quirks fleet);
          _ ← publish_facts fleet (sf_compatibility fleet);
          report ← ask ReadReport;
          mret (success, add_note ("synthetic profile " +:+ synthetic_profile_to_string profile +:+ " published " +:+
                                   pretty (lengthN subjects) +:+ " devices")%string report)
      end
  end.

Definition make_synthetic_backend (profile : SyntheticProfile) : IDiscoveryBackend :=
  mk_IDiscoveryBackend "synthetic.backend" SourceClass.SyntheticBackend ProvenanceClass.Synthetic (true, EmptyString)
    (synthetic_discover profile).

(* ===================================================================== *)
(** ** Properties *)

Lemma synthetic_profile_round_trip profile :
  synthetic_profile_from_string (synthetic_profile_to_string profile) = Some profile.
Proof. by destruct profile; vm_compute. Qed.

(** Discovery as the command line runs it on a host that cannot be probed. *)
Definition host_context : DiscoveryContext :=
  mk_DiscoveryContext (no_publisher <| pi_id := Id_parse "publisher.local" |>)
    (mk_PlatformIdentity (Id_parse "platform.host.unknown") "unknown host" "unknown" "unknown"
       (Id_parse "arch.unknown") []) Gen_none "2026-01-01T00:00:00Z" ∅ default_software SourceClass.Unspecified
    ProvenanceClass.UnknownSource EmptyString.

Definition fresh_sink : LocalSink :=
  LocalEvidenceSink.new_sink (construct_registry builtin_capability_schemas default_limits).

Section Runs.
Variable hash : string -> N.

Definition discover_profile (profile : SyntheticProfile) (s : LocalSink) : (Status * DiscoveryReport) * LocalSink :=
  perform (@answer_sink LocalSink (local_sink hash no_clock))
    (run_discovery EmptyString (make_synthetic_backend profile) host_context) s.

(** What a profile asks a registry to take. *)
Definition device_count (profile : SyntheticProfile) : N := lengthN (sf_devices (build_fleet profile)).

Definition publication_count (profile : SyntheticProfile) : N :=
  let fleet := build_fleet profile in
  foldl (fun n device => n + 1 + lengthN (sd_capabilities device)) 0 (sf_devices fleet) +
  foldl (fun n r => n + 1 + lengthN r.2) 0 (sf_reincarnations fleet) +
  lengthN (sf_quirks fleet) + lengthN (sf_compatibility fleet).

(** The outcome of a run: its status and the counts of its report. *)
Definition outcome (run : (Status * DiscoveryReport) * LocalSink) : Status * (N * N * N) :=
  let report := run.1.2 in (run.1.1, (dp_accepted report, dp_idempotent report, dp_rejected report)).

(** The one publication of the profiles that a registry refuses. *)
Definition refused (profile : SyntheticProfile) : N :=
  match profile with SyntheticProfile.PrecisionMatrix => 1 | _ => 0 end.

Definition reincarnates (profile : SyntheticProfile) : bool :=
  match sf_reincarnations (build_fleet profile) with [] => false | _ => true end.

(** Every synthetic profile discovered into a new registry runs to the end
    and all it publishes is accepted, but for one capability of the precision
    matrix whose provenance is stronger than its source class allows. A second
    run through the same sink refreshes the devices and finds all other
    evidence known already, unless the profile reincarnates a device: then the
    generation of its evidence starts over and the second run is refused at
    its first publication. *)
Theorem synthetic_discovery profile :
  let first := discover_profile profile fresh_sink in
  outcome first = (success, (publication_count profile - refused profile, 0, refused profile)) /\
  outcome (discover_profile profile first.2) =
    if reincarnates profile
    then (failure InvalidArgument
            "rejected-generation-regression: evidence generation 1 regresses behind the accepted watermark 2", (0, 0, 1))
    else (success, (device_count profile, publication_count profile - device_count profile - refused profile,
                    refused profile)).
Proof. destruct profile; vm_compute; split; reflexivity. Qed.
End Runs.

(** What a registry answers about a capability of a synthetic device. *)
Definition answer_about (profile : SyntheticProfile) (token capability : string) :
    option (EffectiveSupport * TruthClass * ContradictionState * bool) :=
  let st := LocalEvidenceSink.registry (discover_profile strlen profile fresh_sink).2 in
  match find_device_locked st (canonical_device_id "dev.synthetic" token) with
  | None => None
  | Some device =>
      let r := resolve_locked st device (Id_parse capability) Gen_none ∅ in
      Some (rc_effective_support r, rc_truth r, rc_contradiction r, rc_current r)
  end.

(** The scenarios show what they are written for. A driver defect blocks a
    capability that is declared supported; a live probe that reports a
    capability unsupported prevails over the curated claim of support, and the
    contradiction is reported; evidence absent is Unknown, not Unsupported;
    after a reset the evidence of the earlier device generation needs
    revalidation while what was published afterwards is current. *)
Theorem scenarios_resolve :
  answer_about SyntheticProfile.QuirkScenario "h100-quirk" "cap.interconnect.peer_to_peer" =
    Some (EffectiveSupport.BlockedByQuirk, TruthClass.Synthetic, ContradictionState.Consistent, true) /\
  answer_about SyntheticProfile.ContradictionScenario "a100-conflict" "cap.compute.fp8" =
    Some (EffectiveSupport.Unsupported, TruthClass.Unsupported, ContradictionState.PreferredLiveEvidence, true) /\
  answer_about SyntheticProfile.UnsupportedScenario "rtx4090" "cap.net.rdma" =
    Some (EffectiveSupport.Unknown, TruthClass.Unknown, ContradictionState.Consistent, true) /\
  answer_about SyntheticProfile.UnsupportedScenario "rtx4090" "cap.memory.ecc" =
    Some (EffectiveSupport.Unsupported, TruthClass.Unsupported, ContradictionState.Consistent, true) /\
  option_map (fun r => (r.1.1.1, r.2)) (answer_about SyntheticProfile.ResetScenario "reset-gpu" "cap.reliability.reset") =
    Some (EffectiveSupport.RevalidationRequired, false) /\
  option_map (fun r => (r.1.1.1, r.2)) (answer_about SyntheticProfile.ResetScenario "reset-gpu" "cap.memory.capacity") =
    Some (EffectiveSupport.Supported, true) /\
  option_map (fun r => (r.1.1.1, r.2)) (answer_about SyntheticProfile.ResetScenario "reset-gpu" "cap.runtime.ipc") =
    Some (EffectiveSupport.Supported, true).
Proof. vm_compute. split_and!; reflexivity. Qed.

(** Evidence of the synthetic adapter that names another source class is
    reported as real. *)
Theorem synthetic_evidence_reported_real :
  option_map (fun r => r.1.1.2) (answer_about SyntheticProfile.PrecisionMatrix "b200" "cap.compute.fp8") =
    Some TruthClass.Real.
Proof. vm_compute. reflexivity. Qed.

(** After a profile that reincarnates a device, other adapters of the same
    process are refused: their evidence starts at the first generation again. *)
Theorem later_adapter_refused :
  let drift := discover_profile strlen SyntheticProfile.NvidiaGenerationDrift fresh_sink in
  outcome (discover_profile strlen SyntheticProfile.UnsupportedScenario drift.2) =
    (failure InvalidArgument
       "rejected-generation-regression: evidence generation 1 regresses behind the accepted watermark 2", (0, 0, 1)).
Proof. vm_compute. reflexivity. Qed.
