(* ===== verification/Adapters.v ===== *)
(** * What the adapters have in common

    Theorems about all backends of [adapters.hpp]: what they may claim, over
    any evidence sink, and how the two GPU adapters meet on one device. *)

From S2P Require Import Prelude Tokens Versions Support Conditions Values Hardware Quirks Compat Publication.
From S2P Require Import RegistryState Fixtures Resolution Publishers Devices Knowledge Evidence Ingest Runs Catalog System.
From S2P Require Import Wire Checksum Codec Frames Queries Render Snapshots Durable Image QueryCodec Messages Coordinator Client.
From S2P Require Import Programs AdapterCommon Discovery HostAdapters GpuAdapters Synthetic.

(** Everything the hardware adapters ask of a machine. *)
Record Host := mk_Host {
  h_windows : option WindowsHost;
  h_bus : option (unit + list PciFunction);
  h_interfaces : option (N + list AdapterAddresses);
  h_nvml : NvmlApi;
  h_cuda : CudaApi
}.

Definition hardware_backends (h : Host) : list IDiscoveryBackend :=
  [make_cpu_platform_backend (h_windows h); make_pci_topology_backend (h_bus h); make_nvml_backend (h_nvml h);
   make_cuda_runtime_backend (h_cuda h); make_network_backend (h_interfaces h); make_cxl_backend (h_bus h)].

Definition all_backends (h : Host) : list IDiscoveryBackend :=
  hardware_backends h ++ map make_synthetic_backend all_synthetic_profiles.

(* ===================================================================== *)
(** ** Claims and registrations of a run *)

Definition claimed_subject (r : CapabilityRecord) : SubjectContext :=
  mk_SubjectContext (cr_device r) (cr_device_generation r) (cr_device_boot r).

(** The subject a sink grants with an accepted registration. *)
Definition granted (event : sink_event) : option SubjectContext :=
  match event with
  | existT c answer =>
      match c return sink_answer c -> option SubjectContext with
      | Publish p => fun result =>
          if is_registration (pb_kind p) && accepted result
          then Some (mk_SubjectContext (di_id (dr_identity (pb_device p))) (ar_device_generation result) (ar_device_boot result))
          else None
      | _ => fun _ => None
      end answer
  end.

(** The observation a record states. *)
Definition stated (r : CapabilityRecord) : Observation :=
  mk_Observation (cr_capability r) (cr_support r) (cr_value r) (cr_precision r) (native_reference (cr_source r))
    (cr_conditions r) (source_class (cr_source r)) (provenance (cr_source r)).

(** An observation under the classes of a backend. *)
Definition classified (class : SourceClass) (strength : ProvenanceClass) (o : Observation) : Observation :=
  if ob_source_class o ==? SourceClass.Unspecified
  then mk_Observation (ob_capability o) (ob_support o) (ob_value o) (ob_precision o) (ob_reference o) (ob_conditions o)
         class strength
  else o.

(** Every claim is about a granted subject and keeps the rule. *)
Definition claim_licensed (rule : DeviceId -> Observation -> Prop) (known : list SubjectContext) (event : sink_event) : Prop :=
  forall p, published_by event = Some p -> pb_kind p = PublicationKind.PublishCapability ->
  claimed_subject (pb_capability p) ∈ known /\ rule (cr_device (pb_capability p)) (stated (pb_capability p)).

Fixpoint licensed (rule : DeviceId -> Observation -> Prop) (known : list SubjectContext) (events : list sink_event) : Prop :=
  match events with
  | [] => True
  | event :: rest => claim_licensed rule known event /\ licensed rule (omap granted [event] ++ known) rest
  end.

(** The same of an adapter's program, for all answers. *)
Section Lawful.
Context (rule : DeviceId -> Observation -> Prop).

Definition permits (known : list SubjectContext) (c : BuilderCommand) : Prop :=
  match c with PublishCapability subject o => subject ∈ known /\ rule (sc_device subject) o | _ => True end.

Definition learns (c : BuilderCommand) : builder_answer c -> list SubjectContext :=
  match c with
  | RegisterSubject _ | AnnounceDeviceGeneration _ => fun answer =>
      match answer with inr subject => [subject] | inl _ => [] end
  | _ => fun _ => []
  end.

(** A granted subject is the device that was registered. *)
Definition truthful (c : BuilderCommand) : builder_answer c -> Prop :=
  match c with
  | RegisterSubject registration | AnnounceDeviceGeneration registration => fun answer =>
      match answer with inr subject => sc_device subject = di_id (dr_identity registration) | inl _ => True end
  | _ => fun _ => True
  end.

Fixpoint lawful {A} (known : list SubjectContext) (m : Adapting A) : Prop :=
  match m with
  | Return _ => True
  | Ask c k => permits known c /\ forall answer, truthful c answer -> lawful (learns c answer ++ known) (k answer)
  end.

Lemma lawful_weaken {A} (m : Adapting A) : forall known known', known ⊆ known' -> lawful known m -> lawful known' m.
Proof.
  induction m as [a|c k IH]; intros known known' Hsub; [done|]. intros [Hp Hk]. split.
  - destruct c; cbn in *; [done..|set_solver|done|done|done|done|done|done].
  - intros answer Ht. apply (IH answer (learns c answer ++ known)); [set_solver|by apply Hk].
Qed.

Lemma lawful_bind {A B} (m : Adapting A) (f : A -> Adapting B) : forall known,
  lawful known m -> (forall a, lawful known (f a)) -> lawful known (m ≫= f).
Proof.
  induction m as [a|c k IH]; intros known Hm Hf; [apply Hf|]. destruct Hm as [Hp Hk]. split; [done|].
  intros answer Ht. apply IH; [by apply Hk|]. intros a. apply (lawful_weaken _ known); [set_solver|apply Hf].
Qed.

Lemma lawful_ask {B} c (f : builder_answer c -> Adapting B) known :
  permits known c -> (forall answer, truthful c answer -> lawful (learns c answer ++ known) (f answer)) -> lawful known (ask c ≫= f).
Proof. done. Qed.

Lemma lawful_return {A} known (a : A) : lawful known (mret a).
Proof. done. Qed.
End Lawful.

#[export] Hint Resolve lawful_return : core.

(** A lawful program over any sink yields a licensed run. *)
Section Sinks.
Context {S : Type} `{EvidenceSink S} (class : SourceClass) (strength : ProvenanceClass) (rule : DeviceId -> Observation -> Prop).

(** The builder of a backend with these classes. *)
Definition classed (b : Builder) : Prop :=
  dx_source_class (bu_context b) = class /\ dx_provenance (bu_context b) = strength.

Definition command_licensed (known : list SubjectContext) (c : BuilderCommand) (b : Builder) (s : S) : Prop :=
  let m := answer_builder c b in
  let '((answer, b'), _) := perform answer_sink m s in
  licensed rule known (trace answer_sink m s) /\ classed b' /\ truthful c answer /\
  learns c answer ⊆ omap granted (trace answer_sink m s).

Lemma stated_publication subject o b sequence : classed b ->
  let p := stamp (bu_context b) sequence
             (classify_publication (bu_context b) (capability_publication subject o b)) in
  claimed_subject (pb_capability p) = subject /\ stated (pb_capability p) = classified class strength o.
Proof.
  intros [Hc Hs]. cbv zeta. split; [by destruct subject|]. unfold stated, classified. cbn. unfold classify. cbn.
  rewrite Hc, Hs. by destruct (_ ==? _), o.
Qed.

Lemma licensed_weaken events : forall known known', known ⊆ known' ->
  licensed rule known events -> licensed rule known' events.
Proof.
  induction events as [|e events IH]; intros known known' Hsub; [done|]. intros [He Hr]. split.
  - intros p Hp Hk. destruct (He p Hp Hk). split; [by apply Hsub|done].
  - apply (IH (omap granted [e] ++ known)); [set_solver|done].
Qed.

Lemma licensed_app before after : forall known,
  licensed rule known before -> licensed rule (omap granted before ++ known) after -> licensed rule known (before ++ after).
Proof.
  induction before as [|e before IH]; intros known; [done|]. intros [He Hb] Ha. cbn [app]. split; [done|].
  apply IH; [done|]. eapply licensed_weaken; [|exact Ha]. cbn. destruct (granted e); set_solver.
Qed.

(** What sending a publication does, over any sink. *)
Lemma send_run what publication b s :
  exists sequence result s',
    let sent := stamp (bu_context b) sequence publication in
    perform answer_sink (send what publication b) s = ((result, note result what b), s') /\
    trace answer_sink (send what publication b) s =
      [existT (NextSequence (pi_id (dx_publisher (bu_context b)))) sequence; existT (Publish sent) result].
Proof.
  unfold send, take_sequence, ask. cbn. destruct (sink_next _ s) as [sequence s1] eqn:En. cbn.
  destruct (sink_publish _ s1) as [result s2] eqn:Ep. by exists sequence, result, s2.
Qed.

Lemma claim_free known p result : pb_kind p <> PublicationKind.PublishCapability ->
  claim_licensed rule known (existT (Publish p) result).
Proof. intros Hne p' [= <-]. by intros. Qed.

Lemma licensed_pair known n sequence p result :
  claim_licensed rule known (existT (Publish p) result) ->
  licensed rule known [existT (NextSequence n) sequence; existT (Publish p) result].
Proof. intros Hp. by split_and!. Qed.

Lemma command_licensed_send {A} known (f : ApplyResult * Builder -> A) (learned : A -> list SubjectContext)
    (truth : A -> Prop) what publication b s :
  classed b ->
  (forall sequence result, let p := stamp (bu_context b) sequence publication in
     claim_licensed rule known (existT (Publish p) result) /\
     forall b', truth (f (result, b')) /\ learned (f (result, b')) ⊆ omap granted [existT (Publish p) result]) ->
  let m := send what publication b ≫= fun sent => mret (f sent, sent.2) in
  let '((answer, b'), _) := perform answer_sink m s in
  licensed rule known (trace answer_sink m s) /\ classed b' /\ truth answer /\
  learned answer ⊆ omap granted (trace answer_sink m s).
Proof.
  intros Hb Hp m. unfold m. rewrite perform_bind, trace_bind.
  destruct (send_run what publication b s) as (sequence & result & s' & Hrun & Htr). rewrite Hrun, Htr. cbn [perform fst snd trace].
  destruct (Hp sequence result) as [Hc Hl]. split_and!; [by apply licensed_pair|done|apply Hl..].
Qed.

Lemma answer_builder_licensed known c b s : classed b ->
  permits (fun d o => rule d (classified class strength o)) known c -> command_licensed known c b s.
Proof.
  intros Hb Hp. unfold command_licensed.
  pose proof (fun f => command_licensed_send known f (learns c) (truthful c)) as Hsend.
  destruct c; cbn [answer_builder];
    unfold register_subject, announce_device_generation, send_registration, publish_capability, publish_quirk,
      publish_compatibility, register_schema, builder_heartbeat, submit; cbv zeta.
  1-7: apply Hsend; [done|]; intros sequence result; cbv zeta;
    (split; [try (apply claim_free; cbn; repeat case_match; done)|intros b'; split; [cbn; by try destruct (accepted result)|cbn; try set_solver]]).
  - destruct (accepted result); set_solver.
  - destruct (accepted result); set_solver.
  - destruct Hp as [Hk Hr]. intros p [= <-] _. destruct (stated_publication subject o b sequence Hb) as [Hsub ->].
    rewrite Hsub. split; [done|]. change (cr_device ?r) with (sc_device (claimed_subject r)). by rewrite Hsub.
  - cbn. by split_and!; [|destruct Hb; split| |].
  - cbn. by split_and!; [| | |set_solver].
Qed.

Lemma adapter_licensed {A} (m : Adapting A) : forall known b s, classed b ->
  lawful (fun d o => rule d (classified class strength o)) known m ->
  licensed rule known (trace answer_sink (translate answer_builder m b) s).
Proof.
  induction m as [a|c k IH]; intros known b s Hb; [done|]. intros [Hp Hk]. cbn [translate]. rewrite trace_bind.
  pose proof (answer_builder_licensed known c b s Hb Hp) as Hc. unfold command_licensed in Hc.
  destruct (perform answer_sink (answer_builder c b) s) as [[answer b'] s']. destruct Hc as (Hl & Hb' & Ht & Hlearn).
  apply licensed_app; [done|]. apply IH; [done|]. eapply lawful_weaken; [|by apply Hk]. set_solver.
Qed.
End Sinks.

Lemma discovery_licensed {S} `{EvidenceSink S} rule now backend context (s : S) :
  (forall registered, lawful (fun d o => rule d (classified (bk_source_class backend) (bk_provenance backend) o)) []
     (bk_discover backend (effective_context backend context registered))) ->
  licensed rule [] (trace answer_sink (run_discovery now backend context) s).
Proof.
  intros Hlaw. unfold run_discovery. destruct (negb (bk_available backend).1); [done|]. cbv zeta.
  rewrite trace_bind. apply licensed_app; cbn.
  - destruct (sink_ensure _ _ s) as [registered s1]. by split; [intros p|].
  - destruct (sink_ensure _ _ s) as [registered s1]. cbn. destruct (negb (accepted registered)); [done|].
    rewrite trace_bind. apply licensed_app; [|done]. unfold discover. rewrite trace_bind. apply licensed_app; [|done].
    apply (adapter_licensed (bk_source_class backend) (bk_provenance backend)); [done|apply Hlaw].
Qed.

(** Every claim of a run is about a subject the sink granted before. *)
Definition claims_granted (events : list sink_event) : Prop :=
  forall before p result after, events = before ++ existT (Publish p) result :: after ->
  pb_kind p = PublicationKind.PublishCapability ->
  exists event, event ∈ before /\ granted event = Some (claimed_subject (pb_capability p)).

Lemma licensed_claims rule events : licensed rule [] events ->
  claims_granted events /\
  forall p, p ∈ published events -> pb_kind p = PublicationKind.PublishCapability -> rule (cr_device (pb_capability p)) (stated (pb_capability p)).
Proof.
  assert (Hgen : forall known, licensed rule known events ->
    (forall before p result after, events = before ++ existT (Publish p) result :: after ->
       pb_kind p = PublicationKind.PublishCapability ->
       claimed_subject (pb_capability p) ∈ omap granted before ++ known) /\
    forall p, p ∈ published events -> pb_kind p = PublicationKind.PublishCapability -> rule (cr_device (pb_capability p)) (stated (pb_capability p))).
  { induction events as [|e events IH]; intros known Hl.
    - split; [by intros [|? ?]|]. intros p Hp. by apply elem_of_nil in Hp.
    - destruct Hl as [He Hl]. destruct (IH _ Hl) as [Hb Hr]. split.
      + intros [|e' before] p result after; cbn [app]; intros [= -> Hev] Hk.
        * by apply (He p).
        * specialize (Hb before p result after Hev Hk). cbn in *. destruct (granted e'); set_solver.
      + intros p Hp Hk. unfold published in *. cbn in Hp. destruct (published_by e) as [q|] eqn:Eq; [|by apply Hr].
        apply elem_of_cons in Hp as [->|Hp]; [by apply (He q)|by apply Hr]. }
  intros Hl. destruct (Hgen [] Hl) as [Hb Hr]. split; [|done]. intros before p result after Hev Hk.
  specialize (Hb before p result after Hev Hk). rewrite app_nil_r in Hb. apply list_elem_of_omap in Hb as (event & Hin & Hg).
  by exists event.
Qed.

(* ===================================================================== *)
(** ** The programs of the adapters *)

Section Programs.
Context (rule : DeviceId -> Observation -> Prop).

Lemma lawful_publish known subject observations : subject ∈ known ->
  Forall (rule (sc_device subject)) observations -> lawful rule known (publish_observations subject observations).
Proof.
  intros Hs. induction 1 as [|o rest Ho Hr IH]; [done|]. apply lawful_ask; [done|]. intros answer _.
  eapply lawful_weaken; [|exact IH]. set_solver.
Qed.

(** A registration whose subject is then used. *)
Lemma lawful_registered {B} known registration (f : Status + SubjectContext -> Adapting B) :
  (forall status, lawful rule known (f (inl status))) ->
  (forall subject, sc_device subject = di_id (dr_identity registration) -> lawful rule (subject :: known) (f (inr subject))) ->
  lawful rule known (ask (RegisterSubject registration) ≫= f).
Proof. intros Hl Hr. apply lawful_ask; [done|]. intros [status|subject]; cbn; auto. Qed.

Lemma lawful_return_with known status : lawful rule known (return_with status).
Proof. by apply lawful_ask. Qed.

Lemma lawful_return_noting known status text : lawful rule known (return_noting status text).
Proof. by apply lawful_ask. Qed.

Lemma lawful_with_subject known registration then_ :
  (forall subject, sc_device subject = di_id (dr_identity registration) -> lawful rule (subject :: known) (then_ subject)) ->
  lawful rule known (with_subject registration then_).
Proof. intros Hthen. apply lawful_registered; [intros; apply lawful_return_with|done]. Qed.

(** A discovery that publishes under one subject and returns a note. *)
Lemma lawful_noted known subject observations text : subject ∈ known -> Forall (rule (sc_device subject)) observations ->
  lawful rule known (publish_observations subject observations ≫= fun _ => return_noting success text).
Proof. intros Hs Ho. apply lawful_bind; [by apply lawful_publish|intros; apply lawful_return_noting]. Qed.

Lemma lawful_pci bus context :
  (forall devices, (enumerate_pci_devices bus).1 = inr devices ->
     rule (host_device_id (dx_platform context)) (pci_observation devices)) ->
  lawful rule [] (pci_discover bus context).
Proof.
  intros Hr. unfold pci_discover. destruct (enumerate_pci_devices bus) as [[?|devices] detail]; [apply lawful_return_noting|].
  apply lawful_with_subject. intros subject Hd. apply lawful_noted; [left|].
  constructor; [rewrite Hd; by apply Hr|constructor].
Qed.

Lemma lawful_cxl_devices context devices : forall known,
  (forall device, Forall (rule device) cxl_device_observations) ->
  lawful rule known (publish_cxl_devices context devices).
Proof.
  intros known Hr. revert known. induction devices as [|device rest IH]; intros known; [done|].
  apply lawful_registered; [intros; by apply IH|]. intros subject _. apply lawful_bind; [|intros; apply IH].
  apply lawful_publish; [left|apply Hr].
Qed.

Lemma lawful_cxl bus context :
  (forall device, Forall (rule device) cxl_device_observations) ->
  (forall devices, (enumerate_pci_devices bus).1 = inr devices ->
     Forall (rule (host_device_id (dx_platform context)))
       (cxl_host_observations (List.filter (fun device => is_cxl_class (pci_class_code device)) devices))) ->
  lawful rule [] (cxl_discover bus context).
Proof.
  intros Hd Hh. unfold cxl_discover. destruct (enumerate_pci_devices bus) as [[?|devices] detail]; [apply lawful_return_noting|].
  specialize (Hh devices eq_refl). apply lawful_with_subject. intros subject Hs.
  change (sc_device subject = host_device_id (dx_platform context)) in Hs. rewrite <- Hs in Hh.
  apply lawful_bind; [by apply lawful_publish; [left|]|]. intros _. destruct (List.filter _ devices); [apply lawful_return_noting|].
  apply lawful_bind; [by apply lawful_cxl_devices|intros; apply lawful_return_noting].
Qed.

Lemma lawful_network interfaces context :
  (forall device entry, Forall (rule device) (nic_observations entry)) ->
  lawful rule [] (network_discover interfaces context).
Proof.
  intros Hr. destruct interfaces as [[code|entries]|]; [apply lawful_return_noting| |apply lawful_return_noting].
  apply lawful_bind; [|intros; apply lawful_return_noting]. generalize 0, (@nil SubjectContext). intros published known. revert published known.
  induction entries as [|entry rest IH]; intros published known; cbn [publish_interfaces]; [done|].
  destruct (_ || _); [apply IH|]. apply lawful_registered; [intros; apply IH|]. intros subject _.
  apply lawful_bind; [|intros; apply IH]. apply lawful_publish; [left|apply Hr].
Qed.

Lemma lawful_cpu host context :
  (forall device windows topology, Forall (rule device) (cpu_observations windows topology)) ->
  (forall device windows, Forall (rule device) (os_observations windows)) ->
  lawful rule [] (cpu_discover host context).
Proof.
  intros Hc Ho. unfold cpu_discover. destruct host as [windows|]; [|apply lawful_return_noting].
  destruct (collect_topology _ _) as [topology|]; [|apply lawful_return_noting].
  apply lawful_with_subject. intros cpu _. apply lawful_bind; [by apply lawful_publish; [left|]|]. intros _.
  apply lawful_with_subject. intros host _. apply lawful_bind; [by apply lawful_publish; [left|]|].
  intros _. apply lawful_return_with.
Qed.

Lemma lawful_nvml api context :
  (forall count, Forall (rule (host_device_id (dx_platform context)))
     [native "cap.platform.accelerators" (VCount count "devices") PrecisionClass.Exact "nvmlDeviceGetCount_v2"]) ->
  (forall index handle, succeeded (nv_get_handle api) index = Some handle ->
     Forall (rule (gpu_device_id_from_uuid (nvml_uuid api index handle))) (nvml_observations api handle)) ->
  lawful rule [] (nvml_discover api context).
Proof.
  intros Hh Hd. unfold nvml_discover. destruct (negb _); [apply lawful_return_noting|].
  destruct (negb _); [apply lawful_return_noting|]. destruct (succeeded _ tt) as [count|]; [|apply lawful_return_noting].
  apply lawful_bind.
  - generalize (map N.of_nat (seq 0 (N.to_nat count))) (@nil SubjectContext). intros indices.
    induction indices as [|index rest IH]; intros known; cbn [publish_nvml_devices]; [done|].
    destruct (succeeded (nv_get_handle api) index) as [handle|] eqn:Eh; [|apply IH]. apply lawful_registered.
    + intros status. apply lawful_bind; [apply lawful_return_noting|done].
    + intros subject Hs. apply lawful_bind; [|intros; apply IH]. apply lawful_publish; [left|].
      rewrite Hs. by apply Hd.
  - intros [returned|]; [done|]. apply lawful_registered; [intros; apply lawful_bind; [done|intros; apply lawful_return_noting]|].
    intros subject Hs. apply lawful_noted; [left|]. rewrite Hs. apply Hh.
Qed.

Lemma lawful_cuda api context :
  (forall device version, Forall (rule device)
     [native "cap.runtime.cuda" (VEnum "runtime" version) PrecisionClass.DirectReported "cuDriverGetVersion"]) ->
  (forall device handle, Forall (rule device) (cuda_observations api handle)) ->
  lawful rule [] (cuda_discover api context).
Proof.
  intros Hh Hd. unfold cuda_discover. destruct (negb _); [apply lawful_return_noting|].
  apply lawful_bind.
  - destruct (succeeded _ tt); [|done]. apply lawful_registered; [done|]. intros subject _.
    apply lawful_publish; [left|apply Hh].
  - intros _. destruct (succeeded _ tt) as [count|]; [|apply lawful_return_noting]. apply lawful_bind.
    + generalize (map Z.of_nat (seq 0 (Z.to_nat count))) (@nil SubjectContext). intros indices.
      induction indices as [|index rest IH]; intros known; cbn [publish_cuda_devices]; [done|].
      destruct (succeeded _ index) as [device|]; [|apply IH]. destruct (succeeded _ device) as [bytes|]; [|apply IH].
      apply lawful_registered.
      * intros status. apply lawful_bind; [apply lawful_return_noting|done].
      * intros subject _. apply lawful_bind; [|intros; apply IH]. apply lawful_publish; [left|apply Hd].
    + intros [returned|]; [done|apply lawful_return_noting].
Qed.
End Programs.


Section SyntheticPrograms.
Context (rule : DeviceId -> Observation -> Prop) (anything : forall d o, rule d o).

Lemma lawful_publish_all known subject capabilities : subject ∈ known ->
  lawful rule known (publish_all subject capabilities).
Proof.
  intros Hs. revert known Hs. induction capabilities as [|c rest IH]; intros known Hs; [done|].
  apply lawful_ask; [by split|]. intros answer _. by apply IH.
Qed.

Lemma lawful_synthetic profile context : lawful rule [] (synthetic_discover profile context).
Proof.
  unfold synthetic_discover. apply lawful_bind.
  { assert (Hdevices : forall devices subjects known, lawful rule known (publish_devices context devices subjects)); [|apply Hdevices].
    induction devices as [|d rest IH]; intros subjects known; [done|].
    apply lawful_registered; [intros; by apply lawful_ask|]. intros subject _.
    apply lawful_bind; [apply lawful_publish_all; left|intros; apply IH]. }
  intros [returned|subjects]; [done|]. apply lawful_bind.
  { assert (Hloop : forall l subjects known,
      lawful rule known (publish_reincarnations context (build_fleet profile) l subjects)); [|apply Hloop].
    induction l as [|[index capabilities] rest IH]; intros subjects' known; cbn [publish_reincarnations]; [done|].
    destruct (sf_devices _ !! index) as [device|]; [|apply IH].
    apply lawful_ask; [done|]. intros bumped _. apply lawful_ask; [done|]. intros [status|subject] _; [by apply lawful_ask|].
    apply lawful_bind; [apply lawful_publish_all; left|intros; apply IH]. }
  intros [returned|subjects']; [done|]. apply lawful_bind.
  { induction (sf_quirks (build_fleet profile)) as [|q rest IH]; [done|]. by apply lawful_ask. }
  intros _. apply lawful_bind; [|intros; by apply lawful_ask].
  generalize (build_fleet profile) at 1. intros fleet.
  induction (sf_compatibility (build_fleet profile)) as [|f rest IH]; [done|]. by apply lawful_ask.
Qed.
End SyntheticPrograms.

(* ===================================================================== *)
(** ** Properties *)

(** Where a hardware adapter may conclude that a capability is absent: the bus
    was enumerated without a CXL function, or NVML answered for that very
    device that it does not support MIG or ECC. *)
Inductive absence_reported (h : Host) (platform : PlatformIdentity) : DeviceId -> CapabilityId -> Prop :=
  | NoCxlFunction devices :
      (enumerate_pci_devices (h_bus h)).1 = inr devices ->
      List.filter (fun device => is_cxl_class (pci_class_code device)) devices = [] ->
      absence_reported h platform (host_device_id platform) (cap "cap.memory.cxl_exposure")
  | NoMig index handle f capability :
      succeeded (nv_get_handle (h_nvml h)) index = Some handle ->
      nv_get_mig_mode (h_nvml h) = Some f -> (f handle).1 = kNvmlErrorNotSupported ->
      capability ∈ [cap "cap.partition.mechanism"; cap "cap.partition.max_partitions"] ->
      absence_reported h platform (gpu_device_id_from_uuid (nvml_uuid (h_nvml h) index handle)) capability
  | NoEcc index handle f capability :
      succeeded (nv_get_handle (h_nvml h)) index = Some handle ->
      nv_get_ecc_mode (h_nvml h) = Some f -> (f handle).1 = kNvmlErrorNotSupported ->
      capability ∈ [cap "cap.memory.ecc"; cap "cap.reliability.ecc_exposure"] ->
      absence_reported h platform (gpu_device_id_from_uuid (nvml_uuid (h_nvml h) index handle)) capability.

(** The built-in schema of the capability has the kind of the value; a value
    may only be missing from a claim of absence. *)
Definition fits_catalogue (o : Observation) : bool :=
  match find_builtin_schema_by_capability (ob_capability o) with
  | None => false
  | Some schema =>
      if value_empty (ob_value o) then asserts_capability_absent (ob_support o)
      else value_kind (ob_value o) ==? cs_value_kind schema
  end.

(** What a hardware adapter may claim. *)
Record honest (h : Host) (platform : PlatformIdentity) (device : DeviceId) (o : Observation) : Prop := mk_honest {
  honest_provenance : provenance_allowed_for (ob_provenance o) (ob_source_class o) = true;
  honest_absence : ob_support o = SupportState.Unsupported -> absence_reported h platform device (ob_capability o);
  honest_support : ob_support o ∈ [SupportState.SupportedNative; SupportState.Disabled; SupportState.Unsupported];
  honest_schema : fits_catalogue o = true
}.

(** The catalogue is searched by evaluation. *)
Ltac fits := vm_compute; reflexivity.

Section Honest.
Context (h : Host) (platform : PlatformIdentity) (class : SourceClass) (strength : ProvenanceClass).
Context (allowed : provenance_allowed_for strength class = true).

Let rule (device : DeviceId) (o : Observation) : Prop := honest h platform device (classified class strength o).

(** A claim of support under the adapter's own class. *)
Lemma honest_native device name value precision reference :
  fits_catalogue (native name value precision reference) = true -> rule device (native name value precision reference).
Proof. constructor; [done|done|left|done]. Qed.

Lemma honest_cuda_native device name value reference :
  fits_catalogue (cuda_native name value reference) = true -> rule device (cuda_native name value reference).
Proof. constructor; [done|done|left|done]. Qed.

Lemma honest_unsupported device name reference :
  fits_catalogue (unsupported name reference) = true ->
  absence_reported h platform device (cap name) -> rule device (unsupported name reference).
Proof. constructor; [done|done|right; right; left|done]. Qed.

Lemma honest_when test device o : rule device o -> Forall (rule device) (when test o).
Proof. intros Ho. destruct test; [constructor; [done|constructor]|constructor]. Qed.

Lemma honest_counted device entry handle o : (forall n, rule device (o n)) -> Forall (rule device) (counted entry handle o).
Proof.
  intros Ho. unfold counted. destruct (succeeded entry handle) as [n|]; [|constructor].
  destruct (negb _); [constructor; [apply Ho|constructor]|constructor].
Qed.

Lemma honest_nvml index handle :
  succeeded (nv_get_handle (h_nvml h)) index = Some handle ->
  Forall (rule (gpu_device_id_from_uuid (nvml_uuid (h_nvml h) index handle))) (nvml_observations (h_nvml h) handle).
Proof.
  intros Hh. unfold nvml_observations. repeat (apply Forall_app; split);
    try (apply honest_counted; intros; apply honest_native; fits).
  - destruct (succeeded _ handle); [constructor; [apply honest_native; fits|constructor]|constructor].
  - unfold mig_observations. destruct (nv_get_mig_mode (h_nvml h)) as [f|] eqn:Ef; [|constructor].
    destruct (f handle) as [result current] eqn:Er. destruct (result =? 0)%Z.
    + constructor; [|constructor]. constructor; cbn; [done|by destruct (current =? 1)|destruct (current =? 1); set_solver|fits].
    + destruct (result =? kNvmlErrorNotSupported)%Z eqn:En; [|constructor]. apply Z.eqb_eq in En.
      assert (Hf : (f handle).1 = kNvmlErrorNotSupported) by by rewrite Er.
      constructor; [|constructor; [|constructor]]; (apply honest_unsupported; [fits|eapply NoMig; eauto; set_solver]).
  - unfold ecc_observations. destruct (nv_get_ecc_mode (h_nvml h)) as [f|] eqn:Ef; [|constructor].
    destruct (f handle) as [result current] eqn:Er. destruct (result =? 0)%Z.
    + repeat (constructor; [apply honest_native; fits|]). constructor.
    + destruct (result =? kNvmlErrorNotSupported)%Z eqn:En; [|constructor]. apply Z.eqb_eq in En.
      assert (Hf : (f handle).1 = kNvmlErrorNotSupported) by by rewrite Er.
      constructor; [|constructor; [|constructor]]; (apply honest_unsupported; [fits|eapply NoEcc; eauto; set_solver]).
  - unfold power_observations. destruct (succeeded _ handle) as [[minimum maximum]|]; [|constructor].
    destruct (_ <? _); [|constructor]. constructor; [apply honest_native; fits|constructor].
  - destruct (telemetry _); [constructor|]. constructor; [apply honest_native; fits|constructor].
Qed.

Lemma honest_cuda device handle : Forall (rule device) (cuda_observations (h_cuda h) handle).
Proof.
  unfold cuda_observations. repeat (apply Forall_app; split); try (apply honest_when; apply honest_cuda_native; fits).
  - destruct (0 <? _)%Z; [|constructor]. repeat (constructor; [apply honest_cuda_native; fits|]). constructor.
  - destruct (find_curated _); [|constructor]. constructor; [|constructor]. constructor; [done|done|left|fits].
Qed.

Lemma honest_cpu device windows topology : Forall (rule device) (cpu_observations windows topology).
Proof.
  unfold cpu_observations. repeat (apply Forall_app; split); try (apply honest_when; apply honest_native; fits);
    repeat (constructor; [apply honest_native; fits|]); constructor.
Qed.

Lemma honest_os device windows : Forall (rule device) (os_observations windows).
Proof. constructor; [apply honest_native; fits|apply honest_when; apply honest_native; fits]. Qed.

Lemma honest_nic device entry : Forall (rule device) (nic_observations entry).
Proof.
  unfold nic_observations. repeat (apply Forall_app; split); try (apply honest_when; apply honest_native; fits);
    try (constructor; [apply honest_native; fits|constructor]).
  apply honest_when, honest_native. unfold bits_per_second. repeat case_match; fits.
Qed.

Lemma honest_cxl_device device : Forall (rule device) cxl_device_observations.
Proof. repeat (constructor; [apply honest_native; fits|]). constructor. Qed.

Lemma honest_cxl_host devices : (enumerate_pci_devices (h_bus h)).1 = inr devices ->
  Forall (rule (host_device_id platform))
    (cxl_host_observations (List.filter (fun device => is_cxl_class (pci_class_code device)) devices)).
Proof.
  intros He. constructor; [apply honest_native; fits|]. destruct (List.filter _ devices) eqn:Ef; [|constructor].
  constructor; [apply honest_unsupported; [fits|by eapply NoCxlFunction]|constructor].
Qed.
End Honest.

(** C18: every adapter, hardware or synthetic, over any sink: each capability it
    publishes is about a device whose registration the sink accepted earlier in
    that run, and is bound to the generation and boot the sink assigned then. *)
Theorem adapters_claim_granted_subjects {S} `{EvidenceSink S} h now backend context (s : S) :
  backend ∈ all_backends h ->
  claims_granted (trace answer_sink (run_discovery now backend context) s).
Proof.
  intros Hb. apply (licensed_claims (fun _ _ => True)), discovery_licensed. intros registered.
  unfold all_backends, hardware_backends in Hb. apply elem_of_app in Hb as [Hb|Hb].
  - repeat (apply elem_of_cons in Hb as [->|Hb]); [..|by apply elem_of_nil in Hb].
    + apply lawful_cpu; intros; by apply Forall_true.
    + by apply lawful_pci.
    + apply lawful_nvml; intros; by apply Forall_true.
    + apply lawful_cuda; intros; by apply Forall_true.
    + apply lawful_network; intros; by apply Forall_true.
    + apply lawful_cxl; intros; by apply Forall_true.
  - apply list_elem_of_fmap in Hb as (profile & -> & _). by apply lawful_synthetic.
Qed.

(** C19: a hardware adapter claims no more than it was told: no claim has a
    provenance beyond its source class, and a capability is called unsupported
    only for the host when the bus was enumerated without a CXL function, or
    for the very GPU whose MIG or ECC query NVML answered with NOT_SUPPORTED.
    A query that fails otherwise leads to no claim. *)
Theorem adapters_claim_what_was_reported {S} `{EvidenceSink S} h now backend context (s : S) p :
  backend ∈ hardware_backends h ->
  p ∈ published (trace answer_sink (run_discovery now backend context) s) ->
  pb_kind p = PublicationKind.PublishCapability ->
  honest h (dx_platform context) (cr_device (pb_capability p)) (stated (pb_capability p)).
Proof.
  intros Hb. revert p. apply (licensed_claims (honest h (dx_platform context))), discovery_licensed. intros registered.
  unfold hardware_backends in Hb. repeat (apply elem_of_cons in Hb as [->|Hb]); [..|by apply elem_of_nil in Hb].
  - apply lawful_cpu; intros; [by apply honest_cpu|by apply honest_os].
  - apply lawful_pci. intros. apply honest_native; [done|fits].
  - apply lawful_nvml; intros; [constructor; [apply honest_native; [done|fits]|constructor]|by apply honest_nvml].
  - apply lawful_cuda; intros; [constructor; [apply honest_native; [done|fits]|constructor]|by apply honest_cuda].
  - apply lawful_network; intros; by apply honest_nic.
  - apply lawful_cxl; intros; [by apply honest_cxl_device|by apply honest_cxl_host].
Qed.

(* ===================================================================== *)
(** ** A machine with one GPU *)

(** An entry point that always succeeds, and one that answers NOT_SUPPORTED. *)
Definition answers {I O} (o : O) : Entry I O := Some (fun _ => (0%Z, o)).
Definition not_supported {I O} (o : O) : Entry I O := Some (fun _ => (kNvmlErrorNotSupported, o)).

Definition gpu_uuid : list N := [1; 2; 3; 4; 5; 6; 7; 8; 9; 10; 11; 12; 13; 14; 15; 16].

Definition one_gpu_nvml : NvmlApi :=
  let text {I} (s : string) : Entry I (list ascii) := answers (list_ascii_of_string s) in
  mk_NvmlApi true (answers tt) (text "580.10") (text "13.580.10") (answers 1) (answers 7)
    (text "NVIDIA GeForce RTX 5090") (text (format_gpu_uuid gpu_uuid))
    (answers (mk_NvmlPciInfo 11141 1 (list_ascii_of_string "00000000:01:00.0"))) (answers 34190917632)
    (answers (12, 0)%Z) (text "98.02.2E.00.01") (text "1654923000001") (not_supported 0) (not_supported 0%Z)
    (not_supported (0, 0)) (answers 1) (answers 512) (answers 21760).

Definition one_gpu_cuda : CudaApi :=
  let name : Entry Z (list ascii) := answers (list_ascii_of_string "NVIDIA GeForce RTX 5090") in
  mk_CudaApi true (answers tt) (answers 13000%Z) (answers 1%Z) (answers 0%Z) name (answers gpu_uuid)
    (Some (fun c => (0%Z, if (c.1 =? kAttributeComputeCapabilityMajor)%Z then 12%Z
                          else if (c.1 =? kAttributeComputeCapabilityMinor)%Z then 0%Z else 1%Z))).

Definition one_gpu_host : Host := mk_Host None None None one_gpu_nvml one_gpu_cuda.

Definition discover_with (backend : IDiscoveryBackend) (s : LocalSink) : (Status * DiscoveryReport) * LocalSink :=
  perform (@answer_sink LocalSink (local_sink strlen no_clock)) (run_discovery EmptyString backend host_context) s.

Definition events_of (backend : IDiscoveryBackend) (s : LocalSink) : list sink_event :=
  trace (@answer_sink LocalSink (local_sink strlen no_clock)) (run_discovery EmptyString backend host_context) s.

(** The claims of a run: capability and support. *)
Definition claims_of (events : list sink_event) : list (string * SupportState) :=
  map (fun p => (id_str (cr_capability (pb_capability p)), cr_support (pb_capability p)))
    (List.filter (fun p => pb_kind p ==? PublicationKind.PublishCapability) (published events)).

Lemma adapters_claim_granted_subjects_witness :
  claims_granted (events_of (make_nvml_backend one_gpu_nvml) fresh_sink) /\
  lengthN (claims_of (events_of (make_nvml_backend one_gpu_nvml) fresh_sink)) = 11.
Proof.
  split; [|vm_compute; reflexivity].
  apply (@adapters_claim_granted_subjects LocalSink (local_sink strlen no_clock) one_gpu_host EmptyString
           (make_nvml_backend one_gpu_nvml) host_context fresh_sink).
  right. right. left.
Defined.

(** A claim of absence of that run, and what it rests on. *)
Definition mig_refused (events : list sink_event) : option Publication :=
  List.find (fun p => (pb_kind p ==? PublicationKind.PublishCapability) &&
                      (cr_capability (pb_capability p) ==? cap "cap.partition.mechanism")) (published events).

Lemma adapters_claim_what_was_reported_witness :
  match mig_refused (events_of (make_nvml_backend one_gpu_nvml) fresh_sink) with
  | Some p => cr_support (pb_capability p) = SupportState.Unsupported /\
              honest one_gpu_host (dx_platform host_context) (cr_device (pb_capability p)) (stated (pb_capability p))
  | None => False
  end.
Proof.
  destruct (mig_refused _) as [p|] eqn:Ep; [|vm_compute in Ep; discriminate Ep].
  split; [vm_compute in Ep; injection Ep as <-; reflexivity|].
  pose proof (find_some _ _ Ep) as [Hin Hk]. apply andb_true_iff in Hk as [Hk _].
  apply (@adapters_claim_what_was_reported LocalSink (local_sink strlen no_clock) one_gpu_host EmptyString
           (make_nvml_backend one_gpu_nvml) host_context fresh_sink).
  - right. right. left.
  - apply list_elem_of_In. exact Hin.
  - by bsimpl.
Defined.

(** What the registry holds about the GPU after a run: family, serial number,
    locator and runtime. *)
Definition gpu_identity (s : LocalSink) : option (string * option string * option string * string) :=
  option_map (fun d =>
      let identity := ds_identity d in
      (id_str (hi_family (di_hardware identity)), di_serial_number identity, di_instance_locator identity,
       id_str (rt_id (sw_runtime (ds_software d)))))
    (find_device_locked (LocalEvidenceSink.registry s) (gpu_device_id_from_uuid (format_gpu_uuid gpu_uuid))).

(** The two GPU adapters agree on the subject, but the later one replaces what
    the registry knows of it: after the CUDA adapter the family, by which
    quirks apply, is generic, and the serial number and the bus location that
    NVML reported are gone. *)
Theorem cuda_replaces_gpu_identity :
  let nvml := (discover_with (make_nvml_backend one_gpu_nvml) fresh_sink).2 in
  let cuda := (discover_with (make_cuda_runtime_backend one_gpu_cuda) nvml).2 in
  gpu_identity nvml = Some ("family.nvidia.geforce"%string, Some "1654923000001"%string, Some "00000000:01:00.0"%string, "runtime.nvml"%string) /\
  gpu_identity cuda = Some ("family.nvidia.cuda-device"%string, None, None, "runtime.cuda"%string).
Proof. vm_compute. split; reflexivity. Qed.

(** A telemetry surface is claimed when the library has the entry point, also
    for a device that answers that it does not support it. *)
Theorem telemetry_without_answer :
  (match nv_get_power_limits one_gpu_nvml with Some f => (f 7).1 | None => 0%Z end) = kNvmlErrorNotSupported /\
  In "power-cap"%string (telemetry one_gpu_nvml).
Proof. vm_compute. tauto. Qed.
