(* ===== verification/Cli.v ===== *)
(** * The command line

    Models [cli_main.cpp]. A command is a function from its options and from
    what the world answers (the host, files, connections, the clock) to what it
    prints and its exit code. The read commands work on a [Source], which is
    the local registry of a state file or a client of a coordinator; each makes
    at most one query ([asked]). *)

From S2P Require Import Prelude Tokens Versions Support Conditions Values Hardware Quirks Compat Publication.
From S2P Require Import RegistryState Fixtures Resolution Publishers Devices Knowledge Evidence Ingest Runs Catalog System.
From S2P Require Import Wire Checksum Codec Frames Queries Render Snapshots Durable Image QueryCodec Messages Coordinator Client.
From S2P Require Import Programs AdapterCommon Discovery HostAdapters GpuAdapters Synthetic Adapters.

(* ===================================================================== *)
(** ** Options *)

Record Options := mk_Options {
  op_values : gmap string string;
  op_flags : list string;
  op_positional : list string
}.

#[global] Instance eta_Options : Eta Options := fun r => mk_Options (op_values r) (op_flags r) (op_positional r).

Definition no_options : Options := mk_Options ∅ [] [].

Definition has (name : string) (options : Options) : bool :=
  bool_decide (is_Some (op_values options !! name)) || existsb (fun flag => flag ==? name) (op_flags options).

Definition get_or (name fallback : string) (options : Options) : string := default fallback (op_values options !! name).
Definition get (name : string) (options : Options) : string := get_or name EmptyString options.

(** [stoull] is that of the conditions; [std::stoul] is the same function on a
    64-bit [unsigned long]. *)
Definition get_size (name : string) (fallback : N) (options : Options) : N :=
  match op_values options !! name with
  | None => fallback
  | Some text => default fallback (stoull text)
  end.

(** [static_cast<std::uint16_t>]. *)
Definition to_port (n : N) : N := n mod 65536.

Definition dashed (text : string) : bool := match text with String c _ => Ascii.eqb c "-" | EmptyString => false end.

(** [token.size() > 2 && token[0] == '-' && token[1] == '-']: the name. *)
Definition long_name (token : string) : option string :=
  match token with
  | String c (String d ((String _ _) as name)) => if Ascii.eqb c "-" && Ascii.eqb d "-" then Some name else None
  | _ => None
  end.

Fixpoint parse_from (arguments : list string) (options : Options) : Options :=
  match arguments with
  | [] => options
  | token :: rest =>
      match long_name token with
      | Some name =>
          match rest with
          | value :: rest' =>
              if negb (dashed value) then parse_from rest' (options <| op_values ::= <[name := value]> |>)
              else parse_from rest (options <| op_flags ::= fun l => l ++ [name] |>)
          | [] => options <| op_flags ::= fun l => l ++ [name] |>
          end
      | None =>
          if dashed token then parse_from rest (options <| op_flags ::= fun l => l ++ [rest_of 1 token] |>)
          else parse_from rest (options <| op_positional ::= fun l => l ++ [token] |>)
      end
  end.

Definition parse (arguments : list string) : Options := parse_from arguments no_options.

(* ===================================================================== *)
(** ** Output *)

Record Printed := mk_Printed { pr_out : string; pr_err : string; pr_code : N }.

Definition line (text : string) : string := (text +:+ newline)%string.
Definition lines (texts : list string) : string := fold_right (fun text rest => line text +:+ rest)%string EmptyString texts.

Definition prints (texts : list string) : Printed := mk_Printed (lines texts) EmptyString 0.

(** [report], after what was printed before. *)
Definition report_after (out : string) (status : Status) : Printed :=
  mk_Printed out (line ("error: " +:+ describe status)%string) 1.
Definition report (status : Status) : Printed := report_after EmptyString status.

(** [if (!status.ok()) return report(status);] *)
Definition answered {A} (answer : Status + A) (print : A -> Printed) : Printed :=
  match answer with inl status => report status | inr a => print a end.

Definition counting (n : N) (what : string) : string := (pretty n +:+ " " +:+ what)%string.

Definition usage : string :=
  line ("Hardware Capability Registry " +:+ version_string)%string +:+
  lines
  ["usage: hcr <command> [options]";
   "";
   "read commands (answer from --port <n> or --state <file>)";
   "  devices                     list hardware subjects";
   "  schema                      list typed capability schemas";
   "  caps --device <id>          list capabilities of a device";
   "  capability --device <id> --capability <id> [--explain]";
   "  unknown --device <id>       capabilities with unknown state";
   "  unsupported --device <id>   capabilities positively unsupported";
   "  conditional --device <id>   capabilities that are conditional";
   "  stale --device <id>         capabilities whose evidence is stale";
   "  contradictions --device <id>";
   "  quirks [--device <id>] [--applicable]";
   "  compat [--kind <k>] [--reference <kind:token>]";
   "  compare --left <id> --right <id>";
   "  publishers                  publisher authority and boot identities";
   "  epoch                       coordinator epoch";
   "  classify --device <id>      REAL / SYNTHETIC / UNSUPPORTED counting";
   "  snapshot                    immutable registry snapshot summary";
   "  fleet --capability <id>     which devices support a capability";
   "";
   "administrative commands (explicitly mutating)";
   "  discover [--synthetic <profile>] [--hardware] [--state <file>] [--save <file>]";
   "  coordinator --port <n> [--state <file>] [--persist]";
   "  publisher --port <n> --publisher <id> [--synthetic <profile>] [--hardware]";
   "  fence --port <n> --publisher <id> [--reason <text>]";
   "  stop --port <n>";
   "  selftest";
   "";
   "environment options for conditional evaluation";
   "  --driver-version <v> --firmware-version <v> --runtime-version <v>";
   "  --os <name> --kernel <v> --device-mode <m> --topology <t> --privilege <p>";
   "  --setting <name=value> --gate <id> --probe-env"]%string.

(* ===================================================================== *)
(** ** Environments and queries *)

(** [if (!value.empty()) set(value);] *)
Definition set_unless_empty (key value : string) (environment : EnvironmentContext) : EnvironmentContext :=
  if is_empty value then environment else env_set environment key value.

Definition gate_flag (flag : string) : option string :=
  if String.prefix "gate=" flag then Some (rest_of 5 flag) else None.

Section Environment.
Variable windows : option WindowsHost.

Definition probed_environment (environment : EnvironmentContext) : EnvironmentContext :=
  match probe_host_platform windows (mk_HostProbe default_platform environment default_software) with
  | (status, _, probe) =>
      if status_ok status
      then
        let software := hp_software probe in
        set_unless_empty kRuntimeVersion (rt_version (sw_runtime software))
          (set_unless_empty kFirmwareVersion (fw_version (sw_firmware software))
             (set_unless_empty kDriverVersion (dv_version (sw_driver software)) (hp_environment probe)))
      else environment
  end.

Definition named_facts : list (string * string) :=
  [("driver-version", kDriverVersion); ("firmware-version", kFirmwareVersion); ("runtime-version", kRuntimeVersion);
   ("os", kOs); ("kernel", kKernelVersion); ("device-mode", kDeviceMode); ("topology", kTopology);
   ("peer", kPeerHardware); ("partition-state", kPartitionState); ("privilege", kPrivilege)]%string.

Definition build_environment (options : Options) : EnvironmentContext :=
  let environment := foldl (fun environment fact => set_unless_empty fact.2 (get fact.1 options) environment) ∅ named_facts in
  let environment := foldl env_add_feature_gate environment (omap gate_flag (op_flags options)) in
  if has "probe-env" options then probed_environment environment else environment.

Definition device_query (options : Options) : DeviceCapabilityQuery :=
  let query := default_device_query (Id_parse (get "device" options))
    <| dq_environment := build_environment options |>
    <| dq_capability_prefix := get "prefix" options |>
    <| dq_only_current := negb (has "include-historical" options) |> in
  if has "domain" options
  then match capability_domain_from_string (get "domain" options) with
       | Some domain => query <| dq_domain := Some domain |>
       | None => query
       end
  else query.
End Environment.

(* ===================================================================== *)
(** ** Sources *)

(** [Source]: what it answers, its schemas and its name. *)
Record Source := mk_Source {
  so_answers : Answers;
  so_schemas : list CapabilitySchema;
  so_describe : string
}.

Definition capability_schemas (st : Registry) : list CapabilitySchema := map snd (map_entries (r_schemas st)).

Definition local_source (now : string) (st : Registry) : Source :=
  mk_Source (local_answers now st) (capability_schemas st) "local registry".

(** A source over a client: [tell] is its exchange with the coordinator. *)
Definition remote_source (tell : QueryRequest -> Status + QueryResponse) : Source :=
  mk_Source (remote_answers tell) builtin_capability_schemas "coordinator".

Definition client_source (client : Client) : Source := remote_source (fun request => (exchange request client).1).

(** [ClientConfig] with its default values. *)
Definition client_config : ClientConfig := mk_ClientConfig "hcr-client" default_limits.

(** What the world answers a command. *)
Record World := mk_World {
  w_host : Host;
  w_now : string;
  (** [TcpConnection] to a local port. *)
  w_connect : N -> Status + Connection;
  (** The chunks read from a file, and [ferror]. *)
  w_file : string -> option (list (list byte)) * bool;
  (** The status of [FileStateStore::save]. *)
  w_save : string -> DurableState -> Status
}.

Inductive Opened :=
  | Opens (source : Source)
  | Refuses (status : Status)
  (** [std::stoul] throws, which nobody catches. *)
  | Throws.

Definition builtin_registry : Registry := construct_registry builtin_capability_schemas default_limits.

Definition open_source (world : World) (options : Options) : Opened :=
  let port_text := get "port" options in
  let state_path := get "state" options in
  if negb (is_empty port_text)
  then
    match stoull port_text with
    | None => Throws
    | Some port =>
        let '(connected, client) := client_connect (w_connect world (to_port port)) (new_client client_config) in
        if negb (status_ok connected) then Refuses connected else Opens (client_source client)
    end
  else if negb (is_empty state_path)
  then
    let '(file, error) := w_file world state_path in
    match load state_path store_options file error with
    | inl status => Refuses status
    | inr state =>
        let '(st, imported) := import_durable_state state builtin_registry in
        match imported with
        | inl status => Refuses status
        | inr _ => Opens (local_source (w_now world) st)
        end
    end
  else Refuses (failure InvalidArgument "a read command requires --port <n> or --state <file>").

(* ===================================================================== *)
(** ** Read commands *)

Section Reading.
Variable windows : option WindowsHost.

Definition cmd_devices (source : Source) : Printed :=
  answered (an_devices (so_answers source)) (fun subjects =>
    prints (counting (lengthN subjects) ("subject(s) from " +:+ so_describe source)%string :: map render_subject subjects)).

Definition schema_line (schema : CapabilitySchema) : string :=
  (id_str (cs_id schema) +:+ " | " +:+ capability_domain_to_string (cs_domain schema) +:+ " | " +:+
   value_kind_to_string (cs_value_kind schema) +:+ " | " +:+ id_str (cs_capability schema) +:+ " | " +:+
   cs_canonical_name schema +:+ (if is_empty (cs_unit schema) then "" else " | unit=" +:+ cs_unit schema))%string.

Definition cmd_schema (source : Source) : Printed :=
  prints (counting (lengthN (so_schemas source)) "capability schema(s)" :: map schema_line (so_schemas source)).

Definition briefly (what : string) (capabilities : list ResolvedCapability) : Printed :=
  prints (counting (lengthN capabilities) what :: map render_capability_brief capabilities).

Definition cmd_caps (options : Options) (source : Source) : Printed :=
  answered (an_capabilities (so_answers source) (device_query windows options)) (briefly "capability record(s)").

Definition cmd_capability (options : Options) (source : Source) : Printed :=
  let query := mk_CapabilityQuery (Id_parse (get "device" options)) Gen_none (Id_parse (get "capability" options))
    (build_environment windows options) true in
  answered (an_capability (so_answers source) query) (fun resolved =>
    prints [if has "explain" options then render_capability resolved else render_capability_brief resolved]).

Definition filtered_query (filter : string) (query : DeviceCapabilityQuery) : DeviceCapabilityQuery :=
  if filter ==? "unknown"%string then query <| dq_only_unknown := true |> <| dq_only_current := false |>
  else if filter ==? "unsupported"%string then query <| dq_only_unsupported := true |> <| dq_only_current := false |>
  else if filter ==? "conditional"%string then query <| dq_only_conditional := true |> <| dq_only_current := false |>
  else query.

Definition cmd_filtered (filter : string) (options : Options) (source : Source) : Printed :=
  answered (an_capabilities (so_answers source) (filtered_query filter (device_query windows options)))
    (briefly (filter +:+ " capability record(s)")%string).

Definition cmd_stale (options : Options) (source : Source) : Printed :=
  answered (an_stale (so_answers source)
              (mk_StaleCapabilityQuery (Id_parse (get "device" options)) Gen_none (build_environment windows options) 0))
    (briefly "stale or non-current capability record(s)").

Definition all_query (options : Options) : DeviceCapabilityQuery := device_query windows options <| dq_only_current := false |>.

Definition cmd_contradictions (options : Options) (source : Source) : Printed :=
  answered (an_capabilities (so_answers source) (all_query options)) (fun capabilities =>
    let contradicted := List.filter (fun c => rc_contradiction c !=? ContradictionState.Consistent) capabilities in
    prints (concat (map (fun c => [render_capability_brief c; render_capability c]) contradicted) ++
            [counting (lengthN contradicted) "contradicted capability record(s)"])).

(** [if (!text.empty()) id = parse(text);] *)
Definition optional_id {tag} (text : string) : option (Id tag) := if is_empty text then None else Some (Id_parse text).

Definition cmd_quirks (options : Options) (source : Source) : Printed :=
  if has "all" options
  then answered (an_quirk_records (so_answers source)) (fun quirks =>
         prints (counting (lengthN quirks) "quirk record(s)" :: map render_quirk quirks))
  else
    let query := mk_QuirkQuery (optional_id (get "device" options)) (build_environment windows options)
      (optional_id (get "capability" options)) (has "applicable" options) 0 in
    answered (an_quirks (so_answers source) query) (fun applications =>
      prints (counting (lengthN applications) "quirk evaluation(s)" :: map render_quirk_application applications)).

Definition parse_reference (reference : string) : Status + HardwareReference :=
  match find_from 0 ":" reference with
  | None => inl (failure InvalidArgument "--reference expects <kind>:<token>")
  | Some separator =>
      match hardware_reference_kind_from_string (substring 0 separator reference) with
      | None => inl (failure InvalidArgument "unknown reference kind")
      | Some kind => inr (mk_HardwareReference kind (rest_of (separator + 1) reference) no_version)
      end
  end.

Definition cmd_compat (options : Options) (source : Source) : Printed :=
  let kind := if has "kind" options then compatibility_subject_kind_from_string (get "kind" options) else None in
  let reference :=
    if has "reference" options then map_answer Some (parse_reference (get "reference" options)) else inr None in
  answered reference (fun reference =>
    answered (an_compatibility (so_answers source)
                (mk_CompatibilityQuery reference kind (has "include-withdrawn" options) 0)) (fun facts =>
      prints (counting (lengthN facts) "compatibility fact(s)" :: map render_compatibility facts))).

Definition cmd_compare (options : Options) (source : Source) : Printed :=
  let request := mk_ComparisonRequest (Id_parse (get "left" options)) (Id_parse (get "right" options)) Gen_none Gen_none
    (build_environment windows options) in
  answered (an_compare (so_answers source) request) (fun comparison => prints [render_comparison comparison]).

Definition cmd_publishers (source : Source) : Printed :=
  answered (an_publishers (so_answers source)) (fun publishers =>
    prints (counting (lengthN publishers) "publisher(s)" :: map render_publisher publishers)).

Definition cmd_epoch (source : Source) : Printed :=
  answered (an_snapshot (so_answers source)) (fun s =>
    prints [("coordinator epoch " +:+ gen_str (rs_epoch s) +:+ " snapshot generation " +:+ gen_str (rs_generation s) +:+
             " state revision " +:+ pretty (rs_state_revision s))%string]).

Definition count_truth (truth : TruthClass) (capabilities : list ResolvedCapability) : N :=
  lengthN (List.filter (fun c => rc_truth c ==? truth) capabilities).

Definition cmd_classify (options : Options) (source : Source) : Printed :=
  answered (an_capabilities (so_answers source) (all_query options)) (fun capabilities =>
    prints [("REAL=" +:+ pretty (count_truth TruthClass.Real capabilities) +:+
             " SYNTHETIC=" +:+ pretty (count_truth TruthClass.Synthetic capabilities) +:+
             " UNSUPPORTED=" +:+ pretty (count_truth TruthClass.Unsupported capabilities) +:+
             " UNKNOWN=" +:+ pretty (count_truth TruthClass.Unknown capabilities))%string]).

Definition cmd_snapshot (source : Source) : Printed :=
  answered (an_snapshot (so_answers source)) (fun s => prints [render_snapshot_summary s]).

Definition cmd_fleet (options : Options) (source : Source) : Printed :=
  let query := mk_FleetCapabilityQuery (Id_parse (get "capability" options)) (build_environment windows options)
    None None None true 0 in
  answered (an_fleet (so_answers source) query) (fun capabilities =>
    prints (counting (lengthN capabilities) "device(s)" ::
            map (fun c => id_str (rc_device c) +:+ " " +:+ render_capability_brief c)%string capabilities)).

(** The read commands of [main]; [None] is an unknown command. *)
Definition read_command (command : string) (options : Options) (source : Source) : option Printed :=
  if command ==? "devices"%string then Some (cmd_devices source)
  else if command ==? "schema"%string then Some (cmd_schema source)
  else if command ==? "caps"%string then Some (cmd_caps options source)
  else if command ==? "capability"%string then Some (cmd_capability options source)
  else if command ==? "unknown"%string then Some (cmd_filtered "unknown" options source)
  else if command ==? "unsupported"%string then Some (cmd_filtered "unsupported" options source)
  else if command ==? "conditional"%string then Some (cmd_filtered "conditional" options source)
  else if command ==? "stale"%string then Some (cmd_stale options source)
  else if command ==? "contradictions"%string then Some (cmd_contradictions options source)
  else if command ==? "quirks"%string then Some (cmd_quirks options source)
  else if command ==? "compat"%string then Some (cmd_compat options source)
  else if command ==? "compare"%string then Some (cmd_compare options source)
  else if command ==? "publishers"%string then Some (cmd_publishers source)
  else if command ==? "epoch"%string then Some (cmd_epoch source)
  else if command ==? "classify"%string then Some (cmd_classify options source)
  else if command ==? "snapshot"%string then Some (cmd_snapshot source)
  else if command ==? "fleet"%string then Some (cmd_fleet options source)
  else None.
End Reading.

(* ===================================================================== *)
(** ** Administrative commands *)

Definition unknown_platform : PlatformIdentity :=
  mk_PlatformIdentity (Id_parse "platform.host.unknown") "unknown host" "unknown" "unknown" (Id_parse "arch.unknown") [].

Definition no_probe : HostProbe := mk_HostProbe default_platform ∅ default_software.

(** [DiscoveryContext] of a probed host. *)
Definition probed_context (publisher : PublisherIdentity) (now : string) (probe : HostProbe) : DiscoveryContext :=
  mk_DiscoveryContext publisher (hp_platform probe) Gen_none now (hp_environment probe) (hp_software probe)
    SourceClass.Unspecified ProvenanceClass.UnknownSource EmptyString.

(** The context [run_discovery] works in, and the line it prints of the probe. *)
Definition discovery_context (world : World) (options : Options) : DiscoveryContext * string :=
  let publisher := no_publisher <| pi_id := Id_parse (get_or "publisher" "publisher.local" options) |> in
  let '(probed, detail, probe) := probe_host_platform (h_windows (w_host world)) no_probe in
  if status_ok probed then (probed_context publisher (w_now world) probe, detail)
  else (probed_context publisher (w_now world) (mk_HostProbe unknown_platform (hp_environment probe) (hp_software probe)),
        "host platform probe unavailable: " +:+ status_message probed)%string.

(** The adapters [run_discovery] runs; [None] is an unknown profile. *)
Definition discovery_backends (h : Host) (options : Options) : option (list IDiscoveryBackend) :=
  let positional := omap (fun text => option_map make_synthetic_backend (synthetic_profile_from_string text))
                      (op_positional options) in
  let hardware :=
    if has "hardware" options || (negb (has "synthetic" options) && match op_positional options with [] => true | _ => false end)
    then hardware_backends h else [] in
  if has "synthetic" options
  then option_map (fun profile => hardware ++ [make_synthetic_backend profile] ++ positional)
         (synthetic_profile_from_string (get "synthetic" options))
  else Some (hardware ++ positional).

(** What is printed of one adapter's run. *)
Definition run_lines (idempotent : bool) (status : Status) (report : DiscoveryReport) : list string :=
  [((if dp_available report then "[ran]     " else "[skipped] ") +:+ dp_adapter report +:+
    " accepted=" +:+ pretty (dp_accepted report) +:+
    (if idempotent then " idempotent=" +:+ pretty (dp_idempotent report) else "") +:+
    " rejected=" +:+ pretty (dp_rejected report))%string] ++
  map (fun text => "          note: " +:+ text)%string (dp_notes report) ++
  (if negb (status_ok status) then ["          " +:+ describe status]%string else []).

(** The loop over the adapters: the number of failures, and what is printed. *)
Fixpoint run_backends (now : string) (idempotent : bool) (context : DiscoveryContext) (backends : list IDiscoveryBackend) :
    Sinking (N * list string) :=
  match backends with
  | [] => mret (0, [])
  | backend :: rest =>
      ran ← Discovery.run_discovery now backend context;
      after ← run_backends now idempotent context rest;
      mret ((if negb (status_ok ran.1) then 1 else 0) + after.1, run_lines idempotent ran.1 ran.2 ++ after.2)
  end.

Section Commands.
Variable hash : string -> N.
Variable clock : N -> string.

Definition run_local {A} (m : Sinking A) (st : Registry) : A * LocalSink :=
  perform (@answer_sink LocalSink (local_sink hash clock)) m (LocalEvidenceSink.new_sink st).

(** [run_discovery] into a new registry: the failures, what it prints, what is
    on the error stream, and the registry. *)
Definition run_discovery (world : World) (options : Options) : N * string * string * Registry :=
  let '(context, probe_line) := discovery_context world options in
  match discovery_backends (w_host world) options with
  | None =>
      (1, line probe_line, line ("error: unknown synthetic profile " +:+ get "synthetic" options)%string, builtin_registry)
  | Some backends =>
      let '((failures, texts), s) := run_local (run_backends (w_now world) true context backends) builtin_registry in
      let st := LocalEvidenceSink.registry s in
      (failures, lines (probe_line :: texts ++ [render_resource_usage (resource_usage st)]), EmptyString, st)
  end.

Definition exit_code (failures : N) : N := if failures =? 0 then 0 else 1.

Definition cmd_discover (world : World) (options : Options) : Printed :=
  let '(failures, out, err, st) := run_discovery world options in
  let summary := if has "summary" options then lines (map render_subject (list_devices st)) else EmptyString in
  if has "save" options
  then
    let path := get "save" options in
    let saved := w_save world path (export_durable_state (w_now world) st) in
    if negb (status_ok saved)
    then mk_Printed out (err +:+ line ("error: " +:+ describe saved))%string 1
    else mk_Printed (out +:+ line ("saved durable state to " +:+ path) +:+ summary)%string err (exit_code failures)
  else mk_Printed (out +:+ summary)%string err (exit_code failures).

Definition cmd_selftest (world : World) : Printed :=
  let options := no_options <| op_values := {["synthetic"%string := "mixed-vendor-fleet"%string]} |> in
  let '(failures, out, err, st) := run_discovery world options in
  let out := (out +:+ line ("selftest subjects=" +:+ pretty (lengthN (list_devices st))))%string in
  match (snapshot (w_now world) st).2 with
  | inl status => mk_Printed out (err +:+ line ("error: " +:+ describe status))%string 1
  | inr s => mk_Printed (out +:+ line (render_snapshot_summary s))%string err (exit_code failures)
  end.

(** [cmd_coordinator]: the configuration it makes, its port, and what it
    prints once [start] and [run] have returned. *)
Definition coordinator_config (options : Options) : CoordinatorConfig :=
  mk_CoordinatorConfig (get "state" options) default_limits (has "persist" options) (get_or "name" "hcr-coordinator" options).

Definition coordinator_port (options : Options) : N := to_port (get_size "port" 0 options).

Definition cmd_coordinator (started served : Status) (port : N) (epoch : CoordinatorEpoch) : Printed :=
  if negb (status_ok started) then report started
  else
    let listening := line ("coordinator listening on 127.0.0.1:" +:+ pretty port +:+ " epoch " +:+ gen_str epoch)%string in
    if negb (status_ok served) then report_after listening served
    else mk_Printed (listening +:+ line "coordinator stopped; sessions fenced")%string EmptyString 0.

(** *** The publisher *)

Definition publisher_config (options : Options) : PublisherConfig :=
  mk_PublisherConfig (Id_parse (get "publisher" options)) (get_or "adapter" "cli.publisher" options) "hcr-publisher" 0 default_limits.

Definition publisher_backends (h : Host) (options : Options) : option (list IDiscoveryBackend) :=
  if has "synthetic" options
  then option_map (fun profile => make_synthetic_backend profile ::
                                  if has "hardware" options then hardware_backends h else [])
         (synthetic_profile_from_string (get "synthetic" options))
  else Some (hardware_backends h).

Definition publisher_context (world : World) (agent : Agent) : DiscoveryContext :=
  let '(probed, _, probe) := probe_host_platform (h_windows (w_host world)) no_probe in
  probed_context (ag_identity agent) (w_now world)
    (if status_ok probed then probe
     else mk_HostProbe (default_platform <| pl_id := Id_parse "platform.host.unknown" |>
                          <| pl_display_name := "unknown host"%string |>) (hp_environment probe) (hp_software probe)).

(** The heartbeats of [--linger]; [false] when the session outlasts these
    rounds. *)
Fixpoint linger (rounds : nat) (agent : Agent) : bool * Agent :=
  if negb (agent_connected agent) then (true, agent)
  else match rounds with
  | O => (false, agent)
  | Datatypes.S rounds =>
      let '(beat, agent) := heartbeat agent in
      if negb (accepted beat) && (ar_code beat !=? ApplyCode.AcceptedIdempotent) then (true, agent)
      else linger rounds agent
  end.

(** [None]: still lingering after these rounds. *)
Definition cmd_publisher (world : World) (rounds : nat) (options : Options) : option Printed :=
  let connected := w_connect world (to_port (get_size "port" 0 options)) in
  let '(registered, agent) := connect_and_register connected (new_agent (publisher_config options)) in
  if negb (status_ok registered) then Some (report registered)
  else
    let identity := ag_identity agent in
    let out := line ("publisher " +:+ id_str (pi_id identity) +:+ " boot " +:+ gen_str (pi_boot identity) +:+
                     " epoch " +:+ gen_str (pi_epoch identity))%string in
    match publisher_backends (w_host world) options with
    | None => Some (mk_Printed out (line "error: unknown synthetic profile") 1)
    | Some backends =>
        let '((failures, texts), agent) :=
          perform (@answer_sink Agent (agent_sink connected (w_now world)))
            (run_backends (w_now world) false (publisher_context world agent) backends) agent in
        let out := (out +:+ lines texts)%string in
        if has "linger" options
        then
          let '(ended, _) := linger rounds agent in
          if ended
          then Some (mk_Printed (out +:+ lines ["lingering"; "coordinator session ended"])%string EmptyString (exit_code failures))
          else None
        else Some (mk_Printed out EmptyString (exit_code failures))
    end.

(** *** Operator requests *)

(** Connects, makes one request and prints its confirmation. *)
Definition operate (world : World) (options : Options) (request : Client -> Status * Client) (confirmation : string) : Printed :=
  let port := to_port (get_size "port" 0 options) in
  let '(connected, client) := client_connect (w_connect world port) (new_client client_config) in
  if negb (status_ok connected) then report connected
  else
    let '(status, _) := request client in
    if negb (status_ok status) then report status else prints [confirmation].

Definition cmd_fence (world : World) (options : Options) : Printed :=
  operate world options
    (client_fence_publisher (Id_parse (get "publisher" options)) (get_or "reason" "fenced by operator" options))
    "publisher fenced".

Definition cmd_stop (world : World) (options : Options) : Printed :=
  operate world options (client_shutdown (get_or "reason" "operator request" options)) "shutdown accepted".

(* ===================================================================== *)
(** ** [main] *)

(** How a command ends: with what it printed, by an exception nobody catches,
    or not within the given rounds. *)
Inductive Ending := Exits (printed : Printed) | Terminates | Runs.

Definition exits (printed : option Printed) : Ending := match printed with Some p => Exits p | None => Runs end.

Definition unknown_command (command : string) : Printed :=
  mk_Printed usage (line ("error: unknown command '" +:+ command +:+ "'")%string) 2.

(** [main] on the arguments after the program's name; [coordinator] is what
    the coordinator command comes to. *)
Definition main (world : World) (rounds : nat) (coordinator : Options -> Ending) (arguments : list string) : Ending :=
  match arguments with
  | [] => Exits (mk_Printed usage EmptyString 2)
  | command :: rest =>
      let options := parse rest in
      if bool_decide (command ∈ ["version"; "--version"]%string)
      then Exits (prints [("Hardware Capability Registry " +:+ version_string +:+ " protocol " +:+ pretty protocol_version +:+
                           " state-format " +:+ pretty state_format_version)%string])
      else if bool_decide (command ∈ ["help"; "--help"; "-h"]%string) then Exits (mk_Printed usage EmptyString 0)
      else if command ==? "discover"%string then Exits (cmd_discover world options)
      else if command ==? "coordinator"%string then coordinator options
      else if command ==? "publisher"%string then exits (cmd_publisher world rounds options)
      else if command ==? "fence"%string then Exits (cmd_fence world options)
      else if command ==? "stop"%string then Exits (cmd_stop world options)
      else if command ==? "selftest"%string then Exits (cmd_selftest world)
      else match open_source world options with
      | Throws => Terminates
      | Refuses status => Exits (report status)
      | Opens source =>
          match read_command (h_windows (w_host world)) command options source with
          | Some printed => Exits printed
          | None => Exits (unknown_command command)
          end
      end
  end.
End Commands.

(* ===================================================================== *)
(** ** Properties *)

Lemma answered_ext {A} (answer : Status + A) f g : (forall a, f a = g a) -> answered answer f = answered answer g.
Proof. intros Hfg. destruct answer; [done|apply Hfg]. Qed.

(** The query a read command makes of its source, as a client sends it;
    [None] for [schema], which is not asked, for a reference that is
    malformed and for an unknown command. *)
Definition asked (windows : option WindowsHost) (command : string) (options : Options) : option QueryRequest :=
  let device := Id_parse (get "device" options) in
  let environment := build_environment windows options in
  if command ==? "devices"%string then Some (bare_request QueryKind.Devices)
  else if command ==? "caps"%string then Some (device_capabilities_request (device_query windows options))
  else if command ==? "capability"%string
  then Some (capability_request (mk_CapabilityQuery device Gen_none (Id_parse (get "capability" options)) environment true))
  else if existsb (fun filter => command ==? filter) ["unknown"; "unsupported"; "conditional"]%string
  then Some (device_capabilities_request (filtered_query command (device_query windows options)))
  else if command ==? "stale"%string then Some (stale_request (mk_StaleCapabilityQuery device Gen_none environment 0))
  else if existsb (fun all => command ==? all) ["contradictions"; "classify"]%string
  then Some (device_capabilities_request (all_query windows options))
  else if command ==? "quirks"%string
  then Some (if has "all" options then bare_request QueryKind.QuirkRecords
             else quirks_request (mk_QuirkQuery (optional_id (get "device" options)) environment
                                    (optional_id (get "capability" options)) (has "applicable" options) 0))
  else if command ==? "compat"%string
  then
    let kind := if has "kind" options then compatibility_subject_kind_from_string (get "kind" options) else None in
    let ask reference := Some (compatibility_request
      (mk_CompatibilityQuery reference kind (has "include-withdrawn" options) 0)) in
    if has "reference" options
    then match parse_reference (get "reference" options) with inl _ => None | inr reference => ask (Some reference) end
    else ask None
  else if command ==? "compare"%string
  then Some (compare_request (mk_ComparisonRequest (Id_parse (get "left" options)) (Id_parse (get "right" options))
                                Gen_none Gen_none environment))
  else if command ==? "publishers"%string then Some (bare_request QueryKind.Publishers)
  else if existsb (fun overview => command ==? overview) ["epoch"; "snapshot"]%string
  then Some (bare_request QueryKind.Snapshot)
  else if command ==? "fleet"%string
  then Some (fleet_request (mk_FleetCapabilityQuery (Id_parse (get "capability" options)) environment None None None true 0))
  else None.

(** Only the part of a request that its kind selects is filled in. *)
Lemma asked_content windows command options request :
  asked windows command options = Some request -> request_content request = request.
Proof. unfold asked. repeat case_match; intros [= <-]; reflexivity. Qed.

(** A read command over a client depends on the answer to its query only. *)
Lemma read_command_asks windows command options tell tell' :
  (forall request, asked windows command options = Some request -> tell request = tell' request) ->
  read_command windows command options (remote_source tell) = read_command windows command options (remote_source tell').
Proof.
  unfold asked, read_command, cmd_caps, cmd_capability, cmd_filtered, cmd_stale, cmd_contradictions, cmd_quirks, cmd_compat,
    cmd_compare, cmd_publishers, cmd_epoch, cmd_classify, cmd_snapshot, cmd_fleet, cmd_devices.
  intros Htell. cbn [so_answers so_describe remote_source remote_answers an_capability an_capabilities an_fleet an_stale
    an_quirks an_quirk_records an_compatibility an_compare an_devices an_publishers an_snapshot].
  repeat (case_match; bsimpl; subst; cbn [existsb orb] in Htell; try (by rewrite (Htell _ eq_refl))).
  all: cbn [answered map_answer]; first [done|by rewrite (Htell _ eq_refl)].
Qed.

(** Told by a registry, it prints what it prints over that registry, but for
    the name of the source. *)
Lemma read_command_told windows time st command options : command <> "schema"%string ->
  let remote := remote_source (told time st) in
  let local := local_source time st in
  read_command windows command options remote =
    read_command windows command options (mk_Source (so_answers local) (so_schemas local) "coordinator") /\
  (command <> "devices"%string ->
   read_command windows command options remote = read_command windows command options local).
Proof.
  intros Hschema remote local. destruct (told_is_local time st).
  unfold read_command, cmd_caps, cmd_capability, cmd_filtered, cmd_stale, cmd_contradictions, cmd_quirks, cmd_compat,
    cmd_compare, cmd_publishers, cmd_epoch, cmd_classify, cmd_snapshot, cmd_fleet, cmd_devices.
  cbn [so_answers so_describe remote local remote_source local_source].
  destruct (command ==? "devices"%string) eqn:Ed; [bsimpl; split; [congruence|done]|].
  destruct (command ==? "schema"%string) eqn:Es; [by bsimpl|].
  split; [|intros _]; repeat case_match; try congruence;
    (f_equal; apply answered_ext; intros; congruence).
Qed.

(** C25: the read commands work alike on both sources. When the query of a
    read command reaches the coordinator and its reply the client ([delivered]:
    both have the same limits, the connection is open and idle, request and
    response fit the wire format, untruncated and within the frame bound), what
    the command prints over the client, and its exit code, is what it prints
    over the registry that the coordinator serves, but for the name of the
    source, which [devices] shows. A command that makes no query prints the
    same over any client. Excepted is [schema], which is not asked of the
    coordinator. *)
Theorem read_commands_uniform hash clock windows command options client session co rest
    (Hdelivered : forall request, asked windows command options = Some request ->
                    delivered hash clock client request session co rest)
    (Hschema : command <> "schema"%string) :
  let remote := client_source client in
  let local := local_source (now clock (received_frame co)) (co_registry co) in
  read_command windows command options remote =
    read_command windows command options (mk_Source (so_answers local) (so_schemas local) "coordinator") /\
  (command <> "devices"%string ->
   read_command windows command options remote = read_command windows command options local).
Proof.
  cbv zeta. unfold client_source.
  rewrite (read_command_asks windows command options _ (told (now clock (received_frame co)) (co_registry co))).
  - by apply read_command_told.
  - intros request Hasked. destruct (delivered_is_told _ _ _ _ _ _ _ (Hdelivered request Hasked)) as [-> _]. cbn [fst].
    by rewrite (asked_content _ _ _ _ Hasked).
Qed.

(** The client of the sample fleet asks for its devices. *)
Definition devices_asker : Client :=
  asking_client (in_two (reply_to (query_frame (bare_request QueryKind.Devices) (asking_client [])))).

Lemma devices_asked :
  se_sent (dispatch strlen sample_clock agent_session (query_frame (bare_request QueryKind.Devices) devices_asker)
             sample_coordinator).1.2 = [reply_to (query_frame (bare_request QueryKind.Devices) devices_asker)].
Proof. vm_compute. reflexivity. Qed.

Lemma devices_delivered :
  delivered strlen sample_clock devices_asker (bare_request QueryKind.Devices) agent_session sample_coordinator [].
Proof.
  constructor; [vm_compute; reflexivity|vm_compute; reflexivity|reflexivity|by repeat split|reflexivity|reflexivity|
    vm_compute; reflexivity|vm_compute; reflexivity|vm_compute; discriminate|vm_compute; reflexivity|
    vm_compute; reflexivity|].
  intros reply Hsent. apply (reply_arrives (query_frame (bare_request QueryKind.Devices) devices_asker) reply devices_asked Hsent).
Qed.

(** What [devices] prints over the coordinator of the sample fleet. *)
Lemma read_commands_uniform_witness :
  read_command None "devices" no_options (client_source devices_asker) =
    read_command None "devices" no_options (mk_Source (local_answers "t" sample_fleet) (capability_schemas sample_fleet) "coordinator") /\
  option_map pr_code (read_command None "devices" no_options (client_source devices_asker)) = Some 0.
Proof.
  split; [|vm_compute; reflexivity].
  refine (proj1 (read_commands_uniform strlen sample_clock None "devices" no_options devices_asker agent_session
    sample_coordinator [] _ _)).
  - intros request Hasked. assert (Hrequest : request = bare_request QueryKind.Devices).
    { change (Some (bare_request QueryKind.Devices) = Some request) in Hasked. congruence. }
    rewrite Hrequest. exact devices_delivered.
  - discriminate.
Defined.

(** A command that succeeds is silent on the error stream, and no command has
    another exit code than 0, 1 or 2. *)
Definition proper (p : Printed) : Prop := pr_code p <= 2 /\ (pr_code p = 0 -> pr_err p = EmptyString).

Lemma proper_prints texts : proper (prints texts).
Proof. by split; cbn; [lia|]. Qed.

Lemma proper_failed out err : proper (mk_Printed out err 1).
Proof. split; cbn; lia. Qed.

Lemma proper_report status : proper (report status).
Proof. apply proper_failed. Qed.

Lemma proper_exit out failures : proper (mk_Printed out EmptyString (exit_code failures)).
Proof. unfold exit_code. split; cbn; [|done]. destruct (_ =? _); lia. Qed.

Lemma proper_answered {A} (answer : Status + A) print : (forall a, proper (print a)) -> proper (answered answer print).
Proof. intros Hp. destruct answer; [apply proper_report|apply Hp]. Qed.

Lemma read_command_proper windows command options source p :
  read_command windows command options source = Some p -> proper p.
Proof.
  unfold read_command, cmd_caps, cmd_capability, cmd_filtered, cmd_stale, cmd_contradictions, cmd_compare,
    cmd_publishers, cmd_epoch, cmd_classify, cmd_snapshot, cmd_fleet, cmd_devices, cmd_schema, cmd_quirks, cmd_compat, briefly.
  repeat (case_match; [intros [= <-]; repeat (apply proper_answered; intros); try case_match;
                       repeat (apply proper_answered; intros); apply proper_prints|]). done.
Qed.

Section Endings.
Variable hash : string -> N.
Variable clock : N -> string.

Lemma run_discovery_errors world options :
  let '(failures, _, err, _) := run_discovery hash clock world options in failures = 0 -> err = EmptyString.
Proof.
  unfold run_discovery. destruct (discovery_context world options) as [context probe_line].
  destruct (discovery_backends _ _); [|done]. by destruct (run_local _ _ _ _) as [[failures texts] s].
Qed.

Lemma cmd_discover_proper world options : proper (cmd_discover hash clock world options).
Proof.
  pose proof (run_discovery_errors world options) as He. unfold cmd_discover.
  destruct (run_discovery hash clock world options) as [[[failures out] err] st].
  assert (Hp : forall out', proper (mk_Printed out' err (exit_code failures))).
  { intros out'. unfold exit_code. split; cbn; destruct (failures =? 0) eqn:E; try lia. intros _. apply He. by apply N.eqb_eq. }
  destruct (has "save" options); [|apply Hp]. destruct (negb _); [apply proper_failed|apply Hp].
Qed.

Lemma cmd_selftest_proper world : proper (cmd_selftest hash clock world).
Proof.
  unfold cmd_selftest. set (options := no_options <| op_values := _ |>).
  pose proof (run_discovery_errors world options) as He.
  destruct (run_discovery hash clock world options) as [[[failures out] err] st].
  destruct (snapshot _ st).2; [apply proper_failed|]. unfold exit_code. split; cbn; destruct (failures =? 0) eqn:E; try lia.
  intros _. apply He. by apply N.eqb_eq.
Qed.

Lemma cmd_publisher_proper world rounds options p : cmd_publisher world rounds options = Some p -> proper p.
Proof.
  unfold cmd_publisher. destruct (connect_and_register _ _) as [registered agent].
  destruct (negb _); [intros [= <-]; apply proper_report|]. destruct (publisher_backends _ _); [|intros [= <-]; apply proper_failed].
  destruct (perform _ _ _) as [[failures texts] agent']. destruct (has "linger" options).
  - destruct (linger rounds agent') as [[] ?]; [|done]. intros [= <-]. apply proper_exit.
  - intros [= <-]. apply proper_exit.
Qed.

Lemma operate_proper world options request confirmation : proper (operate world options request confirmation).
Proof.
  unfold operate. destruct (client_connect _ _) as [connected client]. destruct (negb _); [apply proper_report|].
  destruct (request client) as [status ?]. destruct (negb _); [apply proper_report|apply proper_prints].
Qed.

Lemma cmd_coordinator_proper started served port epoch : proper (cmd_coordinator started served port epoch).
Proof. unfold cmd_coordinator. destruct (negb _); [apply proper_report|]. destruct (negb _); [apply proper_failed|]. by split; cbn; [lia|]. Qed.

(** However a command is given and whatever the world answers, a program
    that ends has exit code 0, 1 or 2, and with 0 it has written nothing to
    the error stream; it is terminated by an exception only when the port it is
    given is not a number, and only the publisher can go on running. *)
Theorem main_ends_properly world rounds started served port epoch arguments :
  match main hash clock world rounds (fun _ => Exits (cmd_coordinator started served port epoch)) arguments with
  | Exits p => proper p
  | Terminates =>
      exists command rest text, arguments = command :: rest /\
        op_values (parse rest) !! "port"%string = Some text /\ text <> EmptyString /\ stoull text = None
  | Runs => exists rest, arguments = "publisher"%string :: rest
  end.
Proof.
  destruct arguments as [|command rest]; [by split; cbn; [lia|]|]. cbn [main].
  destruct (bool_decide _); [apply proper_prints|]. destruct (bool_decide _); [by split; cbn; [lia|]|].
  destruct (command ==? "discover"%string); [apply cmd_discover_proper|].
  destruct (command ==? "coordinator"%string); [apply cmd_coordinator_proper|].
  destruct (command ==? "publisher"%string) eqn:Ep.
  { destruct (cmd_publisher _ _ _) as [p|] eqn:E; cbn; [by eapply cmd_publisher_proper|]. bsimpl. subst. by eexists. }
  destruct (command ==? "fence"%string); [apply operate_proper|].
  destruct (command ==? "stop"%string); [apply operate_proper|].
  destruct (command ==? "selftest"%string); [apply cmd_selftest_proper|].
  unfold open_source. destruct (negb (is_empty (get "port" (parse rest)))) eqn:Eport.
  - destruct (stoull _) as [n|] eqn:En.
    + destruct (client_connect _ _) as [connected client]. destruct (negb (status_ok connected)); [apply proper_report|].
      destruct (read_command _ _ _ _) eqn:E; [by eapply read_command_proper|by split; cbn; [lia|]].
    + unfold get, get_or in *. destruct (op_values (parse rest) !! "port"%string) as [text|] eqn:Ev; [|done].
      exists command, rest, text. split_and!; [done|done| |done]. by destruct text.
  - destruct (negb (is_empty (get "state" (parse rest)))); [|apply proper_report]. destruct (w_file _ _) as [file error].
    destruct (load _ _ _ _); [apply proper_report|]. destruct (import_durable_state _ _) as [st []]; [apply proper_report|].
    destruct (read_command _ _ _ _) eqn:E; [by eapply read_command_proper|by split; cbn; [lia|]].
Qed.
End Endings.

(** *** Options *)

Definition value_arguments (values : list (string * string)) : list string :=
  concat (map (fun v => ["--" +:+ v.1; v.2]%string) values).

Lemma parse_positional positional : forall rest v f p, Forall (fun p => dashed p = false) positional ->
  parse_from (positional ++ rest) (mk_Options v f p) = parse_from rest (mk_Options v f (p ++ positional)).
Proof.
  induction positional as [|x positional IH]; intros rest v f p; [by rewrite app_nil_r|].
  intros [Hp Hr]%Forall_cons. cbn [app parse_from].
  assert (long_name x = None) as ->.
  { destruct x as [|c [|d [|e x]]]; [done..|]. cbn in *. by rewrite Hp. }
  rewrite Hp. transitivity (parse_from (positional ++ rest) (mk_Options v f (p ++ [x]))); [done|].
  rewrite IH by done. by rewrite <- app_assoc.
Qed.

Lemma parse_values values : forall rest m f p, Forall (fun v => v.1 <> EmptyString /\ dashed v.2 = false) values ->
  parse_from (value_arguments values ++ rest) (mk_Options m f p) =
  parse_from rest (mk_Options (foldl (fun m v => <[v.1 := v.2]> m) m values) f p).
Proof.
  induction values as [|[n v] values IH]; intros rest m f p; [done|].
  intros [[Hn Hv] Hr]%Forall_cons. cbn [fst snd] in *. destruct n as [|c n]; [done|].
  transitivity (parse_from (value_arguments values ++ rest) (mk_Options (<[String c n := v]> m) f p)); [|by rewrite IH].
  change (value_arguments ((String c n, v) :: values)) with (String "-" (String "-" (String c n)) :: v :: value_arguments values).
  cbn [app parse_from long_name]. change (Ascii.eqb "-" "-" && Ascii.eqb "-" "-") with true. cbv iota. by rewrite Hv.
Qed.

Lemma parse_flags flags : forall m f p, Forall (fun f => f <> EmptyString) flags ->
  parse_from (map (fun f => "--" +:+ f)%string flags) (mk_Options m f p) = mk_Options m (f ++ flags) p.
Proof.
  induction flags as [|x flags IH]; intros m f p; [intros _; by rewrite app_nil_r|].
  intros [Hf Hr]%Forall_cons. destruct x as [|c x]; [done|].
  assert (f ++ String c x :: flags = (f ++ [String c x]) ++ flags) as -> by (by rewrite <- app_assoc).
  rewrite <- IH by done. by destruct flags.
Qed.

(** Options written as positional arguments, then named values, then flags
    are parsed back: the last value of a name counts, flags and positional
    arguments keep their order. *)
Theorem options_parse_back positional values flags :
  Forall (fun p => dashed p = false) positional ->
  Forall (fun v => v.1 <> EmptyString /\ dashed v.2 = false) values ->
  Forall (fun f => f <> EmptyString) flags ->
  parse (positional ++ value_arguments values ++ map (fun f => "--" +:+ f)%string flags) =
  mk_Options (foldl (fun m v => <[v.1 := v.2]> m) ∅ values) flags positional.
Proof. intros Hp Hv Hf. unfold parse, no_options. by rewrite parse_positional, parse_values, parse_flags. Qed.

Lemma options_parse_back_witness :
  parse ["mixed-vendor-fleet"; "--save"; "s.bin"; "--hardware"; "--summary"]%string =
  mk_Options (<["save"%string := "s.bin"%string]> ∅) ["hardware"; "summary"]%string ["mixed-vendor-fleet"]%string.
Proof.
  apply (options_parse_back ["mixed-vendor-fleet"]%string [("save", "s.bin")]%string ["hardware"; "summary"]%string);
    repeat constructor; cbn; discriminate.
Defined.

(** *** Behaviour that departs from the documentation *)

(** The usage text says [--gate <id>]; only [--gate=<id>] sets the gate. *)
Theorem gate_option_ignored :
  build_environment None (parse ["--gate"; "secure-boot"]%string) = ∅ /\
  build_environment None (parse ["--gate=secure-boot"]%string) = env_add_feature_gate ∅ "secure-boot" /\
  build_environment None (parse ["--setting"; "iommu=on"]%string) = ∅.
Proof. split; [|split]; vm_compute; reflexivity. Qed.

(** A flag takes the profile that follows it as its value. *)
Theorem flag_swallows_profile h :
  discovery_backends h (parse ["--hardware"; "cxl-fabric"]%string) = Some (hardware_backends h ++ []) /\
  discovery_backends h (parse ["cxl-fabric"; "--hardware"]%string) =
    Some (hardware_backends h ++ [make_synthetic_backend SyntheticProfile.CxlFabric]).
Proof. split; reflexivity. Qed.

(** [discover --state <file>] does not read the file. *)
Theorem discover_ignores_state hash clock world file options :
  cmd_discover hash clock (mk_World (w_host world) (w_now world) (w_connect world) file (w_save world)) options =
  cmd_discover hash clock world options.
Proof. reflexivity. Qed.

(** The schemas come in another order from a coordinator. *)
Theorem schemas_ordered_otherwise : capability_schemas builtin_registry <> builtin_capability_schemas.
Proof.
  intros H. apply (f_equal (fun l => option_map cs_canonical_name (l !! 2%nat))) in H. vm_compute in H. discriminate H.
Qed.
